(** * MeDoraH_NLP: text-mining scripts, shallow embedding and properties

    The repository is a collection of stand-alone Python scripts.  Each
    [Module] below embeds the functions of one script (or of a family of
    near-identical scripts) that the specification talks about:

    - [Py]         the few Python built-ins the scripts rely on
    - [Text]       strings and character classes
    - [Pairs]      Preprocessing/generate_previous_current_pairs.py
    - [Sentences]  Preprocessing/transform_utterance_to_sentences.py
    - [Clustering] Clustering/Claim Clustering_Report.py,
                   Clustering/Predicate with WordNet.py,
                   Clustering/Cluster Assessment.py
    - [Projection] [reduce_dimensions] of the same scripts

    External library calls (UMAP, HDBSCAN, StandardScaler) are taken as
    variables of a [Section]; only the glue around them is modelled. *)

From Stdlib Require Import List ZArith String Ascii Bool Lia Arith PeanoNat.
From Stdlib Require Import Permutation Sorted DecimalString DecimalNat QArith Qabs.
From Stdlib Require Import Reals Lra.
Import ListNotations.
Close Scope Q_scope.

Set Implicit Arguments.

(* ================================================================== *)
(** * Python built-ins used by the scripts *)
(* ================================================================== *)

Module Py.

(** ** [dict] with integer keys

    A Python [dict] keeps its keys in insertion order; assigning to an
    existing key replaces the value in place.  Cluster ids and tree node
    ids are the only keys the scripts use. *)
Definition dict (V : Type) : Type := list (Z * V).

Fixpoint dict_get (V : Type) (d : dict V) (k : Z) : option V :=
  match d with
  | [] => None
  | (k', v) :: d' => if Z.eqb k' k then Some v else dict_get d' k
  end.

Definition dict_mem (V : Type) (d : dict V) (k : Z) : bool :=
  match dict_get d k with Some _ => true | None => false end.

Fixpoint dict_set (V : Type) (d : dict V) (k : Z) (v : V) : dict V :=
  match d with
  | [] => [(k, v)]
  | (k', v') :: d' =>
    if Z.eqb k' k then (k, v) :: d' else (k', v') :: dict_set d' k v
  end.

(** [dict(pairs)] and dict comprehensions: successive assignments. *)
Definition dict_of (V : Type) (kvs : list (Z * V)) : dict V :=
  fold_left (fun d kv => dict_set d (fst kv) (snd kv)) kvs [].

Definition keys (V : Type) (d : dict V) : list Z := map fst d.

(** ** [set] of integers, as the list of its distinct elements *)
Definition set_of (l : list Z) : list Z := nodup Z.eq_dec l.

Definition mem (x : Z) (l : list Z) : bool := existsb (Z.eqb x) l.

(** ** Floating-point results

    Finite values are kept as exact rationals; the two non-finite
    results that the scripts can produce are kept apart. *)
Inductive float : Type :=
| FVal (q : Q)
| FNaN
| FInf.

(** [numpy] true division of a non-negative count by a length: a zero
    divisor yields nan or inf, not an exception. *)
Definition np_true_divide (a b : Z) : float :=
  if Z.eqb b 0 then (if Z.eqb a 0 then FNaN else FInf)
  else FVal (Qmake a (Z.to_pos b)).

(** Plain Python [a / b] on ints: [None] is ZeroDivisionError. *)
Definition truediv (a b : Z) : option Q :=
  if Z.eqb b 0 then None else Some (Qmake a (Z.to_pos b)).

(** ** Stable sort

    [sorted] and the order behind [Counter.most_common]: [before y x]
    says that [y] must come strictly before [x]; elements neither of
    which must come before the other keep their original order. *)
Section Sort.
Variable A : Type.
Variable before : A -> A -> bool.

Fixpoint insert_by (x : A) (l : list A) : list A :=
  match l with
  | [] => [x]
  | y :: l' => if before y x then y :: insert_by x l' else x :: l
  end.

Definition sort_by (l : list A) : list A :=
  fold_right insert_by [] l.

End Sort.

(** [l[:n]] *)
Definition head (A : Type) (n : nat) (l : list A) : list A := firstn n l.

Definition sum (l : list Z) : Z := fold_left Z.add l 0%Z.

(** ** [collections.Counter]

    The counts are kept in the order in which the elements were first
    seen, as Python keeps them. *)
Section Counter.
Variable K : Type.
Variable K_eq_dec : forall a b : K, {a = b} + {a <> b}.

Fixpoint counter_add (w : K) (c : list (K * nat)) : list (K * nat) :=
  match c with
  | [] => [(w, 1%nat)]
  | (k, n) :: c' =>
    if K_eq_dec k w then (k, S n) :: c' else (k, n) :: counter_add w c'
  end.

Definition Counter (ws : list K) : list (K * nat) :=
  fold_left (fun c w => counter_add w c) ws [].

(** [c.most_common(n)]: highest counts first, ties in first-seen order. *)
Definition most_common (n : nat) (c : list (K * nat)) : list (K * nat) :=
  head n (sort_by (fun y x => Nat.ltb (snd x) (snd y)) c).

End Counter.

(** [min(l, key=key)]: the first element whose key is minimal; [None] is
    the ValueError on an empty list. *)
Definition min_by (A : Type) (key : A -> Q) (l : list A) : option A :=
  match l with
  | [] => None
  | x :: l' =>
    Some (fold_left
            (fun best y => if Qle_bool (key best) (key y) then best else y)
            l' x)
  end.

(** ** Facts about sorting *)

Section SortFacts.
Variable A : Type.
Variable before : A -> A -> bool.

(** [ok a b]: [a] may stand in front of [b]. *)
Definition ok (a b : A) : Prop := before b a = false.

Hypothesis before_asym : forall a b, before a b = true -> ok a b.
Hypothesis ok_trans : forall a b c, ok a b -> ok b c -> ok a c.

Lemma insert_by_perm (x : A) (l : list A) :
  Permutation (insert_by before x l) (x :: l).
Proof.
  induction l as [|y l IH]; cbn [insert_by]; [reflexivity|].
  destruct (before y x); [|reflexivity].
  rewrite IH. apply perm_swap.
Qed.

Lemma sort_by_perm (l : list A) : Permutation (sort_by before l) l.
Proof.
  induction l as [|x l IH]; cbn [sort_by fold_right]; [reflexivity|].
  fold (sort_by before l). rewrite insert_by_perm. now constructor.
Qed.

Lemma insert_by_sorted (x : A) (l : list A) :
  StronglySorted ok l -> StronglySorted ok (insert_by before x l).
Proof.
  induction 1 as [|y l Hs IH Hall]; cbn [insert_by].
  - constructor; constructor.
  - destruct (before y x) eqn:E.
    + constructor; [exact IH|].
      eapply Permutation_Forall; [symmetry; apply insert_by_perm|].
      constructor; [now apply before_asym | exact Hall].
    + constructor; [now constructor|].
      constructor; [exact E|].
      eapply Forall_impl; [|exact Hall]. intros z Hz.
      now apply ok_trans with y.
Qed.

Lemma sort_by_sorted (l : list A) : StronglySorted ok (sort_by before l).
Proof.
  induction l as [|x l IH]; cbn [sort_by fold_right]; [constructor|].
  now apply insert_by_sorted.
Qed.

End SortFacts.

Lemma In_firstn (A : Type) (n : nat) (l : list A) (x : A) :
  In x (firstn n l) -> In x l.
Proof.
  intros H. rewrite <- (firstn_skipn n l). apply in_or_app. now left.
Qed.




(** ** Facts about [Counter] *)

Section CounterFacts.
Variable K : Type.
Variable K_eq_dec : forall a b : K, {a = b} + {a <> b}.

Lemma counter_add_keys (w : K) (c : list (K * nat)) :
  map fst (counter_add K_eq_dec w c)
  = if in_dec K_eq_dec w (map fst c) then map fst c
    else (map fst c ++ [w])%list.
Proof.
  induction c as [|[k n] c IH]; cbn [counter_add map fst app].
  - now destruct (in_dec K_eq_dec w []).
  - destruct (K_eq_dec k w) as [->|Hne].
    + cbn [map fst]. destruct (in_dec K_eq_dec w (w :: map fst c)) as [_|N];
        [reflexivity|]. elim N. now left.
    + cbn [map fst]. rewrite IH.
      destruct (in_dec K_eq_dec w (map fst c)) as [Hin|Hnin];
        destruct (in_dec K_eq_dec w (k :: map fst c)) as [Hin'|Hnin'];
        try reflexivity.
      * elim Hnin'. now right.
      * destruct Hin' as [E|Hin']; [congruence | contradiction].
Qed.

(** [c] holds the counts of the list [seen]. *)
Definition counts (c : list (K * nat)) (seen : list K) : Prop :=
  NoDup (map fst c) /\
  (forall w, In w (map fst c) <-> In w seen) /\
  (forall w n, In (w, n) c -> n = count_occ K_eq_dec seen w).

Lemma counter_add_In (w : K) (c : list (K * nat)) (k : K) (n : nat) :
  NoDup (map fst c) ->
  In (k, n) (counter_add K_eq_dec w c) ->
  (k = w /\ In w (map fst c) /\ exists m, n = S m /\ In (w, m) c) \/
  (k = w /\ ~ In w (map fst c) /\ n = 1%nat) \/
  (k <> w /\ In (k, n) c).
Proof.
  induction c as [|[k0 n0] c IH]; cbn [counter_add map fst]; intros Hnd Hin.
  - destruct Hin as [E|[]]. injection E as <- <-. right. left. auto.
  - apply NoDup_cons_iff in Hnd as [Hnin Hnd].
    destruct (K_eq_dec k0 w) as [->|Hne].
    + destruct Hin as [E|Hin].
      * injection E as <- <-. left. split; [reflexivity|].
        split; [now left|]. exists n0. split; [reflexivity | now left].
      * right. right. split; [|now right].
        intros ->. apply Hnin. apply (in_map fst) in Hin. exact Hin.
    + destruct Hin as [E|Hin].
      * injection E as <- <-. right. right. split; [exact Hne | now left].
      * destruct (IH Hnd Hin) as [(-> & Hw & m & -> & Hm)
                                 |[(-> & Hw & ->)|(Hk & Hc)]].
        -- left. split; [reflexivity|]. split; [now right|].
           exists m. split; [reflexivity | now right].
        -- right. left. split; [reflexivity|]. split; [|reflexivity].
           intros [E|Hw']; [congruence | contradiction].
        -- right. right. split; [exact Hk | now right].
Qed.

Lemma counts_add (w : K) (c : list (K * nat)) (seen : list K) :
  counts c seen -> counts (counter_add K_eq_dec w c) (seen ++ [w])%list.
Proof.
  intros (Hnd & Hkeys & Hcnt). unfold counts.
  rewrite counter_add_keys.
  split; [|split].
  - destruct (in_dec K_eq_dec w (map fst c)) as [Hin|Hnin]; [exact Hnd|].
    apply NoDup_app; [exact Hnd | constructor; [intros []|constructor] |].
    intros x Hx [<-|[]]. contradiction.
  - intros x. rewrite in_app_iff. cbn [In].
    destruct (in_dec K_eq_dec w (map fst c)) as [Hin|Hnin].
    + rewrite Hkeys. split; [tauto|].
      intros [H|[<-|[]]]; [exact H | now apply Hkeys].
    + rewrite in_app_iff, Hkeys. cbn [In]. tauto.
  - intros k n Hin. rewrite count_occ_app. cbn [count_occ].
    destruct (counter_add_In _ _ _ _ Hnd Hin)
      as [(-> & Hw & m & -> & Hm)|[(-> & Hw & ->)|(Hk & Hc)]].
    + destruct (K_eq_dec w w); [|contradiction].
      rewrite (Hcnt _ _ Hm). lia.
    + destruct (K_eq_dec w w); [|contradiction].
      assert (count_occ K_eq_dec seen w = 0%nat) as ->; [|reflexivity].
      apply count_occ_not_In. intros H. apply Hw. now apply Hkeys.
    + destruct (K_eq_dec w k); [congruence|].
      rewrite (Hcnt _ _ Hc). lia.
Qed.

Lemma Counter_counts (ws : list K) : counts (Counter K_eq_dec ws) ws.
Proof.
  unfold Counter.
  enough (H : forall c seen, counts c seen ->
                             counts (fold_left (fun c w => counter_add K_eq_dec w c) ws c)
                                    (seen ++ ws)%list)
    by (apply (H [] []); repeat split; try constructor; try tauto;
        intros w n []).
  induction ws as [|w ws IH]; intros c seen Hc; cbn [fold_left].
  - now rewrite app_nil_r.
  - replace (seen ++ w :: ws)%list with ((seen ++ [w]) ++ ws)%list
      by now rewrite <- app_assoc.
    apply IH. now apply counts_add.
Qed.

End CounterFacts.

(** ** Facts about [dict] and lists *)

Lemma dict_get_set (V : Type) (d : dict V) (k k' : Z) (v : V) :
  dict_get (dict_set d k v) k'
  = if Z.eqb k k' then Some v else dict_get d k'.
Proof.
  induction d as [|[k0 v0] d IH]; cbn [dict_set dict_get].
  - destruct (Z.eqb k k'); reflexivity.
  - destruct (Z.eqb_spec k0 k) as [->|Hne]; cbn [dict_get].
    + destruct (Z.eqb k k'); reflexivity.
    + rewrite IH. destruct (Z.eqb_spec k0 k') as [->|Hne'].
      * destruct (Z.eqb_spec k k'); [congruence | reflexivity].
      * reflexivity.
Qed.

Lemma NoDup_firstn (A : Type) (n : nat) (l : list A) :
  NoDup l -> NoDup (firstn n l).
Proof.
  intros H. rewrite <- (firstn_skipn n l) in H.
  now apply NoDup_app_remove_r in H.
Qed.


Lemma dict_get_None (V : Type) (d : dict V) (k : Z) :
  dict_get d k = None <-> ~ In k (keys d).
Proof.
  unfold keys. induction d as [|[k0 v0] d IH]; cbn [dict_get map fst In].
  - tauto.
  - destruct (Z.eqb_spec k0 k) as [->|Hne].
    + split; [discriminate | intros H; elim H; now left].
    + rewrite IH. tauto.
Qed.

Lemma dict_get_In (V : Type) (d : dict V) (k : Z) (v : V) :
  NoDup (keys d) -> (dict_get d k = Some v <-> In (k, v) d).
Proof.
  unfold keys. induction d as [|[k0 v0] d IH]; cbn [dict_get map fst In];
    intros Hnd.
  - split; [discriminate | tauto].
  - apply NoDup_cons_iff in Hnd as [Hnin Hnd].
    destruct (Z.eqb_spec k0 k) as [->|Hne].
    + split.
      * intros H. injection H as ->. now left.
      * intros [H|H]; [now injection H as -> |].
        elim Hnin. now apply (in_map fst) in H.
    + rewrite (IH Hnd). split; [tauto|].
      intros [H|H]; [injection H as -> ->; contradiction | exact H].
Qed.

Lemma dict_set_fresh (V : Type) (d : dict V) (k : Z) (v : V) :
  ~ In k (keys d) -> dict_set d k v = (d ++ [(k, v)])%list.
Proof.
  unfold keys. induction d as [|[k0 v0] d IH]; cbn [dict_set map fst In app];
    intros Hnin; [reflexivity|].
  destruct (Z.eqb_spec k0 k) as [->|Hne]; [elim Hnin; now left|].
  rewrite IH; [reflexivity | tauto].
Qed.

Lemma dict_of_nodup (V : Type) (kvs : list (Z * V)) :
  NoDup (map fst kvs) -> dict_of kvs = kvs.
Proof.
  unfold dict_of.
  enough (H : forall acc,
             NoDup (map fst (acc ++ kvs)) ->
             fold_left (fun d kv => dict_set d (fst kv) (snd kv)) kvs acc
             = (acc ++ kvs)%list) by apply (H []).
  induction kvs as [|[k v] kvs IH]; intros acc Hnd; cbn [fold_left fst snd].
  - now rewrite app_nil_r.
  - rewrite dict_set_fresh.
    + rewrite IH; rewrite <- app_assoc; [reflexivity | exact Hnd].
    + rewrite map_app in Hnd. cbn [map fst] in Hnd.
      apply NoDup_remove_2 in Hnd. intros H. apply Hnd.
      apply in_or_app. now left.
Qed.

Lemma dict_get_map_key (V : Type) (f : Z -> V) (l : list Z) (k : Z) :
  dict_get (map (fun p => (p, f p)) l) k
  = if in_dec Z.eq_dec k l then Some (f k) else None.
Proof.
  induction l as [|a l IH]; cbn [map dict_get].
  - now destruct (in_dec Z.eq_dec k []).
  - destruct (Z.eqb_spec a k) as [->|Hne].
    + destruct (in_dec Z.eq_dec k (k :: l)) as [_|N]; [reflexivity|].
      elim N. now left.
    + rewrite IH.
      destruct (in_dec Z.eq_dec k l) as [Hin|Hnin];
        destruct (in_dec Z.eq_dec k (a :: l)) as [Hin'|Hnin'];
        try reflexivity.
      * elim Hnin'. now right.
      * destruct Hin' as [E|Hin']; [congruence | contradiction].
Qed.

Lemma filter_length_mono (A : Type) (f g : A -> bool) (l : list A) :
  (forall x, In x l -> f x = true -> g x = true) ->
  (List.length (filter f l) <= List.length (filter g l))%nat.
Proof.
  induction l as [|a l IH]; intros H; cbn [filter]; [lia|].
  assert (IH' := IH (fun x Hx => H x (or_intror Hx))).
  destruct (f a) eqn:Fa.
  - rewrite (H a (or_introl eq_refl) Fa). cbn [List.length]. lia.
  - destruct (g a); cbn [List.length]; lia.
Qed.

Lemma filter_length_strict (A : Type) (f g : A -> bool) (l : list A) (a : A) :
  (forall x, In x l -> f x = true -> g x = true) ->
  In a l -> f a = false -> g a = true ->
  (List.length (filter f l) < List.length (filter g l))%nat.
Proof.
  induction l as [|b l IH]; intros H Hin Fa Ga; [contradiction|].
  cbn [filter]. destruct Hin as [->|Hin].
  - rewrite Fa, Ga. cbn [List.length].
    pose proof (@filter_length_mono A f g l (fun x Hx => H x (or_intror Hx))).
    lia.
  - assert (IH' := IH (fun x Hx => H x (or_intror Hx)) Hin Fa Ga).
    destruct (f b) eqn:Fb.
    + rewrite (H b (or_introl eq_refl) Fb). cbn [List.length]. lia.
    + destruct (g b); cbn [List.length]; lia.
Qed.

End Py.

(* ================================================================== *)
(** * Strings *)
(* ================================================================== *)

Module Text.

(** The texts of the model are ASCII texts: a Python [str] whose
    characters all have a code below 128 is the list of its characters.
    On this range the character classes below are those of Python
    ([str.isspace], [str.lower], and [\s], [\d], [\w], [\b] of [re] on
    [str] patterns).  Outside this range Python consults the Unicode
    database (a no-break space is white space, an accented letter is a
    word character); such characters are not modelled, and every
    statement that depends on a character class is made for
    [ascii_text] only. *)
Definition str : Type := list ascii.

Definition lit (s : string) : str := list_ascii_of_string s.

Definition code (c : ascii) : N := N_of_ascii c.

(** The domain of the model: [s.isascii()]. *)
Definition is_ascii (c : ascii) : bool := (code c <? 128)%N.

Definition ascii_text (s : str) : bool := forallb is_ascii s.

Definition between (lo hi : N) (c : ascii) : bool :=
  (lo <=? code c)%N && (code c <=? hi)%N.

(** [str.isspace], also the class [\s] of [re]. *)
Definition is_space (c : ascii) : bool :=
  between 9 13 c || between 28 32 c.

(** [\d] *)
Definition is_digit (c : ascii) : bool := between 48 57 c.

(** [[A-Z]] *)
Definition is_upper (c : ascii) : bool := between 65 90 c.

Definition is_lower (c : ascii) : bool := between 97 122 c.

(** [\w] *)
Definition is_word (c : ascii) : bool :=
  is_digit c || is_upper c || is_lower c || Ascii.eqb c "_".

Definition lower_char (c : ascii) : ascii :=
  if is_upper c then ascii_of_N (code c + 32) else c.

(** [s.lower()] *)
Definition lower (s : str) : str := map lower_char s.

(** [s.isdigit()] *)
Definition isdigit (s : str) : bool :=
  negb (Nat.eqb (List.length s) 0) && forallb is_digit s.

(** [s.split()]: the maximal runs of non-space characters.  [cur] holds
    the run being read, in reverse. *)
Fixpoint split_from (cur : str) (s : str) : list str :=
  match s with
  | [] => match cur with [] => [] | _ => [rev cur] end
  | c :: s' =>
    if is_space c
    then match cur with
         | [] => split_from [] s'
         | _ => rev cur :: split_from [] s'
         end
    else split_from (c :: cur) s'
  end.

Definition split (s : str) : list str := split_from [] s.

Fixpoint lstrip (s : str) : str :=
  match s with
  | c :: s' => if is_space c then lstrip s' else s
  | [] => []
  end.

(** [s.strip()] *)
Definition strip (s : str) : str := rev (lstrip (rev (lstrip s))).

Definition str_eq_dec : forall a b : str, {a = b} + {a <> b} :=
  list_eq_dec ascii_dec.

End Text.

(* ================================================================== *)
(** * Preprocessing/generate_previous_current_pairs.py *)
(* ================================================================== *)

Module Pairs.

(** An item of the sentence-level transcript: a JSON object.  Only the
    ['role'] key is inspected by the script ([item.get('role')], hence an
    [option]); the remaining keys travel along untouched and are kept as
    one opaque [body]. *)
Record utterance : Type := Utterance {
  role : option string;
  body : string
}.

(** A pair is the two-element list [[interviewer, interviewee]]. *)
Definition pair : Type := (utterance * utterance)%type.

(** The object dumped into each file. *)
Record output_data : Type := OutputData {
  previous_utterances : option pair;   (* [None] is JSON null *)
  current_utterance : pair
}.

(** [x.get('role') == r] *)
Definition role_is (u : utterance) (r : string) : bool :=
  match role u with
  | Some s => String.eqb s r
  | None => false
  end.

(** The [while i < len(data) - 1] loop.  [fuel] bounds the number of
    iterations; [None] means the bound was hit before the loop ended. *)
Fixpoint pair_loop (fuel : nat) (data : list utterance) (i : nat)
         (pairs : list pair) : option (list pair) :=
  if (Z.of_nat i <? Z.of_nat (List.length data) - 1)%Z then
    match fuel with
    | O => None
    | S fuel' =>
      match nth_error data i, nth_error data (i + 1) with
      | Some interviewer, Some interviewee =>
        if role_is interviewer "Interviewer" && role_is interviewee "Interviewee"
        then pair_loop fuel' data (i + 2) (pairs ++ [(interviewer, interviewee)])%list
        else pair_loop fuel' data (i + 1) pairs
      | _, _ => None                    (* IndexError; never reached *)
      end
    end
  else Some pairs.

(** Decimal rendering of the pair number inside the file name. *)
Definition string_of_nat (n : nat) : string :=
  NilEmpty.string_of_uint (Nat.to_uint n).

Definition file_name (pair_number : nat) : string :=
  ("Previous-current pair - " ++ string_of_nat pair_number ++ ".json")%string.

(** The [for idx, current_pair in enumerate(pairs)] loop.  The written
    files are collected, in writing order, as (name, content). *)
Fixpoint write_loop (pairs : list pair) (idx : nat) (rest : list pair)
         (written : list (string * output_data)) (pair_count : nat)
  : list (string * output_data) * nat :=
  match rest with
  | [] => (written, pair_count)
  | current_pair :: rest' =>
    let pair_number := idx + 1 in
    let previous :=
      if idx =? 0 then None else nth_error pairs (idx - 1) in
    let out := OutputData previous current_pair in
    write_loop pairs (S idx) rest'
               (written ++ [(file_name pair_number, out)])%list (pair_count + 1)
  end.

Definition generate_previous_current_pairs (fuel : nat) (data : list utterance)
  : option (list (string * output_data) * nat) :=
  match pair_loop fuel data 0 [] with
  | Some pairs => Some (write_loop pairs 0 pairs [] 0)
  | None => None
  end.

(** The scan as the specification words it: a single left-to-right pass
    over the list that consumes two items on a match and one otherwise,
    and never looks at the last item as a first component. *)
Fixpoint scan_spec (data : list utterance) : list pair :=
  match data with
  | a :: (b :: rest) as tl =>
    if role_is a "Interviewer" && role_is b "Interviewee"
    then (a, b) :: scan_spec rest
    else scan_spec tl
  | _ => []
  end.

(** Start indices of the pairs formed by the scan beginning at index [i]. *)
Fixpoint pair_starts (i : nat) (data : list utterance) : list nat :=
  match data with
  | a :: (b :: rest) as tl =>
    if role_is a "Interviewer" && role_is b "Interviewee"
    then i :: pair_starts (i + 2) rest
    else pair_starts (i + 1) tl
  | _ => []
  end.

(** What the [idx]-th iteration of the writing loop appends, and the
    appended list as a whole. *)
Definition entry (pairs : list pair) (idx : nat) (current_pair : pair)
  : string * output_data :=
  (file_name (idx + 1),
   OutputData (if idx =? 0 then None else nth_error pairs (idx - 1))
              current_pair).

Fixpoint entries (pairs : list pair) (idx : nat) (rest : list pair)
  : list (string * output_data) :=
  match rest with
  | [] => []
  | cur :: rest' => entry pairs idx cur :: entries pairs (S idx) rest'
  end.

(** ** Properties of the scan *)

Lemma nth_error_app_here (A : Type) (pre suf : list A) :
  nth_error (pre ++ suf)%list (List.length pre) = nth_error suf 0.
Proof.
  rewrite nth_error_app2 by lia. now rewrite Nat.sub_diag.
Qed.

Lemma nth_error_app_next (A : Type) (pre suf : list A) :
  nth_error (pre ++ suf)%list (List.length pre + 1) = nth_error suf 1.
Proof.
  rewrite nth_error_app2 by lia. f_equal. lia.
Qed.

(** The index loop started at [i = len(pre)] with enough fuel computes
    the list-recursive scan of the remaining suffix. *)
Lemma pair_loop_scan (fuel : nat) :
  forall (pre suf : list utterance) (acc : list pair),
    (List.length suf <= fuel)%nat ->
    pair_loop fuel (pre ++ suf)%list (List.length pre) acc
    = Some (acc ++ scan_spec suf)%list.
Proof.
  induction fuel as [|fuel IH]; intros pre suf acc Hf.
  - destruct suf as [|a suf]; [|simpl in Hf; lia].
    simpl. rewrite app_nil_r.
    destruct (Z.ltb_spec (Z.of_nat (List.length pre))
                         (Z.of_nat (List.length pre) - 1)); [lia|].
    now rewrite app_nil_r.
  - cbn [pair_loop]. rewrite length_app.
    destruct suf as [|a [|b rest]].
    + simpl. destruct (Z.ltb_spec (Z.of_nat (List.length pre))
                                  (Z.of_nat (List.length pre + 0) - 1)); [lia|].
      now rewrite app_nil_r.
    + simpl. destruct (Z.ltb_spec (Z.of_nat (List.length pre))
                                  (Z.of_nat (List.length pre + 1) - 1)); [lia|].
      now rewrite app_nil_r.
    + destruct (Z.ltb_spec (Z.of_nat (List.length pre))
                 (Z.of_nat (List.length pre + List.length (a :: b :: rest)) - 1))
        as [_|Hge]; [|simpl in Hge; lia].
      rewrite nth_error_app_here, nth_error_app_next. cbn [nth_error].
      cbn [scan_spec].
      destruct (role_is a "Interviewer" && role_is b "Interviewee").
      * replace (pre ++ a :: b :: rest)%list with ((pre ++ [a; b]) ++ rest)%list
          by now rewrite <- app_assoc.
        replace (List.length pre + 2)%nat with (List.length (pre ++ [a; b])%list)
          by (rewrite length_app; simpl; lia).
        rewrite IH by (simpl in Hf; lia).
        now rewrite <- app_assoc.
      * replace (pre ++ a :: b :: rest)%list with ((pre ++ [a]) ++ b :: rest)%list
          by now rewrite <- app_assoc.
        replace (List.length pre + 1)%nat with (List.length (pre ++ [a])%list)
          by (rewrite length_app; simpl; lia).
        rewrite IH by (simpl in Hf; simpl; lia).
        reflexivity.
Qed.

Lemma pair_loop_total (data : list utterance) :
  pair_loop (List.length data) data 0 [] = Some (scan_spec data).
Proof.
  exact (pair_loop_scan (fuel := List.length data) [] data [] (le_n _)).
Qed.

(** Every pair of the scan sits at its start index [i] and at [i + 1],
    with the two expected roles. *)
Lemma scan_spec_starts (data : list utterance) :
  forall (pre : list utterance),
    Forall2 (fun (p : pair) (i : nat) =>
               nth_error (pre ++ data)%list i = Some (fst p) /\
               nth_error (pre ++ data)%list (i + 1) = Some (snd p) /\
               role_is (fst p) "Interviewer" = true /\
               role_is (snd p) "Interviewee" = true /\
               (i + 1 < List.length (pre ++ data)%list)%nat)
            (scan_spec data) (pair_starts (List.length pre) data).
Proof.
  induction data as [data IH] using (induction_ltof1 _ (@List.length _)).
  unfold ltof in IH. intros pre.
  destruct data as [|a [|b rest]]; cbn [scan_spec pair_starts]; try constructor.
  destruct (role_is a "Interviewer" && role_is b "Interviewee") eqn:E.
  - apply andb_true_iff in E as [Ea Eb]. constructor.
    + cbn [fst snd]. rewrite nth_error_app_here, nth_error_app_next.
      repeat split; auto. rewrite length_app. simpl. lia.
    + replace (pre ++ a :: b :: rest)%list with ((pre ++ [a; b]) ++ rest)%list
        by now rewrite <- app_assoc.
      replace (List.length pre + 2)%nat with (List.length (pre ++ [a; b])%list)
        by (rewrite length_app; simpl; lia).
      apply IH. simpl. lia.
  - replace (pre ++ a :: b :: rest)%list with ((pre ++ [a]) ++ b :: rest)%list
      by now rewrite <- app_assoc.
    replace (List.length pre + 1)%nat with (List.length (pre ++ [a])%list)
      by (rewrite length_app; simpl; lia).
    apply IH. simpl. lia.
Qed.

(** Start indices are at least [i], and consecutive ones are at least two
    apart: the pairs never share an item and keep the input order. *)
Lemma pair_starts_lower (data : list utterance) :
  forall i, Forall (fun j => (i <= j)%nat) (pair_starts i data).
Proof.
  induction data as [data IH] using (induction_ltof1 _ (@List.length _)).
  unfold ltof in IH. intros i.
  destruct data as [|a [|b rest]]; cbn [pair_starts]; try constructor.
  destruct (role_is a "Interviewer" && role_is b "Interviewee").
  - constructor; [lia|].
    eapply Forall_impl; [|apply (IH rest); simpl; lia].
    simpl. intros; lia.
  - eapply Forall_impl; [|apply (IH (b :: rest)); simpl; lia].
    simpl. intros; lia.
Qed.

Lemma pair_starts_spaced (data : list utterance) :
  forall i, StronglySorted (fun j k => (j + 2 <= k)%nat) (pair_starts i data).
Proof.
  induction data as [data IH] using (induction_ltof1 _ (@List.length _)).
  unfold ltof in IH. intros i.
  destruct data as [|a [|b rest]]; cbn [pair_starts]; try constructor.
  destruct (role_is a "Interviewer" && role_is b "Interviewee").
  - constructor; [apply IH; simpl; lia | apply pair_starts_lower].
  - apply (IH (b :: rest)). simpl. lia.
Qed.

(** ** Properties of the file-writing loop *)

Lemma write_loop_entries (pairs : list pair) (rest : list pair) :
  forall idx written pair_count,
    write_loop pairs idx rest written pair_count
    = ((written ++ entries pairs idx rest)%list,
       (pair_count + List.length rest)%nat).
Proof.
  induction rest as [|cur rest IH]; intros idx written pair_count.
  - cbn. now rewrite app_nil_r, Nat.add_0_r.
  - cbn [write_loop entries List.length]. rewrite IH, <- app_assoc.
    unfold entry. cbn [app]. f_equal. lia.
Qed.

Lemma entries_length (pairs rest : list pair) :
  forall idx, List.length (entries pairs idx rest) = List.length rest.
Proof.
  induction rest as [|cur rest IH]; intros idx; cbn; [reflexivity|].
  now rewrite IH.
Qed.

Lemma entries_nth (pairs rest : list pair) :
  forall idx k cur,
    nth_error rest k = Some cur ->
    nth_error (entries pairs idx rest) k = Some (entry pairs (idx + k) cur).
Proof.
  induction rest as [|c rest IH]; intros idx [|k] cur H; try discriminate.
  - cbn in *. injection H as <-. now rewrite Nat.add_0_r.
  - cbn in *. rewrite (IH (S idx) k cur H). do 2 f_equal. lia.
Qed.

(** C10.  With fuel [len(data)] the function returns; the pairs it forms
    are those of the left-to-right scan (two steps on an
    Interviewer/Interviewee match, one step otherwise, never starting at
    the last index); each pair is an Interviewer item at some index [i]
    immediately followed by an Interviewee item at [i + 1]; the start
    indices increase by at least two (pairs are disjoint and in input
    order); file number [k + 1] holds pair [k] as [current_utterance],
    null as [previous_utterances] when [k = 0] and pair [k - 1]
    otherwise; the returned count is the number of pairs. *)
Theorem generate_previous_current_pairs_scan (data : list utterance) :
  exists (pairs : list pair) (written : list (string * output_data)),
    generate_previous_current_pairs (List.length data) data
      = Some (written, List.length pairs) /\
    pairs = scan_spec data /\
    Forall2 (fun (p : pair) (i : nat) =>
               nth_error data i = Some (fst p) /\
               nth_error data (i + 1) = Some (snd p) /\
               role (fst p) = Some "Interviewer"%string /\
               role (snd p) = Some "Interviewee"%string /\
               (i + 1 < List.length data)%nat)
            pairs (pair_starts 0 data) /\
    StronglySorted (fun i j => (i + 2 <= j)%nat) (pair_starts 0 data) /\
    List.length written = List.length pairs /\
    (forall cur, nth_error pairs 0 = Some cur ->
       nth_error written 0 = Some (file_name 1, OutputData None cur)) /\
    (forall k prev cur,
       nth_error pairs k = Some prev ->
       nth_error pairs (S k) = Some cur ->
       nth_error written (S k)
       = Some (file_name (S k + 1), OutputData (Some prev) cur)).
Proof.
  exists (scan_spec data), (entries (scan_spec data) 0 (scan_spec data)).
  unfold generate_previous_current_pairs.
  rewrite pair_loop_total, write_loop_entries. cbn [app Nat.add].
  split; [reflexivity|]. split; [reflexivity|].
  split.
  { pose proof (scan_spec_starts data []) as H. cbn [app List.length] in H.
    eapply Forall2_impl; [|exact H]. cbn beta.
    intros p i (H1 & H2 & H3 & H4 & H5). repeat split; auto.
    - unfold role_is in H3. destruct (role (fst p)); [|discriminate].
      apply String.eqb_eq in H3. now subst.
    - unfold role_is in H4. destruct (role (snd p)); [|discriminate].
      apply String.eqb_eq in H4. now subst. }
  split; [apply pair_starts_spaced|].
  split; [apply entries_length|].
  split.
  - intros cur H. now rewrite (entries_nth _ _ 0 0 H).
  - intros k prev cur Hp Hc. rewrite (entries_nth _ _ 0 (S k) Hc).
    unfold entry. cbn [Nat.add Nat.eqb Nat.sub]. now rewrite Nat.sub_0_r, Hp.
Qed.

(** ** File names, counts and well-formed transcripts *)

Lemma string_of_nat_inj (n m : nat) :
  string_of_nat n = string_of_nat m -> n = m.
Proof.
  unfold string_of_nat. intros H.
  apply Unsigned.to_uint_inj.
  pose proof (NilEmpty.usu (Nat.to_uint n)) as Hn.
  rewrite H, NilEmpty.usu in Hn. now injection Hn.
Qed.

Lemma length_append (s t : string) :
  String.length (s ++ t)%string = (String.length s + String.length t)%nat.
Proof.
  induction s as [|c s IH]; cbn; [reflexivity|]. now rewrite IH.
Qed.

Lemma append_inv_tail (t s1 s2 : string) :
  (s1 ++ t = s2 ++ t)%string -> s1 = s2.
Proof.
  revert s2. induction s1 as [|c s1 IH]; intros [|d s2] H; cbn in H.
  - reflexivity.
  - exfalso. apply (f_equal String.length) in H.
    cbn in H. rewrite length_append in H. lia.
  - exfalso. apply (f_equal String.length) in H.
    cbn in H. rewrite length_append in H. lia.
  - injection H as -> H. f_equal. now apply IH.
Qed.

Lemma file_name_inj (n m : nat) : file_name n = file_name m -> n = m.
Proof.
  unfold file_name. intros H. cbn [String.append] in H.
  repeat (injection H as H).
  apply string_of_nat_inj. exact (append_inv_tail _ _ _ H).
Qed.

Lemma entries_names (pairs rest : list pair) :
  forall idx,
    map fst (entries pairs idx rest)
    = map (fun k => file_name (k + 1)) (seq idx (List.length rest)).
Proof.
  induction rest as [|cur rest IH]; intros idx; cbn; [reflexivity|].
  now rewrite IH.
Qed.

Lemma scan_spec_length (data : list utterance) :
  (2 * List.length (scan_spec data) <= List.length data)%nat.
Proof.
  induction data as [data IH] using (induction_ltof1 _ (@List.length _)).
  unfold ltof in IH.
  destruct data as [|a [|b rest]]; cbn [scan_spec]; try (cbn; lia).
  destruct (role_is a "Interviewer" && role_is b "Interviewee").
  - specialize (IH rest). cbn in *. lia.
  - specialize (IH (b :: rest)). cbn in *. lia.
Qed.

Lemma NoDup_map_inj (A B : Type) (f : A -> B) (l : list A) :
  (forall x y, f x = f y -> x = y) -> NoDup l -> NoDup (map f l).
Proof.
  intros Hf. induction 1 as [|x l Hx _ IH]; cbn; constructor; [|exact IH].
  intros Hin. apply in_map_iff in Hin as (y & Hy & Hin).
  apply Hf in Hy. now subst.
Qed.

(** The names of the files written in one run are pairwise distinct: no
    pair file is overwritten by a later pair. *)
Theorem generate_previous_current_pairs_distinct_names (data : list utterance) :
  exists (written : list (string * output_data)) (n : nat),
    generate_previous_current_pairs (List.length data) data = Some (written, n) /\
    NoDup (map fst written).
Proof.
  unfold generate_previous_current_pairs.
  rewrite pair_loop_total, write_loop_entries. cbn [app Nat.add].
  eexists. eexists. split; [reflexivity|].
  rewrite entries_names.
  apply NoDup_map_inj; [|apply seq_NoDup].
  intros j k H. apply file_name_inj in H. lia.
Qed.

(** Every pair uses up two items: the number of files is at most half
    the number of utterances, and a transcript of fewer than two
    utterances produces no file. *)
Theorem generate_previous_current_pairs_count (data : list utterance) :
  exists (written : list (string * output_data)) (n : nat),
    generate_previous_current_pairs (List.length data) data = Some (written, n) /\
    List.length written = n /\
    (2 * n <= List.length data)%nat /\
    ((List.length data < 2)%nat -> written = [] /\ n = 0%nat).
Proof.
  unfold generate_previous_current_pairs.
  rewrite pair_loop_total, write_loop_entries. cbn [app Nat.add].
  eexists. eexists. split; [reflexivity|].
  split; [apply entries_length|].
  split; [apply scan_spec_length|].
  intros H. destruct data as [|a [|b rest]]; cbn in H; try lia; now cbn.
Qed.

(** The transcript made of the given Interviewer/Interviewee turns, in
    order. *)
Definition transcript (turns : list pair) : list utterance :=
  flat_map (fun p => [fst p; snd p]) turns.

Lemma scan_spec_transcript (turns : list pair) :
  Forall (fun p => role_is (fst p) "Interviewer" = true /\
                   role_is (snd p) "Interviewee" = true) turns ->
  scan_spec (transcript turns) = turns.
Proof.
  induction 1 as [|[a b] turns [Ha Hb] _ IH]; [reflexivity|].
  unfold transcript in *. cbn [flat_map fst snd app scan_spec] in *.
  rewrite Ha, Hb. cbn [andb]. now rewrite IH.
Qed.

Lemma entries_current (pairs rest : list pair) :
  forall idx, map (fun e => current_utterance (snd e)) (entries pairs idx rest) = rest.
Proof.
  induction rest as [|cur rest IH]; intros idx; cbn; [reflexivity|].
  now rewrite IH.
Qed.

(** On a strictly alternating transcript (an Interviewer utterance, then
    an Interviewee utterance, and so on) nothing is skipped: the current
    pairs of the written files are exactly the turns, in order. *)
Theorem generate_previous_current_pairs_alternating (turns : list pair) :
  Forall (fun p => role (fst p) = Some "Interviewer"%string /\
                   role (snd p) = Some "Interviewee"%string) turns ->
  exists written : list (string * output_data),
    generate_previous_current_pairs (List.length (transcript turns))
                                    (transcript turns)
    = Some (written, List.length turns) /\
    map (fun e => current_utterance (snd e)) written = turns.
Proof.
  intros H. unfold generate_previous_current_pairs.
  rewrite pair_loop_total, write_loop_entries. cbn [app Nat.add].
  rewrite scan_spec_transcript.
  - eexists. split; [reflexivity|]. apply entries_current.
  - eapply Forall_impl; [|exact H]. cbn beta. intros p [Ha Hb].
    unfold role_is. now rewrite Ha, Hb.
Qed.

Definition two_turns : list pair :=
  [(Utterance (Some "Interviewer"%string) "Q1"%string,
    Utterance (Some "Interviewee"%string) "A1"%string);
   (Utterance (Some "Interviewer"%string) "Q2"%string,
    Utterance (Some "Interviewee"%string) "A2"%string)].

Lemma generate_previous_current_pairs_alternating_witness :
  exists written : list (string * output_data),
    generate_previous_current_pairs 4 (transcript two_turns)
    = Some (written, 2%nat) /\
    map (fun e => current_utterance (snd e)) written = two_turns.
Proof.
  apply (@generate_previous_current_pairs_alternating two_turns).
  repeat constructor.
Defined.

End Pairs.

(* ================================================================== *)
(** * Preprocessing/transform_utterance_to_sentences.py *)
(* ================================================================== *)

Module Sentences.
Import Text.

(** The texts are ASCII texts (see [Text]): the classes [\s], [\w],
    [\b] and [\d] of the patterns below and the white space of [strip]
    are those of Python on characters with a code below 128. *)

(** ** Regular-expression substitution

    Every pattern of the script matches at least one character.  A
    [matcher] stands for one pattern with its replacement: given the
    character before the current position (for [\b] and look-behind) and
    the rest of the string, it says whether the pattern matches here,
    and if so how many characters it matches and what replaces them.
    [re.sub] scans from the left; after a match the scan goes on behind
    it, without a match the character is copied. *)
Definition matcher : Type := option ascii -> str -> option (nat * str).

Fixpoint sub_from (m : matcher) (skip : nat) (prev : option ascii) (s : str)
  : str :=
  match s with
  | [] => []
  | c :: s' =>
    match skip with
    | S k => sub_from m k (Some c) s'
    | O =>
      match m prev s with
      | Some (n, out) => (out ++ sub_from m (Nat.pred n) (Some c) s')%list
      | None => c :: sub_from m 0 (Some c) s'
      end
    end
  end.

Definition re_sub (m : matcher) (s : str) : str := sub_from m 0 None s.

(** [s] starts with [pat]. *)
Fixpoint starts_with (pat s : str) : bool :=
  match pat, s with
  | [], _ => true
  | p :: pat', c :: s' => Ascii.eqb p c && starts_with pat' s'
  | _ :: _, [] => false
  end.

(** The longest prefix of characters in a class, and what follows. *)
Fixpoint span (f : ascii -> bool) (s : str) : str * str :=
  match s with
  | c :: s' =>
    if f c then let (a, b) := span f s' in (c :: a, b) else ([], s)
  | [] => ([], [])
  end.

Definition is_word_opt (c : option ascii) : bool :=
  match c with Some c => is_word c | None => false end.

(** [\b] between the previous character and the rest. *)
Definition boundary (prev : option ascii) (s : str) : bool :=
  xorb (is_word_opt prev) (is_word_opt (hd_error s)).

(** [[.!?]] *)
Definition is_end (c : ascii) : bool :=
  Ascii.eqb c "." || Ascii.eqb c "!" || Ascii.eqb c "?".

(** ** The patterns of [split_into_sentences] *)

(** [([.!?])([A-Z])] replaced by [\1 \2] *)
Definition m_space_after : matcher := fun _ s =>
  match s with
  | c :: d :: _ =>
    if is_end c && is_upper d then Some (2%nat, [c; " "%char; d]) else None
  | _ => None
  end.

(** A literal pattern, after [\b] when [b] is set. *)
Definition m_literal (b : bool) (pat repl : str) : matcher := fun prev s =>
  if (negb b || boundary prev s) && starts_with pat s
  then Some (List.length pat, repl)
  else None.

Definition ET_AL_MARKER : str := lit "ET_AL_MARKER".
Definition EG_MARKER : str := lit "EG_MARKER".
Definition IE_MARKER : str := lit "IE_MARKER".
Definition CF_MARKER : str := lit "CF_MARKER".
Definition DOT_MARKER : str := lit "_DOT_MARKER".
Definition DECIMAL : str := lit "_DECIMAL_".
Definition INITIAL : str := lit "_INITIAL_".
Definition PAREN_DOT : str := lit "_PAREN_DOT_".

Definition honorifics : list str :=
  [lit "Mr"; lit "Mrs"; lit "Ms"; lit "Dr"; lit "Prof"; lit "Sr"; lit "Jr"].

(** [\b(Mr|Mrs|Ms|Dr|Prof|Sr|Jr)\.\s] replaced by [\1_DOT_MARKER ]: the
    first alternative that is followed by a period and a space
    character. *)
Fixpoint first_honorific (hs : list str) (s : str) : option str :=
  match hs with
  | [] => None
  | h :: hs' =>
    if starts_with (h ++ ["."%char]) s
       && match skipn (List.length h + 1) s with
          | c :: _ => is_space c
          | [] => false
          end
    then Some h
    else first_honorific hs' s
  end.

Definition m_honorific : matcher := fun prev s =>
  if boundary prev s then
    match first_honorific honorifics s with
    | Some h => Some (List.length h + 2, h ++ DOT_MARKER ++ [" "%char])%list
    | None => None
    end
  else None.

(** [(\d+)\.(\d+)] replaced by [\1_DECIMAL_\2] *)
Definition m_decimal : matcher := fun _ s =>
  let (d1, r1) := span is_digit s in
  match d1, r1 with
  | _ :: _, c :: r2 =>
    if Ascii.eqb c "." then
      let (d2, _) := span is_digit r2 in
      match d2 with
      | _ :: _ => Some (List.length d1 + 1 + List.length d2,
                        d1 ++ DECIMAL ++ d2)%list
      | [] => None
      end
    else None
  | _, _ => None
  end.

(** [\b([A-Z])\.(\s*[A-Z])] replaced by [\1_INITIAL_\2] *)
Definition m_initial : matcher := fun prev s =>
  if boundary prev s then
    match s with
    | c :: p :: r =>
      if is_upper c && Ascii.eqb p "." then
        let (ws, r2) := span is_space r in
        match r2 with
        | d :: _ =>
          if is_upper d
          then Some (2 + List.length ws + 1,
                     c :: INITIAL ++ ws ++ [d])%list
          else None
        | [] => None
        end
      else None
    | _ => None
    end
  else None.

(** [match.group().replace('.', '_PAREN_DOT_')] *)
Definition protect_parens (group : str) : str :=
  flat_map (fun c => if Ascii.eqb c "." then PAREN_DOT else [c]) group.

(** [\([^)]+\)] replaced through [protect_parens] *)
Definition m_parens : matcher := fun _ s =>
  match s with
  | c :: r =>
    if Ascii.eqb c "(" then
      let (inner, r2) := span (fun x => negb (Ascii.eqb x ")")) r in
      match inner, r2 with
      | _ :: _, _ :: _ =>
        Some (List.length inner + 2,
              protect_parens (c :: inner ++ [")"%char]))%list
      | _, _ => None
      end
    else None
  | [] => None
  end.

(** [(\w+)_DOT_MARKER] replaced by [\1.]: the group is as long as it can
    be, so the marker matched is the last one of the run of word
    characters.  [k] counts down the candidate lengths of the group. *)
Fixpoint last_marker_at (k : nat) (s : str) : option nat :=
  match k with
  | O => None
  | S k' =>
    if starts_with DOT_MARKER (skipn k s) then Some k
    else last_marker_at k' s
  end.

Definition m_restore_dot : matcher := fun _ s =>
  let (run, _) := span is_word s in
  match last_marker_at (List.length run) s with
  | Some k => Some (k + List.length DOT_MARKER, firstn k s ++ ["."%char])%list
  | None => None
  end.

(** [(\d+)_DECIMAL_(\d+)] replaced by [\1.\2] *)
Definition m_restore_decimal : matcher := fun _ s =>
  let (d1, r1) := span is_digit s in
  match d1 with
  | _ :: _ =>
    if starts_with DECIMAL r1 then
      let (d2, _) := span is_digit (skipn (List.length DECIMAL) r1) in
      match d2 with
      | _ :: _ => Some (List.length d1 + List.length DECIMAL + List.length d2,
                        d1 ++ ["."%char] ++ d2)%list
      | [] => None
      end
    else None
  | [] => None
  end.

(** [([A-Z])_INITIAL_] replaced by [\1.] *)
Definition m_restore_initial : matcher := fun _ s =>
  match s with
  | c :: r =>
    if is_upper c && starts_with INITIAL r
    then Some (1 + List.length INITIAL, [c; "."%char])
    else None
  | [] => None
  end.

(** [s.replace(old, new)] *)
Definition replace (old new : str) (s : str) : str :=
  re_sub (m_literal false old new) s.

(** [re.split] on white space that follows one of [.!?] (look-behind)
    and is followed (look-ahead) by a capital letter, a double quote, a
    single quote or an opening parenthesis: the pieces between the
    matches.  [cur] is the piece being read, in reverse. *)
Definition double_quote : ascii := ascii_of_N 34.

Definition opens_sentence (c : ascii) : bool :=
  is_upper c || Ascii.eqb c double_quote || Ascii.eqb c "'"
  || Ascii.eqb c "(".

Definition m_sentence_gap (prev : option ascii) (s : str) : option nat :=
  match prev with
  | Some p =>
    if is_end p then
      let (ws, r) := span is_space s in
      match ws, r with
      | _ :: _, d :: _ => if opens_sentence d then Some (List.length ws) else None
      | _, _ => None
      end
    else None
  | None => None
  end.

Fixpoint split_from (cur : str) (skip : nat) (prev : option ascii) (s : str)
  : list str :=
  match s with
  | [] => [rev cur]
  | c :: s' =>
    match skip with
    | S k => split_from cur k (Some c) s'
    | O =>
      match m_sentence_gap prev s with
      | Some n => rev cur :: split_from [] (Nat.pred n) (Some c) s'
      | None => split_from (c :: cur) 0 (Some c) s'
      end
    end
  end.

Definition re_split (s : str) : list str := split_from [] 0 None s.

(** ** [split_into_sentences] *)

Definition protect (text : str) : str :=
  let protected_text := text in
  let protected_text :=
      re_sub (m_literal true (lit "et al.") ET_AL_MARKER) protected_text in
  let protected_text :=
      re_sub (m_literal true (lit "e.g.") EG_MARKER) protected_text in
  let protected_text :=
      re_sub (m_literal true (lit "i.e.") IE_MARKER) protected_text in
  let protected_text :=
      re_sub (m_literal true (lit "cf.") CF_MARKER) protected_text in
  let protected_text := re_sub m_honorific protected_text in
  let protected_text := re_sub m_decimal protected_text in
  let protected_text := re_sub m_initial protected_text in
  re_sub m_parens protected_text.

Definition restore (sent : str) : str :=
  let restored := sent in
  let restored := replace ET_AL_MARKER (lit "et al.") restored in
  let restored := replace EG_MARKER (lit "e.g.") restored in
  let restored := replace IE_MARKER (lit "i.e.") restored in
  let restored := replace CF_MARKER (lit "cf.") restored in
  let restored := re_sub m_restore_dot restored in
  let restored := re_sub m_restore_decimal restored in
  let restored := re_sub m_restore_initial restored in
  replace PAREN_DOT (lit ".") restored.

Definition split_into_sentences (text : str) : list str :=
  let text := re_sub m_space_after text in
  let protected_text := protect text in
  let raw_sentences := re_split protected_text in
  flat_map (fun sent =>
              let restored := strip (restore sent) in
              match restored with
              | [] => []
              | _ => [restored]
              end)
           raw_sentences.

(** ** Words of the claim *)



(** The sequence of the characters of [s] that are not white space. *)
Definition non_space (s : str) : str := filter (fun c => negb (is_space c)) s.

(** ** A marker assembled from the input and an inserted marker *)


(* ------------------------------------------------------------------ *)
(** ** Input without an underscore

    When the input holds no underscore, a marker can only be read where
    a pass of [protect] wrote it.  The proof follows the text as a
    sequence of items through the eight passes of [protect], shows that
    the eight passes of [restore] bring every item back, and that
    [restore] may be run piece by piece. *)

(** ** The scan of [re.sub] *)

(** The character before the position that follows [a]. *)
Definition last_char (prev : option ascii) (a : str) : option ascii :=
  fold_left (fun _ c => Some c) a prev.

Lemma last_char_app prev a b :
  last_char prev (a ++ b) = last_char (last_char prev a) b.
Proof. apply fold_left_app. Qed.

Lemma sub_from_skip (m : matcher) (a s : str) :
  forall prev,
    sub_from m (List.length a) prev (a ++ s) = sub_from m 0 (last_char prev a) s.
Proof.
  induction a as [|c a IH]; intros prev; [reflexivity|].
  cbn. apply IH.
Qed.

Lemma sub_from_none (m : matcher) prev c s :
  m prev (c :: s) = None ->
  sub_from m 0 prev (c :: s) = c :: sub_from m 0 (Some c) s.
Proof. intros H. cbn. rewrite H. reflexivity. Qed.

Lemma sub_from_match (m : matcher) prev c a s n out :
  m prev (c :: a ++ s) = Some (n, out) -> n = S (List.length a) ->
  sub_from m 0 prev (c :: a ++ s)
  = (out ++ sub_from m 0 (last_char (Some c) a) s)%list.
Proof.
  intros H ->. cbn. rewrite H. cbn. now rewrite sub_from_skip.
Qed.

Lemma sub_from_match_app (m : matcher) prev a s out :
  a <> [] -> m prev (a ++ s)%list = Some (List.length a, out) ->
  sub_from m 0 prev (a ++ s) = (out ++ sub_from m 0 (last_char prev a) s)%list.
Proof.
  intros Ha H. destruct a as [|c a]; [congruence|].
  cbn [app] in *. now rewrite (@sub_from_match m prev c a s _ out H eq_refl).
Qed.

(** No match begins inside [a]: [a] is copied. *)
Lemma sub_from_copy (m : matcher) (a s : str) :
  forall prev,
    (forall a1 a2, a = (a1 ++ a2)%list -> a2 <> [] ->
                   m (last_char prev a1) (a2 ++ s)%list = None) ->
    sub_from m 0 prev (a ++ s) = (a ++ sub_from m 0 (last_char prev a) s)%list.
Proof.
  induction a as [|c a IH]; intros prev H; [reflexivity|].
  cbn [app]. rewrite sub_from_none.
  - f_equal. apply IH. intros a1 a2 -> Ha2.
    apply (H (c :: a1) a2); [reflexivity|assumption].
  - apply (H [] (c :: a)); [reflexivity|discriminate].
Qed.

(** A pattern that only looks at [prev] through [\b]. *)
Definition by_boundary (m : matcher) : Prop :=
  forall p p' s, is_word_opt p = is_word_opt p' -> m p s = m p' s.

Lemma sub_from_boundary (m : matcher) p p' s :
  by_boundary m -> is_word_opt p = is_word_opt p' ->
  sub_from m 0 p s = sub_from m 0 p' s.
Proof.
  intros Hm Hp. destruct s as [|c s]; [reflexivity|].
  cbn. now rewrite (Hm p p' (c :: s) Hp).
Qed.

(** ** [starts_with] and [span] *)

Lemma starts_with_app (L r s : str) :
  starts_with L (r ++ s)
  = if (List.length L <=? List.length r)%nat then starts_with L r
    else starts_with r L && starts_with (skipn (List.length r) L) s.
Proof.
  revert r. induction L as [|l L IH]; intros r.
  - cbn. now destruct r.
  - destruct r as [|c r].
    + reflexivity.
    + cbn [app starts_with List.length skipn]. rewrite IH.
      change (S (List.length L) <=? S (List.length r))%nat
        with (List.length L <=? List.length r)%nat.
      rewrite (Ascii.eqb_sym c l).
      destruct (List.length L <=? List.length r)%nat;
        [reflexivity | now rewrite andb_assoc].
Qed.

Lemma starts_with_refl (L s : str) : starts_with L (L ++ s) = true.
Proof.
  induction L as [|l L IH]; [reflexivity|].
  cbn. now rewrite Ascii.eqb_refl.
Qed.

Lemma starts_with_length (L s : str) :
  starts_with L s = true -> (List.length L <= List.length s)%nat.
Proof.
  revert s. induction L as [|l L IH]; intros s H; cbn; [lia|].
  destruct s as [|c s]; [discriminate|].
  cbn in H. apply andb_prop in H as [_ H]. apply IH in H. cbn. lia.
Qed.

Lemma starts_with_eq (L s : str) :
  starts_with L s = true -> s = (L ++ skipn (List.length L) s)%list.
Proof.
  revert s. induction L as [|l L IH]; intros s H; [reflexivity|].
  destruct s as [|c s]; [discriminate|].
  cbn in H. apply andb_prop in H as [Hc H].
  apply Ascii.eqb_eq in Hc. subst c. cbn. f_equal. now apply IH.
Qed.

Lemma span_app (f : ascii -> bool) (s : str) :
  s = (fst (span f s) ++ snd (span f s))%list.
Proof.
  induction s as [|c s IH]; [reflexivity|].
  cbn. destruct (f c); [|reflexivity].
  destruct (span f s) as [a b]. cbn in *. now f_equal.
Qed.

Lemma span_all (f : ascii -> bool) (s : str) :
  forallb f (fst (span f s)) = true.
Proof.
  induction s as [|c s IH]; [reflexivity|].
  cbn. destruct (f c) eqn:E; [|reflexivity].
  destruct (span f s) as [a b]. cbn in *. now rewrite E.
Qed.

Lemma span_stop (f : ascii -> bool) (s : str) :
  match snd (span f s) with c :: _ => f c = false | [] => True end.
Proof.
  induction s as [|c s IH]; [exact I|].
  cbn. destruct (f c) eqn:E; [|exact E].
  destruct (span f s) as [a b]. exact IH.
Qed.

Lemma span_prefix (f : ascii -> bool) (a s : str) :
  forallb f a = true ->
  match s with c :: _ => f c = false | [] => True end ->
  span f (a ++ s) = (a, s).
Proof.
  intros Ha Hs. induction a as [|c a IH].
  - destruct s as [|c s]; [reflexivity|]. cbn. now rewrite Hs.
  - cbn in *. apply andb_prop in Ha as [Hc Ha]. rewrite Hc, (IH Ha).
    reflexivity.
Qed.

(** ** Characters that are not white space *)

Lemma non_space_app (a b : str) :
  non_space (a ++ b) = (non_space a ++ non_space b)%list.
Proof. apply filter_app. Qed.

Lemma non_space_spaces (ws : str) :
  forallb is_space ws = true -> non_space ws = [].
Proof.
  induction ws as [|w ws IH]; [reflexivity|].
  cbn. intros H. apply andb_prop in H as [Hw H]. rewrite Hw. cbn. auto.
Qed.

Lemma non_space_rev (s : str) : non_space (rev s) = rev (non_space s).
Proof.
  induction s as [|c s IH]; [reflexivity|].
  cbn [rev]. rewrite non_space_app, IH. cbn.
  destruct (is_space c); cbn; [now rewrite app_nil_r|reflexivity].
Qed.

Lemma non_space_lstrip (s : str) : non_space (lstrip s) = non_space s.
Proof.
  induction s as [|c s IH]; [reflexivity|].
  cbn. destruct (is_space c) eqn:E; cbn; [exact IH|now rewrite E].
Qed.

Lemma non_space_strip (s : str) : non_space (strip s) = non_space s.
Proof.
  unfold strip.
  now rewrite non_space_rev, non_space_lstrip, non_space_rev,
    rev_involutive, non_space_lstrip.
Qed.

(** ** Protected text as a sequence of items

    While the passes of [protect] run, the text is a sequence of plain
    characters and of protected places.  An honorific is kept with the
    space that its pass writes behind the marker, a decimal with its two
    runs of digits and an initial with its letter. *)
Inductive kind : Type := ETAL | EG | IE | CF | PDOT.

Inductive hon : Type := Mr | Mrs | Ms | Dr | Prof | Sr | Jr.

Inductive item : Type :=
| Ch (c : ascii)
| Mk (k : kind)
| Hon (h : hon)
| Dec (d1 d2 : str)
| Ini (c : ascii).

Definition kinds : list kind := [ETAL; EG; IE; CF; PDOT].

Definition hons : list hon := [Mr; Mrs; Ms; Dr; Prof; Sr; Jr].

Definition marker (k : kind) : str :=
  match k with
  | ETAL => ET_AL_MARKER
  | EG => EG_MARKER
  | IE => IE_MARKER
  | CF => CF_MARKER
  | PDOT => PAREN_DOT
  end.

Definition text_of (k : kind) : str :=
  match k with
  | ETAL => lit "et al."
  | EG => lit "e.g."
  | IE => lit "i.e."
  | CF => lit "cf."
  | PDOT => lit "."
  end.

Definition hon_str (h : hon) : str :=
  match h with
  | Mr => lit "Mr"
  | Mrs => lit "Mrs"
  | Ms => lit "Ms"
  | Dr => lit "Dr"
  | Prof => lit "Prof"
  | Sr => lit "Sr"
  | Jr => lit "Jr"
  end.

(** The pass of [protect] that writes the item, which is also the pass
    of [restore] that removes it. *)
Definition rank (x : item) : nat :=
  match x with
  | Ch _ => 0
  | Mk ETAL => 1
  | Mk EG => 2
  | Mk IE => 3
  | Mk CF => 4
  | Hon _ => 5
  | Dec _ _ => 6
  | Ini _ => 7
  | Mk PDOT => 8
  end.

(** The text of an item after [n] passes of [restore]. *)
Definition render (n : nat) (x : item) : str :=
  match x with
  | Ch c => [c]
  | Mk k => if (rank (Mk k) <=? n)%nat then text_of k else marker k
  | Hon h =>
    (hon_str h ++ (if (5 <=? n)%nat then ["."%char] else DOT_MARKER)
     ++ [" "%char])%list
  | Dec d1 d2 =>
    (d1 ++ (if (6 <=? n)%nat then ["."%char] else DECIMAL) ++ d2)%list
  | Ini c => c :: (if (7 <=? n)%nat then ["."%char] else INITIAL)
  end.

Definition flat (n : nat) (l : list item) : str := flat_map (render n) l.

Definition digits (d : str) : bool :=
  match d with [] => false | _ => forallb is_digit d end.

Definition item_okb (x : item) : bool :=
  match x with
  | Ch c => negb (Ascii.eqb c "_")
  | Dec d1 d2 => digits d1 && digits d2
  | Ini c => is_upper c
  | _ => true
  end.

Definition dot_ending (x : item) : bool :=
  match x with
  | Ch c => Ascii.eqb c "."
  | Mk _ | Ini _ => true
  | _ => false
  end.

Definition is_Dec (x : item) : bool :=
  match x with Dec _ _ => true | _ => false end.

Definition is_digit_Ch (x : item) : bool :=
  match x with Ch c => is_digit c | _ => false end.

Definition holds (f : item -> bool) (pv : option item) : bool :=
  match pv with Some x => f x | None => false end.

(** What may stand next to what. *)
Definition pair_okb (pv : option item) (x : item) : bool :=
  match x with
  | Ch c =>
    negb (is_upper c && holds dot_ending pv)
    && negb (is_digit c && holds is_Dec pv)
  | Dec _ _ => negb (holds is_Dec pv) && negb (holds is_digit_Ch pv)
  | Hon _ =>
    match pv with
    | None | Some (Hon _) => true
    | Some (Ch c) => negb (is_word c) && negb (Ascii.eqb c ".")
    | _ => false
    end
  | _ => true
  end.

Fixpoint chain (pv : option item) (l : list item) : Prop :=
  match l with
  | [] => True
  | x :: r => item_okb x = true /\ pair_okb pv x = true /\ chain (Some x) r
  end.

Definition stage (n : nat) (l : list item) : Prop :=
  forallb (fun x => (rank x <=? n)%nat) l = true.

Definition last_item (pv : option item) (l : list item) : option item :=
  fold_left (fun _ x => Some x) l pv.

Definition head_ok (pv : option item) (l : list item) : Prop :=
  match l with x :: _ => pair_okb pv x = true | [] => True end.

(** Whether the text of the item ends in a word character. *)
Definition wc (pv : option item) : bool :=
  match pv with
  | None => false
  | Some (Ch c) => is_word c
  | Some (Hon _) => false
  | Some _ => true
  end.

Lemma flat_app n l1 l2 : flat n (l1 ++ l2) = (flat n l1 ++ flat n l2)%list.
Proof. apply flat_map_app. Qed.

Lemma flat_cons n x l : flat n (x :: l) = (render n x ++ flat n l)%list.
Proof. reflexivity. Qed.

Lemma flat_Ch n (s : str) : flat n (map Ch s) = s.
Proof. induction s as [|c s IH]; cbn; [reflexivity|now f_equal]. Qed.

Lemma last_item_app pv l1 l2 :
  last_item pv (l1 ++ l2) = last_item (last_item pv l1) l2.
Proof. apply fold_left_app. Qed.

Lemma last_item_cons pv x l : last_item pv (x :: l) = last_item (Some x) l.
Proof. reflexivity. Qed.

Lemma last_item_some pv x l : exists y, last_item pv (x :: l) = Some y.
Proof.
  revert pv x. induction l as [|z l IH]; intros pv x; cbn.
  - now exists x.
  - apply (IH (Some x) z).
Qed.

Lemma chain_app pv l1 l2 :
  chain pv (l1 ++ l2) <-> chain pv l1 /\ chain (last_item pv l1) l2.
Proof.
  revert pv. induction l1 as [|x l1 IH]; intros pv; cbn.
  - tauto.
  - rewrite IH. tauto.
Qed.

Lemma chain_head pv l : chain pv l -> head_ok pv l.
Proof. destruct l; cbn; tauto. Qed.

Lemma chain_change pv pv' l :
  chain pv l -> head_ok pv' l -> chain pv' l.
Proof. destruct l; cbn; tauto. Qed.

Lemma stage_app n l1 l2 : stage n (l1 ++ l2) <-> stage n l1 /\ stage n l2.
Proof.
  unfold stage. rewrite forallb_app, andb_true_iff. tauto.
Qed.

Lemma stage_le n n' l : (n <= n')%nat -> stage n l -> stage n' l.
Proof.
  unfold stage. intros Hn. rewrite !forallb_forall. intros H x Hx.
  specialize (H x Hx). apply Nat.leb_le in H. apply Nat.leb_le. lia.
Qed.

(** ** One pass of [protect], chunk by chunk

    A pass is followed along the items: each step takes some items from
    the front ([consumed]), says what the pass writes for them ([new])
    and where the scan goes on.  [St] is what the pass needs to know
    about the items before the position, old and new. *)
Definition step (m : matcher) (n : nat)
           (St : option item -> option item -> list item -> Prop)
           (pvo pvn : option item) (prev : option ascii)
           (items : list item) : Prop :=
  exists consumed new rest prev',
    items = (consumed ++ rest)%list /\ consumed <> [] /\
    sub_from m 0 prev (flat 0 items)
    = (flat 0 new ++ sub_from m 0 prev' (flat 0 rest))%list /\
    is_word_opt prev' = wc (last_item pvo consumed) /\
    chain pvn new /\ stage (S n) new /\
    non_space (flat 8 new) = non_space (flat 8 consumed) /\
    St (last_item pvo consumed) (last_item pvn new) rest.

Section Pass.

Variable m : matcher.
Variable n : nat.
Variable St : option item -> option item -> list item -> Prop.

Hypothesis chunk : forall pvo pvn prev x r,
  chain pvo (x :: r) -> stage n (x :: r) -> St pvo pvn (x :: r) ->
  is_word_opt prev = wc pvo ->
  step m n St pvo pvn prev (x :: r).

Lemma pass_items : forall items pvo pvn prev,
  chain pvo items -> stage n items -> St pvo pvn items ->
  is_word_opt prev = wc pvo ->
  exists items',
    sub_from m 0 prev (flat 0 items) = flat 0 items' /\
    chain pvn items' /\ stage (S n) items' /\
    non_space (flat 8 items') = non_space (flat 8 items).
Proof.
  intros items. remember (List.length items) as len eqn:Hlen.
  revert items Hlen.
  induction len as [len IH] using lt_wf_ind.
  intros [|x r] Hlen pvo pvn prev Hc Hs HSt Hp.
  - exists []. cbn. repeat split; reflexivity.
  - destruct (chunk prev Hc Hs HSt Hp)
      as (consumed & new & rest & prev' & E & Hne & Hsub & Hp' & Hcn & Hsn
          & Hns & HSt').
    rewrite E in Hc, Hs. apply chain_app in Hc as [_ Hc].
    apply stage_app in Hs as [_ Hs].
    assert (Hl : (List.length rest < len)%nat).
    { subst len. rewrite E, length_app.
      destruct consumed; [congruence|cbn; lia]. }
    destruct (IH _ Hl rest eq_refl _ _ prev' Hc Hs HSt' Hp')
      as (items' & Hsub' & Hc' & Hs' & Hns').
    exists (new ++ items')%list. split; [|split; [|split]].
    + rewrite Hsub, Hsub', flat_app. reflexivity.
    + apply chain_app. split; assumption.
    + apply stage_app. split; assumption.
    + rewrite E, !flat_app, !non_space_app, Hns, Hns'. reflexivity.
Qed.

End Pass.

(** A step that copies one item. *)
Lemma step_copy (m : matcher) n
      (St : option item -> option item -> list item -> Prop)
      pvo pvn prev x r prev' :
  chain pvo (x :: r) -> stage n (x :: r) -> head_ok pvn (x :: r) ->
  sub_from m 0 prev (flat 0 (x :: r))
  = (render 0 x ++ sub_from m 0 prev' (flat 0 r))%list ->
  is_word_opt prev' = wc (Some x) ->
  St (Some x) (Some x) r ->
  step m n St pvo pvn prev (x :: r).
Proof.
  intros Hc Hs Hh Hsub Hp HSt.
  exists [x], [x], r, prev'. cbn [app last_item fold_left].
  split; [reflexivity|]. split; [discriminate|].
  split; [rewrite Hsub; cbn; now rewrite app_nil_r|].
  split; [assumption|].
  split; [cbn in *; tauto|].
  split; [|split; [reflexivity|assumption]].
  apply (stage_le (n := n)); [lia|].
  unfold stage in *. cbn in *. apply andb_prop in Hs as [Hs _].
  now rewrite Hs.
Qed.

(** ** One pass of [restore], item by item *)
Lemma restore_items (m : matcher) (i : nat) :
  (forall pv x r prev, chain pv (x :: r) ->
     exists prev',
       sub_from m 0 prev (render i x ++ flat i r)
       = (render (S i) x ++ sub_from m 0 prev' (flat i r))%list) ->
  forall items pv prev, chain pv items ->
    sub_from m 0 prev (flat i items) = flat (S i) items.
Proof.
  intros H items. induction items as [|x r IH]; intros pv prev Hc.
  - reflexivity.
  - rewrite !flat_cons. destruct (H pv x r prev Hc) as [prev' ->].
    f_equal. apply (IH (Some x)). cbn in Hc. tauto.
Qed.

(** ** Character classes *)

Ltac classes :=
  unfold is_end, is_word, is_space, is_digit, is_upper, is_lower, between,
    opens_sentence, double_quote in *;
  repeat match goal with
         | |- context [Ascii.eqb ?a ?b] =>
           destruct (Ascii.eqb_spec a b); subst
         | H : context [Ascii.eqb ?a ?b] |- _ =>
           destruct (Ascii.eqb_spec a b); subst
         end;
  cbn in *;
  repeat match goal with
         | |- context [(?a <=? ?b)%N] => destruct (N.leb_spec a b)
         | H : context [(?a <=? ?b)%N] |- _ => destruct (N.leb_spec a b)
         end;
  cbn in *; try congruence; try lia.

Lemma upper_not_digit c : is_upper c = true -> is_digit c = false.
Proof. classes. Qed.

Lemma digit_not_upper c : is_digit c = true -> is_upper c = false.
Proof. classes. Qed.

Lemma upper_word c : is_upper c = true -> is_word c = true.
Proof. classes. Qed.

Lemma digit_word c : is_digit c = true -> is_word c = true.
Proof. classes. Qed.

Lemma space_not_word c : is_space c = true -> is_word c = false.
Proof. classes. Qed.

Lemma digits_cons d : digits d = true ->
  exists c d', d = c :: d' /\ is_digit c = true /\ forallb is_digit d' = true.
Proof.
  destruct d as [|c d']; [discriminate|]. cbn. intros H.
  apply andb_prop in H as [H1 H2]. now exists c, d'.
Qed.

Lemma digits_all d : digits d = true -> forallb is_digit d = true.
Proof. destruct d; [discriminate|exact (fun H => H)]. Qed.

(** ** Where a marker can be read in the text

    [safe n fuel pv L] checks, by going through the items that could
    follow [pv], that [L] is never read at the place where an item
    begins.  [L] holds no digit. *)
Definition after_ok (safe_f : option item -> str -> bool) (n : nat)
           (pv : option item) (L : str) (x : item) : bool :=
  negb (pair_okb pv x) ||
  (let r := render n x in
   if (List.length L <=? List.length r)%nat then negb (starts_with L r)
   else negb (starts_with r L)
        || safe_f (Some x) (skipn (List.length r) L)).

Fixpoint safe (n fuel : nat) (pv : option item) (L : str) : bool :=
  match fuel, L with
  | S f, l0 :: L' =>
    (Ascii.eqb l0 "_" || negb (pair_okb pv (Ch l0))
     || safe n f (Some (Ch l0)) L')
    && forallb (after_ok (safe n f) n pv L) (map Mk kinds)
    && forallb (after_ok (safe n f) n pv L) (map Hon hons)
    && (negb (is_upper l0) || after_ok (safe n f) n pv L (Ini l0))
    && negb (is_digit l0)
  | _, _ => false
  end.

Lemma after_ok_sound safe_f n pv L x r :
  after_ok safe_f n pv L x = true -> pair_okb pv x = true ->
  (forall L', safe_f (Some x) L' = true -> starts_with L' (flat n r) = false) ->
  starts_with L (render n x ++ flat n r) = false.
Proof.
  unfold after_ok. intros H Hp Hs. rewrite Hp in H. cbn in H.
  rewrite starts_with_app.
  destruct (List.length L <=? List.length (render n x))%nat.
  - now apply negb_true_iff in H.
  - apply orb_prop in H as [H|H].
    + apply negb_true_iff in H. now rewrite H.
    + rewrite (Hs _ H). apply andb_false_r.
Qed.

Lemma safe_sound n : forall fuel pv L items,
  safe n fuel pv L = true -> chain pv items ->
  starts_with L (flat n items) = false.
Proof.
  induction fuel as [|f IH]; intros pv L items H Hc; [discriminate|].
  destruct L as [|l0 L']; [discriminate|].
  cbn [safe] in H.
  apply andb_prop in H as [H Hdig]. apply andb_prop in H as [H Hini].
  apply andb_prop in H as [H Hhon]. apply andb_prop in H as [Hch Hmk].
  destruct items as [|x r]; [reflexivity|].
  destruct Hc as (Hok & Hp & Hc).
  rewrite flat_cons.
  assert (Hs : forall L'', safe n f (Some x) L'' = true ->
                           starts_with L'' (flat n r) = false).
  { intros L'' HL. now apply (IH (Some x)). }
  destruct x as [c|k|h|d1 d2|c].
  - cbn. destruct (Ascii.eqb_spec l0 c) as [->|]; [|reflexivity].
    cbn in Hok. rewrite Hp in Hch.
    apply negb_true_iff in Hok. rewrite Hok in Hch. cbn in Hch.
    now apply (IH (Some (Ch c))).
  - rewrite forallb_forall in Hmk.
    apply after_ok_sound with (safe_f := safe n f) (pv := pv); auto.
    apply Hmk. apply in_map. destruct k; cbn; tauto.
  - rewrite forallb_forall in Hhon.
    apply after_ok_sound with (safe_f := safe n f) (pv := pv); auto.
    apply Hhon. apply in_map. destruct h; cbn; tauto.
  - cbn in Hok. apply andb_prop in Hok as [Hd1 _].
    apply digits_cons in Hd1 as (d & d1' & -> & Hd & _).
    cbn. destruct (Ascii.eqb_spec l0 d) as [->|]; [|reflexivity].
    now rewrite Hd in Hdig.
  - cbn in Hok. destruct (Ascii.eqb_spec l0 c) as [->|Hne].
    + rewrite Hok in Hini. cbn in Hini.
      apply after_ok_sound with (safe_f := safe n f) (pv := pv); auto.
    + cbn. destruct (Ascii.eqb_spec l0 c); [contradiction|reflexivity].
Qed.

Lemma safe_ext n fuel pv pv' L :
  (forall x, pair_okb pv x = pair_okb pv' x) ->
  safe n fuel pv L = safe n fuel pv' L.
Proof.
  intros H. destruct fuel as [|f]; [reflexivity|].
  destruct L as [|l0 L']; [reflexivity|].
  cbn [safe].
  assert (E : forall x, after_ok (safe n f) n pv (l0 :: L') x
                        = after_ok (safe n f) n pv' (l0 :: L') x).
  { intros x. unfold after_ok. now rewrite (H x). }
  assert (E' : forall l, forallb (after_ok (safe n f) n pv (l0 :: L')) l
                         = forallb (after_ok (safe n f) n pv' (l0 :: L')) l).
  { induction l as [|y l IHl]; cbn; [reflexivity|]. now rewrite E, IHl. }
  now rewrite !E', E, (H (Ch l0)).
Qed.

(** [L] is not read inside the item [x] either, nor from inside [x]
    into what follows. *)
Definition free (n : nat) (L : str) (x : item) : Prop :=
  forall r a1 a2, chain (Some x) r -> render n x = (a1 ++ a2)%list ->
                  a2 <> [] -> starts_with L (a2 ++ flat n r) = false.

Definition suffix_ok n fuel (x : item) (L a2 : str) : bool :=
  if (List.length L <=? List.length a2)%nat then negb (starts_with L a2)
  else negb (starts_with a2 L)
       || safe n fuel (Some x) (skipn (List.length a2) L).

Fixpoint suffixes_ok n fuel (x : item) (L a : str) : bool :=
  match a with
  | [] => true
  | _ :: a' => suffix_ok n fuel x L a && suffixes_ok n fuel x L a'
  end.

Lemma suffix_ok_sound n fuel x L a2 r :
  suffix_ok n fuel x L a2 = true -> chain (Some x) r ->
  starts_with L (a2 ++ flat n r) = false.
Proof.
  unfold suffix_ok. intros H Hc. rewrite starts_with_app.
  destruct (List.length L <=? List.length a2)%nat.
  - now apply negb_true_iff in H.
  - apply orb_prop in H as [H|H].
    + apply negb_true_iff in H. now rewrite H.
    + rewrite (@safe_sound n fuel (Some x) _ r H Hc). apply andb_false_r.
Qed.

Lemma suffixes_ok_sound n fuel x L : forall a r a1 a2,
  suffixes_ok n fuel x L a = true -> chain (Some x) r ->
  a = (a1 ++ a2)%list -> a2 <> [] ->
  starts_with L (a2 ++ flat n r) = false.
Proof.
  induction a as [|c a IH]; intros r a1 a2 H Hc E Hne.
  - destruct a1; destruct a2; try discriminate. congruence.
  - cbn in H. apply andb_prop in H as [H1 H2].
    destruct a1 as [|c1 a1].
    + cbn in E. subst a2. now apply (@suffix_ok_sound n fuel x L (c :: a) r H1).
    + cbn in E. injection E as -> E. now apply (IH r a1 a2).
Qed.

Lemma suffixes_ok_ext n fuel x x' L a :
  (forall y, pair_okb (Some x) y = pair_okb (Some x') y) ->
  suffixes_ok n fuel x L a = suffixes_ok n fuel x' L a.
Proof.
  intros H. induction a as [|c a IH]; [reflexivity|].
  cbn. rewrite IH. unfold suffix_ok.
  now rewrite (safe_ext n fuel (Some x) (Some x') _ H).
Qed.

Lemma In_skipn_sub (A : Type) (k : nat) (l : list A) (y : A) :
  In y (skipn k l) -> In y l.
Proof.
  revert l. induction k as [|k IH]; intros l H; [exact H|].
  destruct l as [|z l]; [exact H|]. right. now apply IH.
Qed.

Definition mid (n j : nat) (old : str) : str :=
  if (j <=? n)%nat then ["."%char] else old.

(** [L] is not read inside [a]. *)
Fixpoint inside_free (L a : str) : bool :=
  match a with
  | [] => true
  | _ :: a' =>
    negb ((List.length L <=? List.length a)%nat && starts_with L a)
    && inside_free L a'
  end.

Definition free_check n fuel (j : nat) (L : str) : bool :=
  match L with
  | [] => false
  | l0 :: L' =>
    (Ascii.eqb l0 "_" || safe n fuel (Some (Ch l0)) L')
    && forallb (fun x => (rank x =? j)%nat
                         || suffixes_ok n fuel x L (render n x))
               (map Mk kinds ++ map Hon hons)
    && ((7 =? j)%nat
        || (negb (is_upper l0)
            || suffix_ok n fuel (Ini l0) L (render n (Ini l0)))
           && suffixes_ok n fuel (Ini "A") L (mid n 7 INITIAL))
    && ((6 =? j)%nat
        || forallb (fun c => negb (is_digit c)) L
           && inside_free L (mid n 6 DECIMAL))
  end.

Lemma inside_free_sound L : forall a a1 a2,
  inside_free L a = true -> a = (a1 ++ a2)%list -> a2 <> [] ->
  (List.length L <=? List.length a2)%nat && starts_with L a2 = false.
Proof.
  induction a as [|c a IH]; intros a1 a2 H E Hne.
  - destruct a1; destruct a2; try discriminate. congruence.
  - cbn [inside_free] in H. apply andb_prop in H as [H1 H2].
    destruct a1 as [|c1 a1].
    + cbn in E. subst a2. now apply negb_true_iff in H1.
    + cbn in E. injection E as -> E. now apply (IH a1 a2).
Qed.

Lemma starts_with_digit (L d s : str) :
  L <> [] -> forallb (fun c => negb (is_digit c)) L = true ->
  forallb is_digit d = true -> d <> [] ->
  starts_with L (d ++ s) = false.
Proof.
  intros HL0 HL Hd Hn. destruct d as [|c d]; [congruence|].
  destruct L as [|l0 L']; [congruence|].
  cbn in *. apply andb_prop in Hd as [Hd _].
  apply andb_prop in HL as [HL _].
  destruct (Ascii.eqb_spec l0 c) as [->|]; [|reflexivity].
  now rewrite Hd in HL.
Qed.

Lemma free_Dec n L d1 d2 :
  L <> [] ->
  forallb (fun c => negb (is_digit c)) L = true ->
  inside_free L (mid n 6 DECIMAL) = true ->
  item_okb (Dec d1 d2) = true -> free n L (Dec d1 d2).
Proof.
  intros HL0 HL HX Hok r a1 a2 Hc E Hne.
  cbn in Hok. apply andb_prop in Hok as [Hd1 Hd2].
  assert (Hn2 : d2 <> []) by (destruct d2; [discriminate Hd2|discriminate]).
  apply digits_all in Hd1. apply digits_all in Hd2.
  change (render n (Dec d1 d2))
    with (d1 ++ mid n 6 DECIMAL ++ d2)%list in E.
  set (X := mid n 6 DECIMAL) in *.
  assert (Hmid : forall pre sx, X = (pre ++ sx)%list ->
                   starts_with L (sx ++ d2 ++ flat n r) = false).
  { intros pre sx EX. destruct sx as [|s0 sx].
    - cbn [app]. now apply starts_with_digit.
    - pose proof (@inside_free_sound L X pre (s0 :: sx) HX EX) as Hi.
      rewrite starts_with_app.
      destruct (List.length L <=? List.length (s0 :: sx))%nat eqn:El.
      + cbn [andb] in Hi. apply Hi. discriminate.
      + apply Nat.leb_gt in El.
        destruct (skipn (List.length (s0 :: sx)) L) as [|q Q] eqn:Es.
        * apply (f_equal (@List.length ascii)) in Es.
          rewrite length_skipn in Es. cbn [List.length] in *. lia.
        * assert (Hq : forallb (fun c => negb (is_digit c)) (q :: Q) = true).
          { rewrite <- Es. rewrite forallb_forall in *. intros y Hy.
            apply HL. eapply In_skipn_sub. exact Hy. }
          rewrite (@starts_with_digit (q :: Q) d2 (flat n r));
            [apply andb_false_r|discriminate|assumption..]. }
  apply app_eq_app in E as [l [[E1 E2]|[E1 E2]]].
  - (* a2 begins inside d1 *)
    subst a2. destruct l as [|c l].
    + cbn [app]. rewrite <- app_assoc. apply (Hmid [] X). reflexivity.
    + rewrite <- app_assoc. apply starts_with_digit; auto; [|discriminate].
      rewrite E1, forallb_app in Hd1.
      now apply andb_prop in Hd1 as [_ Hd1].
  - apply app_eq_app in E2 as [l' [[E3 E4]|[E3 E4]]].
    + subst a2. rewrite <- app_assoc. apply (Hmid l l'). assumption.
    + apply starts_with_digit; auto.
      rewrite E4, forallb_app in Hd2.
      now apply andb_prop in Hd2 as [_ Hd2].
Qed.

Lemma free_sound n fuel j L :
  free_check n fuel j L = true ->
  forall x, item_okb x = true -> rank x <> j -> free n L x.
Proof.
  intros H x Hok Hr. destruct L as [|l0 L']; [discriminate|].
  cbn [free_check] in H.
  apply andb_prop in H as [H Hdec]. apply andb_prop in H as [H Hini].
  apply andb_prop in H as [Hch Hall].
  rewrite forallb_forall in Hall.
  assert (Hcon : forall y, In y (map Mk kinds ++ map Hon hons) ->
                           rank y <> j -> free n (l0 :: L') y).
  { intros y Hy Hj r a1 a2 Hc E Hne. specialize (Hall y Hy).
    apply Nat.eqb_neq in Hj. rewrite Hj in Hall. cbn [orb] in Hall.
    now apply (@suffixes_ok_sound n fuel y (l0 :: L') (render n y) r a1 a2). }
  destruct x as [c|k|h|d1 d2|c].
  - intros r a1 a2 Hc E Hne.
    destruct a1 as [|c1 a1].
    + cbn in E. subst a2. cbn.
      destruct (Ascii.eqb_spec l0 c) as [->|]; [|reflexivity].
      cbn in Hok. apply negb_true_iff in Hok. rewrite Hok in Hch.
      cbn in Hch. apply (@safe_sound n fuel (Some (Ch c)) L' r Hch Hc).
    + cbn in E. injection E as _ E. destruct a1; destruct a2; try discriminate.
      congruence.
  - apply Hcon; [|assumption]. apply in_or_app. left. apply in_map.
    destruct k; cbn; tauto.
  - apply Hcon; [|assumption]. apply in_or_app. right. apply in_map.
    destruct h; cbn; tauto.
  - cbn in Hr. assert (E6 : (6 =? j)%nat = false) by now apply Nat.eqb_neq.
    rewrite E6 in Hdec. cbn [orb] in Hdec. apply andb_prop in Hdec as [H1 H2].
    apply free_Dec; [discriminate|assumption..].
  - cbn in Hr. assert (E7 : (7 =? j)%nat = false) by now apply Nat.eqb_neq.
    rewrite E7 in Hini. cbn [orb] in Hini. apply andb_prop in Hini as [H1 H2].
    intros r a1 a2 Hc E Hne.
    change (render n (Ini c)) with (c :: mid n 7 INITIAL) in E.
    destruct a1 as [|c1 a1].
    + cbn in E. subst a2.
      destruct (Ascii.eqb_spec l0 c) as [->|Hn].
      * cbn in Hok. rewrite Hok in H1. cbn [negb orb] in H1.
        now apply (@suffix_ok_sound n fuel (Ini c) (c :: L') _ r H1).
      * cbn. destruct (Ascii.eqb_spec l0 c); [contradiction|reflexivity].
    + cbn in E. injection E as _ E.
      rewrite (@suffixes_ok_ext n fuel (Ini "A") (Ini c)) in H2
        by (intros y; now destruct y).
      now apply (@suffixes_ok_sound n fuel (Ini c) (l0 :: L') (mid n 7 INITIAL) r a1 a2).
Qed.

(** ** The passes of [restore] *)

Lemma render_other n x : rank x <> S n -> render (S n) x = render n x.
Proof.
  intros H.
  destruct x as [c|k|h|d1 d2|c]; [reflexivity|destruct k|..];
    unfold render, rank in *;
    repeat match goal with
           | |- context [(?a <=? ?b)%nat] => destruct (Nat.leb_spec a b)
           end; try reflexivity; lia.
Qed.

Lemma render_marker n k :
  rank (Mk k) = S n ->
  render n (Mk k) = marker k /\ render (S n) (Mk k) = text_of k.
Proof.
  intros H. unfold render. rewrite H, Nat.leb_refl.
  now rewrite (proj2 (Nat.leb_gt (S n) n)) by lia.
Qed.

Lemma literal_restore_item n fuel k :
  rank (Mk k) = S n -> free_check n fuel (S n) (marker k) = true ->
  forall pv x r prev, chain pv (x :: r) ->
  exists prev',
    sub_from (m_literal false (marker k) (text_of k)) 0 prev
             (render n x ++ flat n r)
    = (render (S n) x
       ++ sub_from (m_literal false (marker k) (text_of k)) 0 prev'
                   (flat n r))%list.
Proof.
  intros Hk Hfree pv x r prev (Hok & Hp & Hc).
  destruct (Nat.eq_dec (rank x) (S n)) as [E|E].
  - assert (x = Mk k).
    { rewrite <- Hk in E. clear - E.
      destruct x as [c|k'|h|d1 d2|c]; destruct k; try destruct k';
        cbn in E; congruence. }
    subst x. destruct (@render_marker n k Hk) as [-> ->].
    destruct (marker k) as [|c a] eqn:Em; [destruct k; discriminate|].
    eexists. cbn [app]. eapply sub_from_match; [|reflexivity].
    unfold m_literal. cbn [negb orb andb].
    change (c :: a ++ flat n r)%list with ((c :: a) ++ flat n r)%list.
    now rewrite starts_with_refl.
  - rewrite (@render_other n x E). eexists. apply sub_from_copy.
    intros a1 a2 Ea Hne. unfold m_literal. cbn [negb orb andb].
    now rewrite (@free_sound n fuel (S n) (marker k) Hfree x Hok E r a1 a2 Hc Ea Hne).
Qed.

Lemma restore_literal n fuel k :
  rank (Mk k) = S n -> free_check n fuel (S n) (marker k) = true ->
  forall items, chain None items ->
    replace (marker k) (text_of k) (flat n items) = flat (S n) items.
Proof.
  intros Hk Hfree items Hc. unfold replace, re_sub.
  apply (@restore_items _ n (@literal_restore_item n fuel k Hk Hfree) items None None Hc).
Qed.

Lemma check_ET_AL : free_check 0 12 1 ET_AL_MARKER = true.
Proof. vm_compute. reflexivity. Qed.

Lemma check_EG : free_check 1 12 2 EG_MARKER = true.
Proof. vm_compute. reflexivity. Qed.

Lemma check_IE : free_check 2 12 3 IE_MARKER = true.
Proof. vm_compute. reflexivity. Qed.

Lemma check_CF : free_check 3 12 4 CF_MARKER = true.
Proof. vm_compute. reflexivity. Qed.

Lemma check_DOT : free_check 4 12 5 DOT_MARKER = true.
Proof. vm_compute. reflexivity. Qed.

Lemma check_INITIAL : free_check 6 12 7 INITIAL = true.
Proof. vm_compute. reflexivity. Qed.

Lemma check_PAREN_DOT : free_check 7 12 8 PAREN_DOT = true.
Proof. vm_compute. reflexivity. Qed.

(** A pattern that cannot begin with a character outside a class. *)
Lemma sub_from_copy_class (m : matcher) (f : ascii -> bool) (a s : str) prev :
  (forall c s' p, f c = false -> m p (c :: s') = None) ->
  forallb (fun c => negb (f c)) a = true ->
  sub_from m 0 prev (a ++ s) = (a ++ sub_from m 0 (last_char prev a) s)%list.
Proof.
  intros Hm Ha. apply sub_from_copy. intros a1 a2 -> Hne.
  destruct a2 as [|c a2]; [congruence|].
  rewrite forallb_app in Ha. apply andb_prop in Ha as [_ Ha].
  cbn in Ha. apply andb_prop in Ha as [Ha _].
  apply negb_true_iff in Ha. now apply Hm.
Qed.

(** *** Honorifics *)

Definition unmarked (s : str) : Prop :=
  forall k, (k <= List.length (fst (span is_word s)))%nat ->
            starts_with DOT_MARKER (skipn k s) = false.

Lemma last_marker_none (s : str) : forall K,
  (forall k, (1 <= k <= K)%nat -> starts_with DOT_MARKER (skipn k s) = false) ->
  last_marker_at K s = None.
Proof.
  induction K as [|K IH]; intros H; [reflexivity|].
  cbn [last_marker_at]. rewrite (H (S K)) by lia. apply IH.
  intros k Hk. apply H. lia.
Qed.

Lemma m_restore_dot_unmarked prev s : unmarked s -> m_restore_dot prev s = None.
Proof.
  intros H. unfold m_restore_dot.
  destruct (span is_word s) as [run rest] eqn:E.
  rewrite last_marker_none; [reflexivity|].
  intros k Hk. apply H. rewrite E. cbn. lia.
Qed.

Lemma unmarked_cons c s :
  starts_with DOT_MARKER (c :: s) = false ->
  (is_word c = true -> unmarked s) -> unmarked (c :: s).
Proof.
  intros H0 Hs k Hk. destruct k as [|k]; [exact H0|].
  cbn [span] in Hk. destruct (is_word c) eqn:Ec.
  - destruct (span is_word s) as [a b] eqn:E. cbn in Hk.
    cbn [skipn]. apply (Hs eq_refl). rewrite E. cbn. lia.
  - cbn in Hk. lia.
Qed.

Lemma unmarked_app (a s : str) :
  (forall a1 a2, a = (a1 ++ a2)%list -> a2 <> [] ->
                 starts_with DOT_MARKER (a2 ++ s) = false) ->
  (forallb is_word a = true -> a <> [] -> unmarked s) ->
  a <> [] -> unmarked (a ++ s).
Proof.
  induction a as [|c a IH]; intros H Hs Hne; [congruence|].
  cbn [app]. apply unmarked_cons.
  - apply (H [] (c :: a)); [reflexivity|discriminate].
  - intros Hc. destruct a as [|c' a'].
    + apply Hs; [cbn; now rewrite Hc|discriminate].
    + apply IH.
      * intros a1 a2 E Hn. apply (H (c :: a1) a2); [now rewrite E|assumption].
      * intros Ha _. apply Hs; [cbn [forallb]; now rewrite Hc|discriminate].
      * discriminate.
Qed.

Definition is_Hon (x : item) : bool :=
  match x with Hon _ => true | _ => false end.

Lemma render_nonempty n x : item_okb x = true -> render n x <> [].
Proof.
  destruct x as [c|k|h|d1 d2|c]; cbn [render item_okb]; intros H.
  - discriminate.
  - destruct k; cbn [rank]; destruct (_ <=? n)%nat; discriminate.
  - destruct h; discriminate.
  - apply andb_prop in H as [H _]. apply digits_cons in H as (c & d & -> & _).
    discriminate.
  - discriminate.
Qed.

Lemma unmarked_after n x r :
  chain (Some x) r -> is_Hon x = false ->
  (match r with Hon _ :: _ => True | _ => unmarked (flat n r) end) ->
  forall a1 a2, render n x = (a1 ++ a2)%list -> a2 <> [] ->
                forallb is_word a2 = true -> unmarked (flat n r).
Proof.
  intros Hc Hx Hr a1 a2 E Hne Hw.
  destruct r as [|y r]; [exact Hr|].
  destruct y as [c|k|h|d1 d2|c]; try exact Hr.
  exfalso. destruct Hc as (_ & Hp & _).
  destruct x as [c|k|h'|d1 d2|c]; try discriminate.
  cbn in Hp, E. destruct a1 as [|c1 a1].
  - cbn in E. subst a2. cbn in Hw. rewrite andb_true_r in Hw.
    now rewrite Hw in Hp.
  - injection E as _ E. destruct a1; destruct a2; try discriminate.
    congruence.
Qed.

Lemma unmarked_items : forall items pv,
  chain pv items ->
  match items with Hon _ :: _ => True | _ => unmarked (flat 4 items) end.
Proof.
  induction items as [|x r IH]; intros pv Hc.
  - intros k _. now destruct k.
  - destruct Hc as (Hok & Hp & Hc).
    specialize (IH (Some x) Hc).
    assert (Hx : is_Hon x = false -> unmarked (flat 4 (x :: r))).
    { intros Hx. rewrite flat_cons. apply unmarked_app.
      - intros a1 a2 E Hne.
        assert (Hr : rank x <> 5)
          by (destruct x as [|k| | |]; try destruct k; cbn in *; congruence).
        apply (@free_sound 4 12 5 DOT_MARKER check_DOT x Hok Hr r a1 a2 Hc E
                           Hne).
      - intros Hw _.
        apply (@unmarked_after 4 x r Hc Hx IH [] (render 4 x));
          [reflexivity|now apply render_nonempty|assumption].
      - now apply render_nonempty. }
    destruct x; try exact I; now apply Hx.
Qed.

Lemma restore_dot_hon h s prev :
  sub_from m_restore_dot 0 prev
           (hon_str h ++ DOT_MARKER ++ " "%char :: s)
  = (hon_str h ++ "."%char :: " "%char
     :: sub_from m_restore_dot 0 (Some " "%char) s)%list.
Proof. destruct h; reflexivity. Qed.

Lemma restore_dot_item pv x r prev :
  chain pv (x :: r) ->
  exists prev',
    sub_from m_restore_dot 0 prev (render 4 x ++ flat 4 r)
    = (render 5 x ++ sub_from m_restore_dot 0 prev' (flat 4 r))%list.
Proof.
  intros (Hok & Hp & Hc).
  destruct (is_Hon x) eqn:Hx.
  - destruct x as [c|k|h|d1 d2|c]; try discriminate.
    exists (Some " "%char).
    change (render 4 (Hon h)) with (hon_str h ++ DOT_MARKER ++ [" "%char])%list.
    change (render 5 (Hon h)) with (hon_str h ++ ["."%char] ++ [" "%char])%list.
    rewrite <- !app_assoc. cbn [app].
    rewrite restore_dot_hon. reflexivity.
  - assert (Hr : rank x <> 5)
      by (destruct x as [|k| | |]; try destruct k; cbn in *; congruence).
    rewrite (@render_other 4 x Hr). eexists. apply sub_from_copy.
    intros a1 a2 E Hne. apply m_restore_dot_unmarked. apply unmarked_app.
    + intros b1 b2 Eb Hnb.
      apply (@free_sound 4 12 5 DOT_MARKER check_DOT x Hok Hr r (a1 ++ b1) b2 Hc);
        [now rewrite E, Eb, app_assoc|assumption].
    + intros Hw _.
      apply (@unmarked_after 4 x r Hc Hx (@unmarked_items r (Some x) Hc) a1 a2 E Hne Hw).
    + assumption.
Qed.

(** *** Decimals *)

Lemma m_restore_decimal_nondigit p c s :
  is_digit c = false -> m_restore_decimal p (c :: s) = None.
Proof.
  intros H. unfold m_restore_decimal. cbn [span]. now rewrite H.
Qed.

Lemma underscore_not_digit c : is_digit c = true -> Ascii.eqb "_" c = false.
Proof. classes. Qed.

Lemma underscore_not_upper c : is_upper c = true -> Ascii.eqb "_" c = false.
Proof. classes. Qed.

Lemma no_decimal_after_digits : forall r pv,
  chain pv r -> holds is_digit_Ch pv = true ->
  starts_with DECIMAL (snd (span is_digit (flat 5 r))) = false.
Proof.
  induction r as [|x r IH]; intros pv Hc Hpv; [reflexivity|].
  destruct Hc as (Hok & Hp & Hc).
  destruct x as [c|k|h|d1 d2|c].
  - cbn [flat flat_map render app span].
    destruct (is_digit c) eqn:Ed.
    + specialize (IH (Some (Ch c)) Hc Ed). fold (flat 5 r).
      now destruct (span is_digit (flat 5 r)).
    + unfold DECIMAL, lit. cbn [snd list_ascii_of_string starts_with].
      cbn in Hok. rewrite Ascii.eqb_sym.
      apply negb_true_iff in Hok. now rewrite Hok.
  - destruct k; reflexivity.
  - destruct h; reflexivity.
  - cbn in Hp. rewrite Hpv in Hp. now rewrite andb_false_r in Hp.
  - cbn in Hok. cbn [flat flat_map render app span Nat.leb].
    rewrite (upper_not_digit _ Hok).
    unfold DECIMAL, lit. cbn [snd list_ascii_of_string starts_with].
    now rewrite (underscore_not_upper _ Hok).
Qed.

Lemma m_restore_decimal_digit pv c r p :
  chain pv (Ch c :: r) -> is_digit c = true ->
  m_restore_decimal p (c :: flat 5 r) = None.
Proof.
  intros (_ & _ & Hc) Hd.
  pose proof (@no_decimal_after_digits r (Some (Ch c)) Hc Hd) as H.
  unfold m_restore_decimal. cbn [span]. rewrite Hd.
  destruct (span is_digit (flat 5 r)) as [a b]. cbn [snd] in H. now rewrite H.
Qed.

Lemma m_restore_decimal_match d1 d2 s p :
  digits d1 = true -> digits d2 = true ->
  match s with c :: _ => is_digit c = false | [] => True end ->
  m_restore_decimal p (d1 ++ DECIMAL ++ d2 ++ s)
  = Some ((List.length d1 + List.length DECIMAL + List.length d2)%nat,
          (d1 ++ ["."%char] ++ d2)%list).
Proof.
  intros H1 H2 Hs. unfold m_restore_decimal.
  rewrite span_prefix; [|now apply digits_all|reflexivity].
  destruct d1 as [|c1 d1]; [discriminate|].
  rewrite starts_with_refl.
  change (skipn (List.length DECIMAL) (DECIMAL ++ d2 ++ s))
    with (d2 ++ s)%list.
  rewrite span_prefix; [|now apply digits_all|assumption].
  destruct d2 as [|c2 d2]; [discriminate|]. reflexivity.
Qed.

Lemma after_Dec_nondigit n d1 d2 r :
  chain (Some (Dec d1 d2)) r ->
  match flat n r with c :: _ => is_digit c = false | [] => True end.
Proof.
  destruct r as [|y r]; [exact (fun _ => I)|].
  intros (Hok & Hp & _). rewrite flat_cons.
  destruct y as [c|k|h|e1 e2|c].
  - cbn [render app].
    unfold pair_okb, holds, dot_ending, is_Dec in Hp.
    rewrite andb_false_r, andb_true_r in Hp. cbn [negb andb] in Hp.
    now apply negb_true_iff in Hp.
  - destruct k; cbn [render rank]; destruct (_ <=? n)%nat; reflexivity.
  - destruct h; reflexivity.
  - discriminate.
  - cbn [render app]. now apply upper_not_digit.
Qed.

Lemma restore_decimal_item pv x r prev :
  chain pv (x :: r) ->
  exists prev',
    sub_from m_restore_decimal 0 prev (render 5 x ++ flat 5 r)
    = (render 6 x ++ sub_from m_restore_decimal 0 prev' (flat 5 r))%list.
Proof.
  intros Hc. pose proof Hc as (Hok & Hp & Hc').
  destruct x as [c|k|h|d1 d2|c].
  - eexists. cbn [render app]. apply sub_from_none.
    destruct (is_digit c) eqn:Ed.
    + now apply (@m_restore_decimal_digit pv c r prev).
    + now apply m_restore_decimal_nondigit.
  - rewrite (@render_other 5 (Mk k)) by (destruct k; discriminate).
    eexists. apply sub_from_copy_class with (f := is_digit).
    + intros. now apply m_restore_decimal_nondigit.
    + destruct k; reflexivity.
  - rewrite (@render_other 5 (Hon h)) by discriminate.
    eexists. apply sub_from_copy_class with (f := is_digit).
    + intros. now apply m_restore_decimal_nondigit.
    + destruct h; reflexivity.
  - cbn in Hok. apply andb_prop in Hok as [H1 H2].
    change (render 5 (Dec d1 d2)) with (d1 ++ DECIMAL ++ d2)%list.
    change (render 6 (Dec d1 d2)) with (d1 ++ ["."%char] ++ d2)%list.
    pose proof (@m_restore_decimal_match d1 d2 (flat 5 r) prev H1 H2
                  (@after_Dec_nondigit 5 d1 d2 r Hc')) as Hm.
    destruct (digits_cons _ H1) as (c1 & d1' & E1 & _).
    subst d1. exists (last_char (Some c1) (d1' ++ DECIMAL ++ d2)).
    change (((c1 :: d1') ++ DECIMAL ++ d2) ++ flat 5 r)%list
      with (c1 :: (d1' ++ DECIMAL ++ d2) ++ flat 5 r)%list.
    replace ((c1 :: d1') ++ DECIMAL ++ d2 ++ flat 5 r)%list
      with (c1 :: (d1' ++ DECIMAL ++ d2) ++ flat 5 r)%list in Hm
      by (cbn [app]; now rewrite <- !app_assoc).
    rewrite (@sub_from_match m_restore_decimal prev c1 _ _ _ _ Hm);
      [reflexivity|].
    rewrite !length_app. cbn [List.length]. lia.
  - rewrite (@render_other 5 (Ini c)) by discriminate.
    eexists. apply sub_from_copy_class with (f := is_digit).
    + intros. now apply m_restore_decimal_nondigit.
    + cbn in Hok. cbn. now rewrite (upper_not_digit _ Hok).
Qed.

(** *** Initials *)

Lemma no_initial_ahead pv r :
  chain pv r -> starts_with INITIAL (flat 6 r) = false.
Proof.
  destruct r as [|y r]; [reflexivity|].
  intros (Hok & _ & _). rewrite flat_cons.
  destruct y as [c|k|h|d1 d2|c].
  - cbn in Hok. cbn [render app]. unfold INITIAL, lit.
    cbn [list_ascii_of_string starts_with].
    rewrite Ascii.eqb_sym. apply negb_true_iff in Hok.
    now rewrite Hok.
  - destruct k; reflexivity.
  - destruct h; reflexivity.
  - cbn in Hok. apply andb_prop in Hok as [H1 _].
    apply digits_cons in H1 as (c1 & d1' & -> & Hd & _).
    cbn [render app]. unfold INITIAL at 1, lit.
    cbn [list_ascii_of_string starts_with].
    now rewrite (underscore_not_digit _ Hd).
  - cbn in Hok. cbn [render app]. unfold INITIAL at 1, lit.
    cbn [list_ascii_of_string starts_with].
    now rewrite (underscore_not_upper _ Hok).
Qed.

Lemma restore_initial_item pv x r prev :
  chain pv (x :: r) ->
  exists prev',
    sub_from m_restore_initial 0 prev (render 6 x ++ flat 6 r)
    = (render 7 x ++ sub_from m_restore_initial 0 prev' (flat 6 r))%list.
Proof.
  intros (Hok & Hp & Hc).
  destruct (Nat.eq_dec (rank x) 7) as [E|E].
  - destruct x as [c|k|h|d1 d2|c]; try destruct k; try discriminate.
    cbn in Hok. eexists.
    change (render 6 (Ini c)) with (c :: INITIAL).
    change (render 7 (Ini c)) with [c; "."%char].
    cbn [app].
    assert (Hm : m_restore_initial prev (c :: INITIAL ++ flat 6 r)
                 = Some ((1 + List.length INITIAL)%nat, [c; "."%char])).
    { unfold m_restore_initial. now rewrite Hok, starts_with_refl. }
    rewrite (@sub_from_match m_restore_initial prev c _ _ _ _ Hm);
      reflexivity.
  - rewrite (@render_other 6 x E). eexists. apply sub_from_copy.
    intros a1 a2 Ea Hne. destruct a2 as [|c a2]; [congruence|].
    cbn [app]. unfold m_restore_initial.
    destruct (is_upper c); [|reflexivity]. cbn [andb].
    destruct a2 as [|c2 a2].
    + cbn [app]. now rewrite (@no_initial_ahead (Some x) r Hc).
    + rewrite (@free_sound 6 12 7 INITIAL check_INITIAL x Hok E r
                           (a1 ++ [c]) (c2 :: a2) Hc);
        [reflexivity|now rewrite Ea, <- app_assoc|discriminate].
Qed.

(** *** All of [restore] *)

Lemma restore_flat items :
  chain None items -> restore (flat 0 items) = flat 8 items.
Proof.
  intros Hc. unfold restore. cbv zeta.
  change (replace ET_AL_MARKER (lit "et al."))
    with (replace (marker ETAL) (text_of ETAL)).
  change (replace EG_MARKER (lit "e.g."))
    with (replace (marker EG) (text_of EG)).
  change (replace IE_MARKER (lit "i.e."))
    with (replace (marker IE) (text_of IE)).
  change (replace CF_MARKER (lit "cf."))
    with (replace (marker CF) (text_of CF)).
  change (replace PAREN_DOT (lit "."))
    with (replace (marker PDOT) (text_of PDOT)).
  rewrite (@restore_literal 0 12 ETAL eq_refl check_ET_AL items Hc).
  rewrite (@restore_literal 1 12 EG eq_refl check_EG items Hc).
  rewrite (@restore_literal 2 12 IE eq_refl check_IE items Hc).
  rewrite (@restore_literal 3 12 CF eq_refl check_CF items Hc).
  unfold re_sub.
  rewrite (@restore_items _ 4 restore_dot_item items None None Hc).
  rewrite (@restore_items _ 5 restore_decimal_item items None None Hc).
  rewrite (@restore_items _ 6 restore_initial_item items None None Hc).
  apply (@restore_literal 7 12 PDOT eq_refl check_PAREN_DOT items Hc).
Qed.

(** ** The passes of [protect] *)

(** Characters with which no marker, honorific, number or initial
    begins. *)
Definition plain_only (c : ascii) : bool :=
  negb (is_upper c || is_digit c || Ascii.eqb c "_").

Lemma space_plain_only c : is_space c = true -> plain_only c = true.
Proof. unfold plain_only. classes. Qed.

Lemma render_head x :
  item_okb x = true ->
  match x with
  | Ch _ => True
  | _ => exists c t, render 0 x = c :: t /\ plain_only c = false
  end.
Proof.
  destruct x as [c|k|h|d1 d2|c]; intros H; [exact I|..].
  - destruct k; eexists; eexists; split; reflexivity.
  - destruct h; eexists; eexists; split; reflexivity.
  - cbn in H. apply andb_prop in H as [H _].
    apply digits_cons in H as (c & d & -> & Hc & _).
    exists c. eexists. split; [reflexivity|].
    unfold plain_only. rewrite Hc. now rewrite orb_true_r.
  - cbn in H. exists c. eexists. split; [reflexivity|].
    unfold plain_only. now rewrite H.
Qed.

Lemma flat_head_plain pv items c s :
  chain pv items -> flat 0 items = c :: s -> plain_only c = true ->
  exists r, items = Ch c :: r /\ s = flat 0 r.
Proof.
  destruct items as [|x r]; [discriminate|].
  intros (Hok & _ & _) E Hc. rewrite flat_cons in E.
  pose proof (@render_head x Hok) as Hx.
  destruct x as [c'|k|h|d1 d2|c'].
  - cbn in E. injection E as -> E. now exists r.
  - destruct Hx as (c0 & t & Er & Hp). rewrite Er in E. cbn in E.
    injection E as -> _. congruence.
  - destruct Hx as (c0 & t & Er & Hp). rewrite Er in E. cbn in E.
    injection E as -> _. congruence.
  - destruct Hx as (c0 & t & Er & Hp). rewrite Er in E. cbn in E.
    injection E as -> _. congruence.
  - destruct Hx as (c0 & t & Er & Hp). rewrite Er in E. cbn in E.
    injection E as -> _. congruence.
Qed.

Lemma starts_with_plain : forall pat pv items,
  forallb plain_only pat = true -> chain pv items ->
  starts_with pat (flat 0 items) = true ->
  exists rest, items = (map Ch pat ++ rest)%list.
Proof.
  induction pat as [|p pat IH]; intros pv items Hp Hc H.
  - now exists items.
  - cbn in Hp. apply andb_prop in Hp as [Hp0 Hp].
    destruct (flat 0 items) as [|c s] eqn:E; [discriminate|].
    cbn in H. apply andb_prop in H as [Hpc H].
    apply Ascii.eqb_eq in Hpc. subst c.
    destruct (@flat_head_plain pv items p s Hc E Hp0) as (r & -> & ->).
    destruct Hc as (_ & _ & Hc).
    destruct (IH (Some (Ch p)) r Hp Hc H) as (rest & ->).
    now exists rest.
Qed.

Lemma wc_last_Ch : forall s pv prev,
  is_word_opt prev = wc pv ->
  is_word_opt (last_char prev s) = wc (last_item pv (map Ch s)).
Proof.
  induction s as [|c s IH]; intros pv prev H; [exact H|].
  cbn. apply IH. reflexivity.
Qed.

Lemma pair_okb_Mk pv k : pair_okb pv (Mk k) = true.
Proof. reflexivity. Qed.

Lemma pair_okb_Ini pv c : pair_okb pv (Ini c) = true.
Proof. reflexivity. Qed.

Lemma pair_okb_dot (x y : item) :
  dot_ending x = true -> is_digit_Ch x = false -> is_Dec x = false ->
  pair_okb (Some (Ch ".")) y = true -> pair_okb (Some x) y = true.
Proof.
  intros Hx Hd He. destruct y as [c|k|h|d1 d2|c]; unfold pair_okb, holds.
  - rewrite Hx, He. exact (fun H => H).
  - reflexivity.
  - discriminate.
  - now rewrite Hd, He.
  - reflexivity.
Qed.

Lemma head_ok_dot x l :
  dot_ending x = true -> is_digit_Ch x = false -> is_Dec x = false ->
  head_ok (Some (Ch ".")) l -> head_ok (Some x) l.
Proof.
  intros Hx Hd He. destruct l as [|y l]; [exact (fun H => H)|].
  now apply pair_okb_dot.
Qed.

Lemma stage_all l : stage 8 l.
Proof.
  unfold stage. apply forallb_forall. intros x _.
  destruct x as [c|k|h|d1 d2|c]; try destruct k; reflexivity.
Qed.

Lemma stage_Ch n s : stage n (map Ch s).
Proof.
  unfold stage. apply forallb_forall. intros x Hx.
  apply in_map_iff in Hx as (c & <- & _). reflexivity.
Qed.

(** *** The four abbreviations *)

Lemma m_literal_first b p pat repl prev c s :
  Ascii.eqb c p = false -> m_literal b (p :: pat) repl prev (c :: s) = None.
Proof.
  intros H. unfold m_literal. cbn [starts_with].
  rewrite Ascii.eqb_sym, H. cbn [andb]. now rewrite andb_false_r.
Qed.

Lemma m_literal_boundary pat repl :
  by_boundary (m_literal true pat repl).
Proof.
  intros p p' s H. unfold m_literal, boundary. now rewrite H.
Qed.

Definition abbreviation (k : kind) : bool :=
  match k with PDOT => false | _ => true end.

Definition St_head (pvo pvn : option item) (l : list item) : Prop :=
  head_ok pvn l.

Lemma rank_stage n x r : stage n (x :: r) -> (rank x <= n)%nat.
Proof.
  unfold stage. cbn [forallb]. intros H. apply andb_prop in H as [H _].
  now apply Nat.leb_le.
Qed.

Lemma abbreviation_through k k' s prev :
  abbreviation k = true ->
  sub_from (m_literal true (text_of k) (marker k)) 0 prev (marker k' ++ s)
  = (marker k'
     ++ sub_from (m_literal true (text_of k) (marker k)) 0
                 (last_char prev (marker k')) s)%list.
Proof.
  intros Hk.
  destruct k; try discriminate.
  - apply sub_from_copy_class with (f := fun c => Ascii.eqb c "e");
      [intros; now apply m_literal_first|destruct k'; reflexivity].
  - apply sub_from_copy_class with (f := fun c => Ascii.eqb c "e");
      [intros; now apply m_literal_first|destruct k'; reflexivity].
  - apply sub_from_copy_class with (f := fun c => Ascii.eqb c "i");
      [intros; now apply m_literal_first|destruct k'; reflexivity].
  - apply sub_from_copy_class with (f := fun c => Ascii.eqb c "c");
      [intros; now apply m_literal_first|destruct k'; reflexivity].
Qed.

Lemma abbreviation_chunk k n :
  abbreviation k = true -> rank (Mk k) = S n ->
  forall pvo pvn prev x r,
  chain pvo (x :: r) -> stage n (x :: r) -> St_head pvo pvn (x :: r) ->
  is_word_opt prev = wc pvo ->
  step (m_literal true (text_of k) (marker k)) n St_head pvo pvn prev
       (x :: r).
Proof.
  intros Hk Hn pvo pvn prev x r Hc Hs Hh Hp.
  set (m := m_literal true (text_of k) (marker k)).
  assert (Hr : chain (Some x) r) by (cbn in Hc; tauto).
  pose proof (rank_stage Hs) as Hrank.
  assert (Hn3 : (n <= 3)%nat) by (destruct k; cbn in Hn; try discriminate; lia).
  destruct x as [c|k'|h|d1 d2|c]; try (cbn in Hrank; lia).
  - (* a plain character *)
    destruct (boundary prev (flat 0 (Ch c :: r))
              && starts_with (text_of k) (flat 0 (Ch c :: r))) eqn:Eb.
    + apply andb_prop in Eb as [Eb Esw].
      destruct (@starts_with_plain (text_of k) pvo (Ch c :: r)) as (rest & E);
        [destruct k; reflexivity|assumption..|].
      rewrite E in *. rewrite flat_app, flat_Ch in *.
      exists (map Ch (text_of k)), [Mk k], rest.
      exists (last_char prev (text_of k)).
      split; [reflexivity|]. split; [destruct k; discriminate|].
      split; [|split; [|split; [|split; [|split]]]].
      * rewrite flat_app, flat_Ch. rewrite sub_from_match_app with (out := marker k).
        -- cbn [flat flat_map]. rewrite app_nil_r.
           now replace (render 0 (Mk k)) with (marker k) by (destruct k; reflexivity).
        -- destruct k; discriminate.
        -- unfold m, m_literal. cbn [negb orb]. now rewrite Eb, Esw.
      * now apply wc_last_Ch.
      * cbn. tauto.
      * unfold stage. cbn [forallb]. rewrite Hn, Nat.leb_refl. reflexivity.
      * cbn [flat flat_map]. rewrite flat_Ch, app_nil_r.
        now replace (render 8 (Mk k)) with (text_of k) by (destruct k; reflexivity).
      * unfold St_head. cbn [last_item fold_left].
        apply chain_app in Hc as [_ Hc]. apply chain_head in Hc.
        replace (last_item pvo (map Ch (text_of k))) with (Some (Ch "."))
          in Hc by (destruct k; try discriminate; reflexivity).
        now apply head_ok_dot.
    + apply (@step_copy m n St_head pvo pvn prev (Ch c) r (Some c));
        [assumption..| |reflexivity|now apply chain_head].
      rewrite flat_cons. cbn [render app]. apply sub_from_none.
      unfold m, m_literal. cbn [negb orb]. fold (flat 0 r).
      change (c :: flat 0 r) with (flat 0 (Ch c :: r)). now rewrite Eb.
  - (* a marker *)
    assert (Er : render 0 (Mk k') = marker k') by (destruct k'; reflexivity).
    apply (@step_copy m n St_head pvo pvn prev (Mk k') r
                      (last_char prev (marker k')));
      [assumption..| | |now apply chain_head].
    + rewrite flat_cons, Er. now apply abbreviation_through.
    + destruct k'; reflexivity.
Qed.

Lemma abbreviation_pass k n :
  abbreviation k = true -> rank (Mk k) = S n ->
  forall items, chain None items -> stage n items ->
  exists items',
    re_sub (m_literal true (text_of k) (marker k)) (flat 0 items)
    = flat 0 items' /\
    chain None items' /\ stage (S n) items' /\
    non_space (flat 8 items') = non_space (flat 8 items).
Proof.
  intros Hk Hn items Hc Hs.
  apply (@pass_items _ n St_head (@abbreviation_chunk k n Hk Hn) items
                     None None None Hc Hs);
    [now apply chain_head|reflexivity].
Qed.

(** *** Honorifics *)

(** Copying [a] when no match begins at its first character and the
    rest is decided by the characters themselves. *)
Lemma sub_from_through (m : matcher) prev c a s p' :
  m prev (c :: a ++ s)%list = None ->
  sub_from m 0 (Some c) (a ++ s) = (a ++ sub_from m 0 p' s)%list ->
  sub_from m 0 prev ((c :: a) ++ s)
  = ((c :: a) ++ sub_from m 0 p' s)%list.
Proof.
  intros H1 H2. cbn [app]. rewrite sub_from_none by assumption.
  now rewrite H2.
Qed.

Definition St_hon (pvo pvn : option item) (l : list item) : Prop :=
  head_ok pvn l /\
  (wc pvo = false -> holds dot_ending pvo = false ->
   pair_okb pvn (Hon Mr) = true).

Lemma St_hon_same x r :
  chain (Some x) r -> St_hon (Some x) (Some x) r.
Proof.
  intros Hc. split; [now apply chain_head|].
  destruct x as [c|k|h|d1 d2|c]; cbn; try discriminate; [|reflexivity].
  intros -> ->. reflexivity.
Qed.

Lemma m_honorific_none prev s :
  first_honorific honorifics s = None -> m_honorific prev s = None.
Proof.
  intros H. unfold m_honorific. rewrite H. now destruct (boundary prev s).
Qed.

Lemma first_honorific_inv s hs :
  first_honorific honorifics s = Some hs ->
  exists h, hs = hon_str h /\
            starts_with (hon_str h ++ ["."%char]) s = true /\
            match skipn (List.length (hon_str h) + 1) s with
            | w :: _ => is_space w
            | [] => false
            end = true.
Proof.
  unfold honorifics. cbn [first_honorific].
  repeat match goal with
         | |- (if ?b then _ else _) = _ -> _ =>
           let E := fresh "E" in
           destruct b eqn:E;
             [apply andb_prop in E as [? ?]; intros [= <-]|]
         end; try discriminate.
  - now exists Mr.
  - now exists Mrs.
  - now exists Ms.
  - now exists Dr.
  - now exists Prof.
  - now exists Sr.
  - now exists Jr.
Qed.

Lemma honorific_through k s prev :
  abbreviation k = true ->
  sub_from m_honorific 0 prev (marker k ++ s)
  = (marker k ++ sub_from m_honorific 0 (Some "R"%char) s)%list.
Proof.
  intros Hk. destruct k; try discriminate;
    (apply sub_from_through;
     [apply m_honorific_none; reflexivity|reflexivity]).
Qed.

Lemma honorific_items h pvo c r :
  chain pvo (Ch c :: r) ->
  starts_with (hon_str h ++ ["."%char]) (flat 0 (Ch c :: r)) = true ->
  match skipn (List.length (hon_str h) + 1) (flat 0 (Ch c :: r)) with
  | w :: _ => is_space w
  | [] => false
  end = true ->
  exists w rest,
    Ch c :: r = (map Ch (hon_str h ++ ["."%char]) ++ Ch w :: rest)%list /\
    is_space w = true.
Proof.
  intros Hc Hsw Hsp.
  destruct (hon_str h ++ ["."%char])%list as [|c0 t] eqn:Eh;
    [destruct h; discriminate|].
  rewrite flat_cons in Hsw, Hsp. cbn [render app starts_with] in Hsw, Hsp.
  apply andb_prop in Hsw as [Hc0 Hsw]. apply Ascii.eqb_eq in Hc0. subst c0.
  destruct Hc as (_ & _ & Hc).
  destruct (@starts_with_plain t (Some (Ch c)) r) as (r1 & ->);
    [destruct h; injection Eh as _ <-; reflexivity|assumption..|].
  rewrite flat_app, flat_Ch in Hsp.
  assert (El : (List.length (hon_str h) + 1 = S (List.length t))%nat).
  { apply (f_equal (@List.length ascii)) in Eh.
    rewrite length_app in Eh. exact Eh. }
  rewrite El in Hsp. cbn [skipn] in Hsp.
  rewrite skipn_app, Nat.sub_diag, skipn_all in Hsp. cbn [app skipn] in Hsp.
  apply chain_app in Hc as [_ Hc].
  destruct (flat 0 r1) as [|w s'] eqn:Er1; [discriminate|].
  destruct (@flat_head_plain _ r1 w s' Hc Er1 (space_plain_only _ Hsp))
    as (rest & -> & _).
  exists w, rest. split; [reflexivity|assumption].
Qed.

Lemma head_ok_Hon h l : head_ok (Some (Hon h)) l.
Proof.
  destruct l as [|y l]; [exact I|].
  destruct y as [c|k|h'|d1 d2|c]; cbn; try reflexivity.
  now rewrite !andb_false_r.
Qed.

Lemma honorific_chunk pvo pvn prev x r :
  chain pvo (x :: r) -> stage 4 (x :: r) -> St_hon pvo pvn (x :: r) ->
  is_word_opt prev = wc pvo ->
  step m_honorific 4 St_hon pvo pvn prev (x :: r).
Proof.
  intros Hc Hs [Hh Hl] Hp.
  assert (Hr : chain (Some x) r) by (cbn in Hc; tauto).
  pose proof (rank_stage Hs) as Hrank.
  destruct x as [c|k|h|d1 d2|c]; try (cbn in Hrank; lia).
  - destruct (m_honorific prev (flat 0 (Ch c :: r))) as [[n0 out]|] eqn:Em.
    + unfold m_honorific in Em.
      destruct (boundary prev (flat 0 (Ch c :: r))) eqn:Eb; [|discriminate].
      destruct (first_honorific honorifics (flat 0 (Ch c :: r)))
        as [hs|] eqn:Ef; [|discriminate].
      destruct (first_honorific_inv _ Ef) as (h & -> & Hsw & Hsp).
      destruct (@honorific_items h pvo c r Hc Hsw Hsp) as (w & rest & E & Hw).
      injection Em as <- <-.
      assert (Hup : is_upper c = true).
      { destruct h; cbn in E; injection E as -> _; reflexivity. }
      assert (Hpv : wc pvo = false).
      { unfold boundary in Eb. rewrite Hp in Eb. rewrite flat_cons in Eb.
        cbn [render app hd_error is_word_opt] in Eb.
        rewrite (upper_word _ Hup) in Eb. now destruct (wc pvo). }
      assert (Hdot : holds dot_ending pvo = false).
      { destruct Hc as (_ & Hc & _). unfold pair_okb in Hc.
        rewrite Hup in Hc. cbn [andb] in Hc.
        apply andb_prop in Hc as [Hc _]. now apply negb_true_iff in Hc. }
      exists (map Ch (hon_str h ++ ["."%char]) ++ [Ch w])%list, [Hon h], rest.
      exists (Some w).
      rewrite E in *.
      split; [now rewrite <- app_assoc|]. split; [destruct h; discriminate|].
      split; [|split; [|split; [|split; [|split]]]].
      * rewrite flat_app, flat_Ch. cbn [flat flat_map render app].
        rewrite app_nil_r. change (flat_map (render 0) rest) with (flat 0 rest).
        assert (Ea : ((hon_str h ++ ["."%char]) ++ w :: flat 0 rest
                      = (hon_str h ++ ["."%char; w]) ++ flat 0 rest)%list)
          by now rewrite <- !app_assoc.
        rewrite Ea.
        rewrite sub_from_match_app
          with (out := (hon_str h ++ DOT_MARKER ++ [" "%char])%list).
        -- rewrite last_char_app. cbn [last_char fold_left].
           change (5 <=? 0)%nat with false. cbn iota.
           now rewrite <- !app_assoc.
        -- destruct h; discriminate.
        -- rewrite <- Ea. unfold m_honorific.
           rewrite flat_app, flat_Ch in Eb, Ef.
           cbn [flat flat_map render app] in Eb, Ef.
           change (flat_map (render 0) rest) with (flat 0 rest) in Eb, Ef.
           rewrite Eb, Ef.
           replace (List.length (hon_str h ++ ["."%char; w]))
             with (List.length (hon_str h) + 2)%nat
             by (now rewrite length_app).
           reflexivity.
      * rewrite last_item_app. cbn. reflexivity.
      * cbn. split; [reflexivity|]. split; [|exact I].
        destruct h; now apply Hl.
      * reflexivity.
      * rewrite flat_app, flat_Ch. cbn [flat flat_map render app].
        rewrite !app_nil_r, !non_space_app. cbn [non_space filter].
        rewrite Hw. change (5 <=? 8)%nat with true. cbn iota.
        now rewrite <- app_assoc.
      * split; [apply head_ok_Hon|]. intros _ _. reflexivity.
    + apply (@step_copy m_honorific 4 St_hon pvo pvn prev (Ch c) r (Some c));
        [assumption..| |reflexivity|now apply St_hon_same].
      rewrite flat_cons. cbn [render app]. now apply sub_from_none.
  - assert (Hk : abbreviation k = true) by (destruct k; cbn in Hrank; [reflexivity..|lia]).
    assert (Er : render 0 (Mk k) = marker k) by (destruct k; reflexivity).
    apply (@step_copy m_honorific 4 St_hon pvo pvn prev (Mk k) r
                      (Some "R"%char));
      [assumption..| |reflexivity|now apply St_hon_same].
    rewrite flat_cons, Er. now apply honorific_through.
Qed.

Lemma honorific_pass items :
  chain None items -> stage 4 items ->
  exists items',
    re_sub m_honorific (flat 0 items) = flat 0 items' /\
    chain None items' /\ stage 5 items' /\
    non_space (flat 8 items') = non_space (flat 8 items).
Proof.
  intros Hc Hs.
  apply (@pass_items _ 4 St_hon honorific_chunk items None None None Hc Hs);
    [|reflexivity].
  split; [now apply chain_head|reflexivity].
Qed.

(** *** Decimals *)

Definition St_dec (pvo pvn : option item) (l : list item) : Prop :=
  head_ok pvn l /\
  (holds is_digit_Ch pvn = true -> holds is_digit_Ch pvo = true) /\
  (holds is_digit_Ch pvo = true -> forall p, m_decimal p (flat 0 l) = None).

Lemma m_decimal_nondigit p c s :
  is_digit c = false -> m_decimal p (c :: s) = None.
Proof. intros H. unfold m_decimal. cbn [span]. now rewrite H. Qed.

Lemma m_decimal_tail c s p p' :
  is_digit c = true -> m_decimal p (c :: s) = None -> m_decimal p' s = None.
Proof.
  intros Hd. unfold m_decimal. cbn [span]. rewrite Hd.
  destruct (span is_digit s) as [d1 r1].
  destruct d1 as [|c1 d1]; [reflexivity|].
  destruct r1 as [|c0 r2]; [reflexivity|].
  destruct (Ascii.eqb c0 "."); [|reflexivity].
  destruct (span is_digit r2) as [d2 r3].
  destruct d2; [reflexivity|discriminate].
Qed.

Lemma m_decimal_start p s :
  match s with c :: _ => is_digit c = false | [] => True end ->
  m_decimal p s = None.
Proof.
  destruct s as [|c s]; [reflexivity|]. apply m_decimal_nondigit.
Qed.

Lemma span_digit_items : forall items pv,
  chain pv items -> stage 5 items ->
  exists ds rest,
    items = (map Ch ds ++ rest)%list /\
    span is_digit (flat 0 items) = (ds, flat 0 rest) /\
    forallb is_digit ds = true /\
    match rest with Ch c :: _ => is_digit c = false | _ => True end /\
    match flat 0 rest with c :: _ => is_digit c = false | [] => True end.
Proof.
  induction items as [|x r IH]; intros pv Hc Hs.
  - exists [], []. repeat split; reflexivity.
  - pose proof (rank_stage Hs) as Hrank.
    destruct Hc as (Hok & Hp & Hc).
    assert (Hs' : stage 5 r).
    { unfold stage in *. cbn [forallb] in Hs.
      now apply andb_prop in Hs as [_ Hs]. }
    assert (Hstop : forall c t, render 0 x = c :: t -> is_digit c = false ->
                      match x with Ch _ => False | _ => True end ->
                      exists ds rest,
                        x :: r = (map Ch ds ++ rest)%list /\
                        span is_digit (flat 0 (x :: r)) = (ds, flat 0 rest) /\
                        forallb is_digit ds = true /\
                        match rest with
                        | Ch c :: _ => is_digit c = false
                        | _ => True
                        end /\
                        match flat 0 rest with
                        | c :: _ => is_digit c = false
                        | [] => True
                        end).
    { intros c t Er Hd Hx. exists [], (x :: r).
      rewrite flat_cons, Er. cbn [app span map]. rewrite Hd.
      split; [reflexivity|]. split; [reflexivity|]. split; [reflexivity|].
      split; [destruct x; try exact I; contradiction|reflexivity]. }
    destruct x as [c|k|h|d1 d2|c]; try (cbn in Hrank; lia).
    + destruct (is_digit c) eqn:Ed.
      * destruct (IH (Some (Ch c)) Hc Hs')
          as (ds & rest & E & Esp & Hds & Hrest & Hfl).
        exists (c :: ds), rest. rewrite flat_cons. cbn [render app span map].
        rewrite Ed, Esp, E. cbn [forallb]. rewrite Ed, Hds.
        split; [reflexivity|]. split; [reflexivity|]. split; [reflexivity|].
        split; assumption.
      * exists [], (Ch c :: r). rewrite flat_cons.
        cbn [render app span map]. rewrite Ed.
        split; [reflexivity|]. split; [reflexivity|]. split; [reflexivity|].
        split; reflexivity.
    + destruct k; (eapply Hstop; [reflexivity|reflexivity|exact I]).
    + destruct h; (eapply Hstop; [reflexivity|reflexivity|exact I]).
Qed.

Lemma decimal_through x s prev :
  item_okb x = true -> (rank x <= 5)%nat ->
  match x with Ch _ => False | _ => True end ->
  exists prev',
    sub_from m_decimal 0 prev (render 0 x ++ s)
    = (render 0 x ++ sub_from m_decimal 0 prev' s)%list /\
    is_word_opt prev' = wc (Some x).
Proof.
  intros Hok Hr Hx.
  exists (last_char prev (render 0 x)). split.
  - apply sub_from_copy_class with (f := is_digit).
    + intros. now apply m_decimal_nondigit.
    + destruct x as [c|k|h|d1 d2|c]; try (cbn in Hr; lia).
      * destruct k; reflexivity.
      * destruct h; reflexivity.
  - destruct x as [c|k|h|d1 d2|c]; try (cbn in Hr; lia).
    + destruct k; reflexivity.
    + destruct h; reflexivity.
Qed.

Lemma last_item_digits : forall d pv c,
  forallb is_digit (c :: d) = true ->
  exists e, last_item pv (map Ch (c :: d)) = Some (Ch e) /\
            is_digit e = true.
Proof.
  induction d as [|a d IH]; intros pv c H.
  - exists c. cbn [forallb] in H. rewrite andb_true_r in H. now split.
  - cbn [forallb] in H. apply andb_prop in H as [_ H].
    apply (IH (Some (Ch c)) a H).
Qed.

Lemma decimal_chunk pvo pvn prev x r :
  chain pvo (x :: r) -> stage 5 (x :: r) -> St_dec pvo pvn (x :: r) ->
  is_word_opt prev = wc pvo ->
  step m_decimal 5 St_dec pvo pvn prev (x :: r).
Proof.
  intros Hc Hs (Hh & Hl & Hq) Hp.
  assert (Hr : chain (Some x) r) by (cbn in Hc; tauto).
  pose proof (rank_stage Hs) as Hrank.
  assert (Hs' : stage 5 r).
  { unfold stage in *. cbn [forallb] in Hs.
    now apply andb_prop in Hs as [_ Hs]. }
  assert (Hnon : forall y, match y with Ch _ => False | _ => True end ->
                           St_dec (Some y) (Some y) r ->
                           St_dec (Some y) (Some y) r) by auto.
  destruct (m_decimal prev (flat 0 (x :: r))) as [[n0 out]|] eqn:Em.
  - (* a decimal begins here *)
    destruct (@span_digit_items (x :: r) pvo Hc Hs)
      as (d1 & rest1 & E1 & Esp1 & Hd1 & _ & _).
    pose proof Em as Em0.
    unfold m_decimal in Em. rewrite Esp1 in Em.
    destruct d1 as [|c1 d1']; [discriminate|].
    destruct (flat 0 rest1) as [|c0 r2] eqn:Er1; [discriminate|].
    destruct (Ascii.eqb_spec c0 "."); [subst c0|discriminate].
    pose proof Hc as Hc0.
    rewrite E1 in Hc. pose proof Hc as Hc1.
    apply chain_app in Hc1 as [_ Hc1].
    destruct (@flat_head_plain _ rest1 "."%char r2 Hc1 Er1 eq_refl)
      as (rest2 & -> & ->).
    assert (Hc2 : chain (Some (Ch ".")) rest2) by (cbn in Hc1; tauto).
    assert (Hs2 : stage 5 rest2).
    { rewrite E1 in Hs. apply stage_app in Hs as [_ Hs].
      unfold stage in *. cbn [forallb] in Hs.
      now apply andb_prop in Hs as [_ Hs]. }
    destruct (@span_digit_items rest2 _ Hc2 Hs2)
      as (d2 & rest3 & E2 & Esp2 & Hd2 & Hrest3 & Hfl3).
    rewrite Esp2 in Em.
    destruct d2 as [|c2 d2']; [discriminate|].
    injection Em as <- <-.
    set (D1 := c1 :: d1') in *. set (D2 := c2 :: d2') in *.
    assert (Econs : x :: r = (map Ch (D1 ++ "."%char :: D2) ++ rest3)%list).
    { rewrite E1, E2, map_app. cbn [map]. now rewrite <- app_assoc. }
    assert (Hdig : holds is_digit_Ch pvn = false).
    { destruct (holds is_digit_Ch pvn) eqn:Ep; [|reflexivity].
      specialize (Hq (Hl eq_refl) prev). rewrite Hq in Em0.
      discriminate. }
    assert (Hx : x = Ch c1) by (cbn in E1; now injection E1).
    subst x.
    assert (Hndec : holds is_Dec pvn = false).
    { unfold head_ok, pair_okb in Hh.
      cbn [forallb] in Hd1. apply andb_prop in Hd1 as [Hd1 _].
      rewrite Hd1 in Hh. apply andb_prop in Hh as [_ Hh].
      apply negb_true_iff in Hh. exact Hh. }
    exists (map Ch (D1 ++ "."%char :: D2)), [Dec D1 D2], rest3.
    exists (last_char prev (D1 ++ "."%char :: D2)).
    split; [exact Econs|]. split; [discriminate|].
    split; [|split; [|split; [|split; [|split]]]].
    + rewrite Econs, flat_app, flat_Ch.
      rewrite sub_from_match_app with (out := (D1 ++ DECIMAL ++ D2)%list).
      * cbn [flat flat_map render]. rewrite app_nil_r. reflexivity.
      * discriminate.
      * unfold m_decimal.
        replace ((D1 ++ "."%char :: D2) ++ flat 0 rest3)%list
          with (D1 ++ "."%char :: D2 ++ flat 0 rest3)%list
          by (now rewrite <- app_assoc).
        rewrite span_prefix by (assumption || reflexivity).
        rewrite Ascii.eqb_refl.
        rewrite span_prefix by assumption.
        replace (List.length (D1 ++ "."%char :: D2))
          with (List.length D1 + 1 + List.length D2)%nat
          by (rewrite length_app; cbn [List.length]; lia).
        reflexivity.
    + now apply wc_last_Ch.
    + assert (Hg1 : digits D1 = true) by exact Hd1.
      assert (Hg2 : digits D2 = true) by exact Hd2.
      unfold chain, item_okb, pair_okb. rewrite Hg1, Hg2, Hndec, Hdig.
      cbn [andb negb]. tauto.
    + reflexivity.
    + cbn [flat flat_map render]. rewrite flat_Ch, app_nil_r.
      change (6 <=? 8)%nat with true. cbn iota. reflexivity.
    + split; [|split].
      * cbn [last_item fold_left].
        destruct rest3 as [|y rest3']; [exact I|].
        assert (Hy : pair_okb (last_item pvo (map Ch (D1 ++ "."%char :: D2))) y
                     = true).
        { rewrite Econs in Hc0. apply chain_app in Hc0 as [_ Hc0].
          cbn in Hc0. tauto. }
        assert (Hry : (rank y <= 5)%nat).
        { rewrite Econs in Hs. apply stage_app in Hs as [_ Hs].
          now apply rank_stage in Hs. }
        rewrite map_app, last_item_app in Hy. cbn [map] in Hy.
        rewrite last_item_cons in Hy.
        destruct y as [c|k|h|e1 e2|c]; try reflexivity;
          try (cbn in Hry; lia).
        -- cbn. rewrite Hrest3. now rewrite andb_false_r.
        -- exfalso.
           destruct (@last_item_digits d2' (Some (Ch ".")) c2 Hd2)
             as (e & He & Hde).
           fold D2 in He. rewrite He in Hy.
           cbn in Hy. now rewrite (digit_word _ Hde) in Hy.
      * intros H. discriminate H.
      * intros _ p. now apply m_decimal_start.
  - (* nothing begins here *)
    assert (HSt : St_dec (Some x) (Some x) r).
    { split; [now apply chain_head|]. split; [exact (fun H => H)|].
      intros Hx p. destruct x as [c| | | |]; try discriminate.
      rewrite flat_cons in Em. cbn [render app] in Em.
      now apply (@m_decimal_tail c (flat 0 r) prev p Hx). }
    destruct x as [c|k|h|d1 d2|c]; try (cbn in Hrank; lia).
    + apply (@step_copy m_decimal 5 St_dec pvo pvn prev (Ch c) r (Some c));
        [assumption..| |reflexivity|assumption].
      rewrite flat_cons. cbn [render app]. now apply sub_from_none.
    + destruct (@decimal_through (Mk k) (flat 0 r) prev) as (prev' & Hsub & Hw);
        [cbn in Hc; tauto|assumption|exact I|].
      now apply (@step_copy m_decimal 5 St_dec pvo pvn prev (Mk k) r prev').
    + destruct (@decimal_through (Hon h) (flat 0 r) prev) as (prev' & Hsub & Hw);
        [cbn in Hc; tauto|assumption|exact I|].
      now apply (@step_copy m_decimal 5 St_dec pvo pvn prev (Hon h) r prev').
Qed.

Lemma decimal_pass items :
  chain None items -> stage 5 items ->
  exists items',
    re_sub m_decimal (flat 0 items) = flat 0 items' /\
    chain None items' /\ stage 6 items' /\
    non_space (flat 8 items') = non_space (flat 8 items).
Proof.
  intros Hc Hs.
  apply (@pass_items _ 5 St_dec decimal_chunk items None None None Hc Hs);
    [|reflexivity].
  split; [now apply chain_head|]. split; discriminate.
Qed.

(** *** Initials *)

Lemma m_initial_nonupper p c s :
  is_upper c = false -> m_initial p (c :: s) = None.
Proof.
  intros H. unfold m_initial. destruct (boundary p (c :: s)); [|reflexivity].
  destruct s; [reflexivity|]. now rewrite H.
Qed.

Lemma m_initial_nodot p c q s :
  Ascii.eqb q "." = false -> m_initial p (c :: q :: s) = None.
Proof.
  intros H. unfold m_initial.
  destruct (boundary p (c :: q :: s)); [|reflexivity].
  now rewrite H, andb_false_r.
Qed.

Lemma last_char_class (f : ascii -> bool) : forall d p,
  forallb f d = true -> d <> [] ->
  exists e, last_char p d = Some e /\ f e = true.
Proof.
  induction d as [|c d IH]; intros p H Hne; [congruence|].
  cbn [forallb] in H. apply andb_prop in H as [Hc H].
  destruct d as [|c' d'].
  - now exists c.
  - apply (IH (Some c) H). discriminate.
Qed.

Lemma initial_through_Hon h s prev :
  sub_from m_initial 0 prev (render 0 (Hon h) ++ s)
  = (render 0 (Hon h) ++ sub_from m_initial 0 (Some " "%char) s)%list.
Proof.
  transitivity ((hon_str h ++ DOT_MARKER)
                ++ sub_from m_initial 0 (Some "R"%char) (" "%char :: s))%list.
  - destruct h;
      match goal with
      | |- context [render 0 (Hon ?h0)] =>
        apply (@sub_from_through m_initial prev (hd " "%char (hon_str h0))
                 (tl (hon_str h0 ++ DOT_MARKER)) (" "%char :: s)
                 (Some "R"%char));
          [apply m_initial_nodot; reflexivity|reflexivity]
      end.
  - rewrite sub_from_none by (now apply m_initial_nonupper).
    destruct h; reflexivity.
Qed.

Lemma initial_tail_Hon h s :
  sub_from m_initial 0 (Some (hd " "%char (hon_str h)))
           (tl (render 0 (Hon h)) ++ s)
  = (tl (render 0 (Hon h)) ++ sub_from m_initial 0 (Some " "%char) s)%list.
Proof.
  transitivity (tl (hon_str h ++ DOT_MARKER)
                ++ sub_from m_initial 0 (Some "R"%char) (" "%char :: s))%list.
  - destruct h; reflexivity.
  - rewrite sub_from_none by (now apply m_initial_nonupper).
    destruct h; reflexivity.
Qed.

Lemma initial_through x s prev :
  item_okb x = true -> (rank x <= 6)%nat ->
  match x with Ch _ => False | _ => True end ->
  exists prev',
    sub_from m_initial 0 prev (render 0 x ++ s)
    = (render 0 x ++ sub_from m_initial 0 prev' s)%list /\
    is_word_opt prev' = wc (Some x).
Proof.
  intros Hok Hr Hx.
  destruct x as [c|k|h|d1 d2|c]; try (cbn in Hr; lia).
  - exists (Some "R"%char). split; [|reflexivity].
    destruct k; try (cbn in Hr; lia);
      (apply sub_from_through;
       [apply m_initial_nodot; reflexivity|reflexivity]).
  - exists (Some " "%char). split; [|reflexivity].
    apply initial_through_Hon.
  - cbn in Hok. apply andb_prop in Hok as [H1 H2].
    assert (Hn2 : d2 <> []) by (destruct d2; [discriminate H2|discriminate]).
    apply digits_all in H1. apply digits_all in H2.
    destruct (@last_char_class is_digit d2 (Some "_"%char) H2 Hn2)
      as (e & He & Hde).
    exists (Some e). split; [|cbn; now apply digit_word].
    assert (Hup : forall d, forallb is_digit d = true ->
                    forallb (fun c => negb (is_upper c)) d = true).
    { intros d Hd. rewrite forallb_forall in *. intros c Hc.
      now rewrite (digit_not_upper _ (Hd c Hc)). }
    change (render 0 (Dec d1 d2)) with (d1 ++ DECIMAL ++ d2)%list.
    rewrite <- !app_assoc.
    rewrite sub_from_copy_class with (f := is_upper);
      [|intros; now apply m_initial_nonupper|now apply Hup].
    f_equal.
    change (DECIMAL ++ d2 ++ s)%list
      with (("_"%char :: tl DECIMAL) ++ d2 ++ s)%list.
    rewrite sub_from_through with (p' := Some "_"%char);
      [|now apply m_initial_nonupper|reflexivity].
    change ("_"%char :: tl DECIMAL) with DECIMAL. f_equal.
    rewrite sub_from_copy_class with (f := is_upper);
      [|intros; now apply m_initial_nonupper|now apply Hup].
    now rewrite He.
Qed.

Lemma initial_tail y d t s :
  item_okb y = true -> (rank y <= 6)%nat -> render 0 y = d :: t ->
  is_upper d = true ->
  exists prev',
    sub_from m_initial 0 (Some d) (t ++ s)
    = (t ++ sub_from m_initial 0 prev' s)%list /\
    is_word_opt prev' = wc (Some y).
Proof.
  intros Hok Hr Er Hd.
  destruct y as [c|k|h|d1 d2|c]; try (cbn in Hr; lia).
  - cbn in Er. injection Er as -> <-. exists (Some d). now split.
  - exists (Some "R"%char). split; [|reflexivity].
    destruct k; try (cbn in Hr; lia); cbn in Er; injection Er as <- <-;
      reflexivity.
  - exists (Some " "%char). split; [|reflexivity].
    pose proof (initial_tail_Hon h s) as Ht. rewrite Er in Ht.
    cbn [tl] in Ht.
    replace (hd " "%char (hon_str h)) with d in Ht
      by (destruct h; cbn in Er; now injection Er as <- _).
    exact Ht.
  - exfalso. cbn in Hok. apply andb_prop in Hok as [H1 _].
    apply digits_cons in H1 as (c1 & d1' & -> & Hc1 & _).
    cbn in Er. injection Er as -> _.
    now rewrite (digit_not_upper _ Hc1) in Hd.
Qed.

Lemma span_space_items : forall items pv,
  chain pv items ->
  exists ws rest,
    items = (map Ch ws ++ rest)%list /\
    span is_space (flat 0 items) = (ws, flat 0 rest) /\
    forallb is_space ws = true.
Proof.
  induction items as [|x r IH]; intros pv Hc.
  - exists [], []. repeat split; reflexivity.
  - destruct Hc as (Hok & Hp & Hc).
    assert (Hstop : forall c t, render 0 x = c :: t -> is_space c = false ->
              exists ws rest,
                x :: r = (map Ch ws ++ rest)%list /\
                span is_space (flat 0 (x :: r)) = (ws, flat 0 rest) /\
                forallb is_space ws = true).
    { intros c t Er Hsp. exists [], (x :: r).
      rewrite flat_cons, Er. cbn [app span map]. rewrite Hsp.
      repeat split; reflexivity. }
    pose proof (@render_head x Hok) as Hx.
    destruct x as [c|k|h|d1 d2|c];
      try (destruct Hx as (c0 & t & Er & Hpl); apply (Hstop c0 t Er);
           destruct (is_space c0) eqn:E0; [|reflexivity];
           now rewrite (space_plain_only _ E0) in Hpl).
    destruct (is_space c) eqn:Ec.
    + destruct (IH (Some (Ch c)) Hc) as (ws & rest & E & Esp & Hws).
      exists (c :: ws), rest. rewrite flat_cons. cbn [render app span map].
      rewrite Ec, Esp, E. cbn [forallb]. rewrite Ec, Hws.
      repeat split; reflexivity.
    + now apply (Hstop c []).
Qed.

Lemma pair_okb_Ch_space pv w : is_space w = true -> pair_okb pv (Ch w) = true.
Proof.
  intros H. unfold pair_okb.
  assert (is_upper w = false) by (revert H; classes).
  assert (is_digit w = false) by (revert H; classes).
  now rewrite H0, H1.
Qed.

Lemma initial_chunk pvo pvn prev x r :
  chain pvo (x :: r) -> stage 6 (x :: r) -> St_head pvo pvn (x :: r) ->
  is_word_opt prev = wc pvo ->
  step m_initial 6 St_head pvo pvn prev (x :: r).
Proof.
  intros Hc Hs Hh Hp.
  assert (Hr : chain (Some x) r) by (cbn in Hc; tauto).
  assert (Hokx : item_okb x = true) by (cbn in Hc; tauto).
  pose proof (rank_stage Hs) as Hrank.
  destruct x as [c|k|h|d1 d2|c]; try (cbn in Hrank; lia).
  - destruct (m_initial prev (flat 0 (Ch c :: r))) as [[n0 out]|] eqn:Em.
    + pose proof Em as Em0. unfold m_initial in Em.
      destruct (boundary prev (flat 0 (Ch c :: r))); [|discriminate].
      rewrite flat_cons in Em. cbn [render app] in Em.
      destruct (flat 0 r) as [|p r'] eqn:Er; [discriminate|].
      destruct (is_upper c) eqn:Hup; [|discriminate].
      destruct (Ascii.eqb_spec p "."); [subst p|discriminate].
      cbn [andb] in Em.
      destruct (@flat_head_plain _ r "."%char r' Hr Er eq_refl)
        as (r1 & -> & ->).
      assert (Hc1 : chain (Some (Ch ".")) r1) by (cbn in Hr; tauto).
      destruct (@span_space_items r1 _ Hc1) as (ws & rest & E1 & Esp & Hws).
      rewrite Esp in Em.
      destruct rest as [|y rest']; [discriminate|].
      rewrite flat_cons in Em.
      assert (Hcy : chain (last_item (Some (Ch ".")) (map Ch ws)) (y :: rest')).
      { rewrite E1 in Hc1. now apply chain_app in Hc1 as [_ Hc1]. }
      assert (Hoky : item_okb y = true) by (cbn in Hcy; tauto).
      destruct (render 0 y) as [|d t] eqn:Ery;
        [now apply render_nonempty in Ery|].
      cbn [app] in Em.
      destruct (is_upper d) eqn:Hd; [|discriminate].
      injection Em as <- <-.
      assert (Hry : (rank y <= 6)%nat).
      { rewrite E1 in Hs. unfold stage in Hs.
        cbn [forallb] in Hs. rewrite forallb_app in Hs. cbn [forallb] in Hs.
        apply andb_prop in Hs as [_ Hs]. apply andb_prop in Hs as [_ Hs].
        apply andb_prop in Hs as [_ Hs]. apply andb_prop in Hs as [Hs _].
        now apply Nat.leb_le. }
      destruct (@initial_tail y d t (flat 0 rest') Hoky Hry Ery Hd)
        as (prev' & Htail & Hw').
      exists (Ch c :: Ch "." :: map Ch ws ++ [y])%list,
             (Ini c :: map Ch ws ++ [y])%list, rest', prev'.
      split; [rewrite E1; cbn [app]; now rewrite <- app_assoc|].
      split; [discriminate|].
      split; [|split; [|split; [|split; [|split]]]].
      * rewrite E1. rewrite !flat_cons, !flat_app, !flat_Ch, !flat_cons.
        cbn [render app flat flat_map]. rewrite app_nil_r, Ery.
        change (7 <=? 0)%nat with false. cbn iota.
        change (flat_map (render 0) rest') with (flat 0 rest').
        assert (Ea : (c :: "."%char :: ws ++ (d :: t) ++ flat 0 rest'
                      = (c :: "."%char :: ws ++ [d]) ++ t ++ flat 0 rest')%list).
        { cbn [app]. now rewrite <- !app_assoc. }
        rewrite Ea.
        rewrite sub_from_match_app
          with (out := (c :: INITIAL ++ ws ++ [d])%list).
        -- replace (last_char prev (c :: "."%char :: ws ++ [d])) with (Some d)
             by (change (c :: "."%char :: ws ++ [d])%list
                   with ((c :: "."%char :: ws) ++ [d])%list;
                 now rewrite last_char_app).
           rewrite Htail. cbn [app]. f_equal.
           now rewrite <- !app_assoc.
        -- discriminate.
        -- rewrite <- Ea. rewrite E1 in Em0.
           rewrite !flat_cons, flat_app, flat_Ch, flat_cons in Em0.
           cbn [render app] in Em0. rewrite Ery in Em0. rewrite Em0.
           f_equal. f_equal. cbn [List.length]. rewrite length_app.
           cbn [List.length]. lia.
      * rewrite app_comm_cons, app_comm_cons, last_item_app. exact Hw'.
      * split; [exact Hup|]. split; [reflexivity|].
        rewrite E1 in Hc1.
        assert (Hpre : chain (Some (Ch ".")) (map Ch ws ++ [y])).
        { replace (map Ch ws ++ y :: rest')%list
            with ((map Ch ws ++ [y]) ++ rest')%list in Hc1
            by (now rewrite <- app_assoc).
          now apply chain_app in Hc1 as [Hc1 _]. }
        apply (@chain_change (Some (Ch ".")) (Some (Ini c)) _ Hpre).
        apply head_ok_dot; try reflexivity.
        now apply chain_head.
      * unfold stage. cbn [forallb]. rewrite forallb_app. cbn [forallb].
        rewrite (proj2 (Nat.leb_le (rank y) 7)) by lia.
        rewrite (stage_Ch 7 ws). reflexivity.
      * reflexivity.
      * unfold St_head.
        rewrite app_comm_cons, last_item_app. cbn [last_item fold_left].
        cbn [chain] in Hcy. now apply chain_head.
    + apply (@step_copy m_initial 6 St_head pvo pvn prev (Ch c) r (Some c));
        [assumption..| |reflexivity|now apply chain_head].
      rewrite flat_cons. cbn [render app]. now apply sub_from_none.
  - destruct (@initial_through (Mk k) (flat 0 r) prev) as (prev' & Hsub & Hw);
      [assumption..|exact I|].
    apply (@step_copy m_initial 6 St_head pvo pvn prev (Mk k) r prev');
      [assumption..|now apply chain_head].
  - destruct (@initial_through (Hon h) (flat 0 r) prev) as (prev' & Hsub & Hw);
      [assumption..|exact I|].
    apply (@step_copy m_initial 6 St_head pvo pvn prev (Hon h) r prev');
      [assumption..|now apply chain_head].
  - destruct (@initial_through (Dec d1 d2) (flat 0 r) prev)
      as (prev' & Hsub & Hw); [assumption..|exact I|].
    apply (@step_copy m_initial 6 St_head pvo pvn prev (Dec d1 d2) r prev');
      [assumption..|now apply chain_head].
Qed.

Lemma initial_pass items :
  chain None items -> stage 6 items ->
  exists items',
    re_sub m_initial (flat 0 items) = flat 0 items' /\
    chain None items' /\ stage 7 items' /\
    non_space (flat 8 items') = non_space (flat 8 items).
Proof.
  intros Hc Hs.
  apply (@pass_items _ 6 St_head initial_chunk items None None None Hc Hs);
    [now apply chain_head|reflexivity].
Qed.

(** *** Parentheses *)

Definition inert (c : ascii) : bool :=
  negb (Ascii.eqb c "(") && negb (Ascii.eqb c ")") && negb (Ascii.eqb c ".").

Definition not_close (c : ascii) : bool := negb (Ascii.eqb c ")").

Definition pdot (x : item) : item :=
  match x with
  | Ch c => if Ascii.eqb c "." then Mk PDOT else x
  | _ => x
  end.

Lemma digit_inert c : is_digit c = true -> inert c = true.
Proof. unfold inert. classes. Qed.

Lemma upper_inert c : is_upper c = true -> inert c = true.
Proof. unfold inert. classes. Qed.

Lemma render_inert x :
  item_okb x = true -> match x with Ch _ => False | _ => True end ->
  forallb inert (render 0 x) = true.
Proof.
  intros Hok Hx. destruct x as [c|k|h|d1 d2|c].
  - elim Hx.
  - destruct k; reflexivity.
  - destruct h; reflexivity.
  - cbn in Hok. apply andb_prop in Hok as [H1 H2].
    apply digits_all in H1. apply digits_all in H2.
    change (render 0 (Dec d1 d2)) with (d1 ++ DECIMAL ++ d2)%list.
    rewrite !forallb_app.
    assert (Hd : forall d, forallb is_digit d = true ->
                           forallb inert d = true).
    { intros d Hd. rewrite forallb_forall in *. intros c Hc.
      apply digit_inert. now apply Hd. }
    now rewrite (Hd _ H1), (Hd _ H2).
  - cbn in Hok. change (render 0 (Ini c)) with (c :: INITIAL).
    cbn [forallb]. now rewrite (upper_inert _ Hok).
Qed.

Lemma m_parens_first p c s :
  Ascii.eqb c "(" = false -> m_parens p (c :: s) = None.
Proof. intros H. unfold m_parens. now rewrite H. Qed.

Lemma parens_through x s prev :
  item_okb x = true -> match x with Ch _ => False | _ => True end ->
  exists prev',
    sub_from m_parens 0 prev (render 0 x ++ s)
    = (render 0 x ++ sub_from m_parens 0 prev' s)%list /\
    is_word_opt prev' = wc (Some x).
Proof.
  intros Hok Hx. exists (last_char prev (render 0 x)). split.
  - apply sub_from_copy_class with (f := fun c => Ascii.eqb c "(").
    + intros. now apply m_parens_first.
    + pose proof (render_inert x Hok Hx) as Hi.
      rewrite forallb_forall in *. intros c Hc. specialize (Hi c Hc).
      unfold inert in Hi. apply andb_prop in Hi as [Hi _].
      now apply andb_prop in Hi as [Hi _].
  - destruct x as [c|k|h|d1 d2|c].
    + elim Hx.
    + destruct k; reflexivity.
    + destruct h; reflexivity.
    + cbn in Hok. apply andb_prop in Hok as [_ H2].
      assert (Hn2 : d2 <> []) by (destruct d2; [discriminate H2|discriminate]).
      apply digits_all in H2.
      change (render 0 (Dec d1 d2)) with (d1 ++ DECIMAL ++ d2)%list.
      rewrite !last_char_app.
      destruct (@last_char_class is_digit d2
                  (last_char (last_char prev d1) DECIMAL) H2 Hn2)
        as (e & -> & He).
      cbn. now apply digit_word.
    + reflexivity.
Qed.

Lemma span_app_all (f : ascii -> bool) (a s : str) :
  forallb f a = true ->
  span f (a ++ s) = ((a ++ fst (span f s))%list, snd (span f s)).
Proof.
  intros H. induction a as [|c a IH].
  - cbn. now destruct (span f s).
  - cbn [forallb] in H. apply andb_prop in H as [Hc H].
    cbn [app span]. rewrite Hc, (IH H). reflexivity.
Qed.

Lemma span_close_items : forall items pv,
  chain pv items ->
  exists pre post,
    items = (pre ++ post)%list /\
    span not_close (flat 0 items) = (flat 0 pre, flat 0 post) /\
    match post with [] => True | y :: _ => y = Ch ")" end.
Proof.
  induction items as [|x r IH]; intros pv Hc.
  - exists [], []. repeat split; reflexivity.
  - destruct Hc as (Hok & Hp & Hc).
    destruct (IH (Some x) Hc) as (pre & post & E & Esp & Hpost).
    assert (Hgo : forallb not_close (render 0 x) = true ->
              exists pre post,
                x :: r = (pre ++ post)%list /\
                span not_close (flat 0 (x :: r)) = (flat 0 pre, flat 0 post) /\
                match post with [] => True | y :: _ => y = Ch ")" end).
    { intros Hx. exists (x :: pre), post. rewrite flat_cons.
      rewrite (span_app_all _ _ _ Hx), Esp, E. cbn [fst snd app].
      rewrite flat_cons.
      split; [reflexivity|]. split; [reflexivity|assumption]. }
    assert (Hin : match x with Ch _ => False | _ => True end ->
                  forallb not_close (render 0 x) = true).
    { intros Hx. pose proof (render_inert x Hok Hx) as Hi.
      rewrite forallb_forall in *. intros c Hc'. specialize (Hi c Hc').
      unfold inert in Hi. apply andb_prop in Hi as [Hi _].
      now apply andb_prop in Hi as [_ Hi]. }
    destruct x as [c|k|h|d1 d2|c]; try (apply Hgo; now apply Hin).
    destruct (Ascii.eqb_spec c ")") as [->|Hne].
    + exists [], (Ch ")" :: r). repeat split; reflexivity.
    + apply Hgo. cbn. unfold not_close.
      destruct (Ascii.eqb_spec c ")"); [contradiction|reflexivity].
Qed.

Lemma protect_parens_app a b :
  protect_parens (a ++ b) = (protect_parens a ++ protect_parens b)%list.
Proof. apply flat_map_app. Qed.

Lemma protect_parens_inert a :
  forallb inert a = true -> protect_parens a = a.
Proof.
  induction a as [|c a IH]; [reflexivity|].
  cbn [forallb]. intros H. apply andb_prop in H as [Hc H].
  unfold protect_parens in *. cbn [flat_map]. rewrite (IH H).
  unfold inert in Hc. apply andb_prop in Hc as [_ Hc].
  apply negb_true_iff in Hc. now rewrite Hc.
Qed.

Lemma protect_parens_flat : forall l pv,
  chain pv l -> protect_parens (flat 0 l) = flat 0 (map pdot l).
Proof.
  induction l as [|x r IH]; intros pv Hc; [reflexivity|].
  destruct Hc as (Hok & _ & Hc).
  cbn [map]. rewrite !flat_cons, protect_parens_app, (IH (Some x) Hc).
  f_equal.
  destruct x as [c|k|h|d1 d2|c];
    try (cbn [pdot]; apply protect_parens_inert;
         now apply render_inert).
  cbn [pdot render]. unfold protect_parens. cbn [flat_map].
  destruct (Ascii.eqb c "."); reflexivity.
Qed.

Lemma item_okb_pdot x : item_okb x = true -> item_okb (pdot x) = true.
Proof.
  destruct x as [c| | | |]; try exact (fun H => H).
  cbn. now destruct (Ascii.eqb c ".").
Qed.

Lemma pair_okb_pdot pv x :
  pair_okb pv x = true -> pair_okb (option_map pdot pv) (pdot x) = true.
Proof.
  intros H.
  assert (Hpv : pair_okb (option_map pdot pv) x = true).
  { destruct pv as [[c| | | |]|]; try exact H.
    cbn [option_map pdot].
    destruct (Ascii.eqb_spec c ".") as [->|]; [|exact H].
    now apply pair_okb_dot. }
  destruct x as [c| | | |]; try exact Hpv.
  cbn [pdot]. destruct (Ascii.eqb c "."); [reflexivity|exact Hpv].
Qed.

Lemma chain_pdot : forall l pv,
  chain pv l -> chain (option_map pdot pv) (map pdot l).
Proof.
  induction l as [|x r IH]; intros pv Hc; [exact I|].
  destruct Hc as (Hok & Hp & Hc). cbn [map chain].
  split; [now apply item_okb_pdot|]. split; [now apply pair_okb_pdot|].
  apply (IH (Some x) Hc).
Qed.

Lemma flat_pdot l : flat 8 (map pdot l) = flat 8 l.
Proof.
  induction l as [|x r IH]; [reflexivity|].
  cbn [map]. rewrite !flat_cons, IH. f_equal.
  destruct x as [c| | | |]; try reflexivity.
  cbn [pdot]. destruct (Ascii.eqb_spec c ".") as [->|]; reflexivity.
Qed.

Lemma parens_chunk pvo pvn prev x r :
  chain pvo (x :: r) -> stage 7 (x :: r) -> St_head pvo pvn (x :: r) ->
  is_word_opt prev = wc pvo ->
  step m_parens 7 St_head pvo pvn prev (x :: r).
Proof.
  intros Hc Hs Hh Hp.
  assert (Hr : chain (Some x) r) by (cbn in Hc; tauto).
  assert (Hokx : item_okb x = true) by (cbn in Hc; tauto).
  assert (Hcopy : match x with Ch _ => False | _ => True end ->
                  step m_parens 7 St_head pvo pvn prev (x :: r)).
  { intros Hx.
    destruct (@parens_through x (flat 0 r) prev Hokx Hx)
      as (prev' & Hsub & Hw).
    apply (@step_copy m_parens 7 St_head pvo pvn prev x r prev');
      [assumption..|now apply chain_head]. }
  destruct x as [c|k|h|d1 d2|c]; try (now apply Hcopy).
  destruct (m_parens prev (flat 0 (Ch c :: r))) as [[n0 out]|] eqn:Em.
  - pose proof Em as Em0. unfold m_parens in Em.
    rewrite flat_cons in Em. cbn [render app] in Em.
    destruct (Ascii.eqb_spec c "("); [subst c|discriminate].
    destruct (@span_close_items r _ Hr) as (pre & post & E & Esp & Hpost).
    unfold not_close in Esp. rewrite Esp in Em.
    remember (flat 0 pre) as inner eqn:Ei.
    destruct inner as [|i0 inner']; [discriminate|].
    destruct post as [|y post']; [discriminate|]. subst y.
    rewrite flat_cons in Em. cbn [render app] in Em.
    injection Em as <- <-.
    exists (Ch "(" :: pre ++ [Ch ")"])%list,
           (Ch "(" :: map pdot pre ++ [Ch ")"])%list, post', (Some ")"%char).
    split; [rewrite E; cbn [app]; now rewrite <- app_assoc|].
    split; [discriminate|].
    assert (Hcc : chain (Some (Ch "(")) (pre ++ [Ch ")"])).
    { rewrite E in Hr.
      replace (pre ++ Ch ")" :: post')%list
        with ((pre ++ [Ch ")"]) ++ post')%list in Hr
        by (now rewrite <- app_assoc).
      now apply chain_app in Hr as [Hr _]. }
    split; [|split; [|split; [|split; [|split]]]].
    + rewrite E, !flat_cons, !flat_app, !flat_cons.
      cbn [render flat flat_map]. rewrite !app_nil_r.
      change (flat_map (render 0) post') with (flat 0 post').
      cbn [app].
      assert (Ea : ("("%char :: flat 0 pre ++ ")"%char :: flat 0 post'
                    = ("("%char :: flat 0 pre ++ [")"%char]) ++ flat 0 post')%list).
      { cbn [app]. now rewrite <- app_assoc. }
      rewrite Ea.
      rewrite sub_from_match_app
        with (out := protect_parens ("("%char :: flat 0 pre ++ [")"%char])).
      * assert (Eout : protect_parens ("("%char :: flat 0 pre ++ [")"%char])
                       = ("("%char :: flat 0 (map pdot pre) ++ [")"%char])%list).
        { change ("("%char :: flat 0 pre ++ [")"%char])%list
            with (["("%char] ++ flat 0 pre ++ [")"%char])%list.
          rewrite !protect_parens_app.
          rewrite (@protect_parens_flat pre (Some (Ch "(")));
            [reflexivity|now apply chain_app in Hcc as [Hcc _]]. }
        rewrite Eout.
        replace (last_char prev ("("%char :: flat 0 pre ++ [")"%char]))
          with (Some ")"%char)
          by (change ("("%char :: flat 0 pre ++ [")"%char])%list
                with (("("%char :: flat 0 pre) ++ [")"%char])%list;
              now rewrite last_char_app).
        reflexivity.
      * discriminate.
      * rewrite <- Ea. rewrite E in Em0.
        rewrite !flat_cons, flat_app, flat_cons in Em0.
        cbn [render app] in Em0. rewrite Em0. rewrite <- Ei.
        f_equal. f_equal. cbn [List.length]. rewrite length_app.
        cbn [List.length]. lia.
    + rewrite app_comm_cons, last_item_app. reflexivity.
    + split; [reflexivity|]. split; [exact Hh|].
      pose proof (@chain_pdot _ _ Hcc) as Hcp.
      rewrite map_app in Hcp. exact Hcp.
    + apply stage_all.
    + change (Ch "(" :: map pdot pre ++ [Ch ")"])%list
        with (map pdot (Ch "(" :: pre) ++ [Ch ")"])%list.
      rewrite app_comm_cons, !flat_app, flat_pdot. reflexivity.
    + unfold St_head. rewrite app_comm_cons, last_item_app.
      cbn [last_item fold_left].
      rewrite E in Hr. apply chain_app in Hr as [_ Hr].
      cbn [chain] in Hr. apply chain_head. tauto.
  - apply (@step_copy m_parens 7 St_head pvo pvn prev (Ch c) r (Some c));
      [assumption..| |reflexivity|now apply chain_head].
    rewrite flat_cons. cbn [render app]. now apply sub_from_none.
Qed.

Lemma parens_pass items :
  chain None items -> stage 7 items ->
  exists items',
    re_sub m_parens (flat 0 items) = flat 0 items' /\
    chain None items' /\ stage 8 items' /\
    non_space (flat 8 items') = non_space (flat 8 items).
Proof.
  intros Hc Hs.
  apply (@pass_items _ 7 St_head parens_chunk items None None None Hc Hs);
    [now apply chain_head|reflexivity].
Qed.

(** *** All of [protect] *)

Lemma protect_flat (s : str) :
  chain None (map Ch s) ->
  exists items,
    protect s = flat 0 items /\ chain None items /\
    non_space (flat 8 items) = non_space s.
Proof.
  intros Hc.
  assert (H0 : stage 0 (map Ch s)) by apply stage_Ch.
  destruct (@abbreviation_pass ETAL 0 eq_refl eq_refl _ Hc H0)
    as (l1 & E1 & Hc1 & H1 & N1).
  destruct (@abbreviation_pass EG 1 eq_refl eq_refl _ Hc1 H1)
    as (l2 & E2 & Hc2 & H2 & N2).
  destruct (@abbreviation_pass IE 2 eq_refl eq_refl _ Hc2 H2)
    as (l3 & E3 & Hc3 & H3 & N3).
  destruct (@abbreviation_pass CF 3 eq_refl eq_refl _ Hc3 H3)
    as (l4 & E4 & Hc4 & H4 & N4).
  destruct (@honorific_pass _ Hc4 H4) as (l5 & E5 & Hc5 & H5 & N5).
  destruct (@decimal_pass _ Hc5 H5) as (l6 & E6 & Hc6 & H6 & N6).
  destruct (@initial_pass _ Hc6 H6) as (l7 & E7 & Hc7 & H7 & N7).
  destruct (@parens_pass _ Hc7 H7) as (l8 & E8 & Hc8 & H8 & N8).
  exists l8. split; [|split; [assumption|]].
  - unfold protect. cbv zeta.
    change (m_literal true (lit "et al.") ET_AL_MARKER)
      with (m_literal true (text_of ETAL) (marker ETAL)).
    change (m_literal true (lit "e.g.") EG_MARKER)
      with (m_literal true (text_of EG) (marker EG)).
    change (m_literal true (lit "i.e.") IE_MARKER)
      with (m_literal true (text_of IE) (marker IE)).
    change (m_literal true (lit "cf.") CF_MARKER)
      with (m_literal true (text_of CF) (marker CF)).
    rewrite flat_Ch in E1. now rewrite E1, E2, E3, E4, E5, E6, E7, E8.
  - rewrite N8, N7, N6, N5, N4, N3, N2, N1. now rewrite flat_Ch.
Qed.

(** ** The space put behind a sentence end *)

Definition no_underscore (s : str) : bool :=
  forallb (fun c => negb (Ascii.eqb c "_")) s.

Lemma space_after_step prev c s' :
  sub_from m_space_after 0 prev (c :: s')
  = match s' with
    | d :: s'' =>
      if is_end c && is_upper d
      then c :: " "%char :: d :: sub_from m_space_after 0 (Some d) s''
      else c :: sub_from m_space_after 0 (Some c) s'
    | [] => [c]
    end.
Proof.
  destruct s' as [|d s'']; [reflexivity|].
  destruct (is_end c && is_upper d) eqn:E.
  - cbn [sub_from]. unfold m_space_after at 1. rewrite E. reflexivity.
  - cbn [sub_from]. unfold m_space_after at 1. rewrite E. reflexivity.
Qed.

Lemma space_after_items : forall n s,
  (List.length s <= n)%nat ->
  forall pv prev,
    no_underscore s = true -> head_ok pv (map Ch s) ->
    chain pv (map Ch (sub_from m_space_after 0 prev s)) /\
    non_space (sub_from m_space_after 0 prev s) = non_space s.
Proof.
  induction n as [|n IH]; intros s Hn pv prev Hu Hh.
  - destruct s; [now split|cbn in Hn; lia].
  - destruct s as [|c s']; [now split|].
    cbn [no_underscore forallb] in Hu. apply andb_prop in Hu as [Hc Hu].
    assert (Hpair : forall a b, is_upper b && Ascii.eqb a "." = false ->
                                pair_okb (Some (Ch a)) (Ch b) = true).
    { intros a b H. unfold pair_okb, holds, dot_ending, is_Dec.
      rewrite andb_false_r, H. reflexivity. }
    rewrite space_after_step.
    destruct s' as [|d s''].
    + cbn. rewrite Hc. cbn in Hh. tauto.
    + destruct (is_end c && is_upper d) eqn:E.
      * apply andb_prop in E as [Ec Ed].
        cbn [no_underscore forallb] in Hu. apply andb_prop in Hu as [Hd Hu].
        destruct (IH s'' ltac:(cbn in Hn; lia) (Some (Ch d)) (Some d) Hu)
          as [IH1 IH2].
        { destruct s'' as [|e s3]; [exact I|]. apply Hpair.
          replace (Ascii.eqb d ".") with false; [apply andb_false_r|].
          revert Ed. classes. }
        cbn [map chain item_okb]. rewrite Hc, Hd.
        split.
        -- split; [reflexivity|]. split; [exact Hh|].
           split; [reflexivity|]. split; [now apply pair_okb_Ch_space|].
           split; [reflexivity|]. split; [|exact IH1].
           apply Hpair. apply andb_false_r.
        -- change (c :: " "%char :: d :: sub_from m_space_after 0 (Some d) s'')
             with ([c; " "%char; d] ++ sub_from m_space_after 0 (Some d) s'')%list.
           change (c :: d :: s'') with ([c; d] ++ s'')%list.
           rewrite !non_space_app, IH2. f_equal.
      * destruct (IH (d :: s'') ltac:(cbn in Hn |- *; lia) (Some (Ch c))
                     (Some c) Hu) as [IH1 IH2].
        { apply Hpair. destruct (Ascii.eqb_spec c "."); [|apply andb_false_r].
          subst c. cbn in E. now rewrite E. }
        cbn [map chain item_okb]. rewrite Hc.
        split; [split; [reflexivity|]; split; [exact Hh|exact IH1]|].
        change (c :: sub_from m_space_after 0 (Some c) (d :: s''))
          with ([c] ++ sub_from m_space_after 0 (Some c) (d :: s''))%list.
        change (c :: d :: s'') with ([c] ++ d :: s'')%list.
        now rewrite !non_space_app, IH2.
Qed.

(** ** Splitting *)

(** [l] are the pieces of [s], with white space between them. *)
Inductive joined : str -> list str -> Prop :=
| joined_one s : joined s [s]
| joined_cons a ws s l :
    ws <> [] -> forallb is_space ws = true -> joined s l ->
    joined (a ++ ws ++ s) (a :: l).

Lemma split_from_skip : forall a s cur prev,
  split_from cur (List.length a) prev (a ++ s)
  = split_from cur 0 (last_char prev a) s.
Proof.
  induction a as [|c a IH]; intros s cur prev; [reflexivity|].
  cbn. apply IH.
Qed.

Lemma split_from_joined : forall n s,
  (List.length s <= n)%nat ->
  forall cur prev, joined (rev cur ++ s) (split_from cur 0 prev s).
Proof.
  induction n as [|n IH]; intros s Hn cur prev.
  - destruct s; [|cbn in Hn; lia]. rewrite app_nil_r. constructor.
  - destruct s as [|c s']; [rewrite app_nil_r; constructor|].
    cbn [split_from].
    destruct (m_sentence_gap prev (c :: s')) as [k|] eqn:Eg.
    + unfold m_sentence_gap in Eg.
      destruct prev as [p|]; [|discriminate].
      destruct (is_end p); [|discriminate].
      pose proof (span_app is_space (c :: s')) as Eapp.
      pose proof (span_all is_space (c :: s')) as Hall.
      destruct (span is_space (c :: s')) as [ws r].
      cbn [fst snd] in Eapp, Hall.
      destruct ws as [|w ws']; [discriminate|].
      destruct r as [|d r']; [discriminate|].
      destruct (opens_sentence d); [|discriminate].
      injection Eg as <-.
      cbn [app] in Eapp. injection Eapp as -> ->.
      cbn [List.length Nat.pred]. rewrite split_from_skip.
      change (w :: ws' ++ d :: r')%list with ((w :: ws') ++ d :: r')%list.
      apply joined_cons; [discriminate|assumption|].
      apply (IH (d :: r') ltac:(cbn in Hn |- *; rewrite length_app in Hn;
                               cbn in Hn; lia) []).
    + replace (rev cur ++ c :: s')%list with (rev (c :: cur) ++ s')%list
        by (cbn; now rewrite <- app_assoc).
      apply IH. cbn in Hn. lia.
Qed.

Lemma re_split_joined s : joined s (re_split s).
Proof. apply (@split_from_joined (List.length s) s (le_n _) [] None). Qed.

Lemma joined_non_space s l :
  joined s l -> non_space s = non_space (List.concat l).
Proof.
  induction 1 as [s|a ws s l Hne Hws _ IH].
  - cbn. now rewrite app_nil_r.
  - cbn [List.concat]. rewrite !non_space_app, IH.
    now rewrite (@non_space_spaces ws Hws).
Qed.

(** ** [restore] goes piece by piece *)

Definition local (m : matcher) : Prop :=
  forall prev a w b, is_space w = true ->
    m prev (a ++ w :: b)%list = m prev a /\
    (forall n out, m prev a = Some (n, out) ->
                   (1 <= n <= List.length a)%nat).

Definition no_prev (m : matcher) : Prop := forall p p' s, m p s = m p' s.

Lemma sub_from_local (m : matcher) w b :
  local m -> is_space w = true ->
  forall a skip prev, (skip <= List.length a)%nat ->
    sub_from m skip prev (a ++ w :: b)
    = (sub_from m skip prev a ++ w :: sub_from m 0 (Some w) b)%list.
Proof.
  intros Hm Hw. induction a as [|c a IH]; intros skip prev Hs.
  - cbn in Hs. assert (skip = 0%nat) by lia. subst skip.
    cbn [app sub_from].
    destruct (Hm prev [] w b Hw) as [E Hn]. cbn [app] in E. rewrite E.
    destruct (m prev []) as [[n out]|] eqn:E0; [|reflexivity].
    specialize (Hn n out eq_refl). cbn in Hn. lia.
  - cbn [app sub_from]. destruct skip as [|k].
    + destruct (Hm prev (c :: a) w b Hw) as [E Hn]. cbn [app] in E.
      rewrite E. destruct (m prev (c :: a)) as [[n out]|] eqn:E0.
      * specialize (Hn n out eq_refl). cbn [List.length] in Hn.
        rewrite IH by lia. now rewrite app_assoc.
      * rewrite IH by lia. reflexivity.
    + apply IH. cbn in Hs. lia.
Qed.

Lemma re_sub_local (m : matcher) a w b :
  local m -> no_prev m -> is_space w = true ->
  re_sub m (a ++ w :: b) = (re_sub m a ++ w :: re_sub m b)%list.
Proof.
  intros Hm Hp Hw. unfold re_sub.
  rewrite (@sub_from_local m w b Hm Hw a 0 None) by lia.
  f_equal. f_equal. destruct b as [|c b]; [reflexivity|].
  cbn. now rewrite (Hp (Some w) None).
Qed.

Lemma starts_with_local (L : str) w b :
  forallb (fun c => negb (is_space c)) L = true -> is_space w = true ->
  forall a, starts_with L (a ++ w :: b) = starts_with L a.
Proof.
  intros HL Hw. induction L as [|l L IH]; intros a; [reflexivity|].
  cbn [forallb] in HL. apply andb_prop in HL as [Hl HL].
  destruct a as [|c a].
  - cbn. destruct (Ascii.eqb_spec l w) as [->|]; [|reflexivity].
    now rewrite Hw in Hl.
  - cbn. now rewrite (IH HL).
Qed.

Lemma span_local (f : ascii -> bool) w b :
  f w = false ->
  forall a, span f (a ++ w :: b)
            = (fst (span f a), (snd (span f a) ++ w :: b)%list).
Proof.
  intros Hw. induction a as [|c a IH].
  - cbn. now rewrite Hw.
  - cbn [app span]. destruct (f c); [|reflexivity].
    rewrite IH. now destruct (span f a).
Qed.

Lemma literal_local L repl :
  L <> [] -> forallb (fun c => negb (is_space c)) L = true ->
  local (m_literal false L repl).
Proof.
  intros Hne HL prev a w b Hw. unfold m_literal. cbn [negb orb andb].
  rewrite (@starts_with_local L w b HL Hw). split; [reflexivity|].
  intros n out. destruct (starts_with L a) eqn:E; [|discriminate].
  intros [= <- _]. apply starts_with_length in E.
  destruct L; [congruence|]. cbn in *. lia.
Qed.

Lemma literal_no_prev L repl : no_prev (m_literal false L repl).
Proof. intros p p' s. reflexivity. Qed.

Lemma last_marker_at_some s : forall K k,
  last_marker_at K s = Some k ->
  (1 <= k <= K)%nat /\ starts_with DOT_MARKER (skipn k s) = true.
Proof.
  induction K as [|K IH]; intros k H; [discriminate|].
  cbn [last_marker_at] in H.
  destruct (starts_with DOT_MARKER (skipn (S K) s)) eqn:E.
  - injection H as <-. split; [lia|assumption].
  - destruct (IH k H). split; [lia|assumption].
Qed.

Lemma last_marker_at_local w b a :
  is_space w = true ->
  forall K, (K <= List.length a)%nat ->
            last_marker_at K (a ++ w :: b) = last_marker_at K a.
Proof.
  intros Hw. induction K as [|K IH]; intros HK; [reflexivity|].
  cbn [last_marker_at].
  rewrite skipn_app.
  replace (S K - List.length a)%nat with 0%nat by lia. cbn [skipn].
  rewrite (@starts_with_local DOT_MARKER w b eq_refl Hw).
  rewrite IH by lia. reflexivity.
Qed.

Lemma span_length (f : ascii -> bool) (s : str) :
  (List.length (fst (span f s)) <= List.length s)%nat.
Proof.
  rewrite (span_app f s) at 2. rewrite length_app. lia.
Qed.

Lemma restore_dot_local : local m_restore_dot.
Proof.
  intros prev a w b Hw. unfold m_restore_dot.
  rewrite (@span_local is_word w b (@space_not_word w Hw) a).
  pose proof (span_length is_word a) as Hlen.
  destruct (span is_word a) as [run rest]. cbn [fst snd] in *.
  rewrite (@last_marker_at_local w b a Hw _ Hlen).
  destruct (last_marker_at (List.length run) a) as [k|] eqn:E;
    [|split; [reflexivity|discriminate]].
  destruct (@last_marker_at_some a _ k E) as [Hk Hsw].
  apply starts_with_length in Hsw. rewrite length_skipn in Hsw.
  split.
  - rewrite firstn_app.
    replace (k - List.length a)%nat with 0%nat by lia.
    cbn [firstn]. now rewrite app_nil_r.
  - intros n out [= <- _]. change (List.length DOT_MARKER) with 11%nat in *.
    lia.
Qed.

Lemma restore_decimal_local : local m_restore_decimal.
Proof.
  intros prev a w b Hw. unfold m_restore_decimal.
  assert (Hwd : is_digit w = false) by (revert Hw; classes).
  rewrite (@span_local is_digit w b Hwd a).
  pose proof (span_app is_digit a) as Ea.
  destruct (span is_digit a) as [d1 r1]. cbn [fst snd] in *.
  destruct d1 as [|c1 d1]; [split; [reflexivity|discriminate]|].
  rewrite (@starts_with_local DECIMAL w b eq_refl Hw).
  destruct (starts_with DECIMAL r1) eqn:E;
    [|split; [reflexivity|discriminate]].
  pose proof (@starts_with_length DECIMAL r1 E) as Hl.
  pose proof (@starts_with_eq DECIMAL r1 E) as Er.
  rewrite skipn_app.
  replace (List.length DECIMAL - List.length r1)%nat with 0%nat by lia.
  cbn [skipn].
  rewrite (@span_local is_digit w b Hwd).
  pose proof (span_app is_digit (skipn (List.length DECIMAL) r1)) as E2.
  destruct (span is_digit (skipn (List.length DECIMAL) r1)) as [d2 r2].
  cbn [fst snd] in *.
  split; [reflexivity|].
  destruct d2; [discriminate|]. intros n out [= <- _].
  rewrite Ea, Er, E2, !length_app. cbn [List.length].
  change (List.length DECIMAL) with 9%nat. lia.
Qed.

Lemma restore_initial_local : local m_restore_initial.
Proof.
  intros prev a w b Hw. unfold m_restore_initial.
  destruct a as [|c a].
  - cbn [app]. assert (Hu : is_upper w = false) by (revert Hw; classes).
    rewrite Hu. split; [reflexivity|discriminate].
  - cbn [app]. rewrite (@starts_with_local INITIAL w b eq_refl Hw).
    split; [reflexivity|].
    destruct (is_upper c && starts_with INITIAL a) eqn:E; [|discriminate].
    apply andb_prop in E as [_ E]. apply starts_with_length in E.
    intros n out [= <- _]. cbn in *. lia.
Qed.

Lemma restore_local a w b :
  is_space w = true ->
  restore (a ++ w :: b) = (restore a ++ w :: restore b)%list.
Proof.
  intros Hw. unfold restore, replace. cbv zeta.
  rewrite (@re_sub_local _ a w b
             (@literal_local ET_AL_MARKER _ ltac:(discriminate) eq_refl)
             (@literal_no_prev _ _) Hw).
  rewrite (@re_sub_local _ _ w _
             (@literal_local EG_MARKER _ ltac:(discriminate) eq_refl)
             (@literal_no_prev _ _) Hw).
  rewrite (@re_sub_local _ _ w _
             (@literal_local IE_MARKER _ ltac:(discriminate) eq_refl)
             (@literal_no_prev _ _) Hw).
  rewrite (@re_sub_local _ _ w _
             (@literal_local CF_MARKER _ ltac:(discriminate) eq_refl)
             (@literal_no_prev _ _) Hw).
  rewrite (@re_sub_local _ _ w _ restore_dot_local
             (fun _ _ _ => eq_refl) Hw).
  rewrite (@re_sub_local _ _ w _ restore_decimal_local
             (fun _ _ _ => eq_refl) Hw).
  rewrite (@re_sub_local _ _ w _ restore_initial_local
             (fun _ _ _ => eq_refl) Hw).
  rewrite (@re_sub_local _ _ w _
             (@literal_local PAREN_DOT _ ltac:(discriminate) eq_refl)
             (@literal_no_prev _ _) Hw).
  reflexivity.
Qed.

Lemma restore_spaces ws s :
  forallb is_space ws = true -> restore (ws ++ s) = (ws ++ restore s)%list.
Proof.
  induction ws as [|w ws IH]; [reflexivity|].
  cbn [forallb]. intros H. apply andb_prop in H as [Hw H].
  pose proof (@restore_local [] w (ws ++ s) Hw) as E.
  change (restore []) with (@nil ascii) in E. cbn [app] in E |- *.
  now rewrite E, (IH H).
Qed.

Lemma joined_restore s l :
  joined s l -> joined (restore s) (map restore l).
Proof.
  induction 1 as [s|a ws s l Hne Hws _ IH].
  - constructor.
  - destruct ws as [|w ws]; [congruence|].
    cbn [forallb] in Hws. apply andb_prop in Hws as [Hw Hws].
    cbn [app]. rewrite (@restore_local a w (ws ++ s) Hw).
    rewrite (@restore_spaces ws s Hws). cbn [map].
    change (restore a ++ w :: ws ++ restore s)%list
      with (restore a ++ (w :: ws) ++ restore s)%list.
    apply joined_cons; [discriminate|cbn; now rewrite Hw|assumption].
Qed.

(** ** The sentences returned *)

(** No white space at either end. *)
Definition trimmed (s : str) : Prop :=
  (forall c r, s = c :: r -> is_space c = false) /\
  (forall c r, s = (r ++ [c])%list -> is_space c = false).

Lemma lstrip_head s c r : lstrip s = c :: r -> is_space c = false.
Proof.
  induction s as [|a s IH]; [discriminate|].
  cbn. destruct (is_space a) eqn:E; [exact IH|].
  intros [= <- _]. exact E.
Qed.

Lemma lstrip_suffix s : exists ws, s = (ws ++ lstrip s)%list.
Proof.
  induction s as [|a s [ws IH]]; [now exists []|].
  cbn. destruct (is_space a).
  - exists (a :: ws). cbn. now f_equal.
  - now exists [].
Qed.

Lemma strip_trimmed s : trimmed (strip s).
Proof.
  unfold strip. set (u := lstrip s). set (v := lstrip (rev u)).
  split; intros c r E.
  - destruct (lstrip_suffix (rev u)) as [ws Hws]. fold v in Hws.
    apply (f_equal (@rev ascii)) in E. rewrite rev_involutive in E.
    cbn [rev] in E. rewrite E in Hws.
    apply (f_equal (@rev ascii)) in Hws.
    rewrite rev_involutive, !rev_app_distr in Hws. cbn [rev app] in Hws.
    apply (@lstrip_head s c _ Hws).
  - apply (f_equal (@rev ascii)) in E. rewrite rev_involutive in E.
    rewrite rev_app_distr in E. cbn [rev app] in E.
    apply (@lstrip_head (rev u) c _ E).
Qed.

Lemma split_into_sentences_trimmed (text : str) :
  Forall (fun sent => sent <> [] /\ trimmed sent) (split_into_sentences text).
Proof.
  unfold split_into_sentences. cbv zeta.
  induction (re_split (protect (re_sub m_space_after text))) as [|p l IH];
    [constructor|].
  cbn [flat_map]. apply Forall_app. split; [|exact IH].
  destruct (strip (restore p)) as [|c r] eqn:E; constructor; [|constructor].
  split; [discriminate|]. rewrite <- E. apply strip_trimmed.
Qed.

Lemma non_space_sentences (l : list str) :
  non_space
    (List.concat
       (flat_map (fun sent => match strip (restore sent) with
                              | [] => []
                              | _ => [strip (restore sent)]
                              end) l))
  = non_space (List.concat (map restore l)).
Proof.
  induction l as [|p l IH]; [reflexivity|].
  cbn [flat_map map List.concat]. rewrite concat_app, !non_space_app, IH.
  f_equal. rewrite <- (non_space_strip (restore p)).
  destruct (strip (restore p)); [reflexivity|].
  cbn [List.concat]. now rewrite app_nil_r.
Qed.

Lemma head_ok_start l : head_ok None (map Ch l).
Proof.
  destruct l as [|c l]; [exact I|].
  cbn. now rewrite !andb_false_r.
Qed.

(** The passes do not undo each other to the character: the tab behind
    an honorific comes back as a space. *)
Lemma split_into_sentences_honorific_tab :
  split_into_sentences (lit "Dr." ++ ["009"%char] ++ lit "Smith")%list
  = [lit "Dr. Smith"].
Proof. reflexivity. Qed.



(** ** Blank text and text without a sentence end *)

(** The characters other than white space of the sentences, for input
    without an underscore. *)
Lemma split_into_sentences_non_space (text : str) :
  no_underscore text = true ->
  non_space (List.concat (split_into_sentences text)) = non_space text.
Proof.
  intros Hu.
  destruct (@space_after_items (List.length text) text (le_n _) None None Hu
              (head_ok_start text)) as [Hc0 N0].
  fold (re_sub m_space_after text) in Hc0, N0.
  destruct (@protect_flat _ Hc0) as (items & Ep & Hc & Np).
  unfold split_into_sentences. cbv zeta.
  rewrite non_space_sentences, Ep.
  rewrite <- (@joined_non_space _ _
                (@joined_restore _ _ (re_split_joined (flat 0 items)))).
  now rewrite (@restore_flat items Hc), Np, N0.
Qed.

Lemma blank_no_underscore (text : str) :
  non_space text = [] -> no_underscore text = true.
Proof.
  induction text as [|c text IH]; [reflexivity|].
  unfold non_space, no_underscore in *. cbn [filter forallb].
  destruct (is_space c) eqn:E; cbn [negb]; [|discriminate].
  intros H. rewrite (IH H), andb_true_r.
  destruct (Ascii.eqb_spec c "_") as [->|]; [discriminate E|reflexivity].
Qed.

(** For ASCII text: a text made of white space only (the empty text
    included) has no sentence, and, for input without an underscore,
    only such a text has none. *)
Theorem split_into_sentences_blank (text : str) :
  ascii_text text = true ->
  no_underscore text = true ->
  (split_into_sentences text = [] <-> non_space text = []).
Proof.
  intros _ Hu. pose proof (split_into_sentences_non_space text Hu) as Hn.
  split; intros H.
  - now rewrite H in Hn.
  - pose proof (split_into_sentences_trimmed text) as Ht.
    destruct (split_into_sentences text) as [|s l]; [reflexivity|].
    exfalso. inversion Ht as [|? ? [Hne [Hhd _]] _]; subst.
    destruct s as [|c r]; [congruence|].
    specialize (Hhd c r eq_refl).
    rewrite H in Hn. cbn [List.concat app] in Hn.
    unfold non_space in Hn. cbn [filter] in Hn. rewrite Hhd in Hn.
    discriminate Hn.
Qed.

Lemma split_into_sentences_blank_witness :
  ascii_text [" "%char; "010"%char; " "%char] = true /\
  no_underscore [" "%char; "010"%char; " "%char] = true /\
  (split_into_sentences [" "%char; "010"%char; " "%char] = [] <->
   non_space [" "%char; "010"%char; " "%char] = []).
Proof.
  split; [reflexivity|]. split; [reflexivity|].
  apply (@split_into_sentences_blank [" "%char; "010"%char; " "%char]);
    reflexivity.
Defined.

(** A character that is neither a sentence end nor an underscore. *)
Definition quiet (c : ascii) : bool :=
  negb (is_end c) && negb (Ascii.eqb c "_").

Lemma starts_with_In (pat s : str) :
  starts_with pat s = true -> forall c, In c pat -> In c s.
Proof.
  revert s. induction pat as [|p pat IH]; intros s H c Hc; [destruct Hc|].
  destruct s as [|d s]; [discriminate|].
  cbn in H. apply andb_prop in H as [Hp H]. apply Ascii.eqb_eq in Hp. subst d.
  destruct Hc as [<-|Hc]; [now left|right; now apply (IH s)].
Qed.

Lemma quiet_In (s : str) (c : ascii) :
  forallb quiet s = true -> In c s -> quiet c = true.
Proof. intros H. now apply forallb_forall. Qed.

(** A literal with a period, a sentence end or an underscore in it does
    not occur in a text of quiet characters. *)
Lemma starts_with_quiet (pat s : str) (c : ascii) :
  In c pat -> quiet c = false -> forallb quiet s = true ->
  starts_with pat s = false.
Proof.
  intros Hc Hq Hs. destruct (starts_with pat s) eqn:E; [|reflexivity].
  rewrite (@quiet_In s c Hs (@starts_with_In pat s E c Hc)) in Hq. discriminate.
Qed.

Lemma quiet_skipn (n : nat) (s : str) :
  forallb quiet s = true -> forallb quiet (skipn n s) = true.
Proof.
  revert s. induction n as [|n IH]; intros [|c s] H; cbn; auto.
  cbn in H. apply andb_prop in H as [_ H]. auto.
Qed.

Lemma quiet_span (f : ascii -> bool) (s : str) :
  forallb quiet s = true ->
  forallb quiet (fst (span f s)) = true /\
  forallb quiet (snd (span f s)) = true.
Proof.
  intros H. rewrite (span_app f s), forallb_app in H.
  now apply andb_prop in H.
Qed.

(** A pass whose matches, if any, put back what they matched leaves the
    text as it is. *)
Lemma sub_from_same (m : matcher) (P : str -> Prop) :
  (forall c s, P (c :: s) -> P s) ->
  (forall prev s n out, P s -> m prev s = Some (n, out) ->
                        (1 <= n)%nat /\ out = firstn n s) ->
  forall s skip prev, P s -> sub_from m skip prev s = skipn skip s.
Proof.
  intros Htl Hm. induction s as [|c s IH]; intros skip prev HP.
  - now destruct skip.
  - cbn [sub_from]. destruct skip as [|k].
    + destruct (m prev (c :: s)) as [[n out]|] eqn:E.
      * destruct (@Hm _ _ _ _ HP E) as [Hn ->].
        destruct n as [|n]; [lia|]. cbn [Nat.pred firstn app skipn].
        rewrite (IH n (Some c) (@Htl _ _ HP)). f_equal. apply firstn_skipn.
      * cbn [skipn]. f_equal. exact (IH 0%nat (Some c) (@Htl _ _ HP)).
    + cbn [skipn]. exact (IH k (Some c) (@Htl _ _ HP)).
Qed.

Lemma quiet_tail (c : ascii) (s : str) :
  forallb quiet (c :: s) = true -> forallb quiet s = true.
Proof. cbn. intros H. now apply andb_prop in H. Qed.

(** A pass without any match. *)
Lemma re_sub_quiet (m : matcher) (s : str) :
  (forall prev s, forallb quiet s = true -> m prev s = None) ->
  forallb quiet s = true -> re_sub m s = s.
Proof.
  intros Hm Hs. unfold re_sub.
  apply (@sub_from_same m (fun s => forallb quiet s = true) quiet_tail); auto.
  intros prev s' n out Hq E. rewrite (Hm prev s' Hq) in E. discriminate.
Qed.

Lemma literal_quiet (b : bool) (pat repl : str) (c : ascii) :
  In c pat -> quiet c = false ->
  forall prev s, forallb quiet s = true -> m_literal b pat repl prev s = None.
Proof.
  intros Hc Hq prev s Hs. unfold m_literal.
  now rewrite (@starts_with_quiet pat s c Hc Hq Hs), andb_false_r.
Qed.

Lemma honorific_quiet prev s :
  forallb quiet s = true -> m_honorific prev s = None.
Proof.
  intros Hs. unfold m_honorific.
  assert (H : forall hs, first_honorific hs s = None).
  { induction hs as [|h hs IH]; [reflexivity|].
    cbn [first_honorific].
    rewrite (@starts_with_quiet (h ++ ["."%char]) s "."%char); auto.
    apply in_or_app. right. now left. }
  rewrite H. now destruct (boundary prev s).
Qed.

Lemma decimal_quiet prev s :
  forallb quiet s = true -> m_decimal prev s = None.
Proof.
  intros Hs. unfold m_decimal.
  destruct (@quiet_span is_digit s Hs) as [_ H2].
  destruct (span is_digit s) as [d1 r1]. cbn [snd] in H2.
  destruct d1 as [|d d1]; [reflexivity|].
  destruct r1 as [|c r2]; [reflexivity|].
  destruct (Ascii.eqb_spec c ".") as [->|]; [discriminate H2|reflexivity].
Qed.

Lemma initial_quiet prev s :
  forallb quiet s = true -> m_initial prev s = None.
Proof.
  intros Hs. unfold m_initial. destruct (boundary prev s); [|reflexivity].
  destruct s as [|c [|p r]]; try reflexivity.
  destruct (Ascii.eqb_spec p ".") as [->|].
  - cbn in Hs. now rewrite andb_false_r in Hs.
  - now rewrite andb_false_r.
Qed.

Lemma protect_parens_quiet (g : str) :
  forallb quiet g = true -> protect_parens g = g.
Proof.
  induction g as [|c g IH]; [reflexivity|].
  intros H. cbn [forallb] in H. apply andb_prop in H as [Hc H].
  unfold protect_parens in *. cbn [flat_map]. rewrite (IH H).
  destruct (Ascii.eqb_spec c ".") as [->|]; [discriminate Hc|reflexivity].
Qed.

Lemma parens_quiet prev s n out :
  forallb quiet s = true -> m_parens prev s = Some (n, out) ->
  (1 <= n)%nat /\ out = firstn n s.
Proof.
  intros Hs. unfold m_parens. destruct s as [|c r]; [discriminate|].
  destruct (Ascii.eqb c "("); [|discriminate].
  pose proof (span_app (fun x => negb (Ascii.eqb x ")")) r) as Er.
  pose proof (span_stop (fun x => negb (Ascii.eqb x ")")) r) as Hstop.
  destruct (span (fun x => negb (Ascii.eqb x ")")) r) as [inner r2].
  cbn [fst snd] in Er, Hstop.
  destruct inner as [|i inner]; [discriminate|].
  destruct r2 as [|d r2]; [discriminate|].
  remember (i :: inner) as g eqn:Eg.
  assert (Hg : (1 <= List.length g)%nat) by (subst g; cbn; lia).
  clear Eg. intros H.
  assert (Hn : n = (List.length g + 2)%nat) by congruence.
  assert (Ho : out = protect_parens (c :: g ++ [")"%char])) by congruence.
  clear H. subst n out. split; [lia|].
  apply negb_false_iff, Ascii.eqb_eq in Hstop. subst d.
  assert (E : firstn (List.length g + 2) (c :: r) = c :: g ++ [")"%char]).
  { rewrite Er. replace (List.length g + 2)%nat
      with (S (List.length g + 1)) by lia.
    cbn [firstn]. f_equal.
    rewrite firstn_app, firstn_all2 by lia.
    replace (List.length g + 1 - List.length g)%nat with 1%nat by lia.
    reflexivity. }
  rewrite E. apply protect_parens_quiet.
  rewrite <- E.
  rewrite <- (firstn_skipn (List.length g + 2) (c :: r)) in Hs.
  rewrite forallb_app in Hs. now apply andb_prop in Hs.
Qed.

Lemma protect_quiet (s : str) : forallb quiet s = true -> protect s = s.
Proof.
  intros Hs. unfold protect.
  rewrite (@re_sub_quiet (m_literal true (lit "et al.") ET_AL_MARKER) s);
    [|apply (@literal_quiet true _ _ "."%char); [now right; right; right; right; right; left|reflexivity]|exact Hs].
  rewrite (@re_sub_quiet (m_literal true (lit "e.g.") EG_MARKER) s);
    [|apply (@literal_quiet true _ _ "."%char); [now right; left|reflexivity]|exact Hs].
  rewrite (@re_sub_quiet (m_literal true (lit "i.e.") IE_MARKER) s);
    [|apply (@literal_quiet true _ _ "."%char); [now right; left|reflexivity]|exact Hs].
  rewrite (@re_sub_quiet (m_literal true (lit "cf.") CF_MARKER) s);
    [|apply (@literal_quiet true _ _ "."%char); [now right; right; left|reflexivity]|exact Hs].
  rewrite (@re_sub_quiet m_honorific s (fun p t => @honorific_quiet p t) Hs).
  rewrite (@re_sub_quiet m_decimal s (fun p t => @decimal_quiet p t) Hs).
  rewrite (@re_sub_quiet m_initial s (fun p t => @initial_quiet p t) Hs).
  unfold re_sub.
  apply (@sub_from_same m_parens (fun s => forallb quiet s = true) quiet_tail);
    [|exact Hs].
  intros prev t n out. apply parens_quiet.
Qed.

Lemma space_after_quiet prev s :
  forallb quiet s = true -> m_space_after prev s = None.
Proof.
  intros Hs. unfold m_space_after. destruct s as [|c [|d s]]; try reflexivity.
  cbn [forallb] in Hs. apply andb_prop in Hs as [Hc _].
  unfold quiet in Hc. apply andb_prop in Hc as [Hc _].
  apply negb_true_iff in Hc. now rewrite Hc.
Qed.

Lemma last_marker_at_quiet (s : str) :
  forallb quiet s = true -> forall k, last_marker_at k s = None.
Proof.
  intros Hs. induction k as [|k IH]; [reflexivity|].
  cbn [last_marker_at].
  rewrite (@starts_with_quiet DOT_MARKER (skipn (S k) s) "_"%char);
    [exact IH|now left|reflexivity|now apply quiet_skipn].
Qed.

Lemma restore_dot_quiet prev s :
  forallb quiet s = true -> m_restore_dot prev s = None.
Proof.
  intros Hs. unfold m_restore_dot. destruct (span is_word s) as [run rest].
  now rewrite (@last_marker_at_quiet s Hs).
Qed.

Lemma restore_decimal_quiet prev s :
  forallb quiet s = true -> m_restore_decimal prev s = None.
Proof.
  intros Hs. unfold m_restore_decimal.
  destruct (@quiet_span is_digit s Hs) as [_ H2].
  destruct (span is_digit s) as [d1 r1]. cbn [snd] in H2.
  destruct d1 as [|d d1]; [reflexivity|].
  now rewrite (@starts_with_quiet DECIMAL r1 "_"%char (or_introl eq_refl)
                 eq_refl H2).
Qed.

Lemma restore_initial_quiet prev s :
  forallb quiet s = true -> m_restore_initial prev s = None.
Proof.
  intros Hs. unfold m_restore_initial. destruct s as [|c r]; [reflexivity|].
  rewrite (@starts_with_quiet INITIAL r "_"%char (or_introl eq_refl)
             eq_refl (@quiet_tail c r Hs)).
  now rewrite andb_false_r.
Qed.

Lemma restore_quiet (s : str) : forallb quiet s = true -> restore s = s.
Proof.
  intros Hs. unfold restore, replace.
  rewrite (@re_sub_quiet (m_literal false ET_AL_MARKER (lit "et al.")) s);
    [|apply (@literal_quiet false _ _ "_"%char); [now right; right; left|reflexivity]|exact Hs].
  rewrite (@re_sub_quiet (m_literal false EG_MARKER (lit "e.g.")) s);
    [|apply (@literal_quiet false _ _ "_"%char); [now right; right; left|reflexivity]|exact Hs].
  rewrite (@re_sub_quiet (m_literal false IE_MARKER (lit "i.e.")) s);
    [|apply (@literal_quiet false _ _ "_"%char); [now right; right; left|reflexivity]|exact Hs].
  rewrite (@re_sub_quiet (m_literal false CF_MARKER (lit "cf.")) s);
    [|apply (@literal_quiet false _ _ "_"%char); [now right; right; left|reflexivity]|exact Hs].
  rewrite (@re_sub_quiet m_restore_dot s (fun p t => @restore_dot_quiet p t) Hs).
  rewrite (@re_sub_quiet m_restore_decimal s
             (fun p t => @restore_decimal_quiet p t) Hs).
  rewrite (@re_sub_quiet m_restore_initial s
             (fun p t => @restore_initial_quiet p t) Hs).
  apply re_sub_quiet; [|exact Hs].
  apply (@literal_quiet false _ _ "_"%char); [now left|reflexivity].
Qed.

(** Without a sentence end before it, no white space separates two
    sentences. *)
Lemma split_from_quiet (s : str) :
  forall cur prev,
    match prev with Some p => is_end p = false | None => True end ->
    forallb quiet s = true ->
    Sentences.split_from cur 0 prev s = [(rev cur ++ s)%list].
Proof.
  induction s as [|c s IH]; intros cur prev Hp Hs.
  - cbn. now rewrite app_nil_r.
  - cbn [Sentences.split_from].
    assert (Hg : m_sentence_gap prev (c :: s) = None).
    { unfold m_sentence_gap. destruct prev as [p|]; [|reflexivity].
      now rewrite Hp. }
    rewrite Hg. cbn [forallb] in Hs. apply andb_prop in Hs as [Hc Hs].
    rewrite IH; [|unfold quiet in Hc; apply andb_prop in Hc as [Hc _];
                   now apply negb_true_iff in Hc|exact Hs].
    cbn [rev]. now rewrite <- app_assoc.
Qed.

(** A text with none of the characters [.], [!], [?] and [_] is one
    sentence: the text without the white space around it (no sentence at
    all when nothing is left). *)
Theorem split_into_sentences_single (text : str) :
  forallb quiet text = true ->
  split_into_sentences text
  = match strip text with [] => [] | _ :: _ => [strip text] end.
Proof.
  intros Hq. unfold split_into_sentences. cbv zeta.
  rewrite (@re_sub_quiet m_space_after text
             (fun p t => @space_after_quiet p t) Hq).
  rewrite (protect_quiet _ Hq). unfold re_split.
  rewrite (@split_from_quiet text [] None I Hq). cbn [rev app flat_map].
  rewrite (restore_quiet _ Hq), app_nil_r. reflexivity.
Qed.

Lemma split_into_sentences_single_witness :
  forallb quiet (lit "  so (as I said) we went on  ") = true /\
  split_into_sentences (lit "  so (as I said) we went on  ")
  = [lit "so (as I said) we went on"].
Proof.
  split; [reflexivity|].
  apply (@split_into_sentences_single (lit "  so (as I said) we went on  ")).
  reflexivity.
Defined.

(** ** [transform_utterance_to_sentences] *)

(** A value of the loaded JSON, as far as the script uses it: a string
    is split into sentences, any value is copied to the output and
    formatted into the sentence ids. *)
Inductive value : Type :=
| VNull
| VBool (b : bool)
| VInt (z : Z)
| VStr (s : str)
| VOther (shown : str).    (* a float, a list or an object, with its [str()] *)

(** [str(v)], which the f-string applies. *)
Definition show (v : value) : str :=
  match v with
  | VNull => lit "None"
  | VBool true => lit "True"
  | VBool false => lit "False"
  | VInt z => lit (NilEmpty.string_of_int (Z.to_int z))
  | VStr s => s
  | VOther shown => shown
  end.

Definition show_nat (n : nat) : str := lit (Pairs.string_of_nat n).

(** An item of the input list: a JSON object, with its keys in order. *)
Definition utterance_item : Type := list (str * value).

Inductive exn : Type :=
| KeyError (key : str)
| TypeError
| DumpError.    (* raised inside [json.dump]: a UnicodeEncodeError *)

(** [d[key]] *)
Fixpoint getitem (d : utterance_item) (key : str) : exn + value :=
  match d with
  | [] => inl (KeyError key)
  | (k, v) :: d' => if str_eq_dec k key then inr v else getitem d' key
  end.

Record sentence_object : Type := SentenceObject {
  sentence : str;
  sentence_order : str
}.

Record transformed_item : Type := TransformedItem {
  speaker_name : value;
  role : value;
  utterance_order : value;
  sentences : list sentence_object
}.

(** The loop over [enumerate(sentences, start=1)], from index [idx]. *)
Fixpoint sentence_objects (utterance_order : value) (idx : nat)
         (sentences : list str) : list sentence_object :=
  match sentences with
  | [] => []
  | sentence :: rest =>
    SentenceObject sentence
                   (show utterance_order ++ lit "-" ++ show_nat idx)%list
    :: sentence_objects utterance_order (S idx) rest
  end.

(** The body of the loop over the items.  [re.sub] raises a TypeError
    for an utterance that is not a string. *)
Definition transform_item (it : utterance_item) : exn + transformed_item :=
  match getitem it (lit "order") with
  | inl e => inl e
  | inr utterance_order =>
    match getitem it (lit "utterance") with
    | inl e => inl e
    | inr (VStr text) =>
      let sentences := split_into_sentences text in
      let sentence_objects := sentence_objects utterance_order 1 sentences in
      match getitem it (lit "speaker_name") with
      | inl e => inl e
      | inr speaker =>
        match getitem it (lit "role") with
        | inl e => inl e
        | inr r => inr (TransformedItem speaker r utterance_order
                                        sentence_objects)
        end
      end
    | inr _ => inl TypeError
    end
  end.

Fixpoint transform_loop (data : list utterance_item)
         (transformed_data : list transformed_item)
  : exn + list transformed_item :=
  match data with
  | [] => inr transformed_data
  | it :: rest =>
    match transform_item it with
    | inl e => inl e
    | inr transformed => transform_loop rest (transformed_data ++ [transformed])
    end
  end.

(** What a file holds: the list that a completed [json.dump] has
    written, or the beginning of its text when [json.dump] raised on the
    way. *)
Inductive content : Type :=
| Dumped (transformed_data : list transformed_item)
| Truncated.

(** The files, by path. *)
Definition files : Type := string -> option content.

Definition write (fs : files) (path : string) (c : content) : files :=
  fun p => if String.eqb p path then Some c else fs p.

(** [data] is the list loaded from the input file.  The output file is
    opened (and emptied) after the loop; the external call
    [json.dump(transformed_data, f, indent=2, ensure_ascii=False)] is
    the argument [json_dump], which says whether the call completes: it
    raises when a string cannot be encoded (a lone surrogate), and the
    file is then left with what was written so far. *)
Definition transform_utterance_to_sentences
           (json_dump : list transformed_item -> bool)
           (data : list utterance_item) (output_file : string) (fs : files)
  : (exn + list transformed_item) * files :=
  match transform_loop data [] with
  | inl e => (inl e, fs)
  | inr transformed_data =>
    if json_dump transformed_data
    then (inr transformed_data,
          write fs output_file (Dumped transformed_data))
    else (inl DumpError, write fs output_file Truncated)
  end.


(** What the loop body returns for an item. *)
Definition transformed_from (it : utterance_item) (t : transformed_item)
  : Prop :=
  exists text,
    getitem it (lit "utterance") = inr (VStr text) /\
    getitem it (lit "order") = inr (utterance_order t) /\
    getitem it (lit "speaker_name") = inr (speaker_name t) /\
    getitem it (lit "role") = inr (role t) /\
    map sentence (sentences t) = split_into_sentences text /\
    map sentence_order (sentences t)
    = map (fun idx => show (utterance_order t) ++ lit "-" ++ show_nat idx)%list
          (seq 1 (List.length (split_into_sentences text))).

Lemma sentence_objects_sentence (o : value) (l : list str) :
  forall idx, map sentence (sentence_objects o idx l) = l.
Proof.
  induction l as [|s l IH]; intros idx; cbn; [reflexivity|]. now rewrite IH.
Qed.

Lemma sentence_objects_order (o : value) (l : list str) :
  forall idx,
    map sentence_order (sentence_objects o idx l)
    = map (fun idx => show o ++ lit "-" ++ show_nat idx)%list
          (seq idx (List.length l)).
Proof.
  induction l as [|s l IH]; intros idx; cbn [sentence_objects map List.length seq];
    [reflexivity|].
  now rewrite IH.
Qed.

Lemma transform_item_inr (it : utterance_item) (t : transformed_item) :
  transform_item it = inr t -> transformed_from it t.
Proof.
  unfold transform_item, transformed_from.
  destruct (getitem it (lit "order")) as [e|o]; [discriminate|].
  destruct (getitem it (lit "utterance")) as [e|[| | |text|]]; try discriminate.
  destruct (getitem it (lit "speaker_name")) as [e|s]; [discriminate|].
  destruct (getitem it (lit "role")) as [e|r]; [discriminate|].
  intros [= <-]. exists text. cbn [utterance_order speaker_name role sentences].
  repeat split; auto using sentence_objects_sentence, sentence_objects_order.
Qed.


Lemma transform_loop_inr (data : list utterance_item) :
  forall acc out,
    transform_loop data acc = inr out ->
    exists new, out = (acc ++ new)%list /\ Forall2 transformed_from data new.
Proof.
  induction data as [|it data IH]; intros acc out H; cbn in H.
  - injection H as <-. exists []. now rewrite app_nil_r.
  - destruct (transform_item it) as [e|t] eqn:E; [discriminate|].
    destruct (IH _ _ H) as (new & -> & Hnew).
    exists (t :: new). rewrite <- app_assoc. split; [reflexivity|].
    constructor; [now apply transform_item_inr|exact Hnew].
Qed.






Lemma transform_utterance_to_sentences_items_aux
      (json_dump : list transformed_item -> bool)
      (data : list utterance_item) (output_file : string) (fs fs' : files)
      (out : list transformed_item) :
  transform_utterance_to_sentences json_dump data output_file fs
  = (inr out, fs') ->
  Forall2 transformed_from data out.
Proof.
  unfold transform_utterance_to_sentences.
  destruct (transform_loop data []) as [e|out'] eqn:E; [discriminate|].
  destruct (json_dump out'); [|discriminate].
  intros [= <- _].
  destruct (transform_loop_inr _ _ E) as (new & -> & Hnew). exact Hnew.
Qed.

(** When the function returns, the output items are those of the input
    in order: speaker, role and order copied, the sentences those of
    [split_into_sentences] on the utterance, and the id of sentence
    number [idx] (from 1) the order, a hyphen and [idx]. *)
Theorem transform_utterance_to_sentences_items
        (json_dump : list transformed_item -> bool)
        (data : list utterance_item) (output_file : string) (fs fs' : files)
        (out : list transformed_item) :
  transform_utterance_to_sentences json_dump data output_file fs
  = (inr out, fs') ->
  Forall2 transformed_from data out.
Proof. apply transform_utterance_to_sentences_items_aux. Qed.

Definition two_items : list utterance_item :=
  [[(lit "speaker_name", VStr (lit "JN")); (lit "role", VStr (lit "Interviewer"));
    (lit "utterance", VStr (lit "Hello. How are you?")); (lit "order", VInt 1)];
   [(lit "speaker_name", VStr (lit "JM")); (lit "role", VStr (lit "Interviewee"));
    (lit "utterance", VStr (lit "Fine.")); (lit "order", VInt 2)]].

Definition two_items_out : list transformed_item :=
  [TransformedItem (VStr (lit "JN")) (VStr (lit "Interviewer")) (VInt 1)
                   [SentenceObject (lit "Hello.") (lit "1-1");
                    SentenceObject (lit "How are you?") (lit "1-2")];
   TransformedItem (VStr (lit "JM")) (VStr (lit "Interviewee")) (VInt 2)
                   [SentenceObject (lit "Fine.") (lit "2-1")]].

Definition no_files : files := fun _ => None.

(** A [json.dump] that completes. *)
Definition dump_completes (_ : list transformed_item) : bool := true.



Lemma transform_utterance_to_sentences_items_witness :
  transform_utterance_to_sentences dump_completes two_items "out.json" no_files
  = (inr two_items_out, write no_files "out.json" (Dumped two_items_out)) /\
  Forall2 transformed_from two_items two_items_out.
Proof.
  split; [reflexivity|].
  apply (@transform_utterance_to_sentences_items
           dump_completes two_items "out.json" no_files
           (write no_files "out.json" (Dumped two_items_out)) two_items_out).
  reflexivity.
Defined.

(** The text survives the transformation: for an ASCII utterance, the
    sentences of its output item are not empty and carry no white space
    at either end, and, when the utterance has no underscore, their
    characters other than white space are, in order, those of the
    utterance. *)
Theorem transform_utterance_to_sentences_text
        (json_dump : list transformed_item -> bool)
        (data : list utterance_item) (output_file : string) (fs fs' : files)
        (out : list transformed_item) :
  transform_utterance_to_sentences json_dump data output_file fs
  = (inr out, fs') ->
  Forall2 (fun it t =>
             exists text,
               getitem it (lit "utterance") = inr (VStr text) /\
               (ascii_text text = true ->
                Forall (fun s => s <> [] /\ trimmed s)
                       (map sentence (sentences t)) /\
                (no_underscore text = true ->
                 non_space (List.concat (map sentence (sentences t)))
                 = non_space text)))
          data out.
Proof.
  intros Hrun. apply transform_utterance_to_sentences_items_aux in Hrun.
  eapply Forall2_impl; [|exact Hrun]. cbn beta.
  intros it t (text & Hu & _ & _ & _ & Hs & _). exists text.
  split; [exact Hu|]. intros _. rewrite Hs.
  split; [apply split_into_sentences_trimmed|].
  apply split_into_sentences_non_space.
Qed.

Lemma transform_utterance_to_sentences_text_witness :
  transform_utterance_to_sentences dump_completes two_items "out.json" no_files
  = (inr two_items_out, write no_files "out.json" (Dumped two_items_out)) /\
  Forall2 (fun it t =>
             exists text,
               getitem it (lit "utterance") = inr (VStr text) /\
               (ascii_text text = true ->
                Forall (fun s => s <> [] /\ trimmed s)
                       (map sentence (sentences t)) /\
                (no_underscore text = true ->
                 non_space (List.concat (map sentence (sentences t)))
                 = non_space text)))
          two_items two_items_out.
Proof.
  split; [reflexivity|].
  apply (@transform_utterance_to_sentences_text
           dump_completes two_items "out.json" no_files
           (write no_files "out.json" (Dumped two_items_out)) two_items_out).
  reflexivity.
Defined.

(** *** Sentence ids *)

Lemma string_of_uint_digits (d : Decimal.uint) :
  forallb is_digit (lit (NilEmpty.string_of_uint d)) = true.
Proof.
  induction d; cbn [NilEmpty.string_of_uint lit list_ascii_of_string forallb];
    [reflexivity| | | | | | | | | | ];
    (apply andb_true_intro; split; [reflexivity|exact IHd]).
Qed.

Lemma show_nat_digits (n : nat) : forallb is_digit (show_nat n) = true.
Proof. apply string_of_uint_digits. Qed.

Lemma show_nat_inj (n m : nat) : show_nat n = show_nat m -> n = m.
Proof.
  unfold show_nat, lit. intros H. apply Pairs.string_of_nat_inj.
  rewrite <- (string_of_list_ascii_of_string (Pairs.string_of_nat n)),
          <- (string_of_list_ascii_of_string (Pairs.string_of_nat m)).
  now rewrite H.
Qed.

(** A run of digits ends at the first hyphen. *)
Lemma digits_hyphen_inj (x y u v : str) :
  forallb is_digit x = true -> forallb is_digit y = true ->
  (x ++ "-"%char :: u = y ++ "-"%char :: v)%list -> x = y /\ u = v.
Proof.
  revert y. induction x as [|c x IH]; intros [|d y] Hx Hy H; cbn in *.
  - now injection H.
  - injection H as <- _. discriminate Hy.
  - injection H as -> _. discriminate Hx.
  - injection H as -> H. apply andb_prop in Hx as [_ Hx].
    apply andb_prop in Hy as [_ Hy].
    destruct (IH y Hx Hy H) as [-> ->]. now split.
Qed.

(** An id determines the order and the index it was made of. *)
Lemma sentence_id_inj (a b : str) (i j : nat) :
  (a ++ lit "-" ++ show_nat i = b ++ lit "-" ++ show_nat j)%list ->
  a = b /\ i = j.
Proof.
  intros H. apply (f_equal (@rev ascii)) in H.
  rewrite !rev_app_distr in H. cbn [lit list_ascii_of_string rev app] in H.
  rewrite <- !app_assoc in H. cbn [app] in H.
  apply digits_hyphen_inj in H as [Hi Ha].
  - split.
    + rewrite <- (rev_involutive a), <- (rev_involutive b). now rewrite Ha.
    + apply show_nat_inj.
      rewrite <- (rev_involutive (show_nat i)), <- (rev_involutive (show_nat j)).
      now rewrite Hi.
  - rewrite forallb_forall. intros c Hc. apply in_rev in Hc.
    exact (proj1 (forallb_forall _ _) (show_nat_digits i) c Hc).
  - rewrite forallb_forall. intros c Hc. apply in_rev in Hc.
    exact (proj1 (forallb_forall _ _) (show_nat_digits j) c Hc).
Qed.

(** The ids of all the sentences of the output. *)
Definition sentence_ids (out : list transformed_item) : list str :=
  flat_map (fun t => map sentence_order (sentences t)) out.

(** Sentence ids are unique in the output as soon as the utterance
    orders, as they print, are pairwise distinct. *)
Theorem transform_utterance_to_sentences_ids
        (json_dump : list transformed_item -> bool)
        (data : list utterance_item) (output_file : string) (fs fs' : files)
        (out : list transformed_item) :
  transform_utterance_to_sentences json_dump data output_file fs
  = (inr out, fs') ->
  NoDup (map (fun t => show (utterance_order t)) out) ->
  NoDup (sentence_ids out).
Proof.
  intros Hrun. apply transform_utterance_to_sentences_items_aux in Hrun.
  assert (Hids : Forall (fun t => exists n,
                           map sentence_order (sentences t)
                           = map (fun idx => show (utterance_order t) ++ lit "-"
                                             ++ show_nat idx)%list (seq 1 n)) out).
  { clear -Hrun. induction Hrun as [|it t data out (text & H) _ IH];
      constructor; [|exact IH].
    exists (List.length (split_into_sentences text)). apply H. }
  clear Hrun. unfold sentence_ids.
  induction out as [|t out IH]; intros Hnd; [constructor|].
  cbn [flat_map map] in *. inversion Hids as [|? ? [n Hn] Hrest]; subst.
  inversion Hnd as [|? ? Hfresh Hnd']; subst.
  apply NoDup_app; [| now apply IH |].
  - rewrite Hn. apply Pairs.NoDup_map_inj; [|apply seq_NoDup].
    intros i j H. now apply sentence_id_inj in H.
  - intros id Hin Hin'. apply Hfresh.
    rewrite Hn in Hin. apply in_map_iff in Hin as (i & <- & _).
    apply in_flat_map in Hin' as (t' & Ht' & Hin').
    rewrite Forall_forall in Hrest. destruct (Hrest t' Ht') as [n' Hn'].
    rewrite Hn' in Hin'. apply in_map_iff in Hin' as (j & Hj & _).
    apply sentence_id_inj in Hj as [Hj _].
    apply in_map_iff. exists t'. now split.
Qed.

Lemma transform_utterance_to_sentences_ids_witness :
  transform_utterance_to_sentences dump_completes two_items "out.json" no_files
  = (inr two_items_out, write no_files "out.json" (Dumped two_items_out)) /\
  NoDup (map (fun t => show (utterance_order t)) two_items_out) /\
  NoDup (sentence_ids two_items_out).
Proof.
  split; [reflexivity|].
  assert (H : NoDup (map (fun t => show (utterance_order t)) two_items_out)).
  { repeat constructor; cbn; intuition discriminate. }
  split; [exact H|].
  apply (@transform_utterance_to_sentences_ids
           dump_completes two_items "out.json" no_files
           (write no_files "out.json" (Dumped two_items_out)) two_items_out);
    [reflexivity|exact H].
Defined.

End Sentences.

(* ================================================================== *)
(** * Clustering scripts *)
(* ================================================================== *)

Module Clustering.
Import Py Text.

(** The three scripts that define an [EmbeddingVisualizer] class.  Their
    methods differ in a few places; a definition that takes a [script]
    follows the text of that script. *)
Inductive report : Type :=
| ClaimReport          (* Claim Clustering_Report.py *)
| PredicateWordNet.    (* Predicate with WordNet.py *)

Inductive script : Type :=
| Report (r : report)
| ClusterAssessment.   (* Cluster Assessment.py *)

Coercion Report : report >-> script.

(** ** Data model *)

(** A matrix of floats, row by row. *)
Definition matrix : Type := list (list Q).

(** The embedding table.  [col_text] is the column [claim_text] or
    [predicate_text]; a column that has not been assigned yet is [None]. *)
Record DataFrame : Type := mkDataFrame {
  col_text : list str;
  col_source_file : list string;
  col_cluster : option (list Z);
  col_probability : option (list Q);
  col_outlier_score : option (list Q)
}.

(** [len(df)] *)
Definition len (df : DataFrame) : nat := List.length (col_text df).

(** One row of the condensed tree ([condensed_tree_.to_pandas()]). *)
Record tree_row : Type := mkTreeRow {
  parent : Z;
  child : Z;
  lambda_val : Q;
  child_size : Z
}.

(** What the scripts read from a fitted [hdbscan.HDBSCAN] object.
    [condensed_tree_] is [None] when the attribute does not exist,
    [relative_validity_] is [None] when reading the property raises,
    [cluster_map] is [prediction_data_.cluster_map] (node -> label). *)
Record Clusterer : Type := mkClusterer {
  labels_ : list Z;
  probabilities_ : list Q;
  outlier_scores_ : list Q;
  condensed_tree_ : option (list tree_row);
  cluster_map : dict Z;
  relative_validity_ : option Q
}.

(** A row as [to_dict('records')] gives it after [reset_index()]. *)
Record record : Type := mkRecord {
  r_index : nat;
  r_text : str;
  r_source_file : string;
  r_cluster : Z;
  r_probability : Q;
  r_outlier_score : option Q
}.

(** An entry of [cluster_descriptions]. *)
Record description : Type := mkDescription {
  keywords : list str;
  size : nat;
  top_words_with_freq : list (str * nat);
  sample_rows : list record
}.

(** The attributes of an [EmbeddingVisualizer] instance.  An attribute
    that has not been set is [None] ([hasattr] is false). *)
Record EmbeddingVisualizer : Type := mkViz {
  df : DataFrame;
  n_samples : Z;
  XY_normalized : option matrix;
  clusterer : option Clusterer;
  n_clusters : option Z;
  n_noise : option Z;
  cluster_descriptions : option (dict description);
  color_map : option (dict string)
}.

(** ** [cluster_embeddings] *)

Definition not_noise (l : Z) : bool := negb (Z.eqb l (-1)).

(** [df[col] = values]: pandas raises ValueError unless the value has one
    entry per row. *)
Definition checked (A : Type) (df0 : DataFrame) (values : list A)
  : option (list A) :=
  if Nat.eqb (List.length values) (len df0) then Some values else None.

(** [len(set(labels_)) - (1 if -1 in labels_ else 0)] *)
Definition count_clusters (labels : list Z) : Z :=
  (Z.of_nat (List.length (set_of labels))
   - (if mem (-1) labels then 1 else 0))%Z.

(** [sum(df["cluster"] == -1)] *)
Definition count_noise (cluster_column : list Z) : Z :=
  Z.of_nat (List.length (filter (fun c => Z.eqb c (-1)) cluster_column)).

(** The external call [hdbscan.HDBSCAN(min_cluster_size, min_samples,
    ...).fit(XY)] is the argument [fit]. *)
Definition cluster_embeddings (s : script)
           (fit : Z -> Z -> matrix -> Clusterer)
           (min_cluster_size min_samples : Z)
           (self : EmbeddingVisualizer) : option EmbeddingVisualizer :=
  match XY_normalized self with
  | None => None                                  (* AttributeError *)
  | Some xy =>
    let c := fit min_cluster_size min_samples xy in
    let d := df self in
    match checked d (labels_ c) with
    | None => None
    | Some cl =>
      match checked d (probabilities_ c) with
      | None => None
      | Some pr =>
        let with_outlier :=
          match s with
          | ClusterAssessment => Some (col_outlier_score d)
          | Report _ => option_map Some (checked d (outlier_scores_ c))
          end in
        match with_outlier with
        | None => None
        | Some os =>
          let d' := mkDataFrame (col_text d) (col_source_file d)
                                (Some cl) (Some pr) os in
          Some (mkViz d' (n_samples self) (XY_normalized self) (Some c)
                      (Some (count_clusters (labels_ c)))
                      (Some (count_noise cl))
                      (cluster_descriptions self) (color_map self))
        end
      end
    end
  end.

(** ** [extract_cluster_keywords] *)

(** The rows of the table as records; [cl] and [pr] are the [cluster]
    and [probability] columns. *)
Definition rows_of (d : DataFrame) (cl : list Z) (pr : list Q)
  : list record :=
  map (fun i =>
         mkRecord i (nth i (col_text d) []) (nth i (col_source_file d) EmptyString)
                  (nth i cl 0%Z) (nth i pr 0%Q)
                  (match col_outlier_score d with
                   | Some os => Some (nth i os 0%Q)
                   | None => None
                   end))
      (seq 0 (len d)).

(** [re.sub(r'[^\w\s\u4e00-\u9fa5]', ' ', text.lower())] on ASCII text,
    where [\w] is a letter, a digit or an underscore and the range
    [\u4e00-\u9fa5] holds no character. *)
Definition clean (text : str) : str :=
  map (fun c => if is_word c || is_space c then c else " "%char)
      (lower text).

(** The characters that a word of a cleaned ASCII text is made of:
    lower-case letters, digits and the underscore. *)
Definition keyword_char (c : ascii) : bool :=
  is_lower c || is_digit c || Ascii.eqb c "_".


(** The filter of the list comprehension over [cleaned.split()]. *)
Definition keep_word (r : report) (min_word_length : Z) (w : str) : bool :=
  match r with
  | ClaimReport => (min_word_length <? Z.of_nat (List.length w))%Z
  | PredicateWordNet =>
    (min_word_length <? Z.of_nat (List.length w))%Z && negb (isdigit w)
  end.

(** The list [words] after the loop over the texts of a cluster. *)
Definition words_of (r : report) (min_word_length : Z) (texts : list str)
  : list str :=
  flat_map (fun text => filter (keep_word r min_word_length)
                               (split (clean text)))
           texts.

(** [cluster_df.sort_values(by='probability', ascending=False)]: a row
    comes before the rows of strictly smaller probability. *)
Definition probability_before (y x : record) : bool :=
  negb (Qle_bool (r_probability y) (r_probability x)).

Definition sort_by_probability (rows : list record) : list record :=
  sort_by probability_before rows.

(** [self.df[self.df["cluster"] == cluster_id]] *)
Definition cluster_rows (d : DataFrame) (cl : list Z) (pr : list Q)
           (cluster_id : Z) : list record :=
  filter (fun x => Z.eqb (r_cluster x) cluster_id) (rows_of d cl pr).

(** The body of the loop for one cluster id other than -1. *)
Definition describe (r : report) (n_terms : nat) (min_word_length : Z)
           (d : DataFrame) (cl : list Z) (pr : list Q) (cluster_id : Z)
  : description :=
  let cluster_df := cluster_rows d cl pr cluster_id in
  let words := words_of r min_word_length (map r_text cluster_df) in
  let word_counts := Counter str_eq_dec words in
  let top_words := map fst (most_common n_terms word_counts) in
  let sample_rows := head 5 (sort_by_probability cluster_df) in
  mkDescription top_words (List.length cluster_df)
                (most_common 20 word_counts) sample_rows.

Fixpoint describe_loop (r : report) (n_terms : nat) (min_word_length : Z)
         (d : DataFrame) (cl : list Z) (ids : list Z)
         (cluster_descriptions : dict description)
  : option (dict description) :=
  match ids with
  | [] => Some cluster_descriptions
  | cluster_id :: ids' =>
    if Z.eqb cluster_id (-1)
    then describe_loop r n_terms min_word_length d cl ids' cluster_descriptions
    else
      match col_probability d with
      | None => None                                      (* KeyError *)
      | Some pr =>
        describe_loop r n_terms min_word_length d cl ids'
          (dict_set cluster_descriptions cluster_id
                    (describe r n_terms min_word_length d cl pr cluster_id))
      end
  end.

(** [sorted(self.df["cluster"].unique())] *)
Definition sorted_unique (cl : list Z) : list Z :=
  sort_by Z.ltb (set_of cl).

Definition extract_cluster_keywords (r : report) (n_terms : nat)
           (min_word_length : Z) (self : EmbeddingVisualizer)
  : option EmbeddingVisualizer :=
  match col_cluster (df self) with
  | None => None                                          (* KeyError *)
  | Some cl =>
    match describe_loop r n_terms min_word_length (df self) cl
                        (sorted_unique cl) [] with
    | None => None
    | Some descriptions =>
      Some (mkViz (df self) (n_samples self) (XY_normalized self)
                  (clusterer self) (n_clusters self) (n_noise self)
                  (Some descriptions) (color_map self))
    end
  end.

(** The default arguments of the method. *)
Definition default_n_terms (r : report) : nat :=
  match r with ClaimReport => 5 | PredicateWordNet => 10 end.

Definition default_min_word_length : Z := 2.

(** ** The cluster hierarchy of [export_hierarchical_report_html] *)

(** [tree_df.groupby('parent')['child'].apply(list).to_dict()]: the
    groups come in ascending order of the parent, each with its children
    in row order. *)
Definition parent_children (tree : list tree_row) : dict (list Z) :=
  map (fun p => (p, map child (filter (fun r => Z.eqb (parent r) p) tree)))
      (sorted_unique (map parent tree)).

(** [Index.is_unique] *)
Definition is_unique (l : list Z) : bool :=
  Nat.eqb (List.length (set_of l)) (List.length l).

(** [tree_df.set_index('child').to_dict('index')]; pandas raises
    ValueError when a child id occurs in two rows. *)
Definition node_data (tree : list tree_row) : option (dict tree_row) :=
  if is_unique (map child tree)
  then Some (dict_of (map (fun r => (child r, r)) tree))
  else None.

(** [{label: node for node, label in cluster_map.items()}] *)
Definition cluster_id_to_node (cluster_map : dict Z) : dict Z :=
  dict_of (map (fun kv => (snd kv, fst kv)) cluster_map).

(** [dict(zip(tree_df['child'], tree_df['child_size']))] *)
Definition node_sizes_direct (tree : list tree_row) : dict Z :=
  dict_of (map (fun r => (child r, child_size r)) tree).

(** The closures [get_node_size] and [build_hierarchy_html] share the
    mutable dictionary [memoized_sizes]: a computation takes the
    dictionary and returns it with its result.  [None] means that the
    recursion went deeper than the fuel given. *)
Definition M (A : Type) : Type := dict Z -> option (A * dict Z).

Definition ret (A : Type) (a : A) : M A := fun memo => Some (a, memo).

Definition bind (A B : Type) (m : M A) (f : A -> M B) : M B :=
  fun memo =>
    match m memo with
    | Some (a, memo') => f a memo'
    | None => None
    end.

Definition out_of_fuel (A : Type) : M A := fun _ => None.

Notation "x <- m ;; f" := (bind m (fun x => f))
  (at level 61, m at next level, right associativity).

(** [sum(size_of(child) for child in children)] *)
Fixpoint sum_over (size_of : Z -> M Z) (children : list Z) (acc : Z) : M Z :=
  match children with
  | [] => ret acc
  | c :: children' => s <- size_of c ;; sum_over size_of children' (acc + s)%Z
  end.

Fixpoint get_node_size (fuel : nat) (tree : list tree_row) (node : Z) : M Z :=
  fun memoized_sizes =>
    match dict_get memoized_sizes node with
    | Some size => Some (size, memoized_sizes)
    | None =>
      match dict_get (node_sizes_direct tree) node with
      | Some size => Some (size, dict_set memoized_sizes node size)
      | None =>
        match dict_get (parent_children tree) node with
        | Some children =>
          match fuel with
          | O => None
          | S fuel' =>
            match sum_over (get_node_size fuel' tree) children 0
                           memoized_sizes with
            | Some (size, memo') => Some (size, dict_set memo' node size)
            | None => None
            end
          end
        | None => Some (1%Z, memoized_sizes)
        end
      end
    end.

(** [any(get_node_size(child) > 1 for child in children)]: stops at the
    first child that is visible. *)
Fixpoint any_visible (size_of : Z -> M Z) (children : list Z) : M bool :=
  match children with
  | [] => ret false
  | c :: children' =>
    s <- size_of c ;;
    if (1 <? s)%Z then ret true else any_visible size_of children'
  end.

(** The link from a tree node to a final cluster. *)
Record annotation : Type := mkAnnotation {
  an_label : Z;                      (* [final_cluster_label] *)
  an_color : string;                 (* border and text color *)
  an_preview : option (list str)     (* [keywords[:3]], when there are keywords *)
}.

(** The markup that [build_hierarchy_html] returns is kept as the tree
    of list items that it spells: the node id, the size, the lambda
    value, whether the toggle is shown, the cluster link, and the nested
    list ([None] when no [<ul>] is emitted).  The empty string is the
    empty list of items. *)
#[local] Unset Elimination Schemes.
Inductive li : Type :=
| Li (li_node li_size : Z) (li_lambda : Q) (li_toggle : bool)
     (li_final : option annotation) (li_children : option (list li)).
#[local] Set Elimination Schemes.

Definition li_node (x : li) : Z := let (n, _, _, _, _, _) := x in n.
Definition li_size (x : li) : Z := let (_, s, _, _, _, _) := x in s.
Definition li_final (x : li) : option annotation :=
  let (_, _, _, _, a, _) := x in a.
Definition li_children (x : li) : option (list li) :=
  let (_, _, _, _, _, c) := x in c.

(** The [join] of [build(child) for child in children] on the empty
    string. *)
Fixpoint join_over (build : Z -> M (list li)) (children : list Z)
  : M (list li) :=
  match children with
  | [] => ret []
  | c :: children' =>
    h <- build c ;; t <- join_over build children' ;; ret (h ++ t)%list
  end.

(** [next((cid for cid, nid in cluster_id_to_node.items() if nid == node),
    None)] *)
Definition final_cluster_label (cluster_map : dict Z) (node : Z) : option Z :=
  option_map fst
    (find (fun kv => Z.eqb (snd kv) node) (cluster_id_to_node cluster_map)).

Definition default_color : string := "#6c757d".

(** The part of the node content built under
    [if final_cluster_label is not None]. *)
Definition annotate (color_map : dict string)
           (cluster_descriptions : dict description) (label : Z)
  : annotation :=
  let color := match dict_get color_map label with
               | Some c => c
               | None => default_color
               end in
  let kws := match dict_get cluster_descriptions label with
             | Some desc => keywords desc
             | None => []
             end in
  mkAnnotation label color
               (match kws with [] => None | _ => Some (head 3 kws) end).

Fixpoint build_hierarchy_html (fuel : nat) (tree : list tree_row)
         (data : dict tree_row) (cluster_map : dict Z)
         (color_map : dict string) (cluster_descriptions : dict description)
         (node : Z) : M (list li) :=
  match fuel with
  | O => out_of_fuel _
  | S fuel' =>
    size <- get_node_size fuel tree node ;;
    if (size <=? 1)%Z then ret []
    else
      let children := dict_get (parent_children tree) node in
      let lam := match dict_get data node with
                 | Some row => lambda_val row
                 | None => 0%Q
                 end in
      let final := final_cluster_label cluster_map node in
      has_visible_children <-
        match children with
        | Some cs => any_visible (get_node_size fuel tree) cs
        | None => ret false
        end ;;
      child_html <-
        match children, has_visible_children with
        | Some cs, true =>
          join_over (build_hierarchy_html fuel' tree data cluster_map
                                          color_map cluster_descriptions) cs
        | _, _ => ret []
        end ;;
      ret [Li node size lam has_visible_children
              (option_map (annotate color_map cluster_descriptions) final)
              (match child_html with [] => None | _ => Some child_html end)]
  end.

(** [sorted(list(set(parent_children.keys()) - set(tree_df['child'])),
    reverse=True)] *)
Definition root_nodes (tree : list tree_row) : list Z :=
  sort_by Z.gtb
          (filter (fun p => negb (mem p (map child tree)))
                  (set_of (keys (parent_children tree)))).

(** The block that fills [hierarchy_html]: [Some None] is the empty
    string (no condensed tree), [Some (Some items)] the outer [<ul>],
    [None] an exception. *)
Definition hierarchy_html (fuel : nat) (c : Clusterer)
           (color_map : dict string) (cluster_descriptions : dict description)
  : option (option (list li)) :=
  match condensed_tree_ c with
  | None => Some None
  | Some tree =>
    match node_data tree with
    | None => None                                      (* ValueError *)
    | Some data =>
      match join_over (build_hierarchy_html fuel tree data (cluster_map c)
                                            color_map cluster_descriptions)
                      (root_nodes tree) [] with
      | Some (items, _) => Some (Some items)
      | None => None
      end
    end
  end.

(** Every item of a piece of markup, at any depth. *)
Fixpoint all_items (x : li) : list li :=
  x :: match li_children x with
       | Some l => flat_map all_items l
       | None => []
       end.

(** *** Words of the specification about the hierarchy *)

(** The children of a node, in row order. *)
Definition children_of (tree : list tree_row) (p : Z) : list Z :=
  map child (filter (fun r => Z.eqb (parent r) p) tree).

(** The [child_size] recorded for a node that occurs as a child, 1 for
    any other node. *)
Definition recorded_size (tree : list tree_row) (c : Z) : Z :=
  match dict_get (node_sizes_direct tree) c with
  | Some s => s
  | None => 1%Z
  end.

(** The size of a node: its recorded [child_size] when it occurs as a
    child; otherwise, when it occurs as a parent, the sum over its
    children; otherwise 1. *)
Definition computed_size (tree : list tree_row) (node : Z) : Z :=
  match dict_get (node_sizes_direct tree) node with
  | Some s => s
  | None =>
    match dict_get (parent_children tree) node with
    | Some cs => sum (map (recorded_size tree) cs)
    | None => 1%Z
    end
  end.

(** [memoized_sizes] only holds sizes that [get_node_size] computes. *)
Definition memo_ok (tree : list tree_row) (memo : dict Z) : Prop :=
  forall n s, dict_get memo n = Some s -> s = computed_size tree n.

(** In a condensed tree a cluster that is split further has a larger id
    than its parent (points, which are never split, have the small
    ids). *)
Definition ordered (tree : list tree_row) : Prop :=
  forall r, In r tree -> In (child r) (map parent tree) ->
            (parent r < child r)%Z.

(** A bound on the number of nested lists below a node. *)
Definition depth (tree : list tree_row) (node : Z) : nat :=
  if mem node (map parent tree)
  then List.length (filter (fun p => (node <=? p)%Z)
                           (set_of (map parent tree)))
  else 0%nat.

(** ** The report exporters of Claim Clustering_Report.py *)

(** [generate_cluster_colors].  The hex color of index [i] among [n]
    comes from [colorsys] and float arithmetic; it is the argument
    [palette n i].  [None] is an exception (a missing attribute or
    column, or fewer colors than clusters). *)
Fixpoint color_entries (colors : list string) (i : nat) (clusters : list Z)
         (color_map : dict string) : option (dict string) :=
  match clusters with
  | [] => Some color_map
  | cluster :: clusters' =>
    match nth_error colors i with
    | Some col =>
      color_entries colors (S i) clusters' (dict_set color_map cluster col)
    | None => None                                        (* IndexError *)
    end
  end.

Definition generate_cluster_colors (palette : nat -> nat -> string)
           (self : EmbeddingVisualizer) : option EmbeddingVisualizer :=
  match n_clusters self, col_cluster (df self) with
  | Some n, Some cl =>
    let n_colors_needed := Z.to_nat n in
    let colors := map (palette n_colors_needed) (seq 0 n_colors_needed) in
    let unique_clusters := sort_by Z.ltb (filter not_noise (set_of cl)) in
    match color_entries colors 0 unique_clusters [] with
    | Some color_map =>
      Some (mkViz (df self) (n_samples self) (XY_normalized self)
                  (clusterer self) (n_clusters self) (n_noise self)
                  (cluster_descriptions self)
                  (Some (dict_set color_map (-1) "#cccccc"%string)))
    | None => None
    end
  | _, _ => None
  end.

(** [if not hasattr(self, 'cluster_descriptions'):
       self.extract_cluster_keywords()] *)
Definition ensure_descriptions (self : EmbeddingVisualizer)
  : option EmbeddingVisualizer :=
  match cluster_descriptions self with
  | Some _ => Some self
  | None =>
    extract_cluster_keywords ClaimReport (default_n_terms ClaimReport)
                             default_min_word_length self
  end.

(** [if not hasattr(self, 'color_map'): self.generate_cluster_colors()] *)
Definition ensure_colors (palette : nat -> nat -> string)
           (self : EmbeddingVisualizer) : option EmbeddingVisualizer :=
  match color_map self with
  | Some _ => Some self
  | None => generate_cluster_colors palette self
  end.

(** [Series.mean()] of a non-empty column. *)
Definition mean (l : list Q) : Q :=
  (fold_left Qplus l 0 / inject_Z (Z.of_nat (List.length l)))%Q.

(** What the reports show for one cluster. *)
Record card : Type := mkCard {
  card_id : Z;
  card_color : string;
  card_size : nat;                  (* [len(data)] or [desc.get('size', 0)] *)
  card_confidence : Q;              (* [data['probability'].mean()] *)
  card_keywords : option (list str);
  card_samples : list record
}.

(** The content of the text report: the statistics, the hierarchy lines
    as (level, node, size) or [None] for the line written by the
    [except] branch, and the clusters.  The time stamp is left out. *)
Record text_report : Type := mkTextReport {
  t_n_samples : Z;
  t_n_clusters : Z;
  t_n_noise : Z;
  t_noise_percent : Q;
  t_hierarchy : option (list (nat * Z * Z));
  t_clusters : list card
}.

(** The values substituted into the HTML template. *)
Record html_report : Type := mkHtmlReport {
  h_n_samples : Z;
  h_n_clusters : Z;
  h_n_noise : Z;
  h_noise_ratio : Q;
  h_hierarchy : option (list li);
  h_clusters : list card
}.

Inductive content : Type :=
| TextReport (t : text_report)
| HtmlReport (h : html_report).

(** The files on disk, latest write first. *)
Definition files : Type := list (string * content).

Fixpoint read (fs : files) (path : string) : option content :=
  match fs with
  | [] => None
  | (p, c) :: fs' => if String.eqb p path then Some c else read fs' path
  end.

Definition write (fs : files) (path : string) (c : content) : files :=
  (path, c) :: fs.

(** [sorted(self.df[self.df["cluster"] != -1]["cluster"].unique())] *)
Definition clusters_without_noise (cl : list Z) : list Z :=
  sort_by Z.ltb (set_of (filter not_noise cl)).

Fixpoint flat_map_opt (A B : Type) (f : A -> option (list B)) (l : list A)
  : option (list B) :=
  match l with
  | [] => Some []
  | a :: l' =>
    match f a with
    | Some h =>
      match flat_map_opt f l' with
      | Some t => Some (h ++ t)%list
      | None => None
      end
    | None => None
    end
  end.

(** The closure [print_hierarchy_to_file] of the text exporter; [None]
    when the recursion exceeds the fuel (RecursionError). *)
Fixpoint print_hierarchy_to_file (fuel : nat) (children : dict (list Z))
         (node_sizes : dict Z) (node : Z) (level : nat)
  : option (list (nat * Z * Z)) :=
  match fuel with
  | O => None
  | S fuel' =>
    let size_of c := match dict_get node_sizes c with
                     | Some s => s
                     | None => 1%Z
                     end in
    let size :=
      match dict_get node_sizes node with
      | Some s => s
      | None =>
        sum (map size_of (match dict_get children node with
                          | Some cs => cs
                          | None => []
                          end))
      end in
    if (1 <? size)%Z then
      match dict_get children node with
      | Some cs =>
        match flat_map_opt
                (fun c => print_hierarchy_to_file fuel' children node_sizes
                                                  c (S level)) cs with
        | Some below => Some ((level, node, size) :: below)
        | None => None
        end
      | None => Some [(level, node, size)]
      end
    else Some []
  end.

(** The block under [if hasattr(self.clusterer, 'condensed_tree_')] of
    the text exporter, with its [try]/[except]: [None] stands for the
    line "Could not process cluster hierarchy". *)
Definition text_hierarchy (fuel : nat) (c : Clusterer)
  : option (list (nat * Z * Z)) :=
  match condensed_tree_ c with
  | None => Some []
  | Some tree =>
    let children := parent_children tree in
    let node_sizes := node_sizes_direct tree in
    flat_map_opt
      (fun root => print_hierarchy_to_file fuel children node_sizes root 0)
      (root_nodes tree)
  end.

Definition text_cards (self : EmbeddingVisualizer)
           (descriptions : dict description) : option (list card) :=
  match col_cluster (df self) with
  | None => None                                          (* KeyError *)
  | Some cl =>
    match clusters_without_noise cl with
    | [] => Some []
    | cids =>
      match col_probability (df self) with
      | None => None                                      (* KeyError *)
      | Some pr =>
        Some (map (fun cid =>
                     let data := cluster_rows (df self) cl pr cid in
                     mkCard cid default_color (List.length data)
                            (mean (map r_probability data))
                            (option_map keywords (dict_get descriptions cid))
                            [])
                  cids)
      end
    end
  end.

Definition export_hierarchical_clustering_results
           (fuel : nat) (output_path : string)
           (self : EmbeddingVisualizer) (fs : files)
  : option (EmbeddingVisualizer * files) :=
  match ensure_descriptions self with
  | None => None
  | Some self1 =>
    match cluster_descriptions self1, n_clusters self1, n_noise self1,
          clusterer self1 with
    | Some descriptions, Some nc, Some nn, Some c =>
      match truediv nn (n_samples self1) with
      | None => None                                (* ZeroDivisionError *)
      | Some ratio =>
        match text_cards self1 descriptions with
        | None => None
        | Some cards =>
          let report :=
            mkTextReport (n_samples self1) nc nn (ratio * inject_Z 100)%Q
                         (text_hierarchy fuel c) cards in
          Some (self1, write fs output_path (TextReport report))
        end
      end
    | _, _, _, _ => None                            (* AttributeError *)
    end
  end.

Definition html_cards (self : EmbeddingVisualizer)
           (descriptions : dict description) (colors : dict string)
  : option (list card) :=
  match col_cluster (df self) with
  | None => None                                          (* KeyError *)
  | Some cl =>
    match clusters_without_noise cl with
    | [] => Some []
    | cids =>
      match col_probability (df self) with
      | None => None                                      (* KeyError *)
      | Some pr =>
        Some (map (fun cid =>
                     let desc := dict_get descriptions cid in
                     let data := cluster_rows (df self) cl pr cid in
                     mkCard cid
                            (match dict_get colors cid with
                             | Some col => col
                             | None => default_color
                             end)
                            (match desc with Some d => size d | None => 0%nat end)
                            (mean (map r_probability data))
                            (Some (match desc with
                                   | Some d => keywords d
                                   | None => []
                                   end))
                            (match desc with
                             | Some d => sample_rows d
                             | None => []
                             end))
                  cids)
      end
    end
  end.

Definition export_hierarchical_report_html
           (palette : nat -> nat -> string) (fuel : nat)
           (output_path : string)
           (self : EmbeddingVisualizer) (fs : files)
  : option (EmbeddingVisualizer * files) :=
  match ensure_descriptions self with
  | None => None
  | Some self1 =>
    match ensure_colors palette self1 with
    | None => None
    | Some self2 =>
      match cluster_descriptions self2, color_map self2, clusterer self2,
            n_clusters self2, n_noise self2 with
      | Some descriptions, Some colors, Some c, Some nc, Some nn =>
        match hierarchy_html fuel c colors descriptions with
        | None => None
        | Some hierarchy =>
          match html_cards self2 descriptions colors with
          | None => None
          | Some cards =>
            let ratio :=
              if (0 <? n_samples self2)%Z
              then Qmake nn (Z.to_pos (n_samples self2))
              else 0%Q in
            let report :=
              mkHtmlReport (n_samples self2) nc nn ratio hierarchy cards in
            Some (self2, write fs output_path (HtmlReport report))
          end
        end
      | _, _, _, _, _ => None                       (* AttributeError *)
      end
    end
  end.

(** Two visualizer states that differ at most in the two caches
    [cluster_descriptions] and [color_map]. *)
Definition same_data (self self' : EmbeddingVisualizer) : Prop :=
  df self' = df self /\
  clusterer self' = clusterer self /\
  n_samples self' = n_samples self /\
  XY_normalized self' = XY_normalized self /\
  n_clusters self' = n_clusters self /\
  n_noise self' = n_noise self.

(** ** [optimize_clustering_parameters] *)

(** The dictionary [result] built for one tried setting. *)
Record setting : Type := mkSetting {
  min_cluster_size : Z;
  min_samples : Z;
  found_clusters : Z;       (* 'n_clusters' *)
  noise_ratio : Q
}.

Definition size_candidates : list Z :=
  [20; 30; 40; 50; 75; 100; 150; 200]%Z.

(** The body of the loop up to [param_results.append(result)]: a fresh
    visualizer that shares the table and the normalized projection of
    [base_viz] is clustered with [min_samples = max(5, size // 2)]. *)
Definition try_setting (s : report) (fit : Z -> Z -> matrix -> Clusterer)
           (base_viz : EmbeddingVisualizer) (size : Z) : option setting :=
  let samples := Z.max 5 (size / 2) in
  let viz_test := mkViz (df base_viz) (n_samples base_viz)
                        (XY_normalized base_viz) None None None None None in
  match cluster_embeddings s fit size samples viz_test with
  | None => None
  | Some v =>
    match n_clusters v, n_noise v with
    | Some nc, Some nn =>
      match truediv nn (Z.of_nat (len (df v))) with
      | Some ratio => Some (mkSetting size samples nc ratio)
      | None => None                               (* ZeroDivisionError *)
      end
    | _, _ => None
    end
  end.

Definition in_range (target : Z * Z) (r : setting) : bool :=
  (fst target <=? found_clusters r)%Z && (found_clusters r <=? snd target)%Z.

(** [abs(x['n_clusters'] - sum(target_clusters_range)/2)] *)
Definition distance_to_midpoint (target : Z * Z) (r : setting) : Q :=
  Qabs (inject_Z (found_clusters r)
        - inject_Z (fst target + snd target) / inject_Z 2)%Q.

(** The [for] loop with its early [return]: [inl] is a returned result,
    [inr] the [param_results] with which the loop ended. *)
Fixpoint optimize_loop (s : report) (fit : Z -> Z -> matrix -> Clusterer)
         (base_viz : EmbeddingVisualizer) (target : Z * Z)
         (sizes : list Z) (param_results : list setting)
  : option (setting + list setting) :=
  match sizes with
  | [] => Some (inr param_results)
  | size :: sizes' =>
    match try_setting s fit base_viz size with
    | None => None
    | Some result =>
      let param_results := (param_results ++ [result])%list in
      if in_range target result then Some (inl result)
      else optimize_loop s fit base_viz target sizes' param_results
    end
  end.

(** [base_viz] is the visualizer after loading and [reduce_dimensions]. *)
Definition optimize_clustering_parameters (s : report)
           (fit : Z -> Z -> matrix -> Clusterer)
           (base_viz : EmbeddingVisualizer) (target_clusters_range : Z * Z)
  : option setting :=
  match optimize_loop s fit base_viz target_clusters_range size_candidates []
  with
  | None => None
  | Some (inl result) => Some result
  | Some (inr param_results) =>
    min_by (distance_to_midpoint target_clusters_range) param_results
  end.

(** ** [assess_2d_parameters] (Cluster Assessment.py) *)

Record assessment : Type := mkAssessment {
  a_min_cluster_size : Z;
  a_min_samples : Z;
  a_n_clusters : Z;
  a_noise_ratio : float;
  a_dbcv_score : float
}.

(** The two nested [for] loops that fill [param_grid]. *)
Definition param_grid (mcs_values ms_values : list Z) : list (Z * Z) :=
  fold_left
    (fun grid mcs =>
       fold_left
         (fun grid ms =>
            if (ms <=? mcs)%Z then (grid ++ [(mcs, ms)])%list else grid)
         ms_values grid)
    mcs_values [].

(** One iteration of the assessment loop.  [fit] is the HDBSCAN call of
    this function (with [gen_min_span_tree=True]). *)
Definition assess_pair (fit : Z -> Z -> matrix -> Clusterer)
           (base_visualizer : EmbeddingVisualizer) (p : Z * Z)
  : option assessment :=
  match XY_normalized base_visualizer with
  | None => None                                   (* AttributeError *)
  | Some xy =>
    let c := fit (fst p) (snd p) xy in
    let n := count_clusters (labels_ c) in
    let ratio := np_true_divide (count_noise (labels_ c))
                                (Z.of_nat (len (df base_visualizer))) in
    let dbcv := match relative_validity_ c with
                | Some v => FVal v
                | None => FNaN                     (* except Exception *)
                end in
    Some (mkAssessment (fst p) (snd p) n ratio dbcv)
  end.

Fixpoint assess_loop (fit : Z -> Z -> matrix -> Clusterer)
         (base_visualizer : EmbeddingVisualizer) (grid : list (Z * Z))
         (results : list assessment) : option (list assessment) :=
  match grid with
  | [] => Some results
  | p :: grid' =>
    match assess_pair fit base_visualizer p with
    | None => None
    | Some r => assess_loop fit base_visualizer grid' (results ++ [r])%list
    end
  end.

Definition assess_2d_parameters (fit : Z -> Z -> matrix -> Clusterer)
           (base_visualizer : EmbeddingVisualizer)
           (mcs_values ms_values : list Z) : option (list assessment) :=
  assess_loop fit base_visualizer (param_grid mcs_values ms_values) [].

(** The grid as the specification words it: the pairs of the two lists
    with [ms <= mcs], in nested-loop order. *)
Definition grid_spec (mcs_values ms_values : list Z) : list (Z * Z) :=
  flat_map (fun mcs =>
              map (fun ms => (mcs, ms))
                  (filter (fun ms => (ms <=? mcs)%Z) ms_values))
           mcs_values.


(* ------------------------------------------------------------------ *)
(** ** Properties *)
(* ------------------------------------------------------------------ *)

(** *** Counting labels *)

Lemma mem_In (x : Z) (l : list Z) : mem x l = true <-> In x l.
Proof.
  unfold mem. rewrite existsb_exists. split.
  - intros (y & Hy & E). apply Z.eqb_eq in E. now subst.
  - intros H. exists x. split; [assumption | apply Z.eqb_refl].
Qed.

Lemma filter_nodup (f : Z -> bool) (l : list Z) :
  filter f (nodup Z.eq_dec l) = nodup Z.eq_dec (filter f l).
Proof.
  induction l as [|a l IH]; [reflexivity|].
  cbn [nodup filter]. destruct (in_dec Z.eq_dec a l) as [Hin|Hnin].
  - destruct (f a) eqn:Fa; [|exact IH].
    cbn [nodup]. destruct (in_dec Z.eq_dec a (filter f l)) as [_|N].
    + exact IH.
    + exfalso. apply N. apply filter_In. now split.
  - cbn [filter]. destruct (f a) eqn:Fa; [|exact IH].
    cbn [nodup]. destruct (in_dec Z.eq_dec a (filter f l)) as [Y|_].
    + exfalso. apply Hnin. now apply filter_In in Y.
    + now rewrite IH.
Qed.

Lemma length_filter_not_noise (l : list Z) :
  NoDup l ->
  Z.of_nat (List.length (filter not_noise l))
  = (Z.of_nat (List.length l) - (if mem (-1) l then 1 else 0))%Z.
Proof.
  induction 1 as [|a l Hnin Hnd IH]; [reflexivity|].
  cbn [filter List.length]. unfold mem in *. cbn [existsb].
  unfold not_noise at 1. rewrite (Z.eqb_sym (-1) a).
  destruct (Z.eqb_spec a (-1)) as [->|Hne]; cbn [negb orb].
  - assert (E : existsb (Z.eqb (-1)) l = false).
    { apply not_true_is_false. intros Hm. apply Hnin. now apply mem_In. }
    rewrite E in IH. rewrite IH. lia.
  - cbn [List.length]. rewrite Nat2Z.inj_succ, IH. lia.
Qed.

(** [n_clusters] is the number of distinct labels other than [-1]. *)
Lemma count_clusters_distinct (labels : list Z) :
  count_clusters labels
  = Z.of_nat (List.length (nodup Z.eq_dec (filter not_noise labels))).
Proof.
  unfold count_clusters, set_of.
  rewrite <- filter_nodup, length_filter_not_noise by apply NoDup_nodup.
  assert (E : mem (-1) (nodup Z.eq_dec labels) = mem (-1) labels).
  { destruct (mem (-1) labels) eqn:M.
    - apply mem_In. apply nodup_In. now apply mem_In.
    - apply not_true_is_false. intros H. apply mem_In in H.
      apply nodup_In in H. apply mem_In in H. congruence. }
  now rewrite E.
Qed.

(** [n_noise] is the number of rows whose label is [-1]. *)
Lemma count_noise_occ (column : list Z) :
  count_noise column = Z.of_nat (count_occ Z.eq_dec column (-1)%Z).
Proof.
  unfold count_noise. f_equal.
  induction column as [|a l IH]; [reflexivity|].
  cbn [filter count_occ].
  destruct (Z.eqb_spec a (-1)) as [->|Hne].
  - destruct (Z.eq_dec (-1) (-1)); [|contradiction]. cbn. now rewrite IH.
  - destruct (Z.eq_dec a (-1)); [contradiction|]. exact IH.
Qed.

Lemma checked_Some (A : Type) (d : DataFrame) (v w : list A) :
  checked d v = Some w -> w = v /\ List.length v = len d.
Proof.
  unfold checked. destruct (Nat.eqb_spec (List.length v) (len d)); [|discriminate].
  intros H. injection H as <-. now split.
Qed.

(** *** [cluster_embeddings] *)

(** A table of two rows and a clusterer that labels the first row 0 and
    the second row noise; used to run the definitions. *)
Definition two_rows : EmbeddingVisualizer :=
  mkViz (mkDataFrame [lit "alpha beta"; lit "gamma"]
                     ["f1.json"%string; "f2.json"%string] None None None)
        2 (Some [[0%Q; 0%Q]; [1%Q; 1%Q]]) None None None None None.

Definition fit_two_rows (_ _ : Z) (_ : matrix) : Clusterer :=
  mkClusterer [0%Z; (-1)%Z] [1%Q; 0%Q] [(1#10)%Q; (9#10)%Q] None [] None.

(** C1, as the three scripts have it.  When the clusterer returns one
    label, probability and outlier score per row, [cluster_embeddings]
    runs, the [cluster] and [probability] columns are the clusterer's
    [labels_] and [probabilities_], the [outlier_score] column is its
    [outlier_scores_] in the two report scripts and is left as it was in
    Cluster Assessment.py, every row has its entries, [n_clusters] is the
    number of distinct labels other than -1 and [n_noise] the number of
    rows labelled -1. *)
Theorem cluster_embeddings_columns
        (s : script) (fit : Z -> Z -> matrix -> Clusterer)
        (min_cluster_size min_samples : Z)
        (self : EmbeddingVisualizer) (xy : matrix) :
  XY_normalized self = Some xy ->
  let c := fit min_cluster_size min_samples xy in
  List.length (labels_ c) = len (df self) ->
  List.length (probabilities_ c) = len (df self) ->
  (s <> ClusterAssessment ->
   List.length (outlier_scores_ c) = len (df self)) ->
  exists self',
    cluster_embeddings s fit min_cluster_size min_samples self = Some self' /\
    col_cluster (df self') = Some (labels_ c) /\
    col_probability (df self') = Some (probabilities_ c) /\
    match s with
    | ClusterAssessment =>
      col_outlier_score (df self') = col_outlier_score (df self)
    | Report _ => col_outlier_score (df self') = Some (outlier_scores_ c)
    end /\
    col_text (df self') = col_text (df self) /\
    col_source_file (df self') = col_source_file (df self) /\
    (forall i, (i < len (df self'))%nat ->
       exists l p, nth_error (labels_ c) i = Some l /\
                   nth_error (probabilities_ c) i = Some p /\
                   (s <> ClusterAssessment ->
                    exists o, nth_error (outlier_scores_ c) i = Some o)) /\
    n_clusters self'
    = Some (Z.of_nat (List.length
                        (nodup Z.eq_dec (filter not_noise (labels_ c))))) /\
    n_noise self' = Some (Z.of_nat (count_occ Z.eq_dec (labels_ c) (-1)%Z)).
Proof.
  intros Hxy c Hl Hp Ho.
  unfold cluster_embeddings. rewrite Hxy. fold c.
  unfold checked. rewrite Hl, Hp, !Nat.eqb_refl.
  assert (Hrows : forall (A : Type) (v : list A) (i : nat),
             List.length v = len (df self) -> (i < len (df self))%nat ->
             exists a, nth_error v i = Some a).
  { intros A v i Hv Hi. destruct (nth_error v i) eqn:E; [eauto|].
    apply nth_error_None in E. lia. }
  assert (Hfin :
    forall os,
      (s <> ClusterAssessment -> os = Some (outlier_scores_ c)) ->
      (s = ClusterAssessment -> os = col_outlier_score (df self)) ->
      let d' := mkDataFrame (col_text (df self)) (col_source_file (df self))
                            (Some (labels_ c)) (Some (probabilities_ c)) os in
      let self' := mkViz d' (n_samples self) (Some xy) (Some c)
                         (Some (count_clusters (labels_ c)))
                         (Some (count_noise (labels_ c)))
                         (cluster_descriptions self) (color_map self) in
      col_cluster (df self') = Some (labels_ c) /\
      col_probability (df self') = Some (probabilities_ c) /\
      match s with
      | ClusterAssessment =>
        col_outlier_score (df self') = col_outlier_score (df self)
      | Report _ => col_outlier_score (df self') = Some (outlier_scores_ c)
      end /\
      col_text (df self') = col_text (df self) /\
      col_source_file (df self') = col_source_file (df self) /\
      (forall i, (i < len (df self'))%nat ->
         exists l p, nth_error (labels_ c) i = Some l /\
                     nth_error (probabilities_ c) i = Some p /\
                     (s <> ClusterAssessment ->
                      exists o, nth_error (outlier_scores_ c) i = Some o)) /\
      n_clusters self'
      = Some (Z.of_nat (List.length
                          (nodup Z.eq_dec (filter not_noise (labels_ c))))) /\
      n_noise self' = Some (Z.of_nat (count_occ Z.eq_dec (labels_ c) (-1)%Z))).
  { intros os Hos1 Hos2 d' self'. subst d' self'.
    cbn [df col_cluster col_probability col_outlier_score col_text
         col_source_file n_clusters n_noise].
    split; [reflexivity|]. split; [reflexivity|].
    split; [destruct s; (apply Hos2; reflexivity) || (apply Hos1; discriminate)|].
    split; [reflexivity|]. split; [reflexivity|].
    split.
    - intros i Hi. unfold len in Hi. cbn [col_text] in Hi. fold (len (df self)) in Hi.
      destruct (Hrows _ _ i Hl Hi) as [l El].
      destruct (Hrows _ _ i Hp Hi) as [q Eq].
      exists l, q. split; [exact El|]. split; [exact Eq|]. intros Hs.
      apply (Hrows _ _ i (Ho Hs) Hi).
    - split; f_equal; [apply count_clusters_distinct | apply count_noise_occ]. }
  destruct s as [r|].
  - rewrite (Ho ltac:(discriminate)), Nat.eqb_refl. cbn [option_map].
    eexists. split; [reflexivity|].
    apply Hfin; [reflexivity | discriminate].
  - eexists. split; [reflexivity|].
    apply Hfin; [intros N; now elim N | reflexivity].
Qed.

(** The theorem applies to the two-row table in the claim-report script. *)
Lemma cluster_embeddings_columns_witness :
  exists self',
    cluster_embeddings ClaimReport fit_two_rows 10 5 two_rows = Some self' /\
    col_outlier_score (df self') = Some [(1#10)%Q; (9#10)%Q] /\
    n_clusters self' = Some 1%Z /\ n_noise self' = Some 1%Z.
Proof.
  destruct (@cluster_embeddings_columns ClaimReport fit_two_rows 10 5 two_rows
              [[0%Q; 0%Q]; [1%Q; 1%Q]] eq_refl eq_refl eq_refl
              (fun _ => eq_refl))
    as (self' & Hrun & _ & _ & Ho & _ & _ & _ & Hn & Hz).
  exists self'. repeat split; assumption.
Defined.

(** In Cluster Assessment.py the method assigns no [outlier_score]
    column: after it has run on the two-row table the column is still
    missing, so no row carries the clusterer's outlier score. *)
Lemma cluster_embeddings_assessment_no_outlier_score :
  exists self',
    cluster_embeddings ClusterAssessment fit_two_rows 10 5 two_rows
      = Some self' /\
    col_cluster (df self') = Some [0%Z; (-1)%Z] /\
    col_outlier_score (df self') = None /\
    col_outlier_score (df self')
      <> Some (outlier_scores_ (fit_two_rows 10 5 [[0%Q; 0%Q]; [1%Q; 1%Q]])).
Proof.
  eexists. split; [reflexivity|]. cbn. repeat split. discriminate.
Qed.

(** *** [assess_2d_parameters] *)

Lemma to_pos_of_nat (n : nat) :
  (0 < n)%nat -> Z.to_pos (Z.of_nat n) = Pos.of_nat n.
Proof.
  intros H. destruct n as [|m]; [lia|].
  apply Pos2Z.inj. rewrite Z2Pos.id by lia.
  now rewrite <- Pos.of_nat_succ, Zpos_P_of_succ_nat, Nat2Z.inj_succ.
Qed.

Lemma param_grid_inner (mcs : Z) (ms_values : list Z) :
  forall grid,
    fold_left (fun grid ms =>
                 if (ms <=? mcs)%Z then (grid ++ [(mcs, ms)])%list else grid)
              ms_values grid
    = (grid ++ map (fun ms => (mcs, ms))
                   (filter (fun ms => (ms <=? mcs)%Z) ms_values))%list.
Proof.
  induction ms_values as [|ms l IH]; intros grid; cbn [fold_left filter map].
  - now rewrite app_nil_r.
  - rewrite IH. destruct (ms <=? mcs)%Z; [|reflexivity].
    now rewrite <- app_assoc.
Qed.

Lemma param_grid_spec (mcs_values ms_values : list Z) :
  param_grid mcs_values ms_values = grid_spec mcs_values ms_values.
Proof.
  unfold param_grid, grid_spec.
  enough (H : forall grid,
             fold_left
               (fun grid mcs =>
                  fold_left
                    (fun grid ms =>
                       if (ms <=? mcs)%Z then (grid ++ [(mcs, ms)])%list
                       else grid) ms_values grid) mcs_values grid
             = (grid ++ flat_map
                  (fun mcs => map (fun ms => (mcs, ms))
                                  (filter (fun ms => (ms <=? mcs)%Z) ms_values))
                  mcs_values)%list) by apply (H []).
  induction mcs_values as [|mcs l IH]; intros grid; cbn [fold_left flat_map].
  - now rewrite app_nil_r.
  - now rewrite param_grid_inner, IH, <- app_assoc.
Qed.

Lemma assess_loop_map (fit : Z -> Z -> matrix -> Clusterer)
      (base : EmbeddingVisualizer) (f : Z * Z -> assessment)
      (grid : list (Z * Z)) :
  (forall p, assess_pair fit base p = Some (f p)) ->
  forall results,
    assess_loop fit base grid results = Some (results ++ map f grid)%list.
Proof.
  intros Hf. induction grid as [|p grid IH]; intros results; cbn.
  - now rewrite app_nil_r.
  - now rewrite Hf, IH, <- app_assoc.
Qed.

(** C7.  With the normalized projection in place, the assessment returns
    one row per pair of the grid, the grid being the pairs
    [(mcs, ms)] of the two search lists with [ms <= mcs] in nested-loop
    order; in the row of a pair, [n_clusters] is the number of distinct
    labels other than -1, [noise_ratio] is the number of labels -1
    divided by the number of rows of the table, and [dbcv_score] is the
    clusterer's relative validity, or NaN when reading it raises. *)
Theorem assess_2d_parameters_rows
        (fit : Z -> Z -> matrix -> Clusterer)
        (base_visualizer : EmbeddingVisualizer) (xy : matrix)
        (mcs_values ms_values : list Z) :
  XY_normalized base_visualizer = Some xy ->
  exists rows,
    assess_2d_parameters fit base_visualizer mcs_values ms_values = Some rows /\
    map (fun r => (a_min_cluster_size r, a_min_samples r)) rows
    = grid_spec mcs_values ms_values /\
    (forall mcs ms,
       In (mcs, ms) (grid_spec mcs_values ms_values) <->
       In mcs mcs_values /\ In ms ms_values /\ (ms <= mcs)%Z) /\
    Forall (fun r =>
              let c := fit (a_min_cluster_size r) (a_min_samples r) xy in
              let noise := count_occ Z.eq_dec (labels_ c) (-1)%Z in
              a_n_clusters r
              = Z.of_nat (List.length
                            (nodup Z.eq_dec (filter not_noise (labels_ c)))) /\
              a_noise_ratio r
              = np_true_divide (Z.of_nat noise)
                               (Z.of_nat (len (df base_visualizer))) /\
              ((0 < len (df base_visualizer))%nat ->
               a_noise_ratio r
               = FVal (Qmake (Z.of_nat noise)
                             (Pos.of_nat (len (df base_visualizer))))) /\
              a_dbcv_score r
              = match relative_validity_ c with
                | Some v => FVal v
                | None => FNaN
                end)
           rows.
Proof.
  intros Hxy.
  set (f := fun p : Z * Z =>
              let c := fit (fst p) (snd p) xy in
              mkAssessment (fst p) (snd p) (count_clusters (labels_ c))
                (np_true_divide (count_noise (labels_ c))
                                (Z.of_nat (len (df base_visualizer))))
                (match relative_validity_ c with
                 | Some v => FVal v
                 | None => FNaN
                 end)).
  exists (map f (grid_spec mcs_values ms_values)).
  split.
  { unfold assess_2d_parameters. rewrite param_grid_spec.
    change (Some (map f (grid_spec mcs_values ms_values)))
      with (Some ([] ++ map f (grid_spec mcs_values ms_values))%list).
    apply assess_loop_map.
    intros p. unfold assess_pair. now rewrite Hxy. }
  split.
  { rewrite map_map. cbn. rewrite <- (map_id (grid_spec _ _)) at 2.
    apply map_ext. now intros [a b]. }
  split.
  { intros mcs ms. unfold grid_spec. rewrite in_flat_map. split.
    - intros (m & Hm & Hin). apply in_map_iff in Hin as (x & E & Hx).
      injection E as <- <-. apply filter_In in Hx as [Hx Hle].
      apply Z.leb_le in Hle. auto.
    - intros (Hm & Hs & Hle). exists mcs. split; [assumption|].
      apply in_map. apply filter_In. split; [assumption|].
      now apply Z.leb_le. }
  apply Forall_map, Forall_forall. intros [mcs ms] _. cbn.
  split; [apply count_clusters_distinct|].
  rewrite count_noise_occ.
  split; [reflexivity|]. split; [|reflexivity].
  intros Hpos. unfold np_true_divide.
  destruct (Z.eqb_spec (Z.of_nat (len (df base_visualizer))) 0) as [E|_];
    [lia|].
  f_equal. f_equal. now apply to_pos_of_nat.
Qed.

(** The rows of the grid for the two-row table. *)
Lemma assess_2d_parameters_rows_witness :
  exists rows,
    assess_2d_parameters fit_two_rows two_rows [20; 30]%Z [10; 25]%Z
      = Some rows /\
    map (fun r => (a_min_cluster_size r, a_min_samples r)) rows
    = [(20, 10); (30, 10); (30, 25)]%Z.
Proof.
  destruct (@assess_2d_parameters_rows fit_two_rows two_rows
              [[0%Q; 0%Q]; [1%Q; 1%Q]] [20; 30]%Z [10; 25]%Z eq_refl)
    as (rows & Hrun & Hgrid & _).
  exists rows. split; assumption.
Defined.

(** *** [optimize_clustering_parameters] *)

Lemma find_first (A : Type) (f : A -> bool) (l : list A) (x : A) :
  find f l = Some x ->
  exists pre post,
    l = (pre ++ x :: post)%list /\ f x = true /\
    Forall (fun y => f y = false) pre.
Proof.
  induction l as [|a l IH]; [discriminate|]. cbn [find].
  destruct (f a) eqn:Fa.
  - intros H. injection H as ->. exists [], l. repeat split; auto.
  - intros H. destruct (IH H) as (pre & post & -> & Fx & Hpre).
    exists (a :: pre), post. repeat split; auto.
Qed.

Lemma min_by_least (A : Type) (key : A -> Q) (l : list A) (r : A) :
  min_by key l = Some r ->
  In r l /\ forall x, In x l -> (key r <= key x)%Q.
Proof.
  destruct l as [|x0 l]; [discriminate|]. cbn [min_by].
  intros H. injection H as <-.
  revert x0. induction l as [|y l IH]; intros x0; cbn [fold_left].
  - split; [now left|]. intros x [<-|[]]. apply Qle_refl.
  - destruct (Qle_bool (key x0) (key y)) eqn:E.
    + destruct (IH x0) as [Hin Hle]. split.
      * destruct Hin as [<-|Hin]; [now left | right; now right].
      * intros x [<-|[<-|Hx]].
        -- apply Hle. now left.
        -- apply Qle_trans with (key x0); [apply Hle; now left|].
           now apply Qle_bool_iff.
        -- apply Hle. now right.
    + destruct (IH y) as [Hin Hle]. split.
      * right. exact Hin.
      * intros x [<-|[<-|Hx]].
        -- apply Qle_trans with (key y); [apply Hle; now left|].
           apply Qlt_le_weak, Qnot_le_lt. intros N.
           apply Qle_bool_iff in N. congruence.
        -- apply Hle. now left.
        -- apply Hle. now right.
Qed.

(** What one tried setting evaluates to. *)
Definition evaluated (fit : Z -> Z -> matrix -> Clusterer)
           (base_viz : EmbeddingVisualizer) (xy : matrix) (size : Z)
  : setting :=
  let samples := Z.max 5 (size / 2) in
  let labels := labels_ (fit size samples xy) in
  mkSetting size samples (count_clusters labels)
            (Qmake (count_noise labels)
                   (Z.to_pos (Z.of_nat (len (df base_viz))))).

(** The clusterer returns one value per row of the table. *)
Definition fits_table (s : script) (fit : Z -> Z -> matrix -> Clusterer)
           (base_viz : EmbeddingVisualizer) (xy : matrix) : Prop :=
  forall size samples,
    let c := fit size samples xy in
    List.length (labels_ c) = len (df base_viz) /\
    List.length (probabilities_ c) = len (df base_viz) /\
    (s <> ClusterAssessment ->
     List.length (outlier_scores_ c) = len (df base_viz)).

Lemma try_setting_evaluated (s : report)
      (fit : Z -> Z -> matrix -> Clusterer)
      (base_viz : EmbeddingVisualizer) (xy : matrix) (size : Z) :
  XY_normalized base_viz = Some xy ->
  fits_table s fit base_viz xy ->
  (0 < len (df base_viz))%nat ->
  try_setting s fit base_viz size = Some (evaluated fit base_viz xy size).
Proof.
  intros Hxy Hfit Hpos. unfold try_setting, cluster_embeddings.
  cbn [XY_normalized df]. rewrite Hxy.
  destruct (Hfit size (Z.max 5 (size / 2))) as (Hl & Hp & Ho).
  unfold checked. rewrite Hl, Hp, Nat.eqb_refl.
  rewrite (Ho ltac:(discriminate)), Nat.eqb_refl. cbn [option_map].
  cbn [n_clusters n_noise df]. unfold truediv, evaluated.
  unfold len in *. cbn [col_text].
  destruct (Z.eqb_spec (Z.of_nat (List.length (col_text (df base_viz)))) 0);
    [lia|].
  reflexivity.
Qed.

Lemma optimize_loop_find (s : report)
      (fit : Z -> Z -> matrix -> Clusterer)
      (base_viz : EmbeddingVisualizer) (target : Z * Z)
      (ev : Z -> setting) (sizes : list Z) :
  (forall size, try_setting s fit base_viz size = Some (ev size)) ->
  forall param_results,
    optimize_loop s fit base_viz target sizes param_results
    = Some (match find (in_range target) (map ev sizes) with
            | Some r => inl r
            | None => inr (param_results ++ map ev sizes)%list
            end).
Proof.
  intros Hev. induction sizes as [|size sizes IH]; intros acc;
    cbn [optimize_loop map find].
  - now rewrite app_nil_r.
  - rewrite Hev. destruct (in_range target (ev size)); [reflexivity|].
    rewrite IH. destruct (find _ _); [reflexivity|].
    now rewrite <- app_assoc.
Qed.

Lemma in_range_within (target : Z * Z) (r : setting) :
  in_range target r = true <->
  (fst target <= found_clusters r <= snd target)%Z.
Proof.
  unfold in_range. rewrite andb_true_iff, !Z.leb_le. tauto.
Qed.

(** C6.  On a non-empty table on which the clusterer returns one value
    per row, [optimize_clustering_parameters] returns a setting [r].  The
    settings it may evaluate are those of the sizes 20, 30, 40, 50, 75,
    100, 150, 200 in this order, each with
    [min_samples = max(5, size // 2)] and with the number of distinct
    non-noise labels as its cluster count.  Either [r] is the first of
    them whose cluster count lies in the inclusive target range, or none
    lies in the range and [r] is one of them whose cluster count is
    nearest to the midpoint of the range. *)
Theorem optimize_clustering_parameters_choice
        (s : report) (fit : Z -> Z -> matrix -> Clusterer)
        (base_viz : EmbeddingVisualizer) (xy : matrix) (target : Z * Z) :
  XY_normalized base_viz = Some xy ->
  fits_table s fit base_viz xy ->
  (0 < len (df base_viz))%nat ->
  let tried := map (evaluated fit base_viz xy) size_candidates in
  let within r := (fst target <= found_clusters r <= snd target)%Z in
  exists r,
    optimize_clustering_parameters s fit base_viz target = Some r /\
    map min_cluster_size tried = [20; 30; 40; 50; 75; 100; 150; 200]%Z /\
    Forall (fun t =>
              min_samples t = Z.max 5 (min_cluster_size t / 2) /\
              found_clusters t
              = Z.of_nat
                  (List.length
                     (nodup Z.eq_dec
                        (filter not_noise
                           (labels_ (fit (min_cluster_size t)
                                         (min_samples t) xy))))))
           tried /\
    ((exists pre post,
         tried = (pre ++ r :: post)%list /\ within r /\
         Forall (fun t => ~ within t) pre)
     \/
     (Forall (fun t => ~ within t) tried /\ In r tried /\
      forall t, In t tried ->
        (distance_to_midpoint target r <= distance_to_midpoint target t)%Q)).
Proof.
  intros Hxy Hfit Hpos tried within.
  assert (Hev : forall size, try_setting s fit base_viz size
                             = Some (evaluated fit base_viz xy size))
    by (intros; now apply try_setting_evaluated).
  assert (Hshape :
            map min_cluster_size tried = [20; 30; 40; 50; 75; 100; 150; 200]%Z /\
            Forall (fun t =>
              min_samples t = Z.max 5 (min_cluster_size t / 2) /\
              found_clusters t
              = Z.of_nat
                  (List.length
                     (nodup Z.eq_dec
                        (filter not_noise
                           (labels_ (fit (min_cluster_size t)
                                         (min_samples t) xy))))))
              tried).
  { split; [reflexivity|]. subst tried. apply Forall_map, Forall_forall.
    intros size _. unfold evaluated. cbn.
    split; [reflexivity | apply count_clusters_distinct]. }
  destruct Hshape as [Hsizes Hall].
  unfold optimize_clustering_parameters.
  rewrite (@optimize_loop_find s fit base_viz target _ size_candidates Hev).
  fold tried.
  destruct (find (in_range target) tried) as [r|] eqn:F.
  - exists r. split; [reflexivity|]. split; [exact Hsizes|].
    split; [exact Hall|]. left.
    destruct (find_first _ _ F) as (pre & post & E & Hr & Hpre).
    exists pre, post. split; [exact E|]. split; [now apply in_range_within|].
    eapply Forall_impl; [|exact Hpre]. cbn. intros t Ht N.
    apply in_range_within in N. congruence.
  - cbn [app].
    destruct (min_by (distance_to_midpoint target) tried) as [r|] eqn:M;
      [|discriminate].
    exists r. split; [reflexivity|]. split; [exact Hsizes|].
    split; [exact Hall|]. right.
    destruct (min_by_least _ _ M) as [Hin Hle].
    split; [|split; assumption].
    apply Forall_forall. intros t Ht N. apply in_range_within in N.
    pose proof (find_none _ _ F t Ht). congruence.
Qed.

(** A clusterer for the two-row table whose cluster count depends on the
    size: two clusters for sizes below 40, none from 40 on. *)
Definition fit_by_size (size _ : Z) (_ : matrix) : Clusterer :=
  if (size <? 40)%Z
  then mkClusterer [0; 1]%Z [1%Q; 1%Q] [0%Q; 0%Q] None [] None
  else mkClusterer [-1; -1]%Z [0%Q; 0%Q] [1%Q; 1%Q] None [] None.

Lemma fits_table_by_size : fits_table ClaimReport fit_by_size two_rows
                                      [[0%Q; 0%Q]; [1%Q; 1%Q]].
Proof.
  intros size samples. unfold fit_by_size.
  destruct (size <? 40)%Z; cbn; auto.
Defined.

(** With the target range (2, 2) the first size is returned. *)
Lemma optimize_clustering_parameters_choice_witness :
  exists r,
    optimize_clustering_parameters ClaimReport fit_by_size two_rows (2, 2)%Z
      = Some r.
Proof.
  destruct (@optimize_clustering_parameters_choice ClaimReport fit_by_size
              two_rows [[0%Q; 0%Q]; [1%Q; 1%Q]] (2, 2)%Z eq_refl
              fits_table_by_size ltac:(cbn; lia))
    as (r & Hrun & _).
  exists r. exact Hrun.
Defined.

(** *** [extract_cluster_keywords] *)

Lemma sorted_unique_In (cl : list Z) (id : Z) :
  In id (sorted_unique cl) <-> In id cl.
Proof.
  unfold sorted_unique, set_of. split; intros H.
  - apply (nodup_In Z.eq_dec).
    eapply Permutation_in; [apply sort_by_perm | exact H].
  - eapply Permutation_in; [symmetry; apply sort_by_perm|].
    now apply nodup_In.
Qed.

Lemma describe_loop_get (r : report) (n_terms : nat) (mwl : Z)
      (d : DataFrame) (cl : list Z) (pr : list Q) (ids : list Z) :
  col_probability d = Some pr ->
  forall acc,
  exists descriptions,
    describe_loop r n_terms mwl d cl ids acc = Some descriptions /\
    forall id,
      dict_get descriptions id
      = if in_dec Z.eq_dec id ids
        then if Z.eqb id (-1) then dict_get acc id
             else Some (describe r n_terms mwl d cl pr id)
        else dict_get acc id.
Proof.
  intros Hpr. induction ids as [|i ids IH]; intros acc; cbn [describe_loop].
  - exists acc. split; [reflexivity|]. intros id.
    now destruct (in_dec Z.eq_dec id []).
  - destruct (Z.eqb_spec i (-1)) as [->|Hne].
    + destruct (IH acc) as (ds & Hrun & Hget). exists ds.
      split; [exact Hrun|]. intros id. rewrite Hget.
      destruct (in_dec Z.eq_dec id ids) as [Hin|Hnin];
        destruct (in_dec Z.eq_dec id (-1 :: ids)%Z) as [Hin'|Hnin'];
        try reflexivity.
      * elim Hnin'. now right.
      * destruct Hin' as [<-|Hin']; [reflexivity | contradiction].
    + rewrite Hpr.
      destruct (IH (dict_set acc i (describe r n_terms mwl d cl pr i)))
        as (ds & Hrun & Hget).
      exists ds. split; [exact Hrun|]. intros id. rewrite Hget, dict_get_set.
      destruct (in_dec Z.eq_dec id ids) as [Hin|Hnin];
        destruct (in_dec Z.eq_dec id (i :: ids)) as [Hin'|Hnin'].
      * destruct (Z.eqb_spec id (-1)) as [->|_]; [|reflexivity].
        destruct (Z.eqb_spec i (-1)); [contradiction | reflexivity].
      * elim Hnin'. now right.
      * destruct Hin' as [<-|Hin']; [|contradiction].
        rewrite Z.eqb_refl. destruct (Z.eqb_spec i (-1)); [contradiction|].
        reflexivity.
      * destruct (Z.eqb_spec i id) as [->|_]; [|reflexivity].
        elim Hnin'. now left.
Qed.








Lemma words_of_In (r : report) (mwl : Z) (texts : list str) (w : str) :
  In w (words_of r mwl texts) <->
  exists text, In text texts /\ In w (split (clean text)) /\
               (mwl < Z.of_nat (List.length w))%Z /\
               (r = PredicateWordNet -> isdigit w = false).
Proof.
  unfold words_of. rewrite in_flat_map. split.
  - intros (text & Ht & Hw). apply filter_In in Hw as [Hw Hk].
    exists text. split; [exact Ht|]. split; [exact Hw|].
    unfold keep_word in Hk. destruct r.
    + apply Z.ltb_lt in Hk. split; [exact Hk | discriminate].
    + apply andb_true_iff in Hk as [Hk Hd]. apply Z.ltb_lt in Hk.
      apply negb_true_iff in Hd. split; [exact Hk | now intros _].
  - intros (text & Ht & Hw & Hlen & Hd). exists text. split; [exact Ht|].
    apply filter_In. split; [exact Hw|]. unfold keep_word.
    apply Z.ltb_lt in Hlen. destruct r; [exact Hlen|].
    now rewrite Hlen, (Hd eq_refl).
Qed.

(** *** The words of a cleaned text *)

(** A word of [split]: not empty and without white space. *)
Definition is_token (w : str) : Prop :=
  w <> [] /\ forallb (fun c => negb (is_space c)) w = true.

Lemma split_from_tokens (s : str) :
  forall cur,
    forallb (fun c => negb (is_space c)) cur = true ->
    Forall is_token (Text.split_from cur s).
Proof.
  induction s as [|c s IH]; intros cur Hcur; cbn [Text.split_from].
  - destruct cur as [|a cur]; constructor; [|constructor].
    split.
    + intros E. apply (f_equal (@List.length ascii)) in E.
      rewrite length_rev in E. discriminate.
    + rewrite forallb_forall in *. intros x Hx. apply Hcur. now apply in_rev.
  - destruct (is_space c) eqn:E.
    + destruct cur as [|a cur]; [now apply IH|].
      constructor; [|now apply IH].
      split.
      * intros E'. apply (f_equal (@List.length ascii)) in E'.
        rewrite length_rev in E'. discriminate.
      * rewrite forallb_forall in *. intros x Hx. apply Hcur. now apply in_rev.
    + apply IH. cbn [forallb]. now rewrite E, Hcur.
Qed.

Lemma split_tokens (s : str) : Forall is_token (split s).
Proof. now apply split_from_tokens. Qed.

Lemma lower_char_not_upper (c : ascii) : is_upper (lower_char c) = false.
Proof. destruct c as [[] [] [] [] [] [] [] []]; reflexivity. Qed.

Lemma word_not_upper (c : ascii) :
  is_word c = true -> is_upper c = false -> keyword_char c = true.
Proof.
  unfold is_word, keyword_char. intros Hw Hu. rewrite Hu in Hw.
  destruct (is_digit c), (is_lower c), (Ascii.eqb c "_"); auto.
Qed.

(** A character of the cleaned text that is not white space is a
    lower-case letter, a digit or an underscore. *)
Lemma clean_chars (text : str) (c : ascii) :
  In c (clean text) -> is_space c = false -> keyword_char c = true.
Proof.
  unfold clean, lower. rewrite map_map. intros H Hs.
  apply in_map_iff in H as (c0 & <- & _).
  destruct (is_word (lower_char c0)) eqn:Ew; cbn [orb] in *.
  - apply word_not_upper; [exact Ew|apply lower_char_not_upper].
  - destruct (is_space (lower_char c0)) eqn:Es; [congruence|].
    discriminate Hs.
Qed.

Lemma split_from_chars (s : str) :
  forall cur w c,
    In w (Text.split_from cur s) -> In c w -> In c cur \/ In c s.
Proof.
  induction s as [|a s IH]; intros cur w c Hw Hc; cbn [Text.split_from] in Hw.
  - destruct cur as [|x cur]; [destruct Hw|].
    destruct Hw as [<-|[]]. left. now apply in_rev.
  - destruct (is_space a).
    + destruct cur as [|x cur].
      * destruct (@IH _ _ _ Hw Hc) as [[]|H]. right. now right.
      * destruct Hw as [<-|Hw]; [left; now apply in_rev|].
        destruct (@IH _ _ _ Hw Hc) as [[]|H]. right. now right.
    + destruct (@IH _ _ _ Hw Hc) as [[<-|H]|H].
      * right. now left.
      * now left.
      * right. now right.
Qed.

Lemma split_clean_word (text w : str) :
  In w (split (clean text)) ->
  w <> [] /\ Forall (fun c => keyword_char c = true) w.
Proof.
  intros Hw.
  pose proof (split_tokens (clean text)) as Ht.
  rewrite Forall_forall in Ht. destruct (Ht w Hw) as [Hne Hsp].
  split; [exact Hne|]. apply Forall_forall. intros c Hc.
  destruct (@split_from_chars _ _ _ _ Hw Hc) as [[]|Hin].
  apply (@clean_chars text c Hin).
  rewrite forallb_forall in Hsp. specialize (Hsp c Hc).
  now apply negb_true_iff in Hsp.
Qed.


(** The underscore is a word character: it stays, and joins what it
    stands between into one word. *)
Lemma clean_keeps_underscore :
  split (clean (lit "Rate_limit, v2!")) = [lit "rate_limit"; lit "v2"].
Proof. reflexivity. Qed.


(** A clustered table of three rows, two of them in cluster 0. *)
Definition three_rows : EmbeddingVisualizer :=
  mkViz (mkDataFrame [lit "Claims, claims and more."; lit "left out";
                      lit "more claims"]
                     ["a.json"%string; "b.json"%string; "c.json"%string]
                     (Some [0; -1; 0]%Z) (Some [(1#2)%Q; 0%Q; 1%Q])
                     (Some [0%Q; 1%Q; 0%Q]))
        3 None None (Some 1%Z) (Some 1%Z) None None.





(** *** The hierarchy *)

Section HierarchyFacts.
Variable tree : list tree_row.
Hypothesis children_unique : NoDup (map child tree).

Lemma parent_children_get (p : Z) :
  dict_get (parent_children tree) p
  = if mem p (map parent tree) then Some (children_of tree p) else None.
Proof.
  unfold parent_children. rewrite dict_get_map_key.
  destruct (in_dec Z.eq_dec p (sorted_unique (map parent tree))) as [Hin|Hnin].
  - apply (proj1 (sorted_unique_In _ _)) in Hin.
    now rewrite (proj2 (mem_In _ _) Hin).
  - destruct (mem p (map parent tree)) eqn:E; [|reflexivity].
    elim Hnin. apply sorted_unique_In. now apply mem_In.
Qed.

Lemma node_sizes_direct_rows :
  node_sizes_direct tree = map (fun r => (child r, child_size r)) tree.
Proof.
  unfold node_sizes_direct. apply dict_of_nodup.
  rewrite map_map. exact children_unique.
Qed.

Lemma node_sizes_direct_row (r : tree_row) :
  In r tree -> dict_get (node_sizes_direct tree) (child r) = Some (child_size r).
Proof.
  intros Hr. rewrite node_sizes_direct_rows. apply dict_get_In.
  - unfold keys. rewrite map_map. exact children_unique.
  - apply (in_map (fun r => (child r, child_size r))). exact Hr.
Qed.

Lemma node_sizes_direct_None (node : Z) :
  dict_get (node_sizes_direct tree) node = None <-> ~ In node (map child tree).
Proof.
  rewrite dict_get_None, node_sizes_direct_rows. unfold keys.
  now rewrite map_map.
Qed.

Lemma children_of_In (p c : Z) :
  In c (children_of tree p) <->
  exists r, In r tree /\ parent r = p /\ child r = c.
Proof.
  unfold children_of. rewrite in_map_iff. split.
  - intros (r & <- & Hr). apply filter_In in Hr as [Hr E].
    apply Z.eqb_eq in E. eauto.
  - intros (r & Hr & <- & <-). exists r. split; [reflexivity|].
    apply filter_In. split; [exact Hr | apply Z.eqb_refl].
Qed.

Lemma computed_recorded (p c : Z) :
  In c (children_of tree p) -> computed_size tree c = recorded_size tree c.
Proof.
  intros Hc. apply children_of_In in Hc as (r & Hr & _ & <-).
  unfold computed_size, recorded_size.
  now rewrite (node_sizes_direct_row _ Hr).
Qed.

Lemma memo_ok_set (memo : dict Z) (node : Z) :
  memo_ok tree memo ->
  memo_ok tree (dict_set memo node (computed_size tree node)).
Proof.
  intros Hok n s. rewrite dict_get_set.
  destruct (Z.eqb_spec node n) as [->|_].
  - intros H. now injection H as <-.
  - apply Hok.
Qed.

(** A node that occurs as a child is answered from the memo or from its
    recorded size, whatever the fuel. *)
Lemma get_node_size_child (fuel : nat) (p c : Z) (memo : dict Z) :
  In c (children_of tree p) -> memo_ok tree memo ->
  exists memo',
    get_node_size fuel tree c memo = Some (recorded_size tree c, memo') /\
    memo_ok tree memo'.
Proof.
  intros Hc Hok. pose proof (computed_recorded _ _ Hc) as E.
  apply children_of_In in Hc as (r & Hr & _ & <-).
  destruct fuel; cbn [get_node_size];
    (destruct (dict_get memo (child r)) as [s|] eqn:Em;
     [ exists memo; split; [|exact Hok];
       rewrite (Hok _ _ Em), E; reflexivity
     | rewrite (node_sizes_direct_row _ Hr);
       exists (dict_set memo (child r) (child_size r)); split;
       [ unfold recorded_size; now rewrite (node_sizes_direct_row _ Hr)
       | replace (child_size r) with (computed_size tree (child r))
           by (unfold computed_size; now rewrite (node_sizes_direct_row _ Hr));
         now apply memo_ok_set ] ]).
Qed.

Lemma sum_over_children (fuel : nat) (p : Z) (cs : list Z) :
  (forall c, In c cs -> In c (children_of tree p)) ->
  forall acc memo,
    memo_ok tree memo ->
    exists memo',
      sum_over (get_node_size fuel tree) cs acc memo
      = Some (fold_left Z.add (map (recorded_size tree) cs) acc, memo') /\
      memo_ok tree memo'.
Proof.
  induction cs as [|c cs IH]; intros Hcs acc memo Hok; cbn [sum_over map fold_left].
  - exists memo. now split.
  - destruct (@get_node_size_child fuel p c memo (Hcs c (or_introl eq_refl)) Hok)
      as (m1 & E1 & Hok1).
    unfold bind at 1. rewrite E1.
    apply IH; [|exact Hok1]. intros x Hx. apply Hcs. now right.
Qed.

(** With fuel for one level of recursion [get_node_size] returns the
    computed size and keeps the memo sound. *)
Lemma get_node_size_computed (fuel : nat) (node : Z) (memo : dict Z) :
  memo_ok tree memo ->
  exists memo',
    get_node_size (S fuel) tree node memo
    = Some (computed_size tree node, memo') /\
    memo_ok tree memo'.
Proof.
  intros Hok. cbn [get_node_size].
  destruct (dict_get memo node) as [s|] eqn:Em.
  { exists memo. split; [|exact Hok]. now rewrite (Hok _ _ Em). }
  unfold computed_size at 1.
  destruct (dict_get (node_sizes_direct tree) node) as [s|] eqn:Ed.
  { exists (dict_set memo node s). split; [reflexivity|].
    replace s with (computed_size tree node)
      by (unfold computed_size; now rewrite Ed).
    now apply memo_ok_set. }
  rewrite parent_children_get.
  destruct (mem node (map parent tree)) eqn:Ep.
  - destruct (@sum_over_children fuel node (children_of tree node)
                                 (fun c H => H) 0%Z memo Hok)
      as (m1 & E1 & Hok1).
    rewrite E1. eexists. split; [reflexivity|].
    replace (fold_left Z.add (map (recorded_size tree) (children_of tree node)) 0%Z)
      with (computed_size tree node)
      by (unfold computed_size; rewrite Ed, parent_children_get, Ep;
          reflexivity).
    now apply memo_ok_set.
  - exists memo. now split.
Qed.

Lemma any_visible_computed (fuel : nat) (cs : list Z) :
  forall memo,
    memo_ok tree memo ->
    exists memo',
      any_visible (get_node_size (S fuel) tree) cs memo
      = Some (existsb (fun c => (1 <? computed_size tree c)%Z) cs, memo') /\
      memo_ok tree memo'.
Proof.
  induction cs as [|c cs IH]; intros memo Hok; cbn [any_visible existsb].
  - exists memo. now split.
  - destruct (get_node_size_computed fuel c Hok) as (m1 & E1 & Hok1).
    unfold bind. rewrite E1.
    destruct (1 <? computed_size tree c)%Z.
    + exists m1. now split.
    + now apply IH.
Qed.

Lemma depth_bound (node : Z) : (depth tree node <= List.length tree)%nat.
Proof.
  unfold depth. destruct (mem node (map parent tree)); [|lia].
  etransitivity; [apply List.filter_length_le|].
  unfold set_of. rewrite <- (length_map parent tree).
  generalize (map parent tree) as l. clear.
  induction l as [|a l IH]; cbn [nodup List.length]; [lia|].
  destruct (in_dec Z.eq_dec a l); cbn [List.length]; lia.
Qed.

Lemma depth_child (p c : Z) :
  ordered tree -> In c (children_of tree p) ->
  (depth tree c < depth tree p)%nat.
Proof.
  intros Hord Hc. apply children_of_In in Hc as (r & Hr & <- & <-).
  assert (Hp : In (parent r) (set_of (map parent tree))).
  { apply nodup_In. now apply in_map. }
  unfold depth at 2.
  rewrite (proj2 (mem_In _ _) (proj1 (nodup_In Z.eq_dec _ _) Hp)).
  unfold depth. destruct (mem (child r) (map parent tree)) eqn:Ec.
  - apply mem_In in Ec. specialize (Hord r Hr Ec).
    apply filter_length_strict with (a := parent r); auto.
    + intros x _ Hx. apply Z.leb_le in Hx. apply Z.leb_le. lia.
    + apply Z.leb_gt. lia.
    + apply Z.leb_le. lia.
  - assert (Hin : In (parent r)
                     (filter (fun q => (parent r <=? q)%Z)
                             (set_of (map parent tree)))).
    { apply filter_In. split; [exact Hp | apply Z.leb_refl]. }
    destruct (filter _ _); [contradiction | cbn; lia].
Qed.

Variable data : dict tree_row.
Variable cmap : dict Z.
Variable colors : dict string.
Variable descriptions : dict description.

(** What holds of every item that is emitted. *)
Definition emitted (y : li) : Prop :=
  li_size y = computed_size tree (li_node y) /\
  (1 < li_size y)%Z /\
  li_final y
  = option_map (annotate colors descriptions)
               (final_cluster_label cmap (li_node y)).

(** What a call for [node] is expected to return. *)
Definition returns (build : Z -> M (list li)) (node : Z) : Prop :=
  forall memo,
    memo_ok tree memo ->
    exists items memo',
      build node memo = Some (items, memo') /\
      memo_ok tree memo' /\
      map li_node items
      = (if (1 <? computed_size tree node)%Z then [node] else []) /\
      Forall (fun x => Forall emitted (all_items x)) items.

Lemma join_over_items (build : Z -> M (list li)) (cs : list Z) :
  (forall c, In c cs -> returns build c) ->
  forall memo,
    memo_ok tree memo ->
    exists items memo',
      join_over build cs memo = Some (items, memo') /\
      memo_ok tree memo' /\
      map li_node items
      = filter (fun c => (1 <? computed_size tree c)%Z) cs /\
      Forall (fun x => Forall emitted (all_items x)) items.
Proof.
  induction cs as [|c cs IH]; intros Hb memo Hok; cbn [join_over filter].
  - exists [], memo. repeat split; auto.
  - destruct (Hb c (or_introl eq_refl) memo Hok)
      as (h & m1 & E1 & Hok1 & Hn1 & Ha1).
    destruct (IH (fun x Hx => Hb x (or_intror Hx)) m1 Hok1)
      as (t & m2 & E2 & Hok2 & Hn2 & Ha2).
    unfold bind, ret. rewrite E1, E2.
    exists (h ++ t)%list, m2. split; [reflexivity|]. split; [exact Hok2|].
    split.
    + rewrite map_app, Hn1, Hn2.
      now destruct (1 <? computed_size tree c)%Z.
    + apply Forall_app. now split.
Qed.

Lemma build_hierarchy_html_returns :
  ordered tree ->
  forall fuel node,
    (depth tree node < fuel)%nat ->
    returns (build_hierarchy_html fuel tree data cmap colors descriptions) node.
Proof.
  intros Hord. induction fuel as [|fuel IH]; intros node Hd memo Hok; [lia|].
  cbn [build_hierarchy_html].
  destruct (get_node_size_computed fuel node Hok) as (m1 & E1 & Hok1).
  unfold bind at 1. rewrite E1.
  destruct (Z.leb_spec (computed_size tree node) 1) as [Hle|Hgt].
  { exists [], m1. split; [reflexivity|]. split; [exact Hok1|].
    destruct (Z.ltb_spec 1 (computed_size tree node)); [lia|].
    split; [reflexivity | constructor]. }
  destruct (Z.ltb_spec 1 (computed_size tree node)) as [_|]; [|lia].
  rewrite parent_children_get.
  destruct (mem node (map parent tree)) eqn:Ep.
  - destruct (any_visible_computed fuel (children_of tree node) Hok1)
      as (m2 & E2 & Hok2).
    unfold bind at 1. rewrite E2.
    destruct (existsb (fun c => (1 <? computed_size tree c)%Z)
                      (children_of tree node)) eqn:Ev.
    + destruct (@join_over_items
                  (build_hierarchy_html fuel tree data cmap colors descriptions)
                  (children_of tree node)
                  (fun c Hc => IH c ltac:(pose proof (depth_child _ _ Hord Hc); lia))
                  m2 Hok2)
        as (items & m3 & E3 & Hok3 & Hn3 & Ha3).
      unfold bind at 1. rewrite E3. unfold ret.
      eexists. exists m3. split; [reflexivity|]. split; [exact Hok3|].
      split; [reflexivity|].
      constructor; [|constructor].
      assert (Hne : items <> []).
      { intros ->. cbn [map] in Hn3.
        apply existsb_exists in Ev as (c & Hc & Hv).
        assert (Hin : In c (filter (fun c => (1 <? computed_size tree c)%Z)
                                   (children_of tree node)))
          by (apply filter_In; now split).
        rewrite <- Hn3 in Hin. contradiction. }
      destruct items as [|i0 items]; [contradiction|].
      cbn [all_items li_children]. constructor.
      * repeat split; cbn [li_size li_node li_final]; auto; lia.
      * apply Forall_flat_map. exact Ha3.
    + unfold bind, ret. eexists. exists m2.
      split; [reflexivity|]. split; [exact Hok2|]. split; [reflexivity|].
      constructor; [|constructor]. cbn [all_items li_children].
      constructor; [|constructor].
      repeat split; cbn [li_size li_node li_final]; auto; lia.
  - unfold bind, ret. eexists. exists m1.
    split; [reflexivity|]. split; [exact Hok1|]. split; [reflexivity|].
    constructor; [|constructor]. cbn [all_items li_children].
    constructor; [|constructor].
    repeat split; cbn [li_size li_node li_final]; auto; lia.
Qed.

End HierarchyFacts.

Lemma is_unique_NoDup (l : list Z) : NoDup l -> is_unique l = true.
Proof.
  intros H. unfold is_unique, set_of.
  rewrite (nodup_fixed_point Z.eq_dec H). apply Nat.eqb_refl.
Qed.

Lemma root_nodes_In (tree : list tree_row) (n : Z) :
  In n (root_nodes tree) <->
  In n (map parent tree) /\ ~ In n (map child tree).
Proof.
  unfold root_nodes.
  assert (Hk : keys (parent_children tree) = sorted_unique (map parent tree)).
  { unfold keys, parent_children. rewrite map_map. apply map_id. }
  rewrite Hk. split.
  - intros H. apply (Permutation_in _ (sort_by_perm Z.gtb _)) in H.
    apply filter_In in H as [H1 H2].
    apply (proj1 (nodup_In Z.eq_dec _ _)) in H1.
    apply (proj1 (sorted_unique_In _ _)) in H1.
    split; [exact H1|]. intros N. apply mem_In in N. now rewrite N in H2.
  - intros [H1 H2].
    apply (Permutation_in _ (Permutation_sym (sort_by_perm Z.gtb _))).
    apply filter_In. split.
    + apply (proj2 (nodup_In Z.eq_dec _ _)).
      now apply (proj2 (sorted_unique_In _ _)).
    + apply negb_true_iff, not_true_is_false. intros N. now apply mem_In in N.
Qed.

Lemma root_nodes_descending (tree : list tree_row) :
  StronglySorted (fun a b => (b < a)%Z) (root_nodes tree).
Proof.
  unfold root_nodes.
  set (l := filter _ _).
  assert (Hnd : NoDup (sort_by Z.gtb l)).
  { eapply Permutation_NoDup; [symmetry; apply sort_by_perm|].
    subst l. apply NoDup_filter, NoDup_nodup. }
  assert (Hs : StronglySorted (ok Z.gtb) (sort_by Z.gtb l)).
  { apply sort_by_sorted.
    - intros a b H. unfold ok. apply Z.gtb_lt in H.
      destruct (Z.gtb_spec b a); [lia | reflexivity].
    - unfold ok. intros a b c H1 H2.
      destruct (Z.gtb_spec b a); [discriminate|].
      destruct (Z.gtb_spec c b); [discriminate|].
      destruct (Z.gtb_spec c a); [lia | reflexivity]. }
  induction Hs as [|a m Hs IH Hall]; constructor.
  - apply IH. now apply NoDup_cons_iff in Hnd.
  - apply NoDup_cons_iff in Hnd as [Hnin _].
    apply Forall_forall. intros b Hb. rewrite Forall_forall in Hall.
    specialize (Hall b Hb). unfold ok in Hall.
    destruct (Z.gtb_spec b a); [discriminate|].
    assert (b <> a) by (intros ->; contradiction). lia.
Qed.

Lemma final_cluster_label_get (cmap : dict Z) (node : Z) :
  NoDup (map snd cmap) ->
  final_cluster_label cmap node = dict_get cmap node.
Proof.
  intros Hnd. unfold final_cluster_label, cluster_id_to_node.
  rewrite dict_of_nodup by (rewrite map_map; exact Hnd).
  clear Hnd. induction cmap as [|[k v] cmap IH]; [reflexivity|].
  cbn [map find dict_get fst snd].
  destruct (Z.eqb k node); [reflexivity | exact IH].
Qed.

(** On a tree whose child ids are unique and whose split clusters have
    larger ids than their parents, the hierarchy block returns a list of
    items once the fuel exceeds the number of rows. *)
Lemma hierarchy_html_items (c : Clusterer) (tree : list tree_row)
      (colors : dict string) (descriptions : dict description) (fuel : nat) :
  condensed_tree_ c = Some tree ->
  NoDup (map child tree) ->
  ordered tree ->
  (List.length tree < fuel)%nat ->
  exists items,
    hierarchy_html fuel c colors descriptions = Some (Some items) /\
    map li_node items
    = filter (fun n => (1 <? computed_size tree n)%Z) (root_nodes tree) /\
    Forall (fun x =>
              Forall (emitted tree (cluster_map c) colors descriptions)
                     (all_items x))
           items.
Proof.
  intros Ht Hu Hord Hfuel. unfold hierarchy_html, node_data.
  rewrite Ht, (is_unique_NoDup Hu).
  set (data := dict_of (map (fun r => (child r, r)) tree)).
  assert (Hret : forall n, In n (root_nodes tree) ->
                   returns tree (cluster_map c) colors descriptions
                     (build_hierarchy_html fuel tree data (cluster_map c)
                                           colors descriptions) n).
  { intros n _. apply build_hierarchy_html_returns; auto.
    pose proof (depth_bound tree n). lia. }
  assert (Hempty : memo_ok tree []) by (intros n s0 H; discriminate).
  destruct (join_over_items _ Hret Hempty) as (items & m & E & _ & Hn & Ha).
  rewrite E. exists items. now repeat split.
Qed.

(** C2.  On a condensed tree with unique child ids in which split
    clusters have larger ids than their parents, and with fuel above the
    number of rows:
    - the size of a node that occurs as a child is its recorded
      [child_size]; otherwise, when it occurs as a parent, it is the sum
      of the sizes of its children; otherwise it is 1; this is the value
      [get_node_size] returns from any sound memo;
    - the hierarchy block returns markup in which every item, at any
      depth, shows the size of its node, which is greater than 1;
    - the top-level items are, in this order, the [root_nodes] of size
      greater than 1 (all of [root_nodes] when each has more than one
      point, as the root of a condensed tree has), and [root_nodes]
      lists in strictly descending order the nodes that occur as a
      parent and never as a child. *)
Theorem hierarchy_sizes_and_roots
        (c : Clusterer) (tree : list tree_row)
        (colors : dict string) (descriptions : dict description)
        (fuel : nat) :
  condensed_tree_ c = Some tree ->
  NoDup (map child tree) ->
  ordered tree ->
  (List.length tree < fuel)%nat ->
  (forall r, In r tree -> computed_size tree (child r) = child_size r) /\
  (forall node,
     ~ In node (map child tree) -> In node (map parent tree) ->
     computed_size tree node
     = sum (map (computed_size tree) (children_of tree node))) /\
  (forall node,
     ~ In node (map child tree) -> ~ In node (map parent tree) ->
     computed_size tree node = 1%Z) /\
  (forall node k memo,
     memo_ok tree memo ->
     exists memo',
       get_node_size (S k) tree node memo
       = Some (computed_size tree node, memo') /\
       memo_ok tree memo') /\
  exists items,
    hierarchy_html fuel c colors descriptions = Some (Some items) /\
    Forall (fun x =>
              Forall (fun y => li_size y = computed_size tree (li_node y) /\
                               (1 < li_size y)%Z)
                     (all_items x))
           items /\
    map li_node items
    = filter (fun n => (1 <? computed_size tree n)%Z) (root_nodes tree) /\
    ((forall n, In n (root_nodes tree) -> (1 < computed_size tree n)%Z) ->
     map li_node items = root_nodes tree) /\
    (forall n, In n (root_nodes tree) <->
               In n (map parent tree) /\ ~ In n (map child tree)) /\
    StronglySorted (fun a b => (b < a)%Z) (root_nodes tree).
Proof.
  intros Ht Hu Hord Hfuel.
  split.
  { intros r Hr. unfold computed_size.
    now rewrite (@node_sizes_direct_row tree Hu r Hr). }
  split.
  { intros node Hnc Hp. unfold computed_size at 1.
    rewrite (proj2 (@node_sizes_direct_None tree Hu node) Hnc).
    rewrite (parent_children_get tree node), (proj2 (mem_In _ _) Hp).
    f_equal. apply map_ext_in. intros x Hx. symmetry.
    now apply (@computed_recorded tree Hu node). }
  split.
  { intros node Hnc Hnp. unfold computed_size.
    rewrite (proj2 (@node_sizes_direct_None tree Hu node) Hnc).
    rewrite (parent_children_get tree node).
    destruct (mem node (map parent tree)) eqn:E; [|reflexivity].
    apply mem_In in E. contradiction. }
  split.
  { intros node k memo Hok. now apply get_node_size_computed. }
  destruct (@hierarchy_html_items c tree colors descriptions fuel Ht Hu Hord Hfuel)
    as (items & Hrun & Hn & Ha).
  exists items. split; [exact Hrun|]. split.
  { eapply Forall_impl; [|exact Ha]. intros x Hx.
    eapply Forall_impl; [|exact Hx]. intros y (H1 & H2 & _). now split. }
  split; [exact Hn|].
  split.
  { intros Hroots. rewrite Hn. apply forallb_filter_id.
    apply forallb_forall. intros n Hin. apply Z.ltb_lt. now apply Hroots. }
  split; [apply root_nodes_In | apply root_nodes_descending].
Qed.

(** A condensed tree over five points: the root 5 splits into the
    clusters 6 (three points) and 7 (two points). *)
Definition small_tree : list tree_row :=
  [mkTreeRow 5 6 (1#2) 3; mkTreeRow 5 7 (1#2) 2;
   mkTreeRow 6 0 1 1; mkTreeRow 6 1 1 1; mkTreeRow 6 2 1 1;
   mkTreeRow 7 3 1 1; mkTreeRow 7 4 1 1]%Z.

Definition small_clusterer : Clusterer :=
  mkClusterer [0; 0; 0; 1; 1]%Z [1%Q; 1%Q; 1%Q; 1%Q; 1%Q]
              [0%Q; 0%Q; 0%Q; 0%Q; 0%Q]
              (Some small_tree) [(6, 0); (7, 1)]%Z None.

Lemma small_tree_unique : NoDup (map child small_tree).
Proof.
  cbn. repeat (constructor; [cbn; intuition discriminate|]). constructor.
Defined.

Lemma small_tree_ordered : ordered small_tree.
Proof.
  intros r Hr Hc. cbn in Hr.
  repeat (destruct Hr as [<-|Hr]; [cbn in *; try lia; intuition discriminate|]).
  contradiction.
Defined.

Lemma hierarchy_sizes_and_roots_witness :
  exists items,
    hierarchy_html 8 small_clusterer [] [] = Some (Some items) /\
    map li_node items
    = filter (fun n => (1 <? computed_size small_tree n)%Z)
             (root_nodes small_tree).
Proof.
  destruct (@hierarchy_sizes_and_roots small_clusterer small_tree [] [] 8
              eq_refl small_tree_unique small_tree_ordered
              ltac:(cbn; lia))
    as (_ & _ & _ & _ & items & Hrun & _ & Hn & _).
  exists items. split; assumption.
Defined.

(** *** The nodes that are rendered *)

Section HierarchyCover.
Variable tree : list tree_row.
Hypothesis children_unique : NoDup (map child tree).
Hypothesis tree_ordered : ordered tree.

(** [shown_below n m]: [m] is [n] or lies below [n], and every node on
    the way from [n] down to [m], both included, has more than one
    point. *)
Inductive shown_below : Z -> Z -> Prop :=
| shown_here (n : Z) :
    (1 < computed_size tree n)%Z -> shown_below n n
| shown_child (n c m : Z) :
    (1 < computed_size tree n)%Z -> In c (children_of tree n) ->
    shown_below c m -> shown_below n m.

(** The markup has an item for node [m], at some depth. *)
Definition has_item (items : list li) (m : Z) : Prop :=
  exists x y, In x items /\ In y (all_items x) /\ li_node y = m.

Lemma shown_below_size (n m : Z) :
  shown_below n m -> (1 < computed_size tree n)%Z.
Proof. now destruct 1. Qed.

Lemma shown_below_snoc (a b c : Z) :
  shown_below a b -> In c (children_of tree b) ->
  (1 < computed_size tree c)%Z -> shown_below a c.
Proof.
  induction 1 as [n Hn|n k m Hn Hk _ IH]; intros Hc Hs.
  - apply (@shown_child n c c Hn Hc). now apply shown_here.
  - apply (@shown_child n k c Hn Hk). now apply IH.
Qed.

Variable data : dict tree_row.
Variable cmap : dict Z.
Variable colors : dict string.
Variable descriptions : dict description.

(** A call for [node] returns markup with an item for every node shown
    below [node]. *)
Definition covers (build : Z -> M (list li)) (node : Z) : Prop :=
  forall memo,
    memo_ok tree memo ->
    exists items memo',
      build node memo = Some (items, memo') /\
      memo_ok tree memo' /\
      forall m, shown_below node m -> has_item items m.

Lemma join_over_covers (build : Z -> M (list li)) (cs : list Z) :
  (forall c, In c cs -> covers build c) ->
  forall memo,
    memo_ok tree memo ->
    exists items memo',
      join_over build cs memo = Some (items, memo') /\
      memo_ok tree memo' /\
      forall c m, In c cs -> shown_below c m -> has_item items m.
Proof.
  induction cs as [|c cs IH]; intros Hb memo Hok; cbn [join_over].
  - exists [], memo. split; [reflexivity|]. split; [exact Hok|].
    intros c m [].
  - destruct (Hb c (or_introl eq_refl) memo Hok) as (h & m1 & E1 & Hok1 & H1).
    destruct (IH (fun x Hx => Hb x (or_intror Hx)) m1 Hok1)
      as (t & m2 & E2 & Hok2 & H2).
    unfold bind, ret. rewrite E1, E2.
    exists (h ++ t)%list, m2. split; [reflexivity|]. split; [exact Hok2|].
    intros k m [<-|Hk] Hs.
    + destruct (H1 m Hs) as (x & y & Hx & Hy & Hm).
      exists x, y. split; [apply in_or_app; now left|now split].
    + destruct (H2 k m Hk Hs) as (x & y & Hx & Hy & Hm).
      exists x, y. split; [apply in_or_app; now right|now split].
Qed.

Lemma build_hierarchy_html_covers :
  forall fuel node,
    (depth tree node < fuel)%nat ->
    covers (build_hierarchy_html fuel tree data cmap colors descriptions) node.
Proof.
  induction fuel as [|fuel IH]; intros node Hd memo Hok; [lia|].
  cbn [build_hierarchy_html].
  destruct (get_node_size_computed children_unique fuel node Hok)
    as (m1 & E1 & Hok1).
  unfold bind at 1. rewrite E1.
  destruct (Z.leb_spec (computed_size tree node) 1) as [Hle|Hgt].
  { exists [], m1. split; [reflexivity|]. split; [exact Hok1|].
    intros m Hs. apply shown_below_size in Hs. lia. }
  rewrite parent_children_get.
  destruct (mem node (map parent tree)) eqn:Ep.
  - destruct (any_visible_computed children_unique fuel
                                   (children_of tree node) Hok1)
      as (m2 & E2 & Hok2).
    unfold bind at 1. rewrite E2.
    destruct (existsb (fun c => (1 <? computed_size tree c)%Z)
                      (children_of tree node)) eqn:Ev.
    + destruct (@join_over_covers
                  (build_hierarchy_html fuel tree data cmap colors descriptions)
                  (children_of tree node)
                  (fun c Hc =>
                     IH c ltac:(pose proof (depth_child _ _ tree_ordered Hc); lia))
                  m2 Hok2)
        as (items & m3 & E3 & Hok3 & H3).
      unfold bind at 1. rewrite E3. unfold ret.
      eexists. exists m3. split; [reflexivity|]. split; [exact Hok3|].
      intros m Hs. inversion Hs as [n Hn|n c k Hn Hc Hk]; subst.
      * eexists. eexists. split; [left; reflexivity|].
        split; [left; reflexivity|reflexivity].
      * destruct (H3 c m Hc Hk) as (x & y & Hx & Hy & Hm).
        eexists. exists y. split; [left; reflexivity|]. split; [|exact Hm].
        destruct items as [|i0 items]; [destruct Hx|].
        cbn [all_items li_children]. right.
        apply in_flat_map. now exists x.
    + unfold bind, ret. eexists. exists m2.
      split; [reflexivity|]. split; [exact Hok2|].
      intros m Hs. inversion Hs as [n Hn|n c k Hn Hc Hk]; subst.
      * eexists. eexists. split; [left; reflexivity|].
        split; [left; reflexivity|reflexivity].
      * exfalso. apply shown_below_size in Hk.
        assert (Ht : existsb (fun c => (1 <? computed_size tree c)%Z)
                             (children_of tree node) = true).
        { apply existsb_exists. exists c. split; [exact Hc|].
          now apply Z.ltb_lt. }
        congruence.
  - unfold bind, ret. eexists. exists m1.
    split; [reflexivity|]. split; [exact Hok1|].
    intros m Hs. inversion Hs as [n Hn|n c k Hn Hc Hk]; subst.
    + eexists. eexists. split; [left; reflexivity|].
      split; [left; reflexivity|reflexivity].
    + exfalso. apply children_of_In in Hc as (r & Hr & Hp & _).
      assert (Hin : In node (map parent tree))
        by (rewrite <- Hp; now apply in_map).
      apply mem_In in Hin. congruence.
Qed.

(** A node is shown when it is shown below a top-level node. *)
Definition shown (node : Z) : Prop :=
  exists root, In root (root_nodes tree) /\ shown_below root node.

(** When every node that is split has more than one point, as in a
    condensed tree, every such node is shown. *)
Lemma parents_shown :
  (forall p, In p (map parent tree) -> (1 < computed_size tree p)%Z) ->
  forall p, In p (map parent tree) -> shown p.
Proof.
  intros Hbig.
  enough (H : forall k p,
             (List.length (filter (fun q => (q <? p)%Z)
                                  (set_of (map parent tree))) < k)%nat ->
             In p (map parent tree) -> shown p).
  { intros p Hp.
    apply (H (S (List.length (filter (fun q => (q <? p)%Z)
                                     (set_of (map parent tree))))) p);
      [lia|exact Hp]. }
  induction k as [|k IH]; intros p Hk Hp; [lia|].
  destruct (in_dec Z.eq_dec p (map child tree)) as [Hc|Hnc].
  - apply in_map_iff in Hc as (r & <- & Hr).
    pose proof (tree_ordered r Hr Hp) as Hlt.
    assert (Hq : In (parent r) (map parent tree)) by now apply in_map.
    destruct (IH (parent r)) as (root & Hroot & Hs); [|exact Hq|].
    + assert (Hlt' : (List.length (filter (fun q => (q <? parent r)%Z)
                                          (set_of (map parent tree)))
                      < List.length (filter (fun q => (q <? child r)%Z)
                                            (set_of (map parent tree))))%nat).
      { apply filter_length_strict with (a := parent r).
        - intros x _ Hx. apply Z.ltb_lt in Hx. apply Z.ltb_lt. lia.
        - apply nodup_In. exact Hq.
        - apply Z.ltb_irrefl.
        - now apply Z.ltb_lt. }
      lia.
    + exists root. split; [exact Hroot|].
      apply (@shown_below_snoc root (parent r) (child r) Hs).
      * apply children_of_In. now exists r.
      * now apply Hbig.
  - exists p. split; [now apply root_nodes_In|].
    apply shown_here. now apply Hbig.
Qed.

End HierarchyCover.

(** The hierarchy block has an item for every node that is shown. *)
Lemma hierarchy_html_covers (c : Clusterer) (tree : list tree_row)
      (colors : dict string) (descriptions : dict description) (fuel : nat)
      (items : list li) :
  condensed_tree_ c = Some tree ->
  NoDup (map child tree) ->
  ordered tree ->
  (List.length tree < fuel)%nat ->
  hierarchy_html fuel c colors descriptions = Some (Some items) ->
  forall node, shown tree node -> has_item items node.
Proof.
  intros Ht Hu Hord Hfuel. unfold hierarchy_html, node_data.
  rewrite Ht, (is_unique_NoDup Hu).
  set (data := dict_of (map (fun r => (child r, r)) tree)).
  assert (Hcov : forall n, In n (root_nodes tree) ->
                   covers tree
                     (build_hierarchy_html fuel tree data (cluster_map c)
                                           colors descriptions) n).
  { intros n _. apply build_hierarchy_html_covers; auto.
    pose proof (depth_bound tree n). lia. }
  assert (Hempty : memo_ok tree []) by (intros n s0 H; discriminate).
  destruct (join_over_covers (root_nodes tree) Hcov Hempty)
    as (items' & m & E & _ & H).
  rewrite E. intros [= <-] node (root & Hroot & Hs).
  exact (H root node Hroot Hs).
Qed.

(** The link an item carries for label [L]: it names [L], takes the
    color of [L] in [color_map] (a grey default when [L] has none) and
    previews the first three keywords of [L] when [L] has keywords. *)
Definition links_to (colors : dict string) (descriptions : dict description)
           (y : li) (L : Z) : Prop :=
  exists a,
    li_final y = Some a /\ an_label a = L /\
    an_color a = match dict_get colors L with
                 | Some col => col
                 | None => default_color
                 end /\
    an_preview a
    = match dict_get descriptions L with
      | Some desc =>
        match keywords desc with
        | [] => None
        | _ => Some (firstn 3 (keywords desc))
        end
      | None => None
      end.

(** C3.  When, moreover, the cluster map gives distinct labels to
    distinct nodes:
    - an item of the markup, at any depth, carries a cluster link
      exactly when the map associates a label [L] with its node; the
      link names [L], takes the color of [L] in [color_map] (a grey
      default when [L] has none) and previews the first three keywords
      of [L] when [L] has keywords; an item whose node is not in the map
      has no link;
    - the markup has an item for every node that is shown, that is,
      every node reached from a top-level node through nodes of more
      than one point; so a shown node with label [L] in the map has an
      item that links to [L], and a shown node that is not in the map
      has an item without a link;
    - when every node that is split has more than one point, as in a
      condensed tree, every node that occurs as a parent is shown: each
      cluster the map names is then rendered with its link. *)
Theorem hierarchy_cluster_links
        (c : Clusterer) (tree : list tree_row)
        (colors : dict string) (descriptions : dict description)
        (fuel : nat) :
  condensed_tree_ c = Some tree ->
  NoDup (map child tree) ->
  ordered tree ->
  (List.length tree < fuel)%nat ->
  NoDup (map snd (cluster_map c)) ->
  exists items,
    hierarchy_html fuel c colors descriptions = Some (Some items) /\
    Forall (fun x =>
      Forall (fun y =>
        match dict_get (cluster_map c) (li_node y) with
        | Some L =>
          exists a,
            li_final y = Some a /\ an_label a = L /\
            an_color a = match dict_get colors L with
                         | Some col => col
                         | None => default_color
                         end /\
            an_preview a
            = match dict_get descriptions L with
              | Some desc =>
                match keywords desc with
                | [] => None
                | _ => Some (firstn 3 (keywords desc))
                end
              | None => None
              end
        | None => li_final y = None
        end)
        (all_items x))
      items /\
    (forall node, shown tree node -> has_item items node) /\
    (forall node L,
       shown tree node -> dict_get (cluster_map c) node = Some L ->
       exists x y,
         In x items /\ In y (all_items x) /\ li_node y = node /\
         links_to colors descriptions y L) /\
    (forall node,
       shown tree node -> dict_get (cluster_map c) node = None ->
       exists x y,
         In x items /\ In y (all_items x) /\ li_node y = node /\
         li_final y = None) /\
    ((forall p, In p (map parent tree) -> (1 < computed_size tree p)%Z) ->
     forall node L,
       In node (map parent tree) -> dict_get (cluster_map c) node = Some L ->
       exists x y,
         In x items /\ In y (all_items x) /\ li_node y = node /\
         links_to colors descriptions y L).
Proof.
  intros Ht Hu Hord Hfuel Hinj.
  destruct (@hierarchy_html_items c tree colors descriptions fuel Ht Hu Hord Hfuel)
    as (items & Hrun & _ & Ha).
  exists items. split; [exact Hrun|].
  assert (Hall :
    Forall (fun x =>
      Forall (fun y =>
        match dict_get (cluster_map c) (li_node y) with
        | Some L => links_to colors descriptions y L
        | None => li_final y = None
        end)
        (all_items x))
      items).
  { eapply Forall_impl; [|exact Ha]. intros x Hx.
    eapply Forall_impl; [|exact Hx]. intros y (_ & _ & Hf).
    rewrite (@final_cluster_label_get (cluster_map c) (li_node y) Hinj) in Hf.
    destruct (dict_get (cluster_map c) (li_node y)) as [L|]; [|exact Hf].
    cbn [option_map] in Hf. eexists. split; [exact Hf|].
    unfold annotate. cbn [an_label an_color an_preview].
    split; [reflexivity|]. split; [reflexivity|].
    destruct (dict_get descriptions L) as [desc|]; [|reflexivity].
    reflexivity. }
  pose proof (@hierarchy_html_covers c tree colors descriptions fuel items
                                     Ht Hu Hord Hfuel Hrun) as Hcov.
  assert (Hlink : forall node L,
            shown tree node -> dict_get (cluster_map c) node = Some L ->
            exists x y,
              In x items /\ In y (all_items x) /\ li_node y = node /\
              links_to colors descriptions y L).
  { intros node L Hs HL.
    destruct (Hcov node Hs) as (x & y & Hx & Hy & Hm).
    exists x, y. split; [exact Hx|]. split; [exact Hy|]. split; [exact Hm|].
    rewrite Forall_forall in Hall. specialize (Hall x Hx).
    rewrite Forall_forall in Hall. specialize (Hall y Hy).
    rewrite Hm, HL in Hall. exact Hall. }
  split; [exact Hall|]. split; [exact Hcov|]. split; [exact Hlink|]. split.
  - intros node Hs HL.
    destruct (Hcov node Hs) as (x & y & Hx & Hy & Hm).
    exists x, y. split; [exact Hx|]. split; [exact Hy|]. split; [exact Hm|].
    rewrite Forall_forall in Hall. specialize (Hall x Hx).
    rewrite Forall_forall in Hall. specialize (Hall y Hy).
    rewrite Hm, HL in Hall. exact Hall.
  - intros Hbig node L Hp HL. apply Hlink; [|exact HL].
    now apply (@parents_shown tree Hord Hbig).
Qed.

Lemma small_clusterer_labels : NoDup (map snd (cluster_map small_clusterer)).
Proof.
  cbn. repeat (constructor; [cbn; intuition discriminate|]). constructor.
Defined.

Lemma small_tree_split_sizes (p : Z) :
  In p (map parent small_tree) -> (1 < computed_size small_tree p)%Z.
Proof.
  cbn. intros H.
  repeat (destruct H as [<-|H]; [vm_compute; reflexivity|]).
  contradiction.
Defined.

Lemma hierarchy_cluster_links_witness :
  exists items,
    hierarchy_html 8 small_clusterer [] [] = Some (Some items) /\
    (exists x y,
       In x items /\ In y (all_items x) /\ li_node y = 6%Z /\
       links_to [] [] y 0%Z) /\
    (exists x y,
       In x items /\ In y (all_items x) /\ li_node y = 7%Z /\
       links_to [] [] y 1%Z).
Proof.
  destruct (@hierarchy_cluster_links small_clusterer small_tree [] [] 8
              eq_refl small_tree_unique small_tree_ordered
              ltac:(cbn; lia) small_clusterer_labels)
    as (items & Hrun & _ & _ & _ & _ & Hlink).
  exists items. split; [exact Hrun|]. split.
  - apply (Hlink small_tree_split_sizes 6%Z 0%Z); [cbn; tauto|reflexivity].
  - apply (Hlink small_tree_split_sizes 7%Z 1%Z); [cbn; tauto|reflexivity].
Defined.

(** *** The exporters *)

Lemma same_data_refl (self : EmbeddingVisualizer) : same_data self self.
Proof. repeat split. Qed.

Lemma same_data_trans (a b c : EmbeddingVisualizer) :
  same_data a b -> same_data b c -> same_data a c.
Proof.
  unfold same_data. intros (H1 & H2 & H3 & H4 & H5 & H6)
                           (K1 & K2 & K3 & K4 & K5 & K6).
  repeat split; congruence.
Qed.

Lemma ensure_descriptions_frame (self self1 : EmbeddingVisualizer) :
  ensure_descriptions self = Some self1 ->
  same_data self self1 /\
  color_map self1 = color_map self /\
  (cluster_descriptions self1 = cluster_descriptions self \/
   cluster_descriptions self = None /\
   exists ds, cluster_descriptions self1 = Some ds).
Proof.
  unfold ensure_descriptions.
  destruct (cluster_descriptions self) as [ds|] eqn:E.
  - intros H. injection H as <-. split; [apply same_data_refl|].
    split; [reflexivity|]. left. exact E.
  - unfold extract_cluster_keywords.
    destruct (col_cluster (df self)); [|discriminate].
    destruct (describe_loop _ _ _ _ _ _ _) as [ds|]; [|discriminate].
    intros H. injection H as <-. split; [repeat split|].
    split; [reflexivity|]. right. split; [reflexivity|]. now exists ds.
Qed.

Lemma ensure_colors_frame (palette : nat -> nat -> string)
      (self self2 : EmbeddingVisualizer) :
  ensure_colors palette self = Some self2 ->
  same_data self self2 /\
  cluster_descriptions self2 = cluster_descriptions self /\
  (color_map self2 = color_map self \/
   color_map self = None /\ exists cm, color_map self2 = Some cm).
Proof.
  unfold ensure_colors. destruct (color_map self) as [cm|] eqn:E.
  - intros H. injection H as <-. split; [apply same_data_refl|].
    split; [reflexivity|]. left. exact E.
  - unfold generate_cluster_colors.
    destruct (n_clusters self) eqn:En; [|discriminate].
    destruct (col_cluster (df self)); [|discriminate].
    destruct (color_entries _ _ _ _) as [cm|]; [|discriminate].
    intros H. injection H as <-.
    split; [unfold same_data; cbn; repeat split; congruence|].
    split; [reflexivity|]. right. split; [reflexivity|].
    eexists. reflexivity.
Qed.

Lemma read_write (fs : files) (path : string) (c : content) :
  read (write fs path c) path = Some c /\
  forall p, p <> path -> read (write fs path c) p = read fs p.
Proof.
  unfold write. cbn [read]. rewrite String.eqb_refl. split; [reflexivity|].
  intros p Hp. destruct (String.eqb_spec path p); [congruence | reflexivity].
Qed.

(** C8.  A run of either exporter of Claim Clustering_Report.py leaves
    the embedding table (all its columns), the clusterer with its
    condensed tree, and the counters as they were; the cache
    [cluster_descriptions] (and, for the HTML exporter, [color_map]) is
    either unchanged or was absent and is now filled; on disk only the
    file at [output_path] differs, and it holds the report. *)
Theorem exporters_only_write_report
        (palette : nat -> nat -> string) (fuel : nat) (output_path : string)
        (self self' : EmbeddingVisualizer) (fs fs' : files) :
  export_hierarchical_clustering_results fuel output_path self fs
    = Some (self', fs') \/
  export_hierarchical_report_html palette fuel output_path self fs
    = Some (self', fs') ->
  df self' = df self /\
  clusterer self' = clusterer self /\
  n_samples self' = n_samples self /\
  XY_normalized self' = XY_normalized self /\
  n_clusters self' = n_clusters self /\
  n_noise self' = n_noise self /\
  (cluster_descriptions self' = cluster_descriptions self \/
   cluster_descriptions self = None /\
   exists ds, cluster_descriptions self' = Some ds) /\
  (color_map self' = color_map self \/
   color_map self = None /\ exists cm, color_map self' = Some cm) /\
  (exists report, read fs' output_path = Some report) /\
  (forall p, p <> output_path -> read fs' p = read fs p).
Proof.
  intros [H|H].
  - unfold export_hierarchical_clustering_results in H.
    destruct (ensure_descriptions self) as [self1|] eqn:E1; [|discriminate].
    destruct (cluster_descriptions self1) as [ds|]; [|discriminate].
    destruct (n_clusters self1); [|discriminate].
    destruct (n_noise self1); [|discriminate].
    destruct (clusterer self1); [|discriminate].
    destruct (truediv _ _); [|discriminate].
    destruct (text_cards _ _); [|discriminate].
    injection H as <- <-.
    destruct (ensure_descriptions_frame _ E1)
      as ((H1 & H2 & H3 & H4 & H5 & H6) & Hc & Hd).
    do 6 (split; [assumption|]).
    split; [exact Hd|]. split; [now left|].
    split; [eexists; apply read_write | apply read_write].
  - unfold export_hierarchical_report_html in H.
    destruct (ensure_descriptions self) as [self1|] eqn:E1; [|discriminate].
    destruct (ensure_colors palette self1) as [self2|] eqn:E2; [|discriminate].
    destruct (cluster_descriptions self2) as [ds|]; [|discriminate].
    destruct (color_map self2) as [cm|]; [|discriminate].
    destruct (clusterer self2); [|discriminate].
    destruct (n_clusters self2); [|discriminate].
    destruct (n_noise self2); [|discriminate].
    destruct (hierarchy_html _ _ _ _); [|discriminate].
    destruct (html_cards _ _ _); [|discriminate].
    injection H as <- <-.
    destruct (ensure_descriptions_frame _ E1) as (Hs1 & Hc1 & Hd1).
    destruct (ensure_colors_frame _ _ E2) as (Hs2 & Hd2 & Hc2).
    destruct (same_data_trans Hs1 Hs2) as (H1 & H2 & H3 & H4 & H5 & H6).
    do 6 (split; [assumption|]).
    split.
    { rewrite Hd2. exact Hd1. }
    split.
    { rewrite <- Hc1. exact Hc2. }
    split; [eexists; apply read_write | apply read_write].
Qed.

(** A clustered table of five rows over [small_tree]. *)
Definition five_rows : EmbeddingVisualizer :=
  mkViz (mkDataFrame [lit "first claim"; lit "second claim"; lit "third";
                      lit "fourth item"; lit "fifth item"]
                     ["a"%string; "a"%string; "b"%string; "b"%string;
                      "c"%string]
                     (Some [0; 0; 0; 1; 1]%Z)
                     (Some [1%Q; (1#2)%Q; 1%Q; (3#4)%Q; 1%Q])
                     (Some [0%Q; 0%Q; 0%Q; 0%Q; 0%Q]))
        5 (Some [[0%Q; 0%Q]]) (Some small_clusterer) (Some 2%Z) (Some 0%Z)
        None None.

Definition grey (_ _ : nat) : string := "#808080".

Lemma exporters_only_write_report_witness :
  exists self' fs',
    export_hierarchical_report_html grey 8 "hierarchical_report.html"
                                    five_rows []
      = Some (self', fs') /\
    df self' = df five_rows /\ clusterer self' = clusterer five_rows.
Proof.
  destruct (export_hierarchical_report_html grey 8 "hierarchical_report.html"
                                            five_rows [])
    as [[self' fs']|] eqn:E.
  - exists self', fs'. split; [reflexivity|].
    destruct (@exporters_only_write_report grey 8 "hierarchical_report.html"
                five_rows self' [] fs' (or_intror E)) as (H1 & H2 & _).
    split; assumption.
  - vm_compute in E. discriminate.
Defined.

(* ------------------------------------------------------------------ *)
(** ** [format_hover_text] *)
(* ------------------------------------------------------------------ *)

(** [' '.join(words)] *)
Fixpoint join (words : list str) : str :=
  match words with
  | [] => []
  | w :: rest =>
    match rest with
    | [] => w
    | _ :: _ => (w ++ " "%char :: join rest)%list
    end
  end.

(** [s[:n]]; a negative [n] counts from the end. *)
Definition slice_to (n : Z) (s : str) : str :=
  if (0 <=? n)%Z then firstn (Z.to_nat n) s
  else firstn (List.length s - Z.to_nat (- n)) s.

(** What precedes the last space of [s], if there is a space. *)
Fixpoint before_last_space (s : str) : option str :=
  match s with
  | [] => None
  | c :: s' =>
    match before_last_space s' with
    | Some p => Some (c :: p)
    | None => if Ascii.eqb c " " then Some [] else None
    end
  end.

(** [s.rsplit(' ', 1)[0]] *)
Definition rsplit_first (s : str) : str :=
  match before_last_space s with
  | Some p => p
  | None => s
  end.

Definition format_hover_text (text : str) (max_length : Z) : str :=
  let text := join (split text) in
  if (Z.of_nat (List.length text) <=? max_length)%Z then text
  else (rsplit_first (slice_to max_length text) ++ lit "...")%list.

(** The default [max_length], and the one [prepare_webgl_data] passes. *)
Definition default_max_length : Z := 150.

Lemma before_last_space_prefix (s p : str) :
  before_last_space s = Some p -> exists r, s = (p ++ " "%char :: r)%list.
Proof.
  revert p. induction s as [|c s IH]; intros p; [discriminate|].
  cbn [before_last_space].
  destruct (before_last_space s) as [q|].
  - intros [= <-]. destruct (IH q eq_refl) as [r ->]. now exists r.
  - destruct (Ascii.eqb_spec c " ") as [->|]; [|discriminate].
    intros [= <-]. now exists s.
Qed.

Lemma rsplit_first_prefix (s : str) :
  exists r, s = (rsplit_first s ++ r)%list.
Proof.
  unfold rsplit_first. destruct (before_last_space s) as [p|] eqn:E.
  - destruct (before_last_space_prefix _ E) as [r ->]. now eexists.
  - exists []. now rewrite app_nil_r.
Qed.

Lemma slice_to_firstn (n : Z) (s : str) :
  (0 <= n)%Z -> slice_to n s = firstn (Z.to_nat n) s.
Proof.
  intros H. unfold slice_to.
  now destruct (Z.leb_spec 0 n); [|lia].
Qed.

(** A text that fits (after its runs of white space have become single
    spaces) is returned as it is; a longer one is cut: the result is a
    proper beginning of the text followed by three periods, at most
    [max_length + 3] characters in all. *)
Theorem format_hover_text_bounded (text : str) (max_length : Z) :
  (0 <= max_length)%Z ->
  let full := join (split text) in
  let shown := format_hover_text text max_length in
  (Z.of_nat (List.length shown) <= max_length + 3)%Z /\
  ((Z.of_nat (List.length full) <= max_length)%Z -> shown = full) /\
  ((max_length < Z.of_nat (List.length full))%Z ->
   exists kept rest,
     shown = (kept ++ lit "...")%list /\ full = (kept ++ rest)%list /\
     rest <> [] /\ (Z.of_nat (List.length kept) <= max_length)%Z).
Proof.
  intros Hn full shown. subst shown. unfold format_hover_text. fold full.
  destruct (Z.leb_spec (Z.of_nat (List.length full)) max_length) as [Hle|Hgt].
  - split; [lia|]. split; [reflexivity|lia].
  - rewrite (slice_to_firstn _ Hn).
    destruct (rsplit_first_prefix (firstn (Z.to_nat max_length) full)) as [r Hr].
    set (kept := rsplit_first (firstn (Z.to_nat max_length) full)) in *.
    assert (Hlen : (List.length kept <= Z.to_nat max_length)%nat).
    { apply (f_equal (@List.length ascii)) in Hr.
      rewrite length_app, length_firstn in Hr. lia. }
    split; [rewrite length_app; cbn; lia|]. split; [lia|]. intros _.
    exists kept, (r ++ skipn (Z.to_nat max_length) full)%list.
    split; [reflexivity|]. split.
    + rewrite app_assoc, <- Hr. symmetry. apply firstn_skipn.
    + split; [|lia]. intros E. apply app_eq_nil in E as [_ E].
      apply (f_equal (@List.length ascii)) in E.
      rewrite length_skipn in E. cbn in E. lia.
Qed.

Lemma format_hover_text_bounded_witness :
  (0 <= 12)%Z /\
  let full := join (split (lit "  the   quick brown  fox ")) in
  let shown := format_hover_text (lit "  the   quick brown  fox ") 12 in
  (Z.of_nat (List.length shown) <= 12 + 3)%Z /\
  ((Z.of_nat (List.length full) <= 12)%Z -> shown = full) /\
  ((12 < Z.of_nat (List.length full))%Z ->
   exists kept rest,
     shown = (kept ++ lit "...")%list /\ full = (kept ++ rest)%list /\
     rest <> [] /\ (Z.of_nat (List.length kept) <= 12)%Z).
Proof.
  split; [lia|].
  apply (@format_hover_text_bounded (lit "  the   quick brown  fox ") 12).
  lia.
Defined.

(** The words of a joined text up to a cut. *)
Lemma before_last_space_token (w r : str) :
  forallb (fun c => negb (is_space c)) w = true ->
  before_last_space (w ++ " "%char :: r)
  = Some (w ++ match before_last_space r with
               | Some p => " "%char :: p
               | None => []
               end)%list.
Proof.
  intros Hw. induction w as [|c w IH].
  - cbn. now destruct (before_last_space r).
  - cbn [forallb] in Hw. apply andb_prop in Hw as [_ Hw].
    cbn [app before_last_space]. now rewrite (IH Hw).
Qed.

Lemma before_last_space_none (w : str) :
  forallb (fun c => negb (is_space c)) w = true ->
  before_last_space w = None.
Proof.
  induction w as [|c w IH]; [reflexivity|].
  cbn [forallb]. intros H. apply andb_prop in H as [Hc H].
  cbn [before_last_space]. rewrite (IH H).
  destruct (Ascii.eqb_spec c " ") as [->|]; [discriminate Hc|reflexivity].
Qed.

Lemma firstn_token (n : nat) (w : str) :
  forallb (fun c => negb (is_space c)) w = true ->
  forallb (fun c => negb (is_space c)) (firstn n w) = true.
Proof.
  intros H. rewrite forallb_forall in *. intros x Hx. apply H.
  eapply In_firstn. exact Hx.
Qed.

(** The cut text has either no space, and is then the cut first word, or
    what precedes its last space is the first [k >= 1] words. *)
Lemma before_last_space_join (ws : list str) :
  Forall is_token ws ->
  forall n,
    match before_last_space (firstn n (join ws)) with
    | Some p => exists k, (1 <= k < List.length ws)%nat /\
                          p = join (firstn k ws)
    | None => firstn n (join ws) = firstn n (hd [] ws)
    end.
Proof.
  induction 1 as [|w ws [Hne Hw] Hws IH]; intros n.
  - now destruct n.
  - destruct ws as [|w' ws'].
    + cbn [join hd]. now rewrite (before_last_space_none _ (firstn_token n _ Hw)).
    + change (join (w :: w' :: ws'))
        with (w ++ " "%char :: join (w' :: ws'))%list.
      rewrite firstn_app.
      destruct (Nat.leb_spec n (List.length w)) as [Hn|Hn].
      * replace (n - List.length w)%nat with 0%nat by lia.
        cbn [firstn hd]. rewrite app_nil_r.
        now rewrite (before_last_space_none _ (firstn_token n _ Hw)).
      * rewrite firstn_all2 by lia.
        destruct (n - List.length w)%nat as [|m] eqn:Em; [lia|].
        cbn [firstn]. rewrite (before_last_space_token _ _ Hw).
        specialize (IH m).
        destruct (before_last_space (firstn m (join (w' :: ws')))) as [p|].
        -- destruct IH as (k & Hk & ->). exists (S k).
           split; [cbn [List.length] in *; lia|].
           destruct k as [|k]; [lia|]. reflexivity.
        -- exists 1%nat. split; [cbn [List.length]; lia|].
           cbn. now rewrite app_nil_r.
Qed.

(** A cut never ends inside a word, unless it falls inside the first
    word: the text shown is made of the first [k] words, for some [k]
    less than their number, or of the first [max_length] characters of a
    first word that is longer than that. *)
Theorem format_hover_text_whole_words (text : str) (max_length : Z) :
  (0 <= max_length)%Z ->
  (max_length < Z.of_nat (List.length (join (split text))))%Z ->
  (exists k, (1 <= k < List.length (split text))%nat /\
             format_hover_text text max_length
             = (join (firstn k (split text)) ++ lit "...")%list)
  \/
  (exists w rest,
      split text = w :: rest /\
      (max_length < Z.of_nat (List.length w))%Z /\
      format_hover_text text max_length
      = (firstn (Z.to_nat max_length) w ++ lit "...")%list).
Proof.
  intros Hn Hlong. unfold format_hover_text.
  destruct (Z.leb_spec (Z.of_nat (List.length (join (split text)))) max_length)
    as [Hle|_]; [lia|].
  rewrite (slice_to_firstn _ Hn). unfold rsplit_first.
  pose proof (before_last_space_join (split_tokens text) (Z.to_nat max_length))
    as H.
  destruct (before_last_space (firstn (Z.to_nat max_length) (join (split text))))
    as [p|].
  - left. destruct H as (k & Hk & ->). now exists k.
  - rewrite H. destruct (split text) as [|w rest] eqn:E; [cbn in Hlong; lia|].
    cbn [hd].
    destruct (Z.ltb_spec max_length (Z.of_nat (List.length w))) as [Hw|Hw].
    + right. now exists w, rest.
    + left. exists 1%nat. rewrite firstn_all2 by lia.
      split; [|cbn; reflexivity].
      destruct rest as [|w' rest']; [cbn [join] in Hlong; lia|].
      cbn [List.length]. lia.
Qed.

Lemma format_hover_text_whole_words_witness :
  (0 <= 12)%Z /\
  (12 < Z.of_nat (List.length (join (split (lit "  the   quick brown  fox ")))))%Z /\
  ((exists k, (1 <= k < List.length (split (lit "  the   quick brown  fox ")))%nat /\
              format_hover_text (lit "  the   quick brown  fox ") 12
              = (join (firstn k (split (lit "  the   quick brown  fox ")))
                      ++ lit "...")%list)
   \/
   (exists w rest,
       split (lit "  the   quick brown  fox ") = w :: rest /\
       (12 < Z.of_nat (List.length w))%Z /\
       format_hover_text (lit "  the   quick brown  fox ") 12
       = (firstn (Z.to_nat 12) w ++ lit "...")%list)).
Proof.
  split; [lia|]. split; [vm_compute; reflexivity|].
  apply (@format_hover_text_whole_words (lit "  the   quick brown  fox ") 12);
    [lia | vm_compute; reflexivity].
Defined.

(* ------------------------------------------------------------------ *)
(** ** [generate_cluster_colors] *)
(* ------------------------------------------------------------------ *)

(** The distinct labels other than -1, in ascending order. *)
Lemma sorted_labels (l : list Z) :
  NoDup l ->
  NoDup (sort_by Z.ltb l) /\
  (forall id, In id (sort_by Z.ltb l) <-> In id l) /\
  List.length (sort_by Z.ltb l) = List.length l /\
  StronglySorted Z.lt (sort_by Z.ltb l).
Proof.
  intros Hnd. pose proof (sort_by_perm Z.ltb l) as Hp.
  assert (Hnd' : NoDup (sort_by Z.ltb l)).
  { eapply Permutation_NoDup; [symmetry; exact Hp|exact Hnd]. }
  split; [exact Hnd'|].
  split; [intros id; split; apply Permutation_in;
          [exact Hp|symmetry; exact Hp]|].
  split; [now apply Permutation_length|].
  assert (Hs : StronglySorted (fun a b => Z.ltb b a = false) (sort_by Z.ltb l)).
  { apply (@sort_by_sorted Z Z.ltb).
    - intros a b H. unfold ok. apply Z.ltb_lt in H. apply Z.ltb_ge. lia.
    - unfold ok. intros a b c H1 H2. apply Z.ltb_ge in H1, H2.
      apply Z.ltb_ge. lia. }
  revert Hnd' Hs. generalize (sort_by Z.ltb l) as sorted. clear.
  induction sorted as [|a sorted IH]; intros Hnd Hs; [constructor|].
  inversion Hnd as [|? ? Hnin Hnd']; subst.
  inversion Hs as [|? ? Hs' Hall]; subst.
  constructor; [now apply IH|].
  rewrite Forall_forall in *. intros b Hb.
  specialize (Hall b Hb). cbn beta in Hall. apply Z.ltb_ge in Hall.
  assert (a <> b) by (intros ->; contradiction). lia.
Qed.

Lemma clusters_without_noise_filter (cl : list Z) :
  sort_by Z.ltb (filter not_noise (set_of cl)) = clusters_without_noise cl.
Proof. unfold clusters_without_noise, set_of. now rewrite filter_nodup. Qed.

Lemma clusters_without_noise_labels (cl : list Z) :
  NoDup (clusters_without_noise cl) /\
  (forall id, In id (clusters_without_noise cl) <-> In id cl /\ id <> (-1)%Z) /\
  Z.of_nat (List.length (clusters_without_noise cl)) = count_clusters cl /\
  StronglySorted Z.lt (clusters_without_noise cl).
Proof.
  unfold clusters_without_noise, set_of.
  destruct (@sorted_labels (nodup Z.eq_dec (filter not_noise cl))
                           (NoDup_nodup _ _)) as (H1 & H2 & H3 & H4).
  split; [exact H1|]. split; [|split; [|exact H4]].
  - intros id. rewrite H2, nodup_In, filter_In. unfold not_noise.
    destruct (Z.eqb_spec id (-1)); cbn [negb]; intuition congruence.
  - rewrite H3. symmetry. apply count_clusters_distinct.
Qed.

(** The loop of the dict comprehension: with a color for every cluster
    it returns, entry [j] gets color [i + j], other keys keep their
    value; with a color missing it raises. *)
Lemma color_entries_get (colors : list string) (clusters : list Z) :
  NoDup clusters ->
  forall i acc,
    (i + List.length clusters <= List.length colors)%nat ->
    exists cm,
      color_entries colors i clusters acc = Some cm /\
      (forall j id, nth_error clusters j = Some id ->
                    dict_get cm id = nth_error colors (i + j)) /\
      (forall k, ~ In k clusters -> dict_get cm k = dict_get acc k).
Proof.
  induction 1 as [|c rest Hnin Hnd IH]; intros i acc Hlen.
  - exists acc. split; [reflexivity|]. split; [|reflexivity].
    intros [|j] id H; discriminate.
  - cbn [color_entries List.length] in *.
    destruct (nth_error colors i) as [col|] eqn:Ei;
      [|apply nth_error_None in Ei; lia].
    destruct (IH (S i) (dict_set acc c col)) as (cm & Hrun & Hget & Hkeep);
      [lia|].
    exists cm. split; [exact Hrun|]. split.
    + intros [|j] id Hid; cbn [nth_error] in Hid.
      * injection Hid as <-. rewrite (Hkeep c Hnin), dict_get_set, Z.eqb_refl.
        now rewrite Nat.add_0_r.
      * rewrite (Hget j id Hid). f_equal. lia.
    + intros k Hk. rewrite Hkeep by (intros N; apply Hk; now right).
      rewrite dict_get_set. destruct (Z.eqb_spec c k) as [->|]; [|reflexivity].
      elim Hk. now left.
Qed.

Lemma color_entries_short (colors : list string) (clusters : list Z) :
  forall i acc,
    (i <= List.length colors)%nat ->
    (List.length colors < i + List.length clusters)%nat ->
    color_entries colors i clusters acc = None.
Proof.
  induction clusters as [|c rest IH]; intros i acc Hi Hlen;
    cbn [color_entries List.length] in *; [lia|].
  destruct (nth_error colors i) as [col|] eqn:Ei; [|reflexivity].
  apply IH; [|lia].
  assert (i < List.length colors)%nat; [|lia].
  apply nth_error_Some. congruence.
Qed.

(** The run of [generate_cluster_colors] with enough colors. *)
Lemma generate_cluster_colors_map_aux
      (palette : nat -> nat -> string) (self : EmbeddingVisualizer)
      (n : Z) (cl : list Z) :
  n_clusters self = Some n ->
  col_cluster (df self) = Some cl ->
  (List.length (clusters_without_noise cl) <= Z.to_nat n)%nat ->
  exists self' colors,
    generate_cluster_colors palette self = Some self' /\
    df self' = df self /\
    color_map self' = Some colors /\
    dict_get colors (-1) = Some "#cccccc"%string /\
    (forall i id, nth_error (clusters_without_noise cl) i = Some id ->
                  dict_get colors id = Some (palette (Z.to_nat n) i)).
Proof.
  intros Hn Hcl Hle.
  destruct (clusters_without_noise_labels cl) as (Hnd & Hin & _ & _).
  unfold generate_cluster_colors. rewrite Hn, Hcl.
  rewrite clusters_without_noise_filter.
  set (colors := map (palette (Z.to_nat n)) (seq 0 (Z.to_nat n))).
  assert (Hlen : List.length colors = Z.to_nat n)
    by (unfold colors; now rewrite length_map, length_seq).
  destruct (@color_entries_get colors (clusters_without_noise cl) Hnd 0%nat [])
    as (cm & -> & Hget & Hkeep); [cbn; lia|].
  eexists. eexists. split; [reflexivity|]. cbn [df color_map].
  split; [reflexivity|]. split; [reflexivity|].
  split; [now rewrite dict_get_set, Z.eqb_refl|].
  intros i id Hid. rewrite dict_get_set.
  assert (Hne : id <> (-1)%Z).
  { apply nth_error_In in Hid. now apply Hin in Hid. }
  destruct (Z.eqb_spec (-1) id) as [E|_]; [congruence|].
  rewrite (Hget i id Hid). cbn [Nat.add]. unfold colors.
  assert (Hi : (i < Z.to_nat n)%nat).
  { assert (i < List.length (clusters_without_noise cl))%nat; [|lia].
    apply nth_error_Some. congruence. }
  rewrite nth_error_map, nth_error_seq.
  destruct (Nat.ltb_spec i (Z.to_nat n)); [reflexivity|lia].
Qed.

(** [generate_cluster_colors] on a visualizer with [n_clusters] and the
    [cluster] column.  With at least as many colors as distinct labels
    other than -1 the method returns and changes the color map only:
    the labels other than -1, which are distinct and in ascending
    order, get the colors [palette n 0], [palette n 1], ... in this
    order, the noise label -1 gets grey, and no other key is in the map.
    With fewer colors the method raises (IndexError). *)
Theorem generate_cluster_colors_map
        (palette : nat -> nat -> string) (self : EmbeddingVisualizer)
        (n : Z) (cl : list Z) :
  n_clusters self = Some n ->
  col_cluster (df self) = Some cl ->
  let ids := clusters_without_noise cl in
  NoDup ids /\ StronglySorted Z.lt ids /\
  (forall id, In id ids <-> In id cl /\ id <> (-1)%Z) /\
  ((List.length ids <= Z.to_nat n)%nat ->
   exists self' colors,
     generate_cluster_colors palette self = Some self' /\
     same_data self self' /\
     cluster_descriptions self' = cluster_descriptions self /\
     color_map self' = Some colors /\
     dict_get colors (-1) = Some "#cccccc"%string /\
     (forall i id, nth_error ids i = Some id ->
                   dict_get colors id = Some (palette (Z.to_nat n) i)) /\
     (forall k, k <> (-1)%Z -> ~ In k cl -> dict_get colors k = None)) /\
  ((Z.to_nat n < List.length ids)%nat ->
   generate_cluster_colors palette self = None).
Proof.
  intros Hn Hcl ids.
  destruct (clusters_without_noise_labels cl) as (Hnd & Hin & _ & Hsorted).
  fold ids in Hnd, Hin, Hsorted.
  split; [exact Hnd|]. split; [exact Hsorted|]. split; [exact Hin|].
  unfold generate_cluster_colors. rewrite Hn, Hcl.
  rewrite clusters_without_noise_filter. fold ids.
  set (colors := map (palette (Z.to_nat n)) (seq 0 (Z.to_nat n))).
  assert (Hlen : List.length colors = Z.to_nat n)
    by (unfold colors; now rewrite length_map, length_seq).
  split.
  - intros Hle.
    destruct (@color_entries_get colors ids Hnd 0%nat []) as (cm & -> & Hget & Hkeep);
      [cbn; lia|].
    eexists. eexists. split; [reflexivity|].
    cbn [cluster_descriptions color_map].
    split; [unfold same_data; cbn; repeat split; congruence|].
    split; [reflexivity|]. split; [reflexivity|].
    split; [now rewrite dict_get_set, Z.eqb_refl|]. split.
    + intros i id Hid. rewrite dict_get_set.
      assert (Hne : id <> (-1)%Z).
      { apply nth_error_In in Hid. now apply Hin in Hid. }
      destruct (Z.eqb_spec (-1) id) as [E|_]; [congruence|].
      rewrite (Hget i id Hid). cbn [Nat.add]. unfold colors.
      assert (Hi : (i < Z.to_nat n)%nat).
      { assert (i < List.length ids)%nat; [|lia].
        apply nth_error_Some. congruence. }
      rewrite nth_error_map, nth_error_seq.
      destruct (Nat.ltb_spec i (Z.to_nat n)); [reflexivity|lia].
    + intros k Hk Hnin. rewrite dict_get_set.
      destruct (Z.eqb_spec (-1) k) as [E|_]; [congruence|].
      rewrite Hkeep; [reflexivity|]. intros N. apply Hin in N. tauto.
  - intros Hlt. rewrite color_entries_short; [reflexivity|lia|cbn; lia].
Qed.

(** A palette whose colors show their index. *)
Definition numbered (_ i : nat) : string := Pairs.string_of_nat i.

Lemma generate_cluster_colors_map_witness :
  n_clusters three_rows = Some 1%Z /\
  col_cluster (df three_rows) = Some [0; -1; 0]%Z /\
  let ids := clusters_without_noise [0; -1; 0]%Z in
  NoDup ids /\ StronglySorted Z.lt ids /\
  (forall id, In id ids <-> In id [0; -1; 0]%Z /\ id <> (-1)%Z) /\
  ((List.length ids <= Z.to_nat 1)%nat ->
   exists self' colors,
     generate_cluster_colors numbered three_rows = Some self' /\
     same_data three_rows self' /\
     cluster_descriptions self' = cluster_descriptions three_rows /\
     color_map self' = Some colors /\
     dict_get colors (-1) = Some "#cccccc"%string /\
     (forall i id, nth_error ids i = Some id ->
                   dict_get colors id = Some (numbered (Z.to_nat 1) i)) /\
     (forall k, k <> (-1)%Z -> ~ In k [0; -1; 0]%Z -> dict_get colors k = None)) /\
  ((Z.to_nat 1 < List.length ids)%nat ->
   generate_cluster_colors numbered three_rows = None).
Proof.
  split; [reflexivity|]. split; [reflexivity|].
  apply (@generate_cluster_colors_map numbered three_rows 1 [0; -1; 0]%Z);
    reflexivity.
Defined.

(** What [cluster_embeddings] leaves behind. *)
Lemma cluster_embeddings_fields
      (s : script) (fit : Z -> Z -> matrix -> Clusterer)
      (min_cluster_size min_samples : Z) (self self1 : EmbeddingVisualizer) :
  cluster_embeddings s fit min_cluster_size min_samples self = Some self1 ->
  exists cl pr,
    col_cluster (df self1) = Some cl /\
    col_probability (df self1) = Some pr /\
    List.length cl = len (df self1) /\
    List.length pr = len (df self1) /\
    n_clusters self1 = Some (count_clusters cl) /\
    n_noise self1 = Some (count_noise cl) /\
    len (df self1) = len (df self) /\
    n_samples self1 = n_samples self.
Proof.
  unfold cluster_embeddings.
  destruct (XY_normalized self) as [xy|]; [|discriminate].
  set (c := fit min_cluster_size min_samples xy).
  destruct (checked (df self) (labels_ c)) as [cl|] eqn:Ecl; [|discriminate].
  destruct (checked (df self) (probabilities_ c)) as [pr|] eqn:Epr;
    [|discriminate].
  destruct (match s with
            | Report _ => option_map Some (checked (df self) (outlier_scores_ c))
            | ClusterAssessment => Some (col_outlier_score (df self))
            end) as [os|]; [|discriminate].
  intros [= <-]. apply checked_Some in Ecl as [-> Hcl].
  apply checked_Some in Epr as [-> Hpr].
  exists (labels_ c), (probabilities_ c). cbn. repeat split; assumption.
Qed.

(** Colors after clustering.  On a visualizer that [cluster_embeddings]
    has returned, [generate_cluster_colors] never raises, and the map it
    builds has a color for the label of every row (grey for noise), so
    that the look-ups [color_map[label]] of the plots cannot fail. *)
Theorem generate_cluster_colors_after_clustering
        (s : script) (fit : Z -> Z -> matrix -> Clusterer)
        (min_cluster_size min_samples : Z) (palette : nat -> nat -> string)
        (self self1 : EmbeddingVisualizer) :
  cluster_embeddings s fit min_cluster_size min_samples self = Some self1 ->
  exists self2 colors cl,
    generate_cluster_colors palette self1 = Some self2 /\
    color_map self2 = Some colors /\
    col_cluster (df self2) = Some cl /\
    List.length cl = len (df self2) /\
    Forall (fun label => exists color, dict_get colors label = Some color) cl.
Proof.
  intros Hrun1.
  destruct (cluster_embeddings_fields _ _ _ _ _ Hrun1)
    as (cl & pr & Hcl & _ & Hlen & _ & Hn & _).
  destruct (@generate_cluster_colors_map_aux palette self1
              (count_clusters cl) cl Hn Hcl)
    as (self2 & colors & Hrun & Hdf & Hc & Hgrey & Hget);
    [destruct (clusters_without_noise_labels cl) as (_ & _ & <- & _);
     rewrite Nat2Z.id; lia|].
  exists self2, colors, cl. split; [exact Hrun|].
  split; [exact Hc|]. rewrite Hdf.
  split; [exact Hcl|]. split; [exact Hlen|].
  apply Forall_forall. intros label Hl.
  destruct (Z.eq_dec label (-1)) as [->|Hne]; [now exists "#cccccc"%string|].
  destruct (clusters_without_noise_labels cl) as (_ & Hin & _ & _).
  destruct (In_nth_error _ _ (proj2 (Hin label) (conj Hl Hne))) as [i Hi].
  eexists. exact (Hget i label Hi).
Qed.

Lemma generate_cluster_colors_after_clustering_witness :
  exists self1,
    cluster_embeddings ClaimReport fit_two_rows 5 5 two_rows = Some self1 /\
    exists self2 colors cl,
      generate_cluster_colors numbered self1 = Some self2 /\
      color_map self2 = Some colors /\
      col_cluster (df self2) = Some cl /\
      List.length cl = len (df self2) /\
      Forall (fun label => exists color, dict_get colors label = Some color) cl.
Proof.
  eexists. split; [reflexivity|].
  apply (@generate_cluster_colors_after_clustering
           ClaimReport fit_two_rows 5 5 numbered two_rows).
  reflexivity.
Defined.

(* ------------------------------------------------------------------ *)
(** ** The characters of a keyword *)
(* ------------------------------------------------------------------ *)

(** Where an entry of the result of the description loop comes from. *)
Lemma describe_loop_In (r : report) (n_terms : nat) (mwl : Z)
      (d : DataFrame) (cl : list Z) (ids : list Z) :
  forall acc ds id desc,
    describe_loop r n_terms mwl d cl ids acc = Some ds ->
    dict_get ds id = Some desc ->
    dict_get acc id = Some desc \/
    exists pr, col_probability d = Some pr /\
               desc = describe r n_terms mwl d cl pr id.
Proof.
  induction ids as [|i ids IH]; intros acc ds id desc Hrun Hget;
    cbn [describe_loop] in Hrun.
  - injection Hrun as <-. now left.
  - destruct (Z.eqb i (-1)); [exact (@IH _ _ _ _ Hrun Hget)|].
    destruct (col_probability d) as [pr|] eqn:Epr; [|discriminate].
    destruct (@IH _ _ _ _ Hrun Hget) as [H|H]; [|right; exact H].
    rewrite dict_get_set in H. destruct (Z.eqb_spec i id) as [->|_].
    + injection H as <-. right. now exists pr.
    + now left.
Qed.

Lemma most_common_In (n : nat) (words : list str) (w : str) (k : nat) :
  In (w, k) (most_common n (Counter str_eq_dec words)) -> In w words.
Proof.
  intros H. unfold most_common in H. apply In_firstn in H.
  eapply Permutation_in in H; [|apply sort_by_perm].
  destruct (Counter_counts str_eq_dec words) as (_ & Hkeys & _).
  apply Hkeys. now apply (in_map fst) in H.
Qed.

(** Keywords are clean words.  For ASCII texts, every keyword of a
    description (and every word of its frequency list) is not empty and
    consists of lower-case letters, digits and underscores only: no
    white space, no capital, and no punctuation other than the
    underscore. *)
Theorem extract_cluster_keywords_characters
        (r : report) (n_terms : nat) (min_word_length : Z)
        (self self' : EmbeddingVisualizer) :
  Forall (fun text => ascii_text text = true) (col_text (df self)) ->
  extract_cluster_keywords r n_terms min_word_length self = Some self' ->
  exists descriptions,
    cluster_descriptions self' = Some descriptions /\
    forall id desc,
      dict_get descriptions id = Some desc ->
      Forall (fun w =>
                w <> [] /\ Forall (fun c => keyword_char c = true) w)
             (keywords desc ++ map fst (top_words_with_freq desc)).
Proof.
  intros _. unfold extract_cluster_keywords.
  destruct (col_cluster (df self)) as [cl|]; [|discriminate].
  destruct (describe_loop r n_terms min_word_length (df self) cl
                          (sorted_unique cl) []) as [ds|] eqn:E;
    [|discriminate].
  intros [= <-]. exists ds. split; [reflexivity|].
  intros id desc Hget.
  destruct (@describe_loop_In _ _ _ _ _ _ _ _ _ _ E Hget) as [H|(pr & _ & ->)];
    [discriminate H|].
  unfold describe. cbn [keywords top_words_with_freq].
  apply Forall_forall. intros w Hw.
  assert (Hin : In w (words_of r min_word_length
                               (map r_text (cluster_rows (df self) cl pr id)))).
  { apply in_app_or in Hw as [Hw|Hw];
      apply in_map_iff in Hw as ([w' k] & <- & Hw);
      exact (most_common_In _ _ _ _ Hw). }
  apply words_of_In in Hin as (text & _ & Hsplit & _).
  exact (split_clean_word _ _ Hsplit).
Qed.

Lemma extract_cluster_keywords_characters_witness :
  Forall (fun text => ascii_text text = true) (col_text (df three_rows)) /\
  exists self',
    extract_cluster_keywords ClaimReport 5 2 three_rows = Some self' /\
    exists descriptions,
      cluster_descriptions self' = Some descriptions /\
      forall id desc,
        dict_get descriptions id = Some desc ->
        Forall (fun w =>
                  w <> [] /\ Forall (fun c => keyword_char c = true) w)
               (keywords desc ++ map fst (top_words_with_freq desc)).
Proof.
  split; [repeat constructor|].
  eexists. split; [reflexivity|].
  apply (@extract_cluster_keywords_characters ClaimReport 5 2 three_rows);
    [repeat constructor|reflexivity].
Defined.

(* ------------------------------------------------------------------ *)
(** ** The clusters listed in the reports *)
(* ------------------------------------------------------------------ *)

Lemma map_nth_seq (A : Type) (d : A) (l : list A) :
  map (fun i => nth i l d) (seq 0 (List.length l)) = l.
Proof.
  induction l as [|a l IH]; [reflexivity|].
  cbn [List.length seq map nth]. f_equal.
  rewrite <- seq_shift, map_map. exact IH.
Qed.

Lemma filter_map_length (A B : Type) (f : A -> B) (p : B -> bool) (l : list A) :
  List.length (filter p (map f l))
  = List.length (filter (fun x => p (f x)) l).
Proof.
  induction l as [|a l IH]; [reflexivity|].
  cbn [map filter]. destruct (p (f a)); cbn [List.length]; now rewrite IH.
Qed.

Lemma filter_eqb_count (l : list Z) (id : Z) :
  List.length (filter (fun z => Z.eqb z id) l) = count_occ Z.eq_dec l id.
Proof.
  induction l as [|a l IH]; [reflexivity|].
  cbn [filter count_occ]. destruct (Z.eqb_spec a id) as [->|Hne].
  - destruct (Z.eq_dec id id); [|contradiction]. cbn. now rewrite IH.
  - destruct (Z.eq_dec a id); [contradiction|]. exact IH.
Qed.

(** The rows selected for a cluster are as many as its label occurs in
    the [cluster] column. *)
Lemma cluster_rows_length (d : DataFrame) (cl : list Z) (pr : list Q) (id : Z) :
  List.length cl = len d ->
  List.length (cluster_rows d cl pr id) = count_occ Z.eq_dec cl id.
Proof.
  intros Hlen. unfold cluster_rows, rows_of. rewrite filter_map_length.
  cbn [r_cluster]. rewrite <- Hlen.
  rewrite <- (filter_map_length (fun i => nth i cl 0%Z) (fun z => Z.eqb z id)).
  now rewrite map_nth_seq, filter_eqb_count.
Qed.

Lemma list_sum_cons (x : nat) (l : list nat) :
  list_sum (x :: l) = (x + list_sum l)%nat.
Proof. reflexivity. Qed.

Lemma sum_indicator (a : Z) (ids : list Z) :
  NoDup ids -> In a ids ->
  list_sum (map (fun id => if Z.eq_dec a id then 1%nat else 0%nat) ids) = 1%nat.
Proof.
  induction 1 as [|i ids Hnin Hnd IH]; intros Hin; [destruct Hin|].
  cbn [map]; rewrite ?list_sum_cons. destruct (Z.eq_dec a i) as [->|Hne].
  - f_equal. clear IH Hin Hnd. induction ids as [|j ids IH]; [reflexivity|].
    cbn [map]; rewrite ?list_sum_cons. destruct (Z.eq_dec i j) as [->|_].
    + elim Hnin. now left.
    + apply IH. intros H. apply Hnin. now right.
  - destruct Hin as [E|Hin]; [congruence|]. now rewrite IH.
Qed.

Lemma list_sum_add (A : Type) (f g : A -> nat) (l : list A) :
  list_sum (map (fun x => f x + g x)%nat l)
  = (list_sum (map f l) + list_sum (map g l))%nat.
Proof.
  induction l as [|a l IH]; [reflexivity|]. cbn [map]; rewrite ?list_sum_cons. rewrite IH. lia.
Qed.

(** The occurrences of the elements of a duplicate-free list that covers
    [l] add up to the length of [l]. *)
Lemma sum_count_occ (ids : list Z) (l : list Z) :
  NoDup ids -> (forall x, In x l -> In x ids) ->
  list_sum (map (count_occ Z.eq_dec l) ids) = List.length l.
Proof.
  intros Hnd. induction l as [|a l IH]; intros Hcov.
  - cbn [count_occ List.length]. clear. induction ids as [|i ids IHi];
      [reflexivity|].
    cbn [map]; rewrite ?list_sum_cons. exact IHi.
  - rewrite (map_ext (count_occ Z.eq_dec (a :: l))
                     (fun id => (if Z.eq_dec a id then 1 else 0)
                                + count_occ Z.eq_dec l id)%nat).
    + rewrite list_sum_add, sum_indicator, IH; auto.
      * intros x Hx. apply Hcov. now right.
      * apply Hcov. now left.
    + intros id. cbn [count_occ]. now destruct (Z.eq_dec a id).
Qed.

Lemma count_occ_filter_not_noise (cl : list Z) (id : Z) :
  id <> (-1)%Z ->
  count_occ Z.eq_dec (filter not_noise cl) id = count_occ Z.eq_dec cl id.
Proof.
  intros Hne. induction cl as [|a cl IH]; [reflexivity|].
  cbn [filter]. unfold not_noise at 1.
  destruct (Z.eqb_spec a (-1)) as [->|Ha]; cbn [negb count_occ].
  - destruct (Z.eq_dec (-1) id); [congruence|exact IH].
  - destruct (Z.eq_dec a id); now rewrite IH.
Qed.

Lemma length_noise_split (cl : list Z) :
  (Z.of_nat (List.length (filter not_noise cl)) + count_noise cl
   = Z.of_nat (List.length cl))%Z.
Proof.
  unfold count_noise. induction cl as [|a cl IH]; [reflexivity|].
  cbn [filter]. unfold not_noise at 1.
  destruct (Z.eqb a (-1)); cbn [negb List.length]; lia.
Qed.

(** The distinct labels other than -1 share out the rows that are not
    noise. *)
Lemma clusters_share_rows (cl : list Z) :
  (Z.of_nat (list_sum (map (count_occ Z.eq_dec cl) (clusters_without_noise cl)))
   + count_noise cl
   = Z.of_nat (List.length cl))%Z.
Proof.
  destruct (clusters_without_noise_labels cl) as (Hnd & Hin & _ & _).
  rewrite <- length_noise_split. f_equal. f_equal.
  rewrite <- (@sum_count_occ (clusters_without_noise cl) (filter not_noise cl) Hnd).
  - f_equal. apply map_ext_in. intros id Hid. symmetry.
    apply count_occ_filter_not_noise. now apply Hin in Hid.
  - intros x Hx. apply filter_In in Hx as [Hx Hn]. apply Hin.
    split; [exact Hx|]. unfold not_noise in Hn.
    destruct (Z.eqb_spec x (-1)); [discriminate|assumption].
Qed.

(** The cards of the text report. *)
Lemma text_cards_spec (self : EmbeddingVisualizer)
      (descriptions : dict description) (cl : list Z) (cards : list card) :
  col_cluster (df self) = Some cl ->
  List.length cl = len (df self) ->
  text_cards self descriptions = Some cards ->
  map card_id cards = clusters_without_noise cl /\
  map card_size cards
  = map (count_occ Z.eq_dec cl) (clusters_without_noise cl).
Proof.
  intros Hcl Hlen. unfold text_cards. rewrite Hcl.
  destruct (clusters_without_noise cl) as [|c cs] eqn:E.
  - intros [= <-]. now split.
  - destruct (col_probability (df self)) as [pr|]; [|discriminate].
    intros [= <-]. cbn [map card_id card_size]. rewrite !map_map.
    cbn [card_id card_size]. split.
    + now rewrite map_id.
    + f_equal; [now apply cluster_rows_length|].
      apply map_ext. intros id. now apply cluster_rows_length.
Qed.

Lemma cluster_embeddings_clusterer
      (s : script) (fit : Z -> Z -> matrix -> Clusterer)
      (min_cluster_size min_samples : Z) (self self1 : EmbeddingVisualizer) :
  cluster_embeddings s fit min_cluster_size min_samples self = Some self1 ->
  exists c, clusterer self1 = Some c.
Proof.
  unfold cluster_embeddings.
  destruct (XY_normalized self) as [xy|]; [|discriminate].
  destruct (checked _ (labels_ _)) as [cl|]; [|discriminate].
  destruct (checked _ (probabilities_ _)) as [pr|]; [|discriminate].
  destruct (match s with
            | Report _ => _
            | ClusterAssessment => _
            end) as [os|]; [|discriminate].
  intros [= <-]. eexists. reflexivity.
Qed.

(** With the [cluster] and [probability] columns in place the
    descriptions are there after [ensure_descriptions]. *)
Lemma ensure_descriptions_runs (self : EmbeddingVisualizer)
      (cl : list Z) (pr : list Q) :
  col_cluster (df self) = Some cl ->
  col_probability (df self) = Some pr ->
  exists self1 ds,
    ensure_descriptions self = Some self1 /\
    cluster_descriptions self1 = Some ds.
Proof.
  intros Hcl Hpr. unfold ensure_descriptions.
  destruct (cluster_descriptions self) as [ds|] eqn:E.
  - now exists self, ds.
  - unfold extract_cluster_keywords. rewrite Hcl.
    destruct (@describe_loop_get ClaimReport (default_n_terms ClaimReport)
                default_min_word_length (df self) cl pr (sorted_unique cl) Hpr [])
      as (ds & -> & _).
    eexists. exists ds. split; reflexivity.
Qed.

Lemma text_cards_runs (self : EmbeddingVisualizer)
      (descriptions : dict description) (cl : list Z) (pr : list Q) :
  col_cluster (df self) = Some cl ->
  col_probability (df self) = Some pr ->
  exists cards, text_cards self descriptions = Some cards.
Proof.
  intros Hcl Hpr. unfold text_cards. rewrite Hcl, Hpr.
  destruct (clusters_without_noise cl); eexists; reflexivity.
Qed.

(** The text report after clustering.  With [n_samples = 0] the
    exporter raises (the noise percentage divides by it).  Otherwise it
    returns and writes the report; the clusters of the report are the
    distinct labels other than -1 in ascending order, each with the
    number of rows that carry the label as its size; their number is
    the [n_clusters] shown, and the sizes and the noise count shown add
    up to the number of rows of the table. *)
Theorem text_report_clusters
        (fit : Z -> Z -> matrix -> Clusterer) (min_cluster_size min_samples : Z)
        (fuel : nat) (output_path : string)
        (self0 self : EmbeddingVisualizer) (fs : files) :
  cluster_embeddings ClaimReport fit min_cluster_size min_samples self0
  = Some self ->
  (n_samples self = 0%Z ->
   export_hierarchical_clustering_results fuel output_path self fs = None) /\
  (n_samples self <> 0%Z ->
   exists self1 t cl,
     export_hierarchical_clustering_results fuel output_path self fs
     = Some (self1, write fs output_path (TextReport t)) /\
     col_cluster (df self) = Some cl /\
     map card_id (t_clusters t) = clusters_without_noise cl /\
     Forall (fun k => card_size k = count_occ Z.eq_dec cl (card_id k))
            (t_clusters t) /\
     t_n_clusters t = Z.of_nat (List.length (t_clusters t)) /\
     t_n_noise t = count_noise cl /\
     (Z.of_nat (list_sum (map card_size (t_clusters t))) + t_n_noise t
      = Z.of_nat (len (df self)))%Z).
Proof.
  intros Hrun.
  destruct (cluster_embeddings_fields _ _ _ _ _ Hrun)
    as (cl & pr & Hcl & Hpr & Hlen & _ & Hn & Hnoise & _).
  destruct (cluster_embeddings_clusterer _ _ _ _ _ Hrun) as [c Hc].
  destruct (ensure_descriptions_runs _ Hcl Hpr) as (self1 & ds & Ed & Hds).
  destruct (ensure_descriptions_frame _ Ed)
    as ((Hdf & Hc1 & Hs1 & _ & Hn1 & Hnoise1) & _).
  assert (Hcl1 : col_cluster (df self1) = Some cl) by now rewrite Hdf.
  assert (Hpr1 : col_probability (df self1) = Some pr) by now rewrite Hdf.
  assert (Hlen1 : List.length cl = len (df self1)) by now rewrite Hdf.
  destruct (text_cards_runs self1 ds Hcl1 Hpr1) as [cards Ec].
  unfold export_hierarchical_clustering_results.
  rewrite Ed, Hds, Hn1, Hnoise1, Hn, Hnoise, Hc1, Hc, Hs1, Ec.
  unfold truediv. split.
  - intros ->. reflexivity.
  - intros Hne.
    destruct (Z.eqb_spec (n_samples self) 0) as [|_]; [contradiction|].
    destruct (text_cards_spec _ _ Hcl1 Hlen1 Ec) as [Hids Hsizes].
    eexists. eexists. exists cl. split; [reflexivity|].
    cbn [t_clusters t_n_clusters t_n_noise].
    split; [exact Hcl|]. split; [exact Hids|]. split.
    + apply Forall_forall. intros k Hk.
      apply In_nth_error in Hk as [i Hi].
      pose proof (map_nth_error card_size _ _ Hi) as H1.
      pose proof (map_nth_error card_id _ _ Hi) as H2.
      rewrite Hsizes in H1. rewrite Hids in H2.
      rewrite (map_nth_error (count_occ Z.eq_dec cl) _ _ H2) in H1.
      now injection H1.
    + split.
      * destruct (clusters_without_noise_labels cl) as (_ & _ & <- & _).
        now rewrite <- Hids, length_map.
      * split; [reflexivity|]. rewrite Hsizes, <- Hlen.
        apply clusters_share_rows.
Qed.

Lemma text_report_clusters_witness :
  exists self,
    cluster_embeddings ClaimReport fit_two_rows 5 5 two_rows = Some self /\
    (n_samples self = 0%Z ->
     export_hierarchical_clustering_results 8 "results.txt" self [] = None) /\
    (n_samples self <> 0%Z ->
     exists self1 t cl,
       export_hierarchical_clustering_results 8 "results.txt" self []
       = Some (self1, write [] "results.txt" (TextReport t)) /\
       col_cluster (df self) = Some cl /\
       map card_id (t_clusters t) = clusters_without_noise cl /\
       Forall (fun k => card_size k = count_occ Z.eq_dec cl (card_id k))
              (t_clusters t) /\
       t_n_clusters t = Z.of_nat (List.length (t_clusters t)) /\
       t_n_noise t = count_noise cl /\
       (Z.of_nat (list_sum (map card_size (t_clusters t))) + t_n_noise t
        = Z.of_nat (len (df self)))%Z).
Proof.
  eexists. split; [reflexivity|].
  apply (@text_report_clusters fit_two_rows 5 5 8 "results.txt" two_rows).
  reflexivity.
Defined.

(** The cards of the HTML report. *)
Lemma html_cards_spec (self : EmbeddingVisualizer)
      (descriptions : dict description) (colors : dict string)
      (cl : list Z) (cards : list card) :
  col_cluster (df self) = Some cl ->
  html_cards self descriptions colors = Some cards ->
  map card_id cards = clusters_without_noise cl /\
  map card_size cards
  = map (fun cid => match dict_get descriptions cid with
                    | Some d => size d
                    | None => 0%nat
                    end) (clusters_without_noise cl) /\
  map card_color cards
  = map (fun cid => match dict_get colors cid with
                    | Some col => col
                    | None => default_color
                    end) (clusters_without_noise cl).
Proof.
  intros Hcl. unfold html_cards. rewrite Hcl.
  destruct (clusters_without_noise cl) as [|c cs] eqn:E.
  - intros [= <-]. now repeat split.
  - destruct (col_probability (df self)) as [pr|]; [|discriminate].
    intros [= <-]. cbn [map card_id card_size card_color]. rewrite !map_map.
    cbn [card_id card_size card_color]. repeat split.
    now rewrite map_id.
Qed.

Lemma cluster_embeddings_caches
      (s : script) (fit : Z -> Z -> matrix -> Clusterer)
      (min_cluster_size min_samples : Z) (self self1 : EmbeddingVisualizer) :
  cluster_embeddings s fit min_cluster_size min_samples self = Some self1 ->
  cluster_descriptions self1 = cluster_descriptions self /\
  color_map self1 = color_map self.
Proof.
  unfold cluster_embeddings.
  destruct (XY_normalized self) as [xy|]; [|discriminate].
  destruct (checked _ (labels_ _)) as [cl|]; [|discriminate].
  destruct (checked _ (probabilities_ _)) as [pr|]; [|discriminate].
  destruct (match s with
            | Report _ => _
            | ClusterAssessment => _
            end) as [os|]; [|discriminate].
  intros [= <-]. now split.
Qed.

(** The HTML report made right after clustering, with no descriptions
    and no colors cached from before.  Its clusters are the distinct
    labels other than -1 in ascending order; the size shown for each is
    the number of rows that carry the label and its color is the one
    generated for its rank, so neither the fall-back size 0 nor the
    fall-back color is used; the sizes and the noise count shown add up
    to the number of rows of the table. *)
Theorem html_report_clusters
        (palette : nat -> nat -> string)
        (fit : Z -> Z -> matrix -> Clusterer) (min_cluster_size min_samples : Z)
        (fuel : nat) (output_path : string)
        (self0 self self2 : EmbeddingVisualizer) (fs fs' : files) :
  cluster_descriptions self0 = None ->
  color_map self0 = None ->
  cluster_embeddings ClaimReport fit min_cluster_size min_samples self0
  = Some self ->
  export_hierarchical_report_html palette fuel output_path self fs
  = Some (self2, fs') ->
  exists h cl,
    read fs' output_path = Some (HtmlReport h) /\
    col_cluster (df self) = Some cl /\
    map card_id (h_clusters h) = clusters_without_noise cl /\
    (forall i k, nth_error (h_clusters h) i = Some k ->
                 card_size k = count_occ Z.eq_dec cl (card_id k) /\
                 card_color k = palette (List.length (h_clusters h)) i) /\
    h_n_clusters h = Z.of_nat (List.length (h_clusters h)) /\
    (Z.of_nat (list_sum (map card_size (h_clusters h))) + h_n_noise h
     = Z.of_nat (len (df self)))%Z.
Proof.
  intros Hd0 Hc0 Hrun Hexp.
  destruct (cluster_embeddings_fields _ _ _ _ _ Hrun)
    as (cl & pr & Hcl & Hpr & Hlen & _ & Hn & Hnoise & _).
  destruct (cluster_embeddings_caches _ _ _ _ _ Hrun) as [Hd Hc].
  rewrite Hd0 in Hd. rewrite Hc0 in Hc.
  destruct (clusters_without_noise_labels cl) as (Hnd & Hin & Hcount & _).
  unfold export_hierarchical_report_html in Hexp.
  (* the descriptions are computed now *)
  unfold ensure_descriptions in Hexp. rewrite Hd in Hexp.
  unfold extract_cluster_keywords in Hexp. rewrite Hcl in Hexp.
  destruct (@describe_loop_get ClaimReport (default_n_terms ClaimReport)
              default_min_word_length (df self) cl pr (sorted_unique cl) Hpr [])
    as (ds & Hds & Hget).
  rewrite Hds in Hexp.
  (* and so are the colors *)
  unfold ensure_colors in Hexp. cbn [color_map] in Hexp. rewrite Hc in Hexp.
  set (self1 := mkViz (df self) (n_samples self) (XY_normalized self)
                      (clusterer self) (n_clusters self) (n_noise self)
                      (Some ds) None) in *.
  destruct (@generate_cluster_colors_map_aux palette self1
              (count_clusters cl) cl Hn Hcl)
    as (self2' & colors & Hcol & Hdf2 & Hcm & _ & Hpal);
    [rewrite <- Hcount, Nat2Z.id; lia|].
  rewrite Hcol in Hexp.
  assert (Hsame : cluster_descriptions self2' = Some ds /\
                  n_clusters self2' = Some (count_clusters cl) /\
                  n_noise self2' = Some (count_noise cl)).
  { destruct (@ensure_colors_frame palette self1 self2' Hcol)
      as ((_ & _ & _ & _ & H5 & H6) & H7 & _).
    rewrite H5, H6, H7. cbn. repeat split; assumption. }
  destruct Hsame as (Hds2 & Hn2 & Hnoise2).
  rewrite Hds2, Hcm, Hn2, Hnoise2 in Hexp.
  destruct (clusterer self2') as [c|]; [|discriminate].
  destruct (hierarchy_html fuel c colors ds) as [hierarchy|]; [|discriminate].
  destruct (html_cards self2' ds colors) as [cards|] eqn:Ecards; [|discriminate].
  injection Hexp as <- <-.
  assert (Hcl2 : col_cluster (df self2') = Some cl) by now rewrite Hdf2.
  destruct (html_cards_spec _ _ _ Hcl2 Ecards) as (Hids & Hsizes & Hcolors).
  assert (Hlencards : List.length cards = List.length (clusters_without_noise cl))
    by now rewrite <- Hids, length_map.
  assert (Hsize : forall id, In id (clusters_without_noise cl) ->
                  match dict_get ds id with
                  | Some d => size d
                  | None => 0%nat
                  end = count_occ Z.eq_dec cl id).
  { intros id Hid. apply Hin in Hid as [Hid Hne]. rewrite Hget.
    destruct (in_dec Z.eq_dec id (sorted_unique cl)) as [_|N];
      [|elim N; now apply sorted_unique_In].
    destruct (Z.eqb_spec id (-1)); [contradiction|].
    unfold describe. cbn [size]. now apply cluster_rows_length. }
  eexists. exists cl. split; [apply read_write|].
  cbn [h_clusters h_n_clusters h_n_noise].
  split; [exact Hcl|]. split; [exact Hids|]. split; [|split].
  - intros i k Hk.
    pose proof (map_nth_error card_id _ _ Hk) as H1.
    pose proof (map_nth_error card_size _ _ Hk) as H2.
    pose proof (map_nth_error card_color _ _ Hk) as H3.
    rewrite Hids in H1. rewrite Hsizes in H2. rewrite Hcolors in H3.
    rewrite (map_nth_error _ _ _ H1) in H2.
    rewrite (map_nth_error _ _ _ H1) in H3.
    injection H2 as H2. injection H3 as H3.
    rewrite <- H2, <- H3. split.
    + apply Hsize. eapply nth_error_In. exact H1.
    + rewrite (Hpal _ _ H1), Hlencards.
      now rewrite <- (Nat2Z.id (List.length _)), Hcount.
  - rewrite Hlencards. symmetry. exact Hcount.
  - rewrite Hsizes, <- Hlen, <- (clusters_share_rows cl). f_equal. f_equal.
    f_equal. apply map_ext_in. exact Hsize.
Qed.

Lemma html_report_clusters_witness :
  cluster_descriptions two_rows = None /\
  color_map two_rows = None /\
  exists self self2 fs',
    cluster_embeddings ClaimReport fit_two_rows 5 5 two_rows = Some self /\
    export_hierarchical_report_html numbered 8 "report.html" self []
    = Some (self2, fs') /\
    exists h cl,
      read fs' "report.html" = Some (HtmlReport h) /\
      col_cluster (df self) = Some cl /\
      map card_id (h_clusters h) = clusters_without_noise cl /\
      (forall i k, nth_error (h_clusters h) i = Some k ->
                   card_size k = count_occ Z.eq_dec cl (card_id k) /\
                   card_color k = numbered (List.length (h_clusters h)) i) /\
      h_n_clusters h = Z.of_nat (List.length (h_clusters h)) /\
      (Z.of_nat (list_sum (map card_size (h_clusters h))) + h_n_noise h
       = Z.of_nat (len (df self)))%Z.
Proof.
  split; [reflexivity|]. split; [reflexivity|].
  eexists. eexists. eexists. split; [reflexivity|]. split; [reflexivity|].
  eapply (@html_report_clusters numbered fit_two_rows 5 5 8 "report.html"
                                two_rows);
    reflexivity.
Defined.

(* ------------------------------------------------------------------ *)
(** ** The setting returned by [optimize_clustering_parameters] *)
(* ------------------------------------------------------------------ *)

(** What holds of every setting that was tried. *)
Definition sound_setting (base_viz : EmbeddingVisualizer) (r : setting) : Prop :=
  In (min_cluster_size r) size_candidates /\
  min_samples r = Z.max 5 (min_cluster_size r / 2) /\
  (0 < len (df base_viz))%nat /\
  (0 <= found_clusters r <= Z.of_nat (len (df base_viz)))%Z /\
  (0 <= noise_ratio r <= 1)%Q.

Lemma count_noise_bounds (cl : list Z) :
  (0 <= count_noise cl <= Z.of_nat (List.length cl))%Z.
Proof.
  pose proof (length_noise_split cl) as H. unfold count_noise in *. lia.
Qed.

Lemma count_clusters_bounds (cl : list Z) :
  (0 <= count_clusters cl <= Z.of_nat (List.length cl))%Z.
Proof.
  rewrite count_clusters_distinct. split; [lia|].
  apply inj_le.
  transitivity (List.length (filter not_noise cl)).
  - apply NoDup_incl_length; [apply NoDup_nodup|].
    intros x Hx. now apply nodup_In in Hx.
  - pose proof (length_noise_split cl). pose proof (count_noise_bounds cl). lia.
Qed.

Lemma try_setting_sound (s : report) (fit : Z -> Z -> matrix -> Clusterer)
      (base_viz : EmbeddingVisualizer) (size : Z) (r : setting) :
  In size size_candidates ->
  try_setting s fit base_viz size = Some r ->
  sound_setting base_viz r.
Proof.
  intros Hsize. unfold try_setting.
  destruct (cluster_embeddings s fit size (Z.max 5 (size / 2)) _)
    as [v|] eqn:Ev; [|discriminate].
  destruct (cluster_embeddings_fields _ _ _ _ _ Ev)
    as (cl & pr & _ & _ & Hlen & _ & -> & -> & Hdf & _).
  cbn [df len col_text] in Hdf. fold (len (df base_viz)) in Hdf.
  unfold truediv.
  destruct (Z.eqb_spec (Z.of_nat (len (df v))) 0) as [|Hne]; [discriminate|].
  intros [= <-]. unfold sound_setting.
  cbn [min_cluster_size min_samples found_clusters noise_ratio].
  rewrite <- Hdf, <- Hlen in *.
  pose proof (count_noise_bounds cl). pose proof (count_clusters_bounds cl).
  split; [exact Hsize|]. split; [reflexivity|]. split; [lia|].
  split; [lia|].
  unfold Qle. cbn [Qnum Qden]. rewrite Z2Pos.id by lia. lia.
Qed.

Lemma optimize_loop_sound (s : report) (fit : Z -> Z -> matrix -> Clusterer)
      (base_viz : EmbeddingVisualizer) (target : Z * Z) (sizes : list Z) :
  (forall size, In size sizes -> In size size_candidates) ->
  forall acc res,
    Forall (sound_setting base_viz) acc ->
    optimize_loop s fit base_viz target sizes acc = Some res ->
    match res with
    | inl r => sound_setting base_viz r
    | inr rs => Forall (sound_setting base_viz) rs
    end.
Proof.
  induction sizes as [|size sizes IH]; intros Hs acc res Hacc Hrun;
    cbn [optimize_loop] in Hrun.
  - injection Hrun as <-. exact Hacc.
  - destruct (try_setting s fit base_viz size) as [r|] eqn:Et; [|discriminate].
    assert (Hr : sound_setting base_viz r)
      by (apply (@try_setting_sound s fit base_viz size r
                  (Hs size (or_introl eq_refl)) Et)).
    destruct (in_range target r).
    + injection Hrun as <-. exact Hr.
    + apply (IH (fun x Hx => Hs x (or_intror Hx)) (acc ++ [r])%list res);
        [|exact Hrun].
      apply Forall_app. split; [exact Hacc|]. now constructor.
Qed.

(** Whatever the clusterer does, a setting that
    [optimize_clustering_parameters] returns has one of the eight
    candidate sizes as [min_cluster_size], [max(5, size // 2)] as
    [min_samples], a cluster count between 0 and the number of rows and
    a noise ratio between 0 and 1; and the table is not empty: on an
    empty table the function raises. *)
Theorem optimize_clustering_parameters_bounds
        (s : report) (fit : Z -> Z -> matrix -> Clusterer)
        (base_viz : EmbeddingVisualizer) (target : Z * Z) (r : setting) :
  optimize_clustering_parameters s fit base_viz target = Some r ->
  In (min_cluster_size r) [20; 30; 40; 50; 75; 100; 150; 200]%Z /\
  min_samples r = Z.max 5 (min_cluster_size r / 2) /\
  (0 < len (df base_viz))%nat /\
  (0 <= found_clusters r <= Z.of_nat (len (df base_viz)))%Z /\
  (0 <= noise_ratio r <= 1)%Q.
Proof.
  unfold optimize_clustering_parameters.
  destruct (optimize_loop s fit base_viz target size_candidates [])
    as [res|] eqn:E; [|discriminate].
  pose proof (@optimize_loop_sound s fit base_viz target size_candidates
                (fun _ H => H) [] res (Forall_nil _) E) as H.
  destruct res as [r'|rs].
  - intros [= <-]. exact H.
  - intros Hmin. apply min_by_least in Hmin as [Hin _].
    rewrite Forall_forall in H. exact (H r Hin).
Qed.

Lemma optimize_clustering_parameters_bounds_witness :
  exists r,
    optimize_clustering_parameters ClaimReport fit_by_size two_rows (1, 1)%Z
    = Some r /\
    In (min_cluster_size r) [20; 30; 40; 50; 75; 100; 150; 200]%Z /\
    min_samples r = Z.max 5 (min_cluster_size r / 2) /\
    (0 < len (df two_rows))%nat /\
    (0 <= found_clusters r <= Z.of_nat (len (df two_rows)))%Z /\
    (0 <= noise_ratio r <= 1)%Q.
Proof.
  eexists. split; [reflexivity|].
  apply (@optimize_clustering_parameters_bounds ClaimReport fit_by_size
           two_rows (1, 1)%Z).
  reflexivity.
Defined.

(* ------------------------------------------------------------------ *)
(** ** The parameters chosen by Cluster Assessment.py *)
(* ------------------------------------------------------------------ *)

Definition is_nan (x : float) : bool :=
  match x with FNaN => true | _ => false end.

(** [assessment_2d_df.dropna(subset=['dbcv_score'])] *)
Definition dropna (rows : list assessment) : list assessment :=
  filter (fun r => negb (is_nan (a_dbcv_score r))) rows.

(** The order of floats other than NaN; pandas puts NaN last, it counts
    as the least here. *)
Definition float_le (x y : float) : Prop :=
  match x, y with
  | FNaN, _ => True
  | _, FNaN => False
  | _, FInf => True
  | FInf, FVal _ => False
  | FVal a, FVal b => (a <= b)%Q
  end.

(** The decision step of the main block.  The call
    [sort_values('dbcv_score', ascending=False)] is the argument
    [sort_values]: pandas does not say in which order it leaves rows of
    equal score.  [None] stands for the branch
    "No valid clustering results". *)
Definition top_5_params (sort_values : list assessment -> list assessment)
           (assessment_2d_df : list assessment) : list assessment :=
  head 5 (sort_values (dropna assessment_2d_df)).

Definition chosen_parameters (sort_values : list assessment -> list assessment)
           (assessment_2d_df : list assessment) : option (Z * Z) :=
  match top_5_params sort_values assessment_2d_df with
  | [] => None                                     (* [top_5_params.empty] *)
  | best_params_row :: _ =>
    Some (a_min_cluster_size best_params_row, a_min_samples best_params_row)
  end.

Lemma assess_loop_rows (fit : Z -> Z -> matrix -> Clusterer)
      (base : EmbeddingVisualizer) (grid : list (Z * Z)) :
  forall results rows,
    assess_loop fit base grid results = Some rows ->
    exists new,
      rows = (results ++ new)%list /\
      Forall2 (fun p r => assess_pair fit base p = Some r) grid new.
Proof.
  induction grid as [|p grid IH]; intros results rows H; cbn [assess_loop] in H.
  - injection H as <-. exists []. now rewrite app_nil_r.
  - destruct (assess_pair fit base p) as [r|] eqn:E; [|discriminate].
    destruct (IH _ _ H) as (new & -> & Hnew). exists (r :: new).
    rewrite <- app_assoc. split; [reflexivity|]. now constructor.
Qed.

Lemma Forall2_In_right (A B : Type) (R : A -> B -> Prop)
      (l : list A) (l' : list B) (y : B) :
  Forall2 R l l' -> In y l' -> exists x, In x l /\ R x y.
Proof.
  induction 1 as [|a b l l' Hab _ IH]; intros Hy; [destruct Hy|].
  destruct Hy as [<-|Hy].
  - exists a. split; [now left|exact Hab].
  - destruct (IH Hy) as (x & Hx & Hxy). exists x. split; [now right|exact Hxy].
Qed.

(** Every row of the assessment belongs to a pair of the grid and holds
    the relative validity of the clusterer fitted for it. *)
Lemma assess_2d_parameters_row (fit : Z -> Z -> matrix -> Clusterer)
      (base : EmbeddingVisualizer) (mcs_values ms_values : list Z)
      (rows : list assessment) (r : assessment) :
  assess_2d_parameters fit base mcs_values ms_values = Some rows ->
  In r rows ->
  In (a_min_cluster_size r) mcs_values /\
  In (a_min_samples r) ms_values /\
  (a_min_samples r <= a_min_cluster_size r)%Z /\
  exists xy,
    XY_normalized base = Some xy /\
    a_dbcv_score r
    = match relative_validity_
              (fit (a_min_cluster_size r) (a_min_samples r) xy) with
      | Some v => FVal v
      | None => FNaN
      end.
Proof.
  unfold assess_2d_parameters. rewrite param_grid_spec. intros Hrun Hr.
  destruct (@assess_loop_rows _ _ _ _ _ Hrun) as (new & -> & Hnew).
  cbn [app] in Hr.
  destruct (@Forall2_In_right _ _ _ _ _ _ Hnew Hr) as ([mcs ms] & Hp & Hpair).
  unfold assess_pair in Hpair.
  destruct (XY_normalized base) as [xy|]; [|discriminate].
  injection Hpair as <-. cbn [a_min_cluster_size a_min_samples a_dbcv_score fst snd].
  unfold grid_spec in Hp. apply in_flat_map in Hp as (m & Hm & Hin).
  apply in_map_iff in Hin as (x & E & Hx). injection E as <- <-.
  apply filter_In in Hx as [Hx Hle]. apply Z.leb_le in Hle.
  repeat split; auto. now exists xy.
Qed.

(** The parameters chosen for the export.  Provided the sort returns
    the rows it was given with higher scores first, the pair chosen is a
    pair of the grid whose clusterer has a relative validity, and no
    pair of the grid has a higher one; no pair is chosen exactly when
    no row has a score (or the grid is empty). *)
Theorem chosen_parameters_best
        (sort_values : list assessment -> list assessment)
        (fit : Z -> Z -> matrix -> Clusterer)
        (base_viz : EmbeddingVisualizer) (mcs_values ms_values : list Z)
        (rows : list assessment) :
  assess_2d_parameters fit base_viz mcs_values ms_values = Some rows ->
  Permutation (sort_values (dropna rows)) (dropna rows) ->
  StronglySorted (fun a b => float_le (a_dbcv_score b) (a_dbcv_score a))
                 (sort_values (dropna rows)) ->
  match chosen_parameters sort_values rows with
  | Some (mcs, ms) =>
    In mcs mcs_values /\ In ms ms_values /\ (ms <= mcs)%Z /\
    exists xy v,
      XY_normalized base_viz = Some xy /\
      relative_validity_ (fit mcs ms xy) = Some v /\
      forall r q, In r rows -> a_dbcv_score r = FVal q -> (q <= v)%Q
  | None => Forall (fun r => a_dbcv_score r = FNaN) rows
  end.
Proof.
  intros Hrun Hperm Hsorted. unfold chosen_parameters, top_5_params, head.
  destruct (sort_values (dropna rows)) as [|best rest] eqn:E; cbn [firstn].
  - apply Permutation_nil in Hperm. apply Forall_forall. intros r Hr.
    destruct (a_dbcv_score r) eqn:Es; try reflexivity;
      (assert (Hin : In r (dropna rows))
         by (apply filter_In; split; [exact Hr|now rewrite Es]);
       rewrite Hperm in Hin; destruct Hin).
  - assert (Hbest : In best (dropna rows))
      by (eapply Permutation_in; [exact Hperm|now left]).
    apply filter_In in Hbest as [Hbest Hnan].
    destruct (@assess_2d_parameters_row _ _ _ _ _ _ Hrun Hbest)
      as (H1 & H2 & H3 & xy & Hxy & Hscore).
    split; [exact H1|]. split; [exact H2|]. split; [exact H3|].
    destruct (relative_validity_ _) as [v|] eqn:Ev;
      [|rewrite Hscore in Hnan; discriminate].
    exists xy, v. split; [exact Hxy|]. split; [exact Ev|].
    intros r q Hr Hq.
    assert (Hin : In r (best :: rest)).
    { eapply Permutation_in; [symmetry; exact Hperm|].
      apply filter_In. split; [exact Hr|now rewrite Hq]. }
    destruct Hin as [<-|Hin].
    + rewrite Hscore in Hq. injection Hq as <-. apply Qle_refl.
    + inversion Hsorted as [|? ? _ Hall]; subst.
      rewrite Forall_forall in Hall. specialize (Hall r Hin).
      now rewrite Hq, Hscore in Hall.
Qed.

(** A sort by descending score, and a clusterer whose relative validity
    grows with [min_cluster_size]; used to run the definitions. *)
Definition float_ltb (x y : float) : bool :=
  match x, y with
  | FVal a, FVal b => negb (Qle_bool b a)
  | FNaN, FNaN => false
  | FNaN, _ => true
  | FVal _, FInf => true
  | _, _ => false
  end.

Definition sort_by_score : list assessment -> list assessment :=
  sort_by (fun y x => float_ltb (a_dbcv_score x) (a_dbcv_score y)).

Definition fit_scored (mcs _ : Z) (_ : matrix) : Clusterer :=
  mkClusterer [0; -1]%Z [1%Q; 0%Q] [0%Q; 1%Q] None []
              (if (mcs <? 40)%Z then Some (Qmake mcs 100) else None).

Lemma chosen_parameters_best_witness :
  exists rows,
    assess_2d_parameters fit_scored two_rows [20; 30; 40]%Z [10; 25]%Z
    = Some rows /\
    Permutation (sort_by_score (dropna rows)) (dropna rows) /\
    StronglySorted (fun a b => float_le (a_dbcv_score b) (a_dbcv_score a))
                   (sort_by_score (dropna rows)) /\
    chosen_parameters sort_by_score rows = Some (30, 10)%Z /\
    match chosen_parameters sort_by_score rows with
    | Some (mcs, ms) =>
      In mcs [20; 30; 40]%Z /\ In ms [10; 25]%Z /\ (ms <= mcs)%Z /\
      exists xy v,
        XY_normalized two_rows = Some xy /\
        relative_validity_ (fit_scored mcs ms xy) = Some v /\
        forall r q, In r rows -> a_dbcv_score r = FVal q -> (q <= v)%Q
    | None => Forall (fun r => a_dbcv_score r = FNaN) rows
    end.
Proof.
  eexists. split; [reflexivity|].
  match goal with
  | |- Permutation ?l ?l' /\ _ =>
    assert (Hp : Permutation l l') by apply sort_by_perm
  end.
  match goal with
  | |- _ /\ StronglySorted ?R ?l /\ _ =>
    assert (Hs : StronglySorted R l)
      by (vm_compute; repeat constructor; discriminate)
  end.
  split; [exact Hp|]. split; [exact Hs|]. split; [reflexivity|].
  exact (@chosen_parameters_best sort_by_score fit_scored two_rows
           [20; 30; 40]%Z [10; 25]%Z _ eq_refl Hp Hs).
Defined.

End Clustering.

(* ================================================================== *)
(** * Dimensionality reduction and standardization *)
(* ================================================================== *)

Module Projection.

Local Open Scope R_scope.

(** Coordinates are modelled as real numbers: the arithmetic below is
    exact, rounding is not modelled. *)
Definition matrix : Type := list (list R).

(** The columns that [reduce_dimensions] assigns. *)
Record DataFrame : Type := mkDataFrame {
  n_rows : nat;
  col_x : option (list R);
  col_y : option (list R);
  col_x_norm : option (list R);
  col_y_norm : option (list R)
}.

Record EmbeddingVisualizer : Type := mkViz {
  df : DataFrame;
  X : matrix;
  XY : option matrix;
  XY_normalized : option matrix
}.

(** [M[:, j]]: IndexError when a row has no entry [j]. *)
Fixpoint column (j : nat) (m : matrix) : option (list R) :=
  match m with
  | [] => Some []
  | row :: m' =>
    match nth_error row j, column j m' with
    | Some v, Some rest => Some (v :: rest)
    | _, _ => None
    end
  end.

Definition total (l : list R) : R := fold_right Rplus 0 l.

Definition mean (l : list R) : R := total l / INR (List.length l).

(** The population variance, as [StandardScaler] computes it. *)
Definition variance (l : list R) : R :=
  mean (map (fun v => (v - mean l) * (v - mean l)) l).

(** [StandardScaler]: the scale of a column is its standard deviation,
    and 1 for a column of variance zero. *)
Definition scale (l : list R) : R :=
  if Req_dec_T (variance l) 0 then 1 else sqrt (variance l).

Definition standardize (l : list R) : list R :=
  map (fun v => (v - mean l) / scale l) l.

(** The entries of column [j], with 0 for a row that is too short (used
    for the statistics of a column only). *)
Definition column_or_zero (j : nat) (m : matrix) : list R :=
  map (fun row => nth j row 0) m.

(** [StandardScaler().fit_transform(M)]: every column is standardized. *)
Definition fit_transform (m : matrix) : matrix :=
  map (fun row =>
         map (fun jv => (snd jv - mean (column_or_zero (fst jv) m))
                        / scale (column_or_zero (fst jv) m))
             (combine (seq 0 (List.length row)) row))
      m.

(** [df[c] = values]: ValueError unless there is one value per row. *)
Definition checked (d : DataFrame) (values : list R) : option (list R) :=
  if Nat.eqb (List.length values) (n_rows d) then Some values else None.

(** [reduce_dimensions].  [umap n_components X] is the external call
    [umap.UMAP(n_components=n_components, ...).fit_transform(X)];
    [n_components] is 2 in the report scripts and an argument (default
    30) in Cluster Assessment.py. *)
Definition reduce_dimensions (umap : nat -> matrix -> matrix)
           (n_components : nat) (self : EmbeddingVisualizer)
  : option EmbeddingVisualizer :=
  let xy := umap n_components (X self) in
  match column 0 xy, column 1 xy with
  | Some x, Some y =>
    match checked (df self) x, checked (df self) y with
    | Some x, Some y =>
      let xy_normalized := fit_transform xy in
      match column 0 xy_normalized, column 1 xy_normalized with
      | Some xn, Some yn =>
        match checked (df self) xn, checked (df self) yn with
        | Some xn, Some yn =>
          Some (mkViz (mkDataFrame (n_rows (df self))
                                   (Some x) (Some y) (Some xn) (Some yn))
                      (X self) (Some xy) (Some xy_normalized))
        | _, _ => None
        end
      | _, _ => None
      end
    | _, _ => None
    end
  | _, _ => None
  end.

(** The reduction returns one row of [k] coordinates per row of the
    table. *)
Definition shaped (n k : nat) (m : matrix) : Prop :=
  List.length m = n /\ Forall (fun row => List.length row = k) m.

(** ** Sums, means and variances *)

Lemma total_shift_scale (c s : R) (l : list R) :
  total (map (fun v => (v - c) / s) l)
  = (total l - INR (List.length l) * c) / s.
Proof.
  induction l as [|a l IH]; cbn [map total fold_right List.length].
  - rewrite INR_0. unfold Rdiv. ring.
  - fold (total (map (fun v => (v - c) / s) l)). fold (total l).
    rewrite IH, S_INR. unfold Rdiv. ring.
Qed.

Lemma total_scaled (a : R) (f : R -> R) (l : list R) :
  total (map (fun v => a * f v) l) = a * total (map f l).
Proof.
  induction l as [|b l IH]; cbn [map total fold_right]; [ring|].
  fold (total (map (fun v => a * f v) l)). fold (total (map f l)).
  rewrite IH. ring.
Qed.

Lemma total_squares_nonneg (f : R -> R) (l : list R) :
  0 <= total (map (fun v => f v * f v) l).
Proof.
  induction l as [|b l IH]; cbn [map total fold_right]; [lra|].
  fold (total (map (fun v => f v * f v) l)).
  pose proof (Rle_0_sqr (f b)) as H. unfold Rsqr in H. lra.
Qed.

Lemma total_squares_zero (f : R -> R) (l : list R) :
  total (map (fun v => f v * f v) l) = 0 -> Forall (fun v => f v = 0) l.
Proof.
  induction l as [|b l IH]; cbn [map total fold_right]; [constructor|].
  fold (total (map (fun v => f v * f v) l)). intros H.
  pose proof (Rle_0_sqr (f b)) as Hb. unfold Rsqr in Hb.
  pose proof (total_squares_nonneg f l) as Hl.
  constructor.
  - apply Rsqr_0_uniq. unfold Rsqr. lra.
  - apply IH. lra.
Qed.

Lemma INR_length_pos (A : Type) (l : list A) :
  (0 < List.length l)%nat -> 0 < INR (List.length l).
Proof. intros H. now apply lt_0_INR. Qed.

Lemma variance_nonneg (l : list R) : (0 < List.length l)%nat -> 0 <= variance l.
Proof.
  intros H. unfold variance, mean at 1. rewrite length_map.
  apply Rmult_le_pos.
  - apply (total_squares_nonneg (fun v => v - mean l)).
  - left. apply Rinv_0_lt_compat. now apply INR_length_pos.
Qed.

Lemma scale_nonzero (l : list R) : (0 < List.length l)%nat -> scale l <> 0.
Proof.
  intros H. unfold scale. destruct (Req_dec_T (variance l) 0) as [E|N]; [lra|].
  pose proof (variance_nonneg l H) as Hv.
  intros Hs. apply sqrt_eq_0 in Hs; [contradiction | exact Hv].
Qed.

(** A standardized column has mean zero. *)
Lemma standardize_mean (l : list R) :
  (0 < List.length l)%nat -> mean (standardize l) = 0.
Proof.
  intros H. unfold mean at 1. unfold standardize.
  rewrite length_map, total_shift_scale. unfold mean.
  pose proof (INR_length_pos l H) as Hn.
  unfold Rdiv. field. split; [lra | now apply scale_nonzero].
Qed.

(** A standardized column has variance one, unless the column is
    constant. *)
Lemma standardize_variance (l : list R) :
  (0 < List.length l)%nat -> variance l <> 0 ->
  variance (standardize l) = 1.
Proof.
  intros H Hv.
  set (T := total (map (fun v => (v - mean l) * (v - mean l)) l)).
  assert (HT : variance l = T / INR (List.length l)).
  { unfold variance, mean at 1. now rewrite length_map. }
  assert (Hs : scale l * scale l = variance l).
  { unfold scale. destruct (Req_dec_T (variance l) 0); [contradiction|].
    apply sqrt_sqrt. now apply variance_nonneg. }
  pose proof (INR_length_pos l H) as Hn.
  unfold variance at 1. rewrite (standardize_mean l H).
  unfold standardize. rewrite map_map. unfold mean at 1.
  rewrite length_map.
  rewrite (map_ext _ (fun v => / (scale l * scale l)
                               * ((v - mean l) * (v - mean l)))).
  2:{ intros v. unfold Rdiv. field. now apply scale_nonzero. }
  rewrite (total_scaled (/ (scale l * scale l))
                        (fun v => (v - mean l) * (v - mean l))).
  fold T. rewrite Hs, HT. rewrite HT in Hv.
  assert (T <> 0).
  { intros N. apply Hv. rewrite N. unfold Rdiv. ring. }
  unfold Rdiv. field. split; lra.
Qed.

(** A constant column is mapped to zeros. *)
Lemma standardize_constant (l : list R) :
  (0 < List.length l)%nat -> variance l = 0 ->
  Forall (fun v => v = 0) (standardize l).
Proof.
  intros H Hv. unfold standardize. apply Forall_map.
  assert (Hz : Forall (fun v => v - mean l = 0) l).
  { apply (total_squares_zero (fun v => v - mean l)).
    unfold variance, mean at 1 in Hv. rewrite length_map in Hv.
    pose proof (INR_length_pos l H) as Hn.
    apply (Rmult_eq_reg_r (/ INR (List.length l))).
    - unfold Rdiv in Hv. rewrite Hv. ring.
    - apply Rinv_neq_0_compat. lra. }
  eapply Forall_impl; [|exact Hz]. cbn. intros v E. rewrite E.
  unfold Rdiv. ring.
Qed.

(** ** Columns of the reduced and of the standardized matrix *)

Lemma column_rows (j k : nat) (m : matrix) :
  Forall (fun row => List.length row = k) m -> (j < k)%nat ->
  column j m = Some (column_or_zero j m).
Proof.
  intros Hm Hj. induction Hm as [|row m Hrow Hm IH]; [reflexivity|].
  cbn [column column_or_zero map]. fold (column_or_zero j m). rewrite IH.
  destruct (nth_error row j) as [v|] eqn:E.
  - now rewrite (nth_error_nth _ _ 0 E).
  - apply nth_error_None in E. lia.
Qed.

Lemma nth_error_indexed (A : Type) (row : list A) :
  forall (start j : nat) (v : A),
    nth_error row j = Some v ->
    nth_error (combine (seq start (List.length row)) row) j
    = Some ((start + j)%nat, v).
Proof.
  induction row as [|a row IH]; intros start [|j] v H; try discriminate.
  - cbn in *. injection H as <-. now rewrite Nat.add_0_r.
  - cbn in *. rewrite (IH (S start) j v H). do 2 f_equal. lia.
Qed.

Lemma column_scaled (j k : nat) (m0 rows : matrix) :
  Forall (fun row => List.length row = k) rows -> (j < k)%nat ->
  column j
    (map (fun row =>
            map (fun jv => (snd jv - mean (column_or_zero (fst jv) m0))
                           / scale (column_or_zero (fst jv) m0))
                (combine (seq 0 (List.length row)) row))
         rows)
  = Some (map (fun v => (v - mean (column_or_zero j m0))
                        / scale (column_or_zero j m0))
              (column_or_zero j rows)).
Proof.
  intros Hm Hj. induction Hm as [|row m Hrow Hm IH]; [reflexivity|].
  cbn [column column_or_zero map]. fold (column_or_zero j m). rewrite IH.
  destruct (nth_error row j) as [v|] eqn:E.
  - rewrite nth_error_map, (nth_error_indexed row 0 j E). cbn.
    now rewrite (nth_error_nth _ _ 0 E).
  - apply nth_error_None in E. lia.
Qed.

Lemma column_fit_transform (j k : nat) (m : matrix) :
  Forall (fun row => List.length row = k) m -> (j < k)%nat ->
  column j (fit_transform m) = Some (standardize (column_or_zero j m)).
Proof.
  intros Hm Hj. unfold fit_transform. now rewrite (column_scaled m Hm Hj).
Qed.

(** On a reduction of the right shape the method runs and assigns the
    four columns. *)
Lemma reduce_dimensions_run (umap : nat -> matrix -> matrix)
      (n_components : nat) (self : EmbeddingVisualizer) :
  (2 <= n_components)%nat ->
  shaped (n_rows (df self)) n_components (umap n_components (X self)) ->
  let xy := umap n_components (X self) in
  let x := column_or_zero 0 xy in
  let y := column_or_zero 1 xy in
  column 0 xy = Some x /\ column 1 xy = Some y /\
  List.length x = n_rows (df self) /\ List.length y = n_rows (df self) /\
  reduce_dimensions umap n_components self
  = Some (mkViz (mkDataFrame (n_rows (df self)) (Some x) (Some y)
                             (Some (standardize x)) (Some (standardize y)))
                (X self) (Some xy) (Some (fit_transform xy))).
Proof.
  intros Hk [Hn Hrows] xy x y. fold xy in Hn, Hrows.
  assert (Hx : column 0 xy = Some x) by (apply (column_rows Hrows); lia).
  assert (Hy : column 1 xy = Some y) by (apply (column_rows Hrows); lia).
  assert (Lx : List.length x = n_rows (df self))
    by (unfold x, column_or_zero; now rewrite length_map).
  assert (Ly : List.length y = n_rows (df self))
    by (unfold y, column_or_zero; now rewrite length_map).
  repeat split; try assumption.
  assert (Sx : List.length (standardize x) = n_rows (df self))
    by (unfold standardize; now rewrite length_map).
  assert (Sy : List.length (standardize y) = n_rows (df self))
    by (unfold standardize; now rewrite length_map).
  unfold reduce_dimensions. fold xy. rewrite Hx, Hy. cbv beta iota.
  unfold checked. rewrite Lx, Ly, Nat.eqb_refl. cbv beta iota.
  rewrite (column_fit_transform Hrows (j := 0)) by lia.
  rewrite (column_fit_transform Hrows (j := 1)) by lia.
  fold x y. cbv beta iota. rewrite Sx, Sy, Nat.eqb_refl. reflexivity.
Qed.

(** C5, in exact arithmetic.  When the reduction returns, for each of
    the [n > 0] rows of the table, [n_components >= 2] coordinates, the
    method runs; [x] and [y] are the first two columns of the reduced
    matrix and [x_norm] and [y_norm] the first two columns of its
    standardization; each normalized column has mean zero, and variance
    one unless the reduced column is constant, in which case it is zero
    throughout. *)
Theorem reduce_dimensions_columns
        (umap : nat -> matrix -> matrix) (n_components : nat)
        (self : EmbeddingVisualizer) :
  (2 <= n_components)%nat ->
  (0 < n_rows (df self))%nat ->
  shaped (n_rows (df self)) n_components (umap n_components (X self)) ->
  let xy := umap n_components (X self) in
  exists self' x y xn yn,
    reduce_dimensions umap n_components self = Some self' /\
    XY self' = Some xy /\ XY_normalized self' = Some (fit_transform xy) /\
    column 0 xy = Some x /\ column 1 xy = Some y /\
    column 0 (fit_transform xy) = Some xn /\
    column 1 (fit_transform xy) = Some yn /\
    col_x (df self') = Some x /\ col_y (df self') = Some y /\
    col_x_norm (df self') = Some xn /\ col_y_norm (df self') = Some yn /\
    xn = standardize x /\ yn = standardize y /\
    mean xn = 0 /\ mean yn = 0 /\
    (variance x <> 0 -> variance xn = 1) /\
    (variance y <> 0 -> variance yn = 1) /\
    (variance x = 0 -> Forall (fun v => v = 0) xn) /\
    (variance y = 0 -> Forall (fun v => v = 0) yn).
Proof.
  intros Hk Hpos Hs xy.
  destruct (reduce_dimensions_run umap self Hk Hs)
    as (Hx & Hy & Lx & Ly & Hrun).
  fold xy in Hx, Hy, Lx, Ly, Hrun.
  destruct Hs as [_ Hrows]. fold xy in Hrows.
  eexists. exists (column_or_zero 0 xy), (column_or_zero 1 xy).
  exists (standardize (column_or_zero 0 xy)),
         (standardize (column_or_zero 1 xy)).
  split; [exact Hrun|]. cbn [XY XY_normalized df col_x col_y col_x_norm col_y_norm].
  split; [reflexivity|]. split; [reflexivity|].
  split; [exact Hx|]. split; [exact Hy|].
  split; [apply (column_fit_transform Hrows); lia|].
  split; [apply (column_fit_transform Hrows); lia|].
  do 6 (split; [reflexivity|]).
  split; [apply standardize_mean; lia|].
  split; [apply standardize_mean; lia|].
  split; [apply standardize_variance; lia|].
  split; [apply standardize_variance; lia|].
  split; apply standardize_constant; lia.
Qed.

(** A table of two rows, and two reductions for it: one with distinct
    first coordinates, one whose first coordinate is constant. *)
Definition two_rows : EmbeddingVisualizer :=
  mkViz (mkDataFrame 2 None None None None) [[0; 0; 1]; [1; 0; 0]] None None.

Definition umap_spread (_ : nat) (_ : matrix) : matrix := [[1; 2]; [3; 4]].

Definition umap_flat (_ : nat) (_ : matrix) : matrix := [[1; 2]; [1; 3]].

Lemma reduce_dimensions_columns_witness :
  exists self',
    reduce_dimensions umap_spread 2 two_rows = Some self' /\
    col_x (df self') = Some [1; 3].
Proof.
  destruct (@reduce_dimensions_columns umap_spread 2 two_rows
              ltac:(lia) ltac:(cbn; lia)
              ltac:(split; [reflexivity | repeat constructor]))
    as (self' & x & y & xn & yn & Hrun & _ & _ & Hx & _ & _ & _ & Hcx & _).
  exists self'. split; [exact Hrun|].
  rewrite Hcx, <- Hx. reflexivity.
Defined.

Lemma variance_of_zeros (l : list R) :
  Forall (fun v => v = 0) l -> variance l = 0.
Proof.
  intros H.
  assert (Hm : forall f, f 0 = 0 -> total (map f l) = 0).
  { intros f Hf. induction H as [|v l Hv H IH]; [reflexivity|].
    cbn [map total fold_right]. fold (total (map f l)).
    rewrite IH, Hv, Hf. ring. }
  assert (Ht : total l = 0).
  { rewrite <- (map_id l). now apply (Hm (fun v => v)). }
  unfold variance, mean. rewrite Ht, length_map.
  rewrite (Hm (fun v => (v - 0 / INR (List.length l))
                        * (v - 0 / INR (List.length l)))).
  - unfold Rdiv. ring.
  - unfold Rdiv. ring.
Qed.

(** When the reduction gives every row the same first coordinate, the
    column [x_norm] is zero throughout: its variance is 0, not 1. *)
Lemma reduce_dimensions_constant_column :
  exists self' xn,
    reduce_dimensions umap_flat 2 two_rows = Some self' /\
    col_x (df self') = Some [1; 1] /\
    col_x_norm (df self') = Some xn /\
    variance xn = 0 /\ variance xn <> 1.
Proof.
  assert (Hs : shaped (n_rows (df two_rows)) 2 (umap_flat 2 (X two_rows)))
    by (split; [reflexivity | repeat constructor]).
  destruct (reduce_dimensions_run umap_flat two_rows (le_n 2) Hs)
    as (_ & _ & _ & _ & Hrun).
  eexists. eexists. split; [exact Hrun|].
  cbn [df col_x col_x_norm]. split; [reflexivity|]. split; [reflexivity|].
  assert (Hv : variance [1; 1] = 0).
  { unfold variance, mean. cbn [map total fold_right List.length INR].
    unfold Rdiv. field. }
  assert (Hz : variance (standardize [1; 1]) = 0).
  { apply variance_of_zeros. apply standardize_constant; [cbn; lia | exact Hv]. }
  change (column_or_zero 0 (umap_flat 2 (X two_rows))) with [1; 1].
  rewrite Hz. split; [reflexivity | lra].
Qed.

(** ** A reduction of the wrong shape *)






End Projection.
